(* ===== verification/_CoqProject ===== *)
-Q . S2P
Prelude.v
Float.v
FloatRound.v
Text.v
Kind.v
Types.v
Concrete.v
Envelope.v
WebReply.v
Gate.v
Samples.v
EnvelopeProps.v
GateSpec.v
Replay.v
Interleave.v
Sqlite.v
SqliteSpec.v
SqliteAccept.v
SqliteQuotes.v
GateProps.v
StaticPricing.v
ChainAware.v
ChainProps.v
PeerPrices.v
DeliveryPrices.v
PriceProps.v
Longform.v
DoubleRatchet.v
RatchetConcrete.v
RatchetSpec.v
RatchetProps.v
RatchetConvo.v
RatchetRestart.v
SenderKeys.v
SenderKeysProps.v
BTree.v
SpendBudget.v
CallSpend.v
PairingStore.v
SpendLedger.v
SpendSpec.v
SpendProps.v
SpendRates.v
SpendDurable.v
Pairing.v
Elevation.v
SecondDevice.v
PairingFrame.v
DeviceRevocation.v
ElevationTerms.v
SpendFrame.v
PairingSteps.v
PairingProps.v
ElevationProps.v
PairingWitness.v
FirstContact.v
Readmission.v
Identity.v
X3dh.v
Session.v
SessionConcrete.v
SessionKeys.v
SessionSeeds.v
SessionProps.v
CircuitBreaker.v
CircuitProps.v
Framing.v
Cookie.v
CookieProps.v
Noise.v
NoiseProps.v
NoiseConcrete.v
Peers.v
Handshake.v
HandshakeProps.v
HandshakeSafety.v
HandshakeWitness.v
