(* ===== verification/Prelude.v ===== *)
(** * BitSov: a verification development

    BitSov (the [konsensus-*] crates under [src/crates]) is a messaging node in which
    every message is paid for over Lightning.  A sender asks a peer for its prices,
    pays, and sends a signed envelope; the receiver's payment gate admits it only if
    the payment covers the price and neither the payment nor the nonce was used before.
    Messages are encrypted pairwise with a Double Ratchet and in groups with sender
    keys; nodes reach each other over Noise connections that bind the identity of the
    peer.  Apps pair with a node and may spend within a grant its owner approved.

    ** What models what

    Shared foundations
    - [Prelude]: results, store-passing computations and their notation, big-endian
      bytes; [Text]: decimal text; [BTree]: ordered maps, [trim], checked and
      saturating integers; [Float], [FloatRound]: [f64] bit by bit on the Standard
      Library's [SpecFloat], with the rounding lemmas the price bounds need.

    Admission (konsensus-core, konsensus-storage)
    - [Kind]: [kind.rs]; [Types]: [types.rs], [error.rs]; [Envelope]: [envelope.rs];
      [WebReply]: [web_reply.rs]; [Gate]: [gate.rs] and the traits it consults.
    - [GateSpec]: the abstract admission contract; [Replay]: the interface
      ([NonceStoreLaws]) the gate needs of a replay store, and what other tasks do to
      it ([StoreTasks]); [Interleave]: concurrent verifications as a schedule of
      foreign store calls; [GateProps]: the theorems.
    - [Sqlite]: the admission path of [sqlite.rs] and [lib.rs] with failing statements
      and transactions, and the clean-up of nonces that [housekeeping.rs] runs;
      [SqliteSpec] discharges [NonceStoreLaws]; [SqliteAccept]: acceptance and
      withdrawal, and all these operations as [StoreTasks]; [SqliteQuotes]: delivery
      quotes.

    Prices (konsensus-pricing, konsensus-node, konsensus-message, konsensus-api)
    - [StaticPricing], [ChainAware], [PeerPrices]: the files of konsensus-pricing;
      [DeliveryPrices]: [delivery_prices.rs], [send_price_frame_with], the price
      handlers of [session_handler.rs] and the sender's [quoted_price];
      [ChainProps], [PriceProps], [Longform]: the theorems.
    - [CircuitBreaker], [CircuitProps]: [circuit_breaker.rs] of konsensus-lightning, the
      breaker between the gate and the wallet, as a transition system of its callers.

    Encryption (konsensus-crypto)
    - [DoubleRatchet]: [double_ratchet.rs]; [RatchetSpec], [RatchetProps],
      [RatchetConvo], [RatchetRestart]: lemmas and theorems.
    - [SenderKeys], [SenderKeysProps]: [sender_keys.rs].
    - [Identity]: [identity.rs] of konsensus-core; [X3dh]: [x3dh.rs]; [Session]: the
      manager of [session.rs] over its store; [SessionKeys], [SessionSeeds]: which chain
      positions and keys it uses, across crashes; [SessionProps]: the other theorems.

    Transport (konsensus-message)
    - [Framing]: frames on a socket in [transport/mod.rs] and [wire.rs]; [Cookie]:
      [transport/cookie.rs]; [Noise]: [noise.rs] of konsensus-crypto; [Peers]: the table
      of connected peers in [transport/control_reply.rs] and [transport/mod.rs];
      [Handshake]: both ends of a connection in [transport/connection.rs] and
      [transport/handshake.rs], as functions of the bytes that arrive.
    - [CookieProps], [NoiseProps], [HandshakeProps], [HandshakeSafety]: the theorems;
      [HandshakeWitness]: two concrete nodes.

    Pairing and spending (konsensus-api)
    - [SpendBudget], [CallSpend]: [spend_budget.rs], [spend_budget/calls.rs], the meter
      of one grant; [PairingStore]: the pairing file of [pairing.rs] and its atomic
      replacement; [SpendLedger]: the operations of [pairing.rs] and
      [pairing/call_spend.rs] on the grants in it.
    - [SpendSpec]: conservation lemmas; [SpendProps], [SpendRates], [SpendDurable]:
      the theorems.
    - [Pairing]: [pairing.rs] and the claims of [auth.rs], the ceremony, remote
      pairings, challenges, tokens and their check, revocation, rotation, rebinding;
    - [Elevation], [ElevationTerms]: requests to the owner in [pairing.rs], their
      console challenges, confirmations, grants and the approval of a new identity;
    - [SecondDevice]: [pairing/second_device.rs], provisional enrollment and its sweep,
      [PairingService::open], and the revocation of devices in [pairing/console.rs];
    - [FirstContact], [Readmission]: the owner's confirmation of a first contact and
      readmission in [pairing.rs], with its theorems;
    - [PairingFrame], [SpendFrame]: what writes and spending leave alone;
      [PairingSteps]: the whole service and the ledger as one step relation, with the
      record [closed] of what a property of the file must satisfy to be an invariant;
      [PairingProps], [ElevationProps], [DeviceRevocation]: theorems; [PairingWitness]:
      a concrete node.

    [Concrete], [RatchetConcrete], [SessionConcrete], [NoiseConcrete] and [Samples] are
    executable instances and inputs that show the theorems' hypotheses can hold.

    ** Conventions

    Bytes are lists of integers, a machine integer is a [Z] with its wrap-around,
    saturation or overflow check written where the code has it.  Rust's [Result] is
    [result]; code that changes a store returns the store on the error path too.
    Time, randomness and generated identities are arguments; what the clock and the
    file system do during an operation is an environment record.  Code outside the
    repository is a parameter: hashes, signatures and hexadecimal in the classes
    [Prims] and [HexLaws], the ratchet's curve, KDFs and AEAD in [RatchetPrims] and
    [RatchetLaws], group signatures in [GroupPrims] and [GroupLaws], keyed hashes and
    signature parsing of the pairing service in [PairingPrims], keys and KDFs of
    sessions in [IdentityPrims], [SessionPrims] and [SessionLaws], the Noise library and
    the cookie MAC in classes of [Noise] and [Cookie], the Lightning backend and the
    chain as functions.  A helper that names a piece of one Rust function is part of the
    model of that function and carries no correspondence of its own.

    ** What the theorems show

    - Admission: [verify] admits exactly what the contract allows; no payment is
      admitted twice under any interleaving and any storage failure, a nonce only after
      a clean-up at which it had expired; a rejection consumes nothing; an honest
      payment is admitted.
    - Storage: no payment is stored for two messages; acceptance is idempotent; a late
      payment is judged by the lowest live quote.
    - Envelopes: the signature covers exactly the signed fields; decoding is bounded.
    - Prices: chain-aware prices are bounded for every fee rate, NaN included; what is
      announced is recorded first and honoured for the kinds the table covers; long-form
      messages are not among them, a defect.
    - Circuit breaker: every section of a call does what the documented machine does; it
      never turns a refusal of the gate into an admission, and it recovers.
    - Encryption: conversations are lossless under restarts and injections, messages
      decrypt out of order, a failure changes nothing, group messages are read once; a
      member that joins a used chain cannot read it, a defect.
    - Sessions: a handshake establishes a conversation; no chain position is used twice
      and two messages under one key exhibit an HMAC coincidence, through crashes and
      failing writes; a one-time pre-key serves once; a preview is what decryption
      reads.
    - Transport: two honest nodes connect, Noise carries two queues of messages, only
      authenticated and admitted peers enter the table, crossed dials settle on one
      connection, and the cookie gate opens for the address that was challenged.
    - Spending: a grant never spends beyond its budget, its rolling limits hold over
      every window, once more for each reset by the owner, what is reported reserved is
      on disk, a refusal moves no money, and the write loop ends.
    - Pairing: a token of an ended epoch is never accepted again, through any
      operations, failing writes and restarts; a confirmed cascade leaves no descendant
      of a lost device key.  The walk over approvals runs on [walk_fuel], one visit for
      each key and the root with two entries queued per key, and is proved to end
      within it for every file.
    - Elevation: a grant takes what was shown to the owner for that request and uses it
      up, and is then in the file; wrong guesses are bounded per request and per run; an
      approved identity replacement works once; pending requests stay well-formed; and a
      grant whose write fails is reported as an error but stays in memory, a defect.
    - First contact: a confirmation is used once; and a readmission refused by a rolling
      limit leaves half of itself on disk, a defect.

    ** Bounds and fuel

    Decimal printing uses 39 digits, enough for [u128].  The ratchet's skip loops are
    structural in a count the code bounds by [MAX_SKIP]; eviction takes as many rounds
    as there are keys ([skipped_keys_bounded]).  The write loop of the pairing file
    takes one round more than there are grants, which [persist_always_finishes] shows to
    be enough when the clock does not run backwards.

    ** Not modelled

    Network and process code (sockets, reader tasks and timers, the cryptography of
    Noise, HTTP routing and handlers, Lightning and chain backends, the node runtime,
    command lines), since its effect is the I/O itself or a third-party protocol; the
    relay and receive handlers, gossip, routing weights, calendar, pages and the
    remaining tables of the database, which the modelled parts do not call; the
    PostgreSQL backend, a second implementation of the storage trait; vendored crates;
    serialisation derived by macros; text rendered for the owner.  Of the pairing
    service: device approvals and their short authentication strings, owner tickets,
    call media ownership, the audit log. *)

From stdpp Require Export base gmap strings list fin_maps.
From Stdlib Require Export ZArith Lia.

#[global] Open Scope Z_scope.

(** ** Results and store-passing computations

    Rust's [Result<A, E>] is [result E A] (the error type first, so that
    [result E] is a functor).  The [async] methods of the program that take
    [&dyn Store] are modelled as computations [S -> S * result E A]: the store
    they leave behind is visible on the error path too, as it is in the code,
    where an early [return Err(..)] does not undo what was already written. *)

Inductive result (E A : Type) : Type :=
| Ok (a : A)
| Err (e : E).

Arguments Ok {E A} a.
Arguments Err {E A} e.

#[export] Instance result_eq_dec {E A} `{EqDecision E, EqDecision A} : EqDecision (result E A).
Proof. solve_decision. Defined.

Definition is_ok {E A} (r : result E A) : bool :=
  match r with Ok _ => true | Err _ => false end.

Definition map_err {E F A} (f : E -> F) (r : result E A) : result F A :=
  match r with Ok a => Ok a | Err e => Err (f e) end.

Definition map_ok {E A B} (f : A -> B) (r : result E A) : result E B :=
  match r with Ok a => Ok (f a) | Err e => Err e end.

Definition bind_result {E A B} (r : result E A) (k : A -> result E B) : result E B :=
  match r with Ok a => k a | Err e => Err e end.

Definition ok_or {E A} (o : option A) (e : E) : result E A :=
  match o with Some a => Ok a | None => Err e end.

(** A computation over a store [S]. *)
Definition comp (S E A : Type) : Type := S -> S * result E A.

Definition cret {S E A} (a : A) : comp S E A := fun s => (s, Ok a).
Definition cthrow {S E A} (e : E) : comp S E A := fun s => (s, Err e).
Definition cbind {S E A B} (m : comp S E A) (k : A -> comp S E B) : comp S E B :=
  fun s => match m s with
           | (s', Ok a) => k a s'
           | (s', Err e) => (s', Err e)
           end.
Definition clift {S E A} (r : result E A) : comp S E A := fun s => (s, r).
Definition cmap_err {S E F A} (f : E -> F) (m : comp S E A) : comp S F A :=
  fun s => let '(s', r) := m s in (s', map_err f r).

Declare Scope rust_scope.
Delimit Scope rust_scope with rust.
Notation "'let?' x ':=' r 'in' k" := (bind_result r (fun x => k))
  (at level 10, x pattern, r at level 100, k at level 200) : rust_scope.
Notation "'let!' x ':=' m 'in' k" := (cbind m (fun x => k))
  (at level 10, x pattern, m at level 100, k at level 200) : rust_scope.
Notation "'check' b 'else' e ';;' k" := (if b then k else Err e)
  (at level 10, b at level 99, e at level 99, k at level 200) : rust_scope.
#[global] Open Scope rust_scope.

(** ** Machine integers

    A [u16], [u32], [u64] or [u128] is a [Z] with its range; the operations of
    the source that differ from [Z]'s are written out. *)

Definition U16_MAX : Z := 2 ^ 16 - 1.
Definition U32_MAX : Z := 2 ^ 32 - 1.
Definition U64_MAX : Z := 2 ^ 64 - 1.
Definition U128_MAX : Z := 2 ^ 128 - 1.
Definition I64_MAX : Z := 2 ^ 63 - 1.

Definition is_u16 (x : Z) : Prop := 0 <= x <= U16_MAX.
Definition is_u32 (x : Z) : Prop := 0 <= x <= U32_MAX.
Definition is_u64 (x : Z) : Prop := 0 <= x <= U64_MAX.

(** [saturating_sub] of any unsigned width. *)
Definition saturating_sub (a b : Z) : Z := Z.max 0 (a - b).
(** [saturating_add] and [saturating_mul] of the width whose maximum is [top]. *)
Definition saturating_add (top a b : Z) : Z := Z.min top (a + b).
Definition saturating_mul (top a b : Z) : Z := Z.min top (a * b).
(** Two's complement wrap-around of [u32] addition. *)
Definition wrapping_add_u32 (a b : Z) : Z := (a + b) mod 2 ^ 32.

(** ** Bytes

    A byte is a [Z] in [0, 256); an array [[u8; n]] or a [Vec<u8>] is a list
    of them. *)

Abbreviation bytes := (list Z).

Definition is_byte (b : Z) : Prop := 0 <= b < 256.
Definition is_array (n : nat) (bs : bytes) : Prop := length bs = n /\ Forall is_byte bs.

#[export] Instance is_byte_dec b : Decision (is_byte b).
Proof. unfold is_byte. apply _. Defined.
#[export] Instance is_array_dec n bs : Decision (is_array n bs).
Proof. unfold is_array. apply _. Defined.

(** [x.to_be_bytes()] of an [n]-byte unsigned integer. *)
Fixpoint to_be_bytes (n : nat) (x : Z) : bytes :=
  match n with
  | O => []
  | S n' => to_be_bytes n' (x / 256) ++ [x mod 256]
  end.

(** [uN::from_be_bytes]. *)
Definition from_be_bytes (bs : bytes) : Z :=
  fold_left (fun acc b => acc * 256 + b) bs 0.

Lemma length_to_be_bytes n x : length (to_be_bytes n x) = n.
Proof.
  revert x; induction n as [|n IH]; intros x; simpl; [done|].
  rewrite length_app, IH; simpl; lia.
Qed.

Lemma from_be_bytes_app bs b : from_be_bytes (bs ++ [b]) = from_be_bytes bs * 256 + b.
Proof. unfold from_be_bytes. by rewrite fold_left_app. Qed.

Lemma to_be_bytes_range n x : Forall is_byte (to_be_bytes n x).
Proof.
  revert x; induction n as [|n IH]; intros x; simpl; [constructor|].
  apply Forall_app; split; [apply IH|].
  constructor; [|constructor]. unfold is_byte. apply Z.mod_pos_bound; lia.
Qed.

(** Decoding what was encoded gives the integer back, at every width. *)
Lemma from_to_be_bytes n x : 0 <= x < 256 ^ Z.of_nat n -> from_be_bytes (to_be_bytes n x) = x.
Proof.
  revert x; induction n as [|n IH]; intros x Hx.
  - change (256 ^ Z.of_nat 0) with 1 in Hx. unfold from_be_bytes; simpl; lia.
  - rewrite Nat2Z.inj_succ, Z.pow_succ_r in Hx by lia.
    simpl. rewrite from_be_bytes_app, IH.
    + pose proof (Z.div_mod x 256); lia.
    + split; [apply Z.div_pos; lia|]. apply Z.div_lt_upper_bound; lia.
Qed.

Lemma to_from_be_bytes bs : Forall is_byte bs -> to_be_bytes (length bs) (from_be_bytes bs) = bs.
Proof.
  induction bs as [|b bs IH] using rev_ind; [done|].
  rewrite Forall_app. intros [Hbs Hb].
  rewrite length_app, Nat.add_1_r, from_be_bytes_app; simpl.
  apply Forall_cons in Hb as [[Hb0 Hb1] _].
  rewrite Z.div_add_l, Z.div_small, Z.add_0_r by lia.
  rewrite Z.add_comm, Z_mod_plus_full, Z.mod_small by lia.
  by rewrite IH.
Qed.

Lemma to_be_bytes_inj n x y :
  0 <= x < 256 ^ Z.of_nat n -> 0 <= y < 256 ^ Z.of_nat n ->
  to_be_bytes n x = to_be_bytes n y -> x = y.
Proof.
  intros Hx Hy Heq. rewrite <- (from_to_be_bytes n x), <- (from_to_be_bytes n y) by done.
  by rewrite Heq.
Qed.

(** Splitting a concatenation whose first part has a known length. *)
Lemma app_inj_fixed {A} (l1 l1' l2 l2' : list A) :
  length l1 = length l1' -> l1 ++ l2 = l1' ++ l2' -> l1 = l1' /\ l2 = l2'.
Proof. intros Hlen Heq. by apply app_inj_1. Qed.

Lemma app_inj_fixed_r {A} (l1 l1' l2 l2' : list A) :
  length l2 = length l2' -> l1 ++ l2 = l1' ++ l2' -> l1 = l1' /\ l2 = l2'.
Proof. intros Hlen Heq. by apply app_inj_2. Qed.

(** ** Automation *)

Create HintDb bitsov.
Create Rewrite HintDb bitsov.
#[export] Hint Rewrite length_to_be_bytes @length_app : bitsov.
#[export] Hint Resolve to_be_bytes_range from_to_be_bytes : bitsov.

(** Case analysis on the scrutinees of the matches and tests in a hypothesis,
    closing the branches that contradict it. *)
Ltac inv_match H :=
  repeat match type of H with
  | context [match ?x with _ => _ end] =>
      let E := fresh "E" in destruct x eqn:E; try discriminate H; simplify_eq/=
  end.

(** Reflect boolean tests on integers into propositions. *)
Ltac bool_to_prop :=
  repeat match goal with
  | H : (_ && _)%bool = true |- _ => apply andb_true_iff in H as [? ?]
  | H : (_ || _)%bool = false |- _ => apply orb_false_iff in H as [? ?]
  | H : negb _ = true |- _ => apply negb_true_iff in H
  | H : negb _ = false |- _ => apply negb_false_iff in H
  | H : (_ <? _) = true |- _ => apply Z.ltb_lt in H
  | H : (_ <? _) = false |- _ => apply Z.ltb_ge in H
  | H : (_ <=? _) = true |- _ => apply Z.leb_le in H
  | H : (_ <=? _) = false |- _ => apply Z.leb_gt in H
  | H : (_ =? _) = true |- _ => apply Z.eqb_eq in H
  | H : (_ =? _) = false |- _ => apply Z.eqb_neq in H
  | H : bool_decide _ = true |- _ => apply bool_decide_eq_true in H
  | H : bool_decide _ = false |- _ => apply bool_decide_eq_false in H
  end.

Ltac solve_int := unfold saturating_sub, saturating_add, saturating_mul,
  is_u16, is_u32, is_u64, U16_MAX, U32_MAX, U64_MAX, U128_MAX, I64_MAX in *; lia.

(** A computation is its store and its result; used to evaluate only the
    result of a concrete run. *)
Lemma run_result {A B} (p : A * B) b : p.2 = b -> p = (p.1, b).
Proof. intros <-. apply surjective_pairing. Qed.
