(* ===== verification/FloatRound.v ===== *)
(** * Faithful rounding of the float model

    [fnum x] is the value of a finite float as an integer in units of
    [2^-K], with [K] large enough for every exponent a sum or product of two
    floats can have.  [faithful v x] says that [x] is a correct rounding of
    the exact value [v] in the sense the price bounds need: no finite float
    lies strictly between them. *)

From S2P Require Import Prelude Float.

Section Rounding.
Context (prec emax : Z).
Context (Hprec : 1 < prec) (Hemax : prec < emax).

Local Abbreviation fexp := (fexp prec emax).
Local Abbreviation emin := (emin prec emax).

(** ** Digits and powers *)

Lemma digits2_pos_bounds m :
  2 ^ (Zpos (digits2_pos m) - 1) <= Zpos m < 2 ^ Zpos (digits2_pos m).
Proof.
  induction m as [m IH|m IH|]; simpl digits2_pos.
  - rewrite Pos2Z.inj_succ.
    replace (Z.succ (Zpos (digits2_pos m)) - 1) with (Z.succ (Zpos (digits2_pos m) - 1)) by lia.
    rewrite !Z.pow_succ_r by lia. lia.
  - rewrite Pos2Z.inj_succ.
    replace (Z.succ (Zpos (digits2_pos m)) - 1) with (Z.succ (Zpos (digits2_pos m) - 1)) by lia.
    rewrite !Z.pow_succ_r by lia. lia.
  - simpl; lia.
Qed.

Lemma digits2_pos_le m k : 0 <= k -> Zpos m < 2 ^ k -> Zpos (digits2_pos m) <= k.
Proof.
  intros Hk Hm. destruct (digits2_pos_bounds m) as [Hlo _].
  destruct (Z.le_gt_cases (Zpos (digits2_pos m)) k) as [|Hgt]; [done|].
  assert (2 ^ k <= 2 ^ (Zpos (digits2_pos m) - 1)) by (apply Z.pow_le_mono_r; lia). lia.
Qed.

Lemma digits2_pos_ge m k : 0 <= k -> 2 ^ k <= Zpos m -> k < Zpos (digits2_pos m).
Proof.
  intros Hk Hm. destruct (digits2_pos_bounds m) as [_ Hhi].
  destruct (Z.le_gt_cases (Zpos (digits2_pos m)) k) as [Hle|]; [|done].
  assert (2 ^ Zpos (digits2_pos m) <= 2 ^ k) by (apply Z.pow_le_mono_r; lia). lia.
Qed.

Lemma pow2_pos k : 0 <= k -> 0 < 2 ^ k.
Proof. intros; apply Z.pow_pos_nonneg; lia. Qed.

(** Change of unit: a value at exponent [e] seen from a smaller exponent. *)
Lemma pow2_split a b : 0 <= a -> 0 <= b -> 2 ^ (a + b) = 2 ^ a * 2 ^ b.
Proof. intros; apply Z.pow_add_r; lia. Qed.

(** ** Right shift with a round and a sticky bit *)

(** [mrs] is [M] shifted right by [k] bits: its mantissa, and where the
    remainder [r] lies with respect to half a unit. *)
Definition shifted (M k : Z) (mrs : shr_record) : Prop :=
  exists r, M = shr_m mrs * 2 ^ k + r /\ 0 <= r < 2 ^ k /\ 0 <= shr_m mrs /\
    match loc_of_shr_record mrs with
    | loc_Exact => r = 0
    | loc_Inexact Lt => 0 < 2 * r < 2 ^ k
    | loc_Inexact Eq => 2 * r = 2 ^ k
    | loc_Inexact Gt => 2 ^ k < 2 * r
    end.

Lemma shifted_0 M : 0 <= M -> shifted M 0 (Build_shr_record M false false).
Proof. intros HM. exists 0. simpl. lia. Qed.

Lemma shr_1_shifted M k mrs : 0 <= k -> shifted M k mrs -> shifted M (k + 1) (shr_1 mrs).
Proof.
  intros Hk (r & HM & Hr & Hm & Hloc).
  destruct mrs as [m rb sb]; simpl in *.
  assert (Hp : 2 ^ (k + 1) = 2 * 2 ^ k) by (rewrite pow2_split; lia).
  destruct m as [|[p|p|]|p]; simpl; try lia.
  - exists r; simpl. destruct rb, sb; simpl in *; lia.
  - exists (r + 2 ^ k); simpl. destruct rb, sb; simpl in *; lia.
  - exists r; simpl. destruct rb, sb; simpl in *; lia.
  - exists (r + 2 ^ k); simpl. destruct rb, sb; simpl in *; lia.
Qed.

Lemma iter_pos_shifted M p : forall k mrs, 0 <= k -> shifted M k mrs ->
  shifted M (k + Zpos p) (iter_pos shr_1 p mrs).
Proof.
  induction p as [p IH|p IH|]; intros k mrs Hk Hs; simpl iter_pos.
  - replace (k + Zpos p~1) with ((k + 1 + Zpos p) + Zpos p) by lia.
    apply IH; [lia|]. apply IH; [lia|]. by apply shr_1_shifted.
  - replace (k + Zpos p~0) with ((k + Zpos p) + Zpos p) by lia.
    apply IH; [lia|]. by apply IH.
  - by apply shr_1_shifted.
Qed.

Lemma round_nearest_even_cases M k mrs :
  0 <= k -> shifted M k mrs ->
  let q := round_nearest_even (shr_m mrs) (loc_of_shr_record mrs) in
  q * 2 ^ k = M /\ q = shr_m mrs \/
  (shr_m mrs * 2 ^ k < M < (shr_m mrs + 1) * 2 ^ k /\ (q = shr_m mrs \/ q = shr_m mrs + 1)).
Proof.
  intros Hk (r & HM & Hr & Hm & Hloc). simpl.
  destruct (loc_of_shr_record mrs) as [|[]]; simpl in *; try destruct (Z.even _); lia.
Qed.

Lemma shr_fexp_exact M e :
  0 <= M -> e <= fexp (Zdigits2 M + e) ->
  exists mrs, shr_fexp prec emax M e loc_Exact = (mrs, fexp (Zdigits2 M + e)) /\
    shifted M (fexp (Zdigits2 M + e) - e) mrs.
Proof.
  intros HM He. unfold shr_fexp, shr.
  destruct (fexp (Zdigits2 M + e) - e) as [|p|p] eqn:En; [..|lia].
  - eexists; split; [f_equal; lia|]. by apply shifted_0.
  - eexists; split; [f_equal; lia|].
    replace (Zpos p) with (0 + Zpos p) by lia.
    apply iter_pos_shifted; [lia|]. by apply shifted_0.
Qed.

Lemma shr_fexp_id M e :
  fexp (Zdigits2 M + e) <= e ->
  shr_fexp prec emax M e loc_Exact = (Build_shr_record M false false, e).
Proof.
  intros He. unfold shr_fexp, shr.
  destruct (fexp (Zdigits2 M + e) - e) as [|p|p] eqn:En; [done|lia|done].
Qed.

(** ** Canonical floats *)

Definition canon (m : positive) (e : Z) : Prop := fexp (Zpos (digits2_pos m) + e) = e.

Lemma canon_inv m e : canon m e ->
  Zpos (digits2_pos m) <= prec /\ emin <= e /\
  (emin < e -> Zpos (digits2_pos m) = prec).
Proof. unfold canon, SpecFloat.fexp. lia. Qed.

Lemma canon_lt m1 e1 m2 e2 k :
  canon m1 e1 -> canon m2 e2 -> e1 < e2 -> k <= e1 ->
  Zpos m1 * 2 ^ (e1 - k) < Zpos m2 * 2 ^ (e2 - k).
Proof.
  intros (Hd1 & He1 & _)%canon_inv (_ & _ & Hd2)%canon_inv Hlt Hk.
  destruct (digits2_pos_bounds m1) as [_ H1], (digits2_pos_bounds m2) as [H2 _].
  rewrite Hd2 in H2 by lia.
  assert (2 ^ Zpos (digits2_pos m1) <= 2 ^ prec) by (apply Z.pow_le_mono_r; lia).
  replace (e2 - k) with ((e2 - e1) + (e1 - k)) by lia.
  rewrite pow2_split, Z.mul_assoc by lia.
  apply Z.mul_lt_mono_pos_r; [apply pow2_pos; lia|].
  assert (Hstep : 2 ^ prec = 2 ^ (prec - 1) * 2 ^ 1) by (rewrite <- pow2_split by lia; f_equal; lia).
  assert (2 ^ 1 <= 2 ^ (e2 - e1)) by (apply Z.pow_le_mono_r; lia).
  assert (2 ^ (prec - 1) * 2 ^ 1 <= Zpos m2 * 2 ^ (e2 - e1)) by (apply Z.mul_le_mono_nonneg; lia).
  lia.
Qed.

(** A canonical float at a smaller exponent than a rounding grid lies below
    the binade of the number being rounded. *)
Lemma canon_below_grid m e y ey k :
  canon y ey -> ey < fexp (Zpos (digits2_pos m) + e) -> k <= e -> k <= ey ->
  Zpos y * 2 ^ (ey - k) < 2 ^ (Zpos (digits2_pos m) - 1 + (e - k)).
Proof.
  intros Hy Hlt Hk Hky. pose proof Hy as (Hd & Hey & _)%canon_inv.
  destruct (digits2_pos_bounds y) as [_ Hhi].
  assert (Zpos (digits2_pos y) + ey <= Zpos (digits2_pos m) + e - 1).
  { unfold canon, SpecFloat.fexp in *. lia. }
  apply Z.lt_le_trans with (2 ^ Zpos (digits2_pos y) * 2 ^ (ey - k)).
  - apply Z.mul_lt_mono_pos_r; [apply pow2_pos; lia|done].
  - rewrite <- pow2_split by lia. apply Z.pow_le_mono_r; lia.
Qed.

(** A canonical float at the grid's exponent or above is a multiple of the grid. *)
Lemma grid_multiple (y : Z) ey e1 k :
  k <= e1 -> e1 <= ey -> exists z, y * 2 ^ (ey - k) = z * 2 ^ (e1 - k).
Proof.
  intros. exists (y * 2 ^ (ey - e1)).
  rewrite <- Z.mul_assoc, <- pow2_split by lia. do 2 f_equal. lia.
Qed.

Lemma mul_pow_lt_inv a b c : 0 <= c -> a * 2 ^ c < b * 2 ^ c -> a < b.
Proof. intros Hc. apply Z.mul_lt_mono_pos_r, pow2_pos, Hc. Qed.

(** ** The first rounding pass *)

Section FirstPass.
Context (m : positive) (e : Z).
Let e1 := fexp (Zpos (digits2_pos m) + e).
Context (He : e <= e1) (mrs : shr_record) (Hmrs : shifted (Zpos m) (e1 - e) mrs).
Let q := round_nearest_even (shr_m mrs) (loc_of_shr_record mrs).

Lemma first_pass_cases :
  q * 2 ^ (e1 - e) = Zpos m /\ q = shr_m mrs \/
  (shr_m mrs * 2 ^ (e1 - e) < Zpos m < (shr_m mrs + 1) * 2 ^ (e1 - e) /\
   (q = shr_m mrs \/ q = shr_m mrs + 1)).
Proof. apply round_nearest_even_cases; [lia|done]. Qed.

Lemma first_pass_mantissa :
  0 <= shr_m mrs < 2 ^ prec /\ (emin < e1 -> 2 ^ (prec - 1) <= shr_m mrs).
Proof.
  destruct Hmrs as (r & HM & Hr & Hm & _). destruct (digits2_pos_bounds m) as [Hlo Hhi].
  split; [split; [done|]|].
  - apply (mul_pow_lt_inv _ _ (e1 - e)); [lia|]. rewrite <- pow2_split by lia.
    assert (2 ^ Zpos (digits2_pos m) <= 2 ^ (prec + (e1 - e))); [|lia].
    apply Z.pow_le_mono_r; [lia|]. unfold e1, SpecFloat.fexp. lia.
  - intros Hmin. assert (Hd : Zpos (digits2_pos m) - 1 = (prec - 1) + (e1 - e)).
    { unfold e1, SpecFloat.fexp in *. lia. }
    rewrite Hd, pow2_split in Hlo by lia.
    assert (2 ^ (prec - 1) < shr_m mrs + 1); [|lia].
    apply (mul_pow_lt_inv _ _ (e1 - e)); lia.
Qed.

Lemma first_pass_bound : 0 <= q <= 2 ^ prec /\ (emin < e1 -> 2 ^ (prec - 1) <= q).
Proof. pose proof first_pass_mantissa. destruct first_pass_cases; lia. Qed.

Lemma first_pass_up y ey k :
  canon y ey -> k <= e -> k <= ey ->
  Zpos m * 2 ^ (e - k) <= Zpos y * 2 ^ (ey - k) -> q * 2 ^ (e1 - k) <= Zpos y * 2 ^ (ey - k).
Proof.
  intros Hy Hk Hky Hle.
  assert (Hsplit : forall a, a * 2 ^ (e1 - k) = a * 2 ^ (e1 - e) * 2 ^ (e - k)).
  { intros a. rewrite <- Z.mul_assoc, <- pow2_split by lia. do 2 f_equal. lia. }
  assert (Hpos : 0 < 2 ^ (e - k)) by (apply pow2_pos; lia).
  destruct first_pass_cases as [[Hq _]|[Hin [Hq|Hq]]].
  - rewrite Hsplit, Hq. done.
  - rewrite Hsplit, Hq. etrans; [|exact Hle]. apply Z.mul_le_mono_nonneg_r; lia.
  - destruct (Z.le_gt_cases e1 ey) as [Hge|Hlt].
    + destruct (grid_multiple (Zpos y) ey e1 k) as [z Hz]; [lia..|].
      rewrite Hz. apply Z.mul_le_mono_nonneg_r; [apply Z.lt_le_incl, pow2_pos; lia|].
      assert (shr_m mrs < z); [|lia]. apply (mul_pow_lt_inv _ _ (e1 - k)); [lia|].
      rewrite <- Hz, Hsplit. eapply Z.lt_le_trans; [|exact Hle].
      apply Z.mul_lt_mono_pos_r; lia.
    + exfalso. pose proof (canon_below_grid m e y ey k Hy Hlt Hk Hky) as Hb.
      destruct (digits2_pos_bounds m) as [Hlo _]. rewrite pow2_split in Hb by lia.
      assert (2 ^ (Zpos (digits2_pos m) - 1) * 2 ^ (e - k) <= Zpos m * 2 ^ (e - k)); [|lia].
      apply Z.mul_le_mono_nonneg_r; lia.
Qed.

Lemma first_pass_down y ey k :
  canon y ey -> k <= e -> k <= ey ->
  Zpos y * 2 ^ (ey - k) <= Zpos m * 2 ^ (e - k) -> Zpos y * 2 ^ (ey - k) <= q * 2 ^ (e1 - k).
Proof.
  intros Hy Hk Hky Hle.
  assert (Hsplit : forall a, a * 2 ^ (e1 - k) = a * 2 ^ (e1 - e) * 2 ^ (e - k)).
  { intros a. rewrite <- Z.mul_assoc, <- pow2_split by lia. do 2 f_equal. lia. }
  assert (Hpos : 0 < 2 ^ (e - k)) by (apply pow2_pos; lia).
  destruct first_pass_cases as [[Hq _]|[Hin [Hq|Hq]]].
  - rewrite Hsplit, Hq. done.
  - rewrite Hq. destruct (Z.le_gt_cases e1 ey) as [Hge|Hlt].
    + destruct (grid_multiple (Zpos y) ey e1 k) as [z Hz]; [lia..|].
      rewrite Hz. apply Z.mul_le_mono_nonneg_r; [apply Z.lt_le_incl, pow2_pos; lia|].
      assert (z < shr_m mrs + 1); [|lia]. apply (mul_pow_lt_inv _ _ (e1 - k)); [lia|].
      rewrite <- Hz, Hsplit. eapply Z.le_lt_trans; [exact Hle|].
      apply Z.mul_lt_mono_pos_r; lia.
    + pose proof (canon_below_grid m e y ey k Hy Hlt Hk Hky) as Hb.
      pose proof Hy as (_ & Hmin & _)%canon_inv.
      destruct first_pass_mantissa as [_ Hbig]. specialize (Hbig ltac:(lia)).
      assert (Hd : Zpos (digits2_pos m) - 1 + (e - k) = (prec - 1) + (e1 - k)).
      { unfold e1, SpecFloat.fexp in *. lia. }
      rewrite Hd, pow2_split in Hb by lia.
      assert (2 ^ (prec - 1) * 2 ^ (e1 - k) <= shr_m mrs * 2 ^ (e1 - k)); [|lia].
      apply Z.mul_le_mono_nonneg_r; [apply Z.lt_le_incl, pow2_pos; lia|done].
  - rewrite Hsplit, Hq. etrans; [exact Hle|]. apply Z.mul_le_mono_nonneg_r; lia.
Qed.
End FirstPass.

(** ** The second pass renormalises without changing the value *)

Lemma second_pass q e1 :
  emin <= e1 -> 0 <= q <= 2 ^ prec -> (emin < e1 -> 2 ^ (prec - 1) <= q) ->
  exists q2 e2 mrs2, shr_fexp prec emax q e1 loc_Exact = (mrs2, e2) /\ shr_m mrs2 = q2 /\
    0 <= q2 /\ e1 <= e2 /\ (forall k, k <= e1 -> q2 * 2 ^ (e2 - k) = q * 2 ^ (e1 - k)) /\
    (forall p, q2 = Zpos p -> canon p e2).
Proof.
  intros Hmin Hq Hbig. destruct q as [|p|p]; [| |lia].
  - eexists 0, e1, _. rewrite shr_fexp_id by (simpl; unfold SpecFloat.fexp; lia).
    repeat split; done || lia.
  - destruct (Z.eq_dec (Zpos p) (2 ^ prec)) as [Heq|Hne].
    + assert (Hhalf : 2 ^ prec = 2 * 2 ^ (prec - 1)).
      { rewrite <- (Z.pow_succ_r 2 (prec - 1)) by lia. f_equal. lia. }
      assert (Hd : Zpos (digits2_pos p) = prec + 1).
      { pose proof (digits2_pos_le p (prec + 1)) as H1. pose proof (digits2_pos_ge p prec) as H2.
        rewrite pow2_split in H1 by lia. lia. }
      assert (Hf : fexp (Zdigits2 (Zpos p) + e1) = e1 + 1).
      { simpl. rewrite Hd. unfold SpecFloat.fexp. lia. }
      destruct (shr_fexp_exact (Zpos p) e1) as (mrs2 & Hs & r & HM & Hr & Hm & _); [lia..|].
      rewrite Hf in *. replace (e1 + 1 - e1) with 1 in * by lia. change (2 ^ 1) with 2 in *.
      assert (Hm2 : shr_m mrs2 = 2 ^ (prec - 1)) by lia.
      exists (shr_m mrs2), (e1 + 1), mrs2. repeat split; [done|lia|lia| |].
      * intros k Hk. replace (e1 + 1 - k) with (1 + (e1 - k)) by lia.
        rewrite pow2_split by lia. change (2 ^ 1) with 2. lia.
      * intros p' Hp'. assert (Hd' : Zpos (digits2_pos p') = prec).
        { pose proof (digits2_pos_le p' prec). pose proof (digits2_pos_ge p' (prec - 1)). lia. }
        unfold canon. rewrite Hd'. unfold SpecFloat.fexp. lia.
    + assert (Hd : Zpos (digits2_pos p) <= prec) by (apply digits2_pos_le; lia).
      eexists (Zpos p), e1, _. rewrite shr_fexp_id by (simpl; unfold SpecFloat.fexp; lia).
      repeat split; [lia..|]. intros p' [= <-]. unfold canon, SpecFloat.fexp.
      destruct (Z.eq_dec e1 emin); [lia|].
      assert (prec - 1 < Zpos (digits2_pos p)) by (apply digits2_pos_ge; lia). lia.
Qed.

(** The float with mantissa [q] and exponent [e], overflowing to infinity. *)
Definition finish (s : bool) (q e : Z) : spec_float :=
  match q with
  | Z0 => S754_zero s
  | Zpos p => if e <=? emax - prec then S754_finite s p e else S754_infinity s
  | _ => S754_nan
  end.

Lemma round_aux_spec s m e :
  e <= fexp (Zpos (digits2_pos m) + e) ->
  exists q e2, binary_round_aux prec emax s (Zpos m) e loc_Exact = finish s q e2 /\
    0 <= q /\ e <= e2 /\ (forall p, q = Zpos p -> canon p e2) /\
    forall y ey k, canon y ey -> k <= e -> k <= ey ->
      (Zpos m * 2 ^ (e - k) <= Zpos y * 2 ^ (ey - k) -> q * 2 ^ (e2 - k) <= Zpos y * 2 ^ (ey - k)) /\
      (Zpos y * 2 ^ (ey - k) <= Zpos m * 2 ^ (e - k) -> Zpos y * 2 ^ (ey - k) <= q * 2 ^ (e2 - k)).
Proof.
  intros He.
  destruct (shr_fexp_exact (Zpos m) e) as (mrs & Hs & Hsh); [lia|done|]. simpl Zdigits2 in *.
  destruct (first_pass_bound m e He mrs Hsh) as [Hq Hbig].
  destruct (second_pass (round_nearest_even (shr_m mrs) (loc_of_shr_record mrs))
    (fexp (Zpos (digits2_pos m) + e))) as (q2 & e2 & mrs2 & Hs2 & Hm2 & Hq2 & He2 & Hval & Hcan);
    [unfold SpecFloat.fexp; lia|done|done|].
  exists q2, e2. unfold binary_round_aux. rewrite Hs, Hs2, Hm2.
  repeat split; [done|lia|done| |]; rewrite Hval by lia.
  - intros. by apply (first_pass_up m e He mrs Hsh).
  - intros. by apply (first_pass_down m e He mrs Hsh).
Qed.

(** ** Values and order *)

Definition K : Z := 2 * (emax + prec).

Definition fnum (x : spec_float) : Z :=
  match x with
  | S754_finite s m e => (if s then -1 else 1) * (Zpos m * 2 ^ (e + K))
  | _ => 0
  end.

Definition valid (x : spec_float) : Prop := valid_binary prec emax x = true.

(** Neither NaN nor negative; possibly [+oo]. *)
Definition nonneg (x : spec_float) : Prop :=
  match x with
  | S754_nan | S754_infinity true | S754_finite true _ _ => False
  | _ => True
  end.

Lemma valid_finite s m e :
  valid (S754_finite s m e) <-> canon m e /\ e <= emax - prec.
Proof.
  unfold valid, canon; simpl. unfold bounded, canonical_mantissa.
  rewrite andb_true_iff, Z.eqb_eq, Z.leb_le. done.
Qed.

Lemma emin_K : 0 <= emin + K /\ 0 <= 2 * emin + K.
Proof. unfold SpecFloat.emin, K. lia. Qed.

Lemma canon_K m e : canon m e -> 0 <= e + K.
Proof. intros (_ & ? & _)%canon_inv. pose proof emin_K. lia. Qed.

Lemma fnum_nonneg x : nonneg x -> 0 <= fnum x.
Proof. destruct x as [s|[]| |[] m e]; simpl; try lia. Qed.

Lemma compare_pos m1 e1 m2 e2 :
  canon m1 e1 -> canon m2 e2 ->
  (Zpos m1 * 2 ^ (e1 + K) ?= Zpos m2 * 2 ^ (e2 + K)) =
  match e1 ?= e2 with Lt => Lt | Gt => Gt | Eq => Pos.compare_cont Eq m1 m2 end.
Proof.
  intros H1 H2. pose proof (canon_K _ _ H1). pose proof (canon_K _ _ H2).
  destruct (Z.compare_spec e1 e2) as [->|Hlt|Hlt].
  - change (Pos.compare_cont Eq m1 m2) with (Zpos m1 ?= Zpos m2).
    symmetry. apply Zmult_compare_compat_r, Z.lt_gt, pow2_pos. lia.
  - apply Z.compare_lt_iff. pose proof (canon_lt m1 e1 m2 e2 (- K) H1 H2) as HH.
    rewrite !Z.sub_opp_r in HH. apply HH; lia.
  - apply Z.compare_gt_iff. pose proof (canon_lt m2 e2 m1 e1 (- K) H2 H1) as HH.
    rewrite !Z.sub_opp_r in HH. apply HH; lia.
Qed.

(** Comparison of finite floats is comparison of their values. *)
Lemma compare_fnum x y :
  valid x -> valid y -> is_finite x = true -> is_finite y = true ->
  SFcompare x y = Some (fnum x ?= fnum y).
Proof.
  destruct x as [s1|s1| |s1 m1 e1], y as [s2|s2| |s2 m2 e2];
    cbn [SFcompare is_finite fnum]; try done; intros Hx Hy _ _.
  - apply valid_finite in Hy as [Hc _]. pose proof (canon_K _ _ Hc).
    assert (0 < 2 ^ (e2 + K)) by (apply pow2_pos; lia).
    f_equal. symmetry. destruct s2; [apply Z.compare_gt_iff | apply Z.compare_lt_iff]; lia.
  - apply valid_finite in Hx as [Hc _]. pose proof (canon_K _ _ Hc).
    assert (0 < 2 ^ (e1 + K)) by (apply pow2_pos; lia).
    f_equal. symmetry. destruct s1; [apply Z.compare_lt_iff | apply Z.compare_gt_iff]; lia.
  - apply valid_finite in Hx as [Hc1 _], Hy as [Hc2 _].
    pose proof (compare_pos _ _ _ _ Hc1 Hc2) as Hpos.
    assert (0 < Zpos m1 * 2 ^ (e1 + K)) by (apply Z.mul_pos_pos; [lia|apply pow2_pos, (canon_K m1); done]).
    assert (0 < Zpos m2 * 2 ^ (e2 + K)) by (apply Z.mul_pos_pos; [lia|apply pow2_pos, (canon_K m2); done]).
    f_equal. destruct s1, s2.
    + rewrite !(Z.mul_comm (-1)), <- !Z.opp_eq_mul_m1, Z.compare_opp.
      rewrite (Z.compare_antisym (Zpos m1 * _)), Hpos.
      by destruct (e1 ?= e2).
    + symmetry. apply Z.compare_lt_iff. lia.
    + symmetry. apply Z.compare_gt_iff. lia.
    + rewrite !Z.mul_1_l, Hpos. done.
Qed.

Lemma f_le_fnum x y :
  valid x -> valid y -> is_finite x = true -> is_finite y = true ->
  f_le x y = (fnum x <=? fnum y).
Proof.
  intros. unfold f_le, SFleb. rewrite compare_fnum by done.
  unfold Z.leb. by destruct (fnum x ?= fnum y).
Qed.

Lemma f_lt_fnum x y :
  valid x -> valid y -> is_finite x = true -> is_finite y = true ->
  f_lt x y = (fnum x <? fnum y).
Proof.
  intros. unfold f_lt, SFltb. rewrite compare_fnum by done.
  unfold Z.ltb. by destruct (fnum x ?= fnum y).
Qed.

(** [f_clamp] of a finite float lies between the bounds. *)
Lemma clamp_spec x lo hi :
  valid x -> valid lo -> valid hi ->
  is_finite x = true -> is_finite lo = true -> is_finite hi = true -> fnum lo <= fnum hi ->
  let c := f_clamp x lo hi in
  valid c /\ is_finite c = true /\ fnum c = Z.min (fnum hi) (Z.max (fnum lo) (fnum x)).
Proof.
  intros Hx Hlo Hhi Fx Flo Fhi Hle. unfold f_clamp, f_gt.
  change (SFltb ?a ?b) with (f_lt a b).
  rewrite (f_lt_fnum x lo) by done.
  destruct (Z.ltb_spec (fnum x) (fnum lo)) as [Hlt|Hge].
  - rewrite (f_lt_fnum hi lo) by done.
    destruct (Z.ltb_spec (fnum hi) (fnum lo)); simpl; split_and!; done || lia.
  - rewrite (f_lt_fnum hi x) by done.
    destruct (Z.ltb_spec (fnum hi) (fnum x)); simpl; split_and!; done || lia.
Qed.

(** ** Faithful rounding

    [faithful v sh x]: the float [x] rounds the non-negative value [v], given
    in units of [2^-(K+sh)]. *)
Definition faithful (v sh : Z) (x : spec_float) : Prop :=
  valid x /\ nonneg x /\
  forall z, valid z -> is_finite z = true -> 0 <= fnum z ->
    (v <= fnum z * 2 ^ sh -> is_finite x = true /\ fnum x <= fnum z) /\
    (fnum z * 2 ^ sh <= v -> is_finite x = true -> fnum z <= fnum x).

Lemma faithful_zero s sh : 0 <= sh -> faithful 0 sh (S754_zero s).
Proof.
  intros Hsh. split_and!; [done..|]. intros z Hz Fz Hz0. simpl. split; [done|].
  intros Hle _. assert (0 < 2 ^ sh) by (apply pow2_pos; lia). nia.
Qed.

Lemma round_aux_faithful m e sh :
  e <= fexp (Zpos (digits2_pos m) + e) -> 0 <= sh -> 0 <= e + K + sh ->
  faithful (Zpos m * 2 ^ (e + K + sh)) sh (binary_round_aux prec emax false (Zpos m) e loc_Exact).
Proof.
  intros He Hsh HK. destruct (round_aux_spec false m e He) as (q & e2 & -> & Hq & He2 & Hcan & Hf).
  assert (Hv : 0 < Zpos m * 2 ^ (e + K + sh)) by (apply Z.mul_pos_pos; [lia|apply pow2_pos; lia]).
  assert (Hp : 0 < 2 ^ sh) by (apply pow2_pos; lia).
  assert (Hsplit : forall a x, 0 <= x + K -> a * 2 ^ (x - - (K + sh)) = a * 2 ^ (x + K) * 2 ^ sh).
  { intros a x Hx. rewrite <- Z.mul_assoc, <- pow2_split by lia. do 2 f_equal. lia. }
  replace (e + K + sh) with (e - - (K + sh)) in * by lia.
  assert (Hz : forall z, valid z -> is_finite z = true -> 0 <= fnum z ->
    fnum z = 0 \/ exists y ey, canon y ey /\ ey <= emax - prec /\ fnum z = Zpos y * 2 ^ (ey + K)).
  { intros [| | |s y ey] Vz Fz Nz; try done; [by left|right]. apply valid_finite in Vz as [Hc Hm].
    pose proof (canon_K _ _ Hc). assert (0 < 2 ^ (ey + K)) by (apply pow2_pos; lia).
    exists y, ey. split_and!; [done..|]. destruct s; simpl in *; lia. }
  destruct q as [|p|p]; [| |lia]; simpl.
  - split_and!; [done..|]. intros z Vz Fz Nz. destruct (Hz z Vz Fz Nz) as [H0|(y & ey & Hc & Hm & Hy)].
    + simpl; lia.
    + pose proof (canon_K _ _ Hc). destruct (Hf y ey (- (K + sh)) Hc) as [_ Hd]; [lia..|].
      rewrite (Hsplit _ ey), <- Hy in Hd by lia. simpl; split; [lia|]. intros Hle _. nia.
  - specialize (Hcan p eq_refl). pose proof (canon_K _ _ Hcan) as HK2.
    destruct (Z.leb_spec e2 (emax - prec)) as [Hfin|Hover].
    + split_and!; [by apply valid_finite|done|]. intros z Vz Fz Nz.
      assert (Hn : fnum (S754_finite false p e2) = Zpos p * 2 ^ (e2 + K)) by (cbn [fnum]; lia).
      rewrite Hn. destruct (Hz z Vz Fz Nz) as [H0|(y & ey & Hc & Hm & Hy)].
      * rewrite H0. split; [lia|]. intros _ _. apply Z.mul_nonneg_nonneg; [lia|]. apply Z.lt_le_incl, pow2_pos; lia.
      * pose proof (canon_K _ _ Hc). destruct (Hf y ey (- (K + sh)) Hc) as [Hu Hd]; [lia..|].
        rewrite (Hsplit _ ey), (Hsplit _ e2), <- Hy in Hu, Hd by lia.
        split; [intros Hle; split; [done|]|intros Hle _]; nia.
    + split_and!; [done..|]. intros z Vz Fz Nz. simpl. split; [|done].
      intros Hle. exfalso. destruct (Hz z Vz Fz Nz) as [H0|(y & ey & Hc & Hm & Hy)]; [lia|].
      pose proof (canon_K _ _ Hc). destruct (Hf y ey (- (K + sh)) Hc) as [Hu _]; [lia..|].
      pose proof (canon_lt y ey p e2 (- (K + sh)) Hc Hcan ltac:(lia) ltac:(lia)).
      rewrite (Hsplit _ ey), <- Hy in Hu by lia. rewrite (Hsplit _ ey), <- Hy in H0 by lia. nia.
Qed.

Lemma iter_xO m d : Zpos (Pos.iter xO m d) = Zpos m * 2 ^ Zpos d /\
  Zpos (digits2_pos (Pos.iter xO m d)) = Zpos (digits2_pos m) + Zpos d.
Proof.
  induction d as [|d [IH1 IH2]] using Pos.peano_ind; [split; simpl; lia|].
  rewrite Pos.iter_succ. simpl digits2_pos. rewrite Pos2Z.inj_succ, Z.pow_succ_r by lia. lia.
Qed.

Lemma shl_align_fst m e e' : e' <= e -> Zpos (fst (shl_align m e e')) = Zpos m * 2 ^ (e - e').
Proof.
  intros He. unfold shl_align. destruct (e' - e) as [|p|p] eqn:Ed; simpl; [|lia|].
  - replace (e - e') with 0 by lia. lia.
  - rewrite (proj1 (iter_xO m p)). do 2 f_equal. lia.
Qed.

Lemma binary_round_faithful m e :
  0 <= e + K -> faithful (Zpos m * 2 ^ (e + K)) 0 (binary_round prec emax false m e).
Proof.
  intros HK. unfold binary_round, shl_align.
  destruct (fexp (Zpos (digits2_pos m) + e) - e) as [|p|p] eqn:Ed.
  1-2: rewrite <- (Z.add_0_r (e + K)); apply round_aux_faithful; lia.
  destruct (iter_xO m p) as [Hval Hdig].
  set (e1 := fexp (Zpos (digits2_pos m) + e)) in *.
  assert (Hmin : emin <= e1) by (unfold e1, SpecFloat.fexp; lia). pose proof emin_K.
  replace (Zpos m * 2 ^ (e + K)) with (Zpos (Pos.iter xO m p) * 2 ^ (e1 + K + 0)).
  - apply round_aux_faithful; [|lia..]. rewrite Hdig.
    replace (Zpos (digits2_pos m) + Zpos p + e1) with (Zpos (digits2_pos m) + e) by lia. done.
  - rewrite Hval, <- Z.mul_assoc, <- pow2_split by lia. do 2 f_equal. lia.
Qed.

Lemma normalize_faithful n e :
  0 <= n -> 0 <= e + K -> faithful (n * 2 ^ (e + K)) 0 (binary_normalize prec emax n e false).
Proof.
  intros Hn HK. destruct n as [|p|p]; [|by apply binary_round_faithful|lia].
  simpl. by apply faithful_zero.
Qed.

Lemma of_int_faithful n : 0 <= n -> faithful (n * 2 ^ K) 0 (f_of_int prec emax n).
Proof.
  intros Hn. apply (normalize_faithful n 0 Hn). pose proof emin_K. unfold K. lia.
Qed.

(** A non-negative finite float has a non-negative mantissa form. *)
Lemma nonneg_form x :
  valid x -> is_finite x = true -> nonneg x ->
  (exists s, x = S754_zero s) \/
  exists m e, x = S754_finite false m e /\ canon m e /\ fnum x = Zpos m * 2 ^ (e + K).
Proof.
  destruct x as [s|s| |[] m e]; simpl; try done; intros Vx _ _; [left; eauto|right].
  apply valid_finite in Vx as [Hc _]. exists m, e. split_and!; [done..|lia].
Qed.

Lemma faithful_self x : valid x -> is_finite x = true -> nonneg x -> faithful (fnum x) 0 x.
Proof. intros. split_and!; [done..|]. intros z _ _ _. rewrite Z.pow_0_r, Z.mul_1_r. done. Qed.

Lemma mul_faithful x y :
  valid x -> valid y -> is_finite x = true -> is_finite y = true -> nonneg x -> nonneg y ->
  faithful (fnum x * fnum y) K (f_mul prec emax x y).
Proof.
  intros Vx Vy Fx Fy Nx Ny. pose proof emin_K as HK.
  assert (emin <= 0) by (unfold SpecFloat.emin; lia).
  destruct (nonneg_form x Vx Fx Nx) as [[s ->]|(mx & ex & -> & Cx & ->)].
  { destruct y; try done; simpl; apply faithful_zero; unfold K; lia. }
  destruct (nonneg_form y Vy Fy Ny) as [[s ->]|(my & ey & -> & Cy & ->)].
  { cbn [fnum]. rewrite Z.mul_0_r. simpl. apply faithful_zero; unfold K; lia. }
  pose proof Cx as (? & ? & Dx)%canon_inv. pose proof Cy as (? & ? & Dy)%canon_inv.
  destruct (digits2_pos_bounds mx) as [Hx _], (digits2_pos_bounds my) as [Hy _].
  assert (Hd : Zpos (digits2_pos mx) + Zpos (digits2_pos my) - 2 < Zpos (digits2_pos (mx * my))).
  { apply digits2_pos_ge; [lia|].
    replace (Zpos (digits2_pos mx) + Zpos (digits2_pos my) - 2)
      with ((Zpos (digits2_pos mx) - 1) + (Zpos (digits2_pos my) - 1)) by lia.
    rewrite pow2_split, Pos2Z.inj_mul by lia. apply Z.mul_le_mono_nonneg; lia. }
  replace (Zpos mx * 2 ^ (ex + K) * (Zpos my * 2 ^ (ey + K)))
    with (Zpos (mx * my) * 2 ^ ((ex + ey) + K + K)).
  - simpl. apply round_aux_faithful; [|lia..]. unfold SpecFloat.fexp.
    destruct (Z.eq_dec ex emin), (Z.eq_dec ey emin); lia.
  - rewrite Pos2Z.inj_mul. replace (ex + ey + K + K) with ((ex + K) + (ey + K)) by lia.
    rewrite pow2_split by lia. lia.
Qed.

Lemma fnum_align m e ez :
  0 <= ez + K -> ez <= e -> Zpos m * 2 ^ (e + K) = Zpos (fst (shl_align m e ez)) * 2 ^ (ez + K).
Proof.
  intros. rewrite shl_align_fst, <- Z.mul_assoc, <- pow2_split by lia. do 2 f_equal. lia.
Qed.

Lemma add_faithful x y :
  valid x -> valid y -> is_finite x = true -> is_finite y = true -> nonneg x -> nonneg y ->
  faithful (fnum x + fnum y) 0 (f_add prec emax x y).
Proof.
  intros Vx Vy Fx Fy Nx Ny. pose proof emin_K as HK.
  destruct (nonneg_form x Vx Fx Nx) as [[s ->]|(mx & ex & -> & Cx & Hx)].
  { cbn [fnum]. rewrite Z.add_0_l. destruct y as [s'|[]| |[] my ey]; try done.
    - destruct s, s'; apply faithful_zero; lia.
    - by apply faithful_self. }
  destruct (nonneg_form y Vy Fy Ny) as [[s ->]|(my & ey & -> & Cy & Hy)].
  { change (fnum (S754_zero s)) with 0. rewrite Z.add_0_r. by apply faithful_self. }
  rewrite Hx, Hy. pose proof (canon_K _ _ Cx). pose proof (canon_K _ _ Cy).
  rewrite (fnum_align mx ex (Z.min ex ey)), (fnum_align my ey (Z.min ex ey)) by lia.
  rewrite <- Z.mul_add_distr_r. cbn [f_add SFadd cond_Zopp].
  apply normalize_faithful; lia.
Qed.

Lemma sub_faithful x y :
  valid x -> valid y -> is_finite x = true -> is_finite y = true -> nonneg x -> nonneg y ->
  fnum y <= fnum x -> faithful (fnum x - fnum y) 0 (f_sub prec emax x y).
Proof.
  intros Vx Vy Fx Fy Nx Ny Hle. pose proof emin_K as HK.
  destruct (nonneg_form y Vy Fy Ny) as [[s ->]|(my & ey & -> & Cy & Hy)].
  { change (fnum (S754_zero s)) with 0. rewrite Z.sub_0_r.
    destruct x as [s'|[]| |[] mx ex]; try done; [|by apply faithful_self].
    destruct s, s'; apply faithful_zero; lia. }
  pose proof (canon_K _ _ Cy).
  assert (0 < Zpos my * 2 ^ (ey + K)) by (apply Z.mul_pos_pos; [lia|apply pow2_pos; lia]).
  destruct (nonneg_form x Vx Fx Nx) as [[s ->]|(mx & ex & -> & Cx & Hx)].
  { cbn [fnum] in *. lia. }
  rewrite Hx, Hy in *. pose proof (canon_K _ _ Cx).
  rewrite (fnum_align mx ex (Z.min ex ey)), (fnum_align my ey (Z.min ex ey)) in * by lia.
  rewrite <- Z.mul_sub_distr_r. cbn [f_sub SFsub cond_Zopp].
  apply normalize_faithful; [|lia].
  apply Z.mul_le_mono_pos_r in Hle; [lia|]. apply pow2_pos; lia.
Qed.

(** ** Small integers and their halves are exact *)

Lemma int_float s n : 0 <= s <= 1 -> 0 <= n <= 2 ^ prec ->
  exists z, valid z /\ is_finite z = true /\ nonneg z /\ fnum z = n * 2 ^ (K - s).
Proof.
  intros Hs Hn. destruct n as [|p|p]; [| |lia].
  { by exists (S754_zero false). }
  destruct (Z.eq_dec (Zpos p) (2 ^ prec)) as [Heq|Hne].
  - assert (Hm : 0 < 2 ^ (prec - 1)) by (apply pow2_pos; lia).
    assert (Hval : Zpos p = 2 ^ (prec - 1) * 2) by (rewrite Heq, <- (Z.pow_add_r 2 _ 1) by lia; f_equal; lia).
    exists (S754_finite false (Z.to_pos (2 ^ (prec - 1))) (1 - s)).
    assert (Hd : Zpos (digits2_pos (Z.to_pos (2 ^ (prec - 1)))) = prec).
    { pose proof (digits2_pos_le (Z.to_pos (2 ^ (prec - 1))) prec) as H1.
      pose proof (digits2_pos_ge (Z.to_pos (2 ^ (prec - 1))) (prec - 1)) as H2.
      rewrite !Z2Pos.id in * by done. lia. }
    split_and!; [|done..|].
    + apply valid_finite. unfold canon. rewrite Hd. unfold SpecFloat.fexp, SpecFloat.emin. lia.
    + cbn [fnum]. rewrite Z2Pos.id, Hval by done.
      replace (1 - s + K) with (1 + (K - s)) by lia. rewrite pow2_split by (unfold K; lia). lia.
  - set (d := Zpos (digits2_pos p)). assert (Hd : d <= prec) by (apply digits2_pos_le; lia).
    destruct (Z.eq_dec d prec) as [Hdp|Hdp].
    + exists (S754_finite false p (- s)). split_and!; [|done..|].
      * apply valid_finite. unfold canon. fold d. unfold SpecFloat.fexp, SpecFloat.emin. lia.
      * cbn [fnum]. rewrite Z.mul_1_l. do 2 f_equal. lia.
    + destruct (iter_xO p (Z.to_pos (prec - d))) as [Hv Hdd]. rewrite Z2Pos.id in * by lia.
      exists (S754_finite false (Pos.iter xO p (Z.to_pos (prec - d))) (d - prec - s)).
      split_and!; [|done..|].
      * apply valid_finite. unfold canon. rewrite Hdd. fold d. unfold SpecFloat.fexp, SpecFloat.emin. lia.
      * cbn [fnum]. rewrite Hv, Z.mul_1_l, <- Z.mul_assoc, <- pow2_split by (unfold K; lia).
        do 2 f_equal. lia.
Qed.

Lemma faithful_exact v x z :
  faithful v 0 x -> valid z -> is_finite z = true -> nonneg z -> fnum z = v ->
  is_finite x = true /\ fnum x = v.
Proof.
  intros (Vx & Nx & Hf) Vz Fz Nz <-. specialize (Hf z Vz Fz (fnum_nonneg _ Nz)).
  rewrite Z.pow_0_r, Z.mul_1_r in Hf. destruct Hf as [Hu Hd].
  destruct (Hu (Z.le_refl _)) as [Fx Hle]. specialize (Hd (Z.le_refl _) Fx). split; [done|lia].
Qed.

Lemma of_int_exact n : 0 <= n <= 2 ^ prec ->
  let x := f_of_int prec emax n in
  valid x /\ nonneg x /\ is_finite x = true /\ fnum x = n * 2 ^ K.
Proof.
  intros Hn. cbv zeta. destruct (int_float 0 n ltac:(lia) Hn) as (z & Vz & Fz & Nz & Hz). rewrite Z.sub_0_r in Hz.
  pose proof (of_int_faithful n ltac:(lia)) as Hf. pose proof Hf as (Vx & Nx & _).
  destruct (faithful_exact _ _ z Hf) as [Fx Hx]; done.
Qed.

(** ** Ceiling and casts *)

Definition ceil_div (a b : Z) : Z := - ((- a) / b).

Lemma ceil_div_bounds a b : 0 < b -> a <= ceil_div a b * b < a + b.
Proof. intros Hb. unfold ceil_div. pose proof (Z.mul_div_le (- a) b). pose proof (Z.mul_succ_div_gt (- a) b). nia. Qed.

Lemma ceil_div_unique a b q : 0 < b -> a <= q * b < a + b -> ceil_div a b = q.
Proof. intros Hb Hq. pose proof (ceil_div_bounds a b Hb). nia. Qed.

Lemma ceil_div_le a b q : 0 < b -> a <= q * b -> ceil_div a b <= q.
Proof. intros Hb Hq. pose proof (ceil_div_bounds a b Hb). nia. Qed.

Lemma ceil_div_ge a b q : 0 < b -> q * b <= a -> q <= ceil_div a b.
Proof. intros Hb Hq. pose proof (ceil_div_bounds a b Hb). nia. Qed.

Lemma pow2_K_pos : 0 < 2 ^ K.
Proof. apply pow2_pos. unfold K. lia. Qed.

Lemma as_uint_spec top x : valid x -> nonneg x -> is_finite x = true -> 0 <= top ->
  f_as_uint top x = Z.min top (fnum x / 2 ^ K).
Proof.
  intros Vx Nx Fx Htop. pose proof pow2_K_pos as HK.
  destruct (nonneg_form x Vx Fx Nx) as [[s ->]|(m & e & -> & C & Hx)].
  { cbn. rewrite Z.div_0_l by lia. lia. }
  rewrite Hx. cbn [f_as_uint]. f_equal. pose proof (canon_K _ _ C).
  destruct (Z.leb_spec 0 e).
  - rewrite pow2_split, Z.mul_assoc, Z.div_mul by (unfold K in *; lia). done.
  - replace (2 ^ K) with (2 ^ (- e) * 2 ^ (e + K)) by (rewrite <- pow2_split by lia; f_equal; lia).
    rewrite Z.div_mul_cancel_r; [done|..]; apply Z.pow_nonzero; lia.
Qed.

Lemma canon_mantissa_lt m e : canon m e -> Zpos m < 2 ^ prec.
Proof.
  intros C. pose proof (canon_inv _ _ C) as Hi. pose proof (digits2_pos_bounds m) as Hb.
  assert (Zpos (digits2_pos m) <= prec) by (unfold canon, SpecFloat.fexp in C; lia).
  assert (2 ^ Zpos (digits2_pos m) <= 2 ^ prec) by (apply Z.pow_le_mono_r; lia). lia.
Qed.

Lemma ceil_spec x : valid x -> nonneg x -> is_finite x = true ->
  let c := f_ceil prec emax x in
  valid c /\ nonneg c /\ is_finite c = true /\ fnum c = ceil_div (fnum x) (2 ^ K) * 2 ^ K.
Proof.
  intros Vx Nx Fx. cbv zeta. pose proof pow2_K_pos as HK.
  destruct (nonneg_form x Vx Fx Nx) as [[s ->]|(m & e & -> & C & Hx)].
  { by cbn [f_ceil fnum]; split_and!. }
  pose proof (canon_K _ _ C). cbn [f_ceil]. destruct (Z.leb_spec 0 e).
  - split_and!; [done..|]. rewrite Hx, pow2_split by (unfold K in *; lia).
    rewrite (ceil_div_unique _ _ (Zpos m * 2 ^ e)); lia.
  - change (ceil_shift (Zpos m) e) with (ceil_div (Zpos m) (2 ^ (- e))).
    assert (Hpe : 1 <= 2 ^ (- e)) by (pose proof (pow2_pos (- e)); lia).
    assert (Hn : 0 <= ceil_div (Zpos m) (2 ^ (- e)) <= 2 ^ prec).
    { pose proof (canon_mantissa_lt _ _ C). split; [apply ceil_div_ge|apply ceil_div_le]; nia. }
    destruct (of_int_exact _ Hn) as (V & N & F & E). unfold f_of_int in *.
    split_and!; [done..|]. rewrite E, Hx. f_equal. symmetry. apply ceil_div_unique; [done|].
    pose proof (ceil_div_bounds (Zpos m) (2 ^ (- e)) ltac:(lia)).
    assert (Hs : 2 ^ K = 2 ^ (- e) * 2 ^ (e + K)) by (rewrite <- pow2_split by lia; f_equal; lia).
    pose proof (pow2_pos (e + K)). rewrite Hs. nia.
Qed.

(** [x.ceil() as uN] on a finite non-negative float. *)
Lemma as_uint_ceil top x : valid x -> nonneg x -> is_finite x = true -> 0 <= top ->
  f_as_uint top (f_ceil prec emax x) = Z.min top (ceil_div (fnum x) (2 ^ K)).
Proof.
  intros Vx Nx Fx Ht. destruct (ceil_spec x Vx Nx Fx) as (V & N & F & E).
  rewrite as_uint_spec, E, Z.div_mul by (done || pose proof pow2_K_pos; lia). done.
Qed.

(** ** Discounts

    [base * (1 - d)] with [d] in (0, 1/2] lies between [base / 2] and [base],
    whatever the two roundings do, and so does its ceiling. *)

Lemma faithful_ge v sh x z :
  faithful v sh x -> valid z -> is_finite z = true -> nonneg z -> is_finite x = true ->
  fnum z * 2 ^ sh <= v -> fnum z <= fnum x.
Proof. intros (_ & _ & Hf) Vz Fz Nz Fx Hle. by apply (Hf z Vz Fz (fnum_nonneg _ Nz)). Qed.

Lemma faithful_le v sh x z :
  faithful v sh x -> valid z -> is_finite z = true -> nonneg z ->
  v <= fnum z * 2 ^ sh -> is_finite x = true /\ fnum x <= fnum z.
Proof. intros (_ & _ & Hf) Vz Fz Nz Hle. by apply (Hf z Vz Fz (fnum_nonneg _ Nz)). Qed.

Lemma pow2_K_half : 2 ^ K = 2 * 2 ^ (K - 1).
Proof. rewrite <- Z.pow_succ_r by (unfold K; lia). f_equal. lia. Qed.

Lemma one_le_pow_prec : 2 <= 2 ^ prec.
Proof. change 2 with (2 ^ 1) at 1. apply Z.pow_le_mono_r; lia. Qed.

Lemma one_minus_bounds d : valid d -> nonneg d -> is_finite d = true -> fnum d <= 2 ^ (K - 1) ->
  let f := f_sub prec emax (f_of_int prec emax 1) d in
  valid f /\ nonneg f /\ is_finite f = true /\ 2 ^ (K - 1) <= fnum f <= 2 ^ K.
Proof.
  intros Vd Nd Fd Hd. cbv zeta. pose proof one_le_pow_prec. pose proof pow2_K_half as HK.
  pose proof (fnum_nonneg _ Nd).
  destruct (of_int_exact 1 ltac:(lia)) as (V1 & N1 & F1 & E1). rewrite Z.mul_1_l in E1.
  destruct (int_float 1 1 ltac:(lia) ltac:(lia)) as (h & Vh & Fh & Nh & Eh). rewrite Z.mul_1_l in Eh.
  pose proof (sub_faithful _ _ V1 Vd F1 Fd N1 Nd ltac:(lia)) as Hf.
  pose proof Hf as (V & N & _).
  destruct (faithful_le _ _ _ _ Hf V1 F1 N1 ltac:(lia)) as [F Hle].
  pose proof (faithful_ge _ _ _ h Hf Vh Fh Nh F ltac:(lia)).
  split_and!; (done || lia).
Qed.

Lemma mul_int_bounds b f : 0 <= b <= 2 ^ prec -> valid f -> nonneg f -> is_finite f = true ->
  2 ^ (K - 1) <= fnum f <= 2 ^ K ->
  let x := f_mul prec emax (f_of_int prec emax b) f in
  valid x /\ nonneg x /\ is_finite x = true /\ b * 2 ^ (K - 1) <= fnum x <= b * 2 ^ K.
Proof.
  intros Hb Vf Nf Ff Hf. cbv zeta. pose proof pow2_K_pos.
  destruct (of_int_exact b Hb) as (Vb & Nb & Fb & Eb).
  destruct (int_float 1 b ltac:(lia) Hb) as (h & Vh & Fh & Nh & Eh).
  pose proof (mul_faithful _ _ Vb Vf Fb Ff Nb Nf) as Hm. pose proof Hm as (V & N & _).
  rewrite Eb in Hm.
  destruct (faithful_le _ _ _ _ Hm Vb Fb Nb) as [F Hle]; [rewrite Eb; nia|].
  pose proof (faithful_ge _ _ _ h Hm Vh Fh Nh F ltac:(rewrite Eh; nia)).
  split_and!; (done || lia).
Qed.

Lemma discounted_ceil_bounds top b d : 0 <= b <= 2 ^ prec -> b <= top ->
  valid d -> nonneg d -> is_finite d = true -> fnum d <= 2 ^ (K - 1) ->
  (b + 1) / 2 <= f_as_uint top (f_ceil prec emax
    (f_mul prec emax (f_of_int prec emax b) (f_sub prec emax (f_of_int prec emax 1) d))) <= b.
Proof.
  intros Hb Ht Vd Nd Fd Hd. pose proof pow2_K_pos. pose proof pow2_K_half as HK.
  destruct (one_minus_bounds d Vd Nd Fd Hd) as (V1 & N1 & F1 & H1).
  destruct (mul_int_bounds b _ Hb V1 N1 F1 H1) as (V & N & F & Hx).
  rewrite as_uint_ceil by (done || lia). set (v := fnum (f_mul _ _ _ _)) in *.
  assert (ceil_div v (2 ^ K) <= b) by (apply ceil_div_le; lia).
  assert ((b + 1) / 2 <= ceil_div v (2 ^ K)).
  { pose proof (ceil_div_bounds v (2 ^ K) ltac:(lia)).
    pose proof (Z.mul_div_le (b + 1) 2). nia. }
  lia.
Qed.

(** Half of a small integer is exact, so its ceiling is too. *)
Lemma half_ceil_exact top b h : 0 <= b <= 2 ^ prec -> b <= top ->
  valid h -> nonneg h -> is_finite h = true -> fnum h = 2 ^ (K - 1) ->
  f_as_uint top (f_ceil prec emax (f_mul prec emax (f_of_int prec emax b) h)) = (b + 1) / 2.
Proof.
  intros Hb Ht Vh Nh Fh Eh. pose proof pow2_K_pos. pose proof pow2_K_half as HK.
  destruct (of_int_exact b Hb) as (Vb & Nb & Fb & Eb).
  destruct (int_float 1 b ltac:(lia) Hb) as (z & Vz & Fz & Nz & Ez).
  pose proof (mul_faithful _ _ Vb Vh Fb Fh Nb Nh) as Hm. rewrite Eb, Eh in Hm.
  destruct (faithful_le _ _ _ _ Hm Vz Fz Nz) as [F Hle]; [rewrite Ez; nia|].
  pose proof (faithful_ge _ _ _ _ Hm Vz Fz Nz F ltac:(rewrite Ez; nia)) as Hge.
  pose proof Hm as (V & N & _). rewrite as_uint_ceil by (done || lia).
  replace (fnum (f_mul _ _ _ _)) with (b * 2 ^ (K - 1)) by lia.
  rewrite (ceil_div_unique _ _ ((b + 1) / 2)); [|lia|].
  - rewrite Z.min_r; [done|]. transitivity b; [|lia]. pose proof (Z.div_lt_upper_bound (b + 1) 2 (b + 1)). lia.
  - pose proof (Z.div_mod (b + 1) 2). pose proof (Z.mod_pos_bound (b + 1) 2). nia.
Qed.
End Rounding.
