(* ===== verification/Text.v ===== *)
(** * Strings of the source: decimal numbers and prefixes

    What the program uses of [String] and [format!]: decimal printing and
    [str::parse] of unsigned integers, [strip_prefix], and the byte values of
    a string literal. *)

From Stdlib Require Import Ascii.
From S2P Require Import Prelude.

(** The bytes of an ASCII literal such as [b"konsensus-safety-number-v1"]. *)
Definition bytes_of_string (s : string) : bytes :=
  map (fun c => Z.of_nat (nat_of_ascii c)) (String.list_ascii_of_string s).

(** [s.strip_prefix(p)]. *)
Fixpoint strip_prefix (p s : string) : option string :=
  match p, s with
  | EmptyString, _ => Some s
  | String c p', String d s' => if bool_decide (c = d) then strip_prefix p' s' else None
  | String _ _, EmptyString => None
  end.

Definition is_ascii_digit (c : ascii) : bool :=
  let n := nat_of_ascii c in (48 <=? n)%nat && (n <=? 57)%nat.

Definition digit_value (c : ascii) : Z := Z.of_nat (nat_of_ascii c) - 48.
Definition digit_char (d : Z) : ascii := ascii_of_nat (Z.to_nat (48 + d)).

(** Decimal digits, most significant first; [fuel] digits are enough for any
    [n < 10 ^ fuel]. *)
Fixpoint dec_digits (fuel : nat) (n : Z) : list Z :=
  match fuel with
  | O => []
  | S f => (if n <? 10 then [] else dec_digits f (n / 10)) ++ [n mod 10]
  end.

(** Display of an unsigned integer; 39 digits cover [u128]. *)
Definition show_uint (n : Z) : string :=
  String.string_of_list_ascii (map digit_char (dec_digits 39 n)).

(** [str::parse] of an unsigned integer with maximum [top]: an optional plus
    sign, then at least one digit, [None] for anything else and on overflow. *)
Fixpoint parse_digits (top acc : Z) (cs : list ascii) : option Z :=
  match cs with
  | [] => Some acc
  | c :: cs' =>
      if is_ascii_digit c then
        let acc' := acc * 10 + digit_value c in
        if acc' <=? top then parse_digits top acc' cs' else None
      else None
  end.

Definition parse_uint (top : Z) (s : string) : option Z :=
  match String.list_ascii_of_string s with
  | [] => None
  | c :: cs =>
      let ds := if bool_decide (c = "+"%char) then cs else c :: cs in
      match ds with [] => None | _ => parse_digits top 0 ds end
  end.

(** ** Printing and parsing are inverse *)

Definition digits_value (ds : list Z) (acc : Z) : Z := fold_left (fun a d => a * 10 + d) ds acc.

Lemma digit_char_spec d : 0 <= d < 10 ->
  is_ascii_digit (digit_char d) = true /\ digit_value (digit_char d) = d /\ digit_char d <> "+"%char.
Proof.
  intros Hd. assert (d = 0 \/ d = 1 \/ d = 2 \/ d = 3 \/ d = 4 \/ d = 5 \/ d = 6 \/ d = 7 \/ d = 8 \/ d = 9)
    as Hc by lia.
  by repeat destruct Hc as [->|Hc]; [..|subst d].
Qed.

Lemma digits_value_mono ds acc : Forall (fun d => 0 <= d < 10) ds -> 0 <= acc ->
  acc <= digits_value ds acc.
Proof.
  intros Hds. revert acc. induction Hds as [|d ds Hd _ IH]; intros acc Hacc; simpl; [done|].
  specialize (IH (acc * 10 + d)). unfold digits_value in *. simpl. lia.
Qed.

Lemma parse_digits_map top ds acc : Forall (fun d => 0 <= d < 10) ds -> 0 <= acc ->
  digits_value ds acc <= top ->
  parse_digits top acc (map digit_char ds) = Some (digits_value ds acc).
Proof.
  intros Hds. revert acc. induction Hds as [|d ds Hd Hds IH]; intros acc Hacc Htop; [done|].
  simpl. destruct (digit_char_spec d Hd) as (-> & -> & _).
  change (digits_value (d :: ds) acc) with (digits_value ds (acc * 10 + d)) in *.
  pose proof (digits_value_mono ds (acc * 10 + d) Hds ltac:(lia)).
  rewrite (proj2 (Z.leb_le _ _)) by lia. apply IH; lia.
Qed.

Lemma dec_digits_range fuel n : 0 <= n -> Forall (fun d => 0 <= d < 10) (dec_digits fuel n).
Proof.
  revert n. induction fuel as [|f IH]; intros n Hn; simpl; [constructor|].
  apply Forall_app; split; [|constructor; [apply Z.mod_pos_bound; lia|constructor]].
  destruct (n <? 10); [constructor|]. apply IH, Z.div_pos; lia.
Qed.

Lemma dec_digits_value fuel n : 0 <= n < 10 ^ Z.of_nat fuel ->
  digits_value (dec_digits fuel n) 0 = n.
Proof.
  revert n. induction fuel as [|f IH]; intros n Hn.
  - change (10 ^ Z.of_nat 0) with 1 in Hn. unfold digits_value; simpl. lia.
  - rewrite Nat2Z.inj_succ, Z.pow_succ_r in Hn by lia. unfold digits_value in *.
    simpl. rewrite fold_left_app. simpl. destruct (Z.ltb_spec n 10).
    + simpl. rewrite Z.mod_small; lia.
    + rewrite IH; [pose proof (Z.div_mod n 10); lia|].
      split; [apply Z.div_pos; lia|apply Z.div_lt_upper_bound; lia].
Qed.

Lemma list_ascii_show n : String.list_ascii_of_string (show_uint n) = map digit_char (dec_digits 39 n).
Proof. apply String.list_ascii_of_string_of_list_ascii. Qed.

Lemma dec_digits_cons fuel n : exists d ds, dec_digits (S fuel) n = d :: ds.
Proof. simpl. destruct (n <? 10); [by eexists _, []|]. destruct (dec_digits fuel (n / 10)); eexists _, _; done. Qed.

Lemma parse_show_uint top n : 0 <= n <= top -> n < 10 ^ 39 -> parse_uint top (show_uint n) = Some n.
Proof.
  intros Hn Hf. unfold parse_uint. rewrite list_ascii_show.
  assert (Hv : digits_value (dec_digits 39 n) 0 = n) by (apply dec_digits_value; simpl; lia).
  pose proof (dec_digits_range 39 n ltac:(lia)) as Hr.
  destruct (dec_digits_cons 38 n) as (d & ds & Heq). rewrite Heq in *. cbn [map].
  rewrite bool_decide_eq_false_2 by (apply Forall_cons in Hr as [Hd _]; by apply digit_char_spec).
  change (digit_char d :: map digit_char ds) with (map digit_char (d :: ds)).
  rewrite parse_digits_map by (done || lia). by rewrite Hv.
Qed.

Lemma strip_prefix_app p s : strip_prefix p (p +:+ s) = Some s.
Proof. induction p as [|c p IH]; [by destruct s|]. simpl. by rewrite bool_decide_eq_true_2. Qed.

(** The number of digits printed for an integer below a power of ten. *)
Lemma dec_digits_length fuel k n : 0 <= n < 10 ^ Z.of_nat (S k) ->
  (length (dec_digits fuel n) <= S k)%nat.
Proof.
  revert fuel n. induction k as [|k IH]; intros [|fuel] n Hn; simpl; try lia;
    rewrite length_app; simpl.
  - rewrite (proj2 (Z.ltb_lt n 10)); [simpl; lia|]. change (10 ^ Z.of_nat 1) with 10 in Hn. lia.
  - destruct (n <? 10); [simpl; lia|]. rewrite Nat2Z.inj_succ, Z.pow_succ_r in Hn by lia.
    assert (length (dec_digits fuel (n / 10)) <= S k)%nat; [|lia]. apply IH.
    split; [apply Z.div_pos; lia|apply Z.div_lt_upper_bound; lia].
Qed.

(** Substring search, as [LIKE '%needle%'] does on text without wildcards. *)
Fixpoint string_contains (needle hay : string) : bool :=
  match strip_prefix needle hay with
  | Some _ => true
  | None => match hay with EmptyString => false | String _ hay' => string_contains needle hay' end
  end.
