(* ===== verification/Kind.v ===== *)
(** * The kind taxonomy of messages

    [konsensus-core/src/kind.rs]: the [u16] kinds that the modelled code names,
    the categories of all kinds, and the keys under which category prices travel in
    authenticated price tables. *)

From S2P Require Import Prelude.

Definition KIND_CHAT : Z := 0.
Definition KIND_LONGFORM : Z := 1.
Definition KIND_PAGE_REQUEST : Z := 500.
Definition KIND_PAGE_RESPONSE : Z := 501.
Definition KIND_WEB_MANIFEST : Z := 510.
Definition KIND_CALL_INVITE : Z := 400.
Definition KIND_CALL_ANSWER : Z := 401.
Definition KIND_ICE_CANDIDATE : Z := 402.
Definition KIND_CALL_HANGUP : Z := 403.
Definition KIND_CALL_BLOCK : Z := 404.

Inductive KindCategory : Type :=
| Communication
| StructuredData
| FilesMedia
| Collaboration
| RealTimeSignaling
| WebContent
| Storage
| Control
| AppExtension
| Unknown.

#[export] Instance KindCategory_eq_dec : EqDecision KindCategory.
Proof. solve_decision. Defined.

Definition all_categories : list KindCategory :=
  [Communication; StructuredData; FilesMedia; Collaboration; RealTimeSignaling;
   WebContent; Storage; Control; AppExtension; Unknown].

Definition price_table_key (c : KindCategory) : string :=
  match c with
  | Communication => "communication"
  | StructuredData => "structured_data"
  | FilesMedia => "files_media"
  | Collaboration => "collaboration"
  | RealTimeSignaling => "realtime_signaling"
  | WebContent => "web_content"
  | Storage => "relay_storage"
  | Control => "control"
  | AppExtension => "app_extension"
  | Unknown => "unknown"
  end.

(** The match on ranges, arm by arm. *)
Definition from_kind (kind : Z) : KindCategory :=
  if (0 <=? kind) && (kind <=? 99) then Communication
  else if (100 <=? kind) && (kind <=? 199) then StructuredData
  else if (200 <=? kind) && (kind <=? 299) then FilesMedia
  else if (300 <=? kind) && (kind <=? 399) then Collaboration
  else if (400 <=? kind) && (kind <=? 499) then RealTimeSignaling
  else if (500 <=? kind) && (kind <=? 599) then WebContent
  else if (600 <=? kind) && (kind <=? 699) then Storage
  else if (900 <=? kind) && (kind <=? 999) then Control
  else if 1000 <=? kind then AppExtension
  else Unknown.

(** Two categories never share a price-table key. *)
Lemma price_table_key_inj c1 c2 : price_table_key c1 = price_table_key c2 -> c1 = c2.
Proof. by destruct c1, c2. Qed.

Lemma all_categories_complete c : c ∈ all_categories.
Proof. destruct c; unfold all_categories; set_solver. Qed.

(** The reserved ranges, and only they, are [Unknown]. *)
Lemma from_kind_unknown k : is_u16 k -> from_kind k = Unknown <-> 700 <= k <= 899.
Proof.
  intros [Hk _]. unfold from_kind.
  repeat match goal with |- context [if ?b then _ else _] => destruct b eqn:? end;
    split; intros; try done; try lia; exfalso; lia.
Qed.

#[export] Hint Resolve price_table_key_inj : bitsov.
