(* ===== verification/Types.v ===== *)
(** * Core types

    [konsensus-core/src/types.rs] and [error.rs]: identifiers, recipients,
    payment proofs, and the third-party primitives they are built on.

    The cryptographic and encoding crates ([blake3], [sha2], [ed25519-dalek],
    [hex], [uuid], [serde_json]) are the fields of the class [Prims]; what the theorems rely
    on about them is stated separately ([HexLaws]). *)

From Stdlib Require Import Ascii.
From S2P Require Import Prelude Text.

(** ** Third-party primitives *)

Class Prims := {
  blake3 : bytes -> bytes;
  sha256 : bytes -> bytes;
  VerifyingKey : Type;
  vk_from_bytes : bytes -> result string VerifyingKey;
  verify_strict : VerifyingKey -> bytes -> bytes -> result string unit;
  SigningKey : Type;
  ed_sign : SigningKey -> bytes -> bytes;
  hex_encode : bytes -> string;
  hex_decode : string -> result string bytes;
  uuid_parse_str : string -> result string bytes;
  uuid_to_string : bytes -> string;
  json_string_list : list string -> result string string
}.

(** Documented behaviour of the [hex] crate: two characters per byte, and
    decoding inverts encoding. *)
Class HexLaws `{Prims} := {
  hex_length bs : String.length (hex_encode bs) = (2 * length bs)%nat;
  hex_decode_encode bs : Forall is_byte bs -> hex_decode (hex_encode bs) = Ok bs
}.

Lemma hex_encode_inj `{HexLaws} b1 b2 :
  Forall is_byte b1 -> Forall is_byte b2 -> hex_encode b1 = hex_encode b2 -> b1 = b2.
Proof.
  intros H1 H2 Heq. pose proof (hex_decode_encode b1 H1) as E1.
  rewrite Heq, hex_decode_encode in E1 by done. congruence.
Qed.

(** ** Identifiers

    The newtypes over fixed arrays are their bytes. *)

Abbreviation MessageId := bytes.
Abbreviation NodeId := bytes.
Abbreviation RoomId := bytes.
Abbreviation Nonce := bytes.
Abbreviation Signature := bytes.

(** ** Errors *)

Inductive CoreError : Type :=
| InvalidPublicKey (s : string)
| CoreInvalidSignature (s : string)
| InvalidMessageId (s : string)
| InvalidNonce (s : string)
| EnvelopeValidation (s : string)
| InvalidPaymentProof (s : string)
| Serialization (s : string)
| InvalidRoomId (s : string)
| HexDecode (s : string).

#[export] Instance CoreError_eq_dec : EqDecision CoreError.
Proof. solve_decision. Defined.

Definition CoreError_to_string (e : CoreError) : string :=
  match e with
  | InvalidPublicKey s => "invalid public key: " +:+ s
  | CoreInvalidSignature s => "invalid signature: " +:+ s
  | InvalidMessageId s => "invalid message id: " +:+ s
  | InvalidNonce s => "invalid nonce: " +:+ s
  | EnvelopeValidation s => "envelope validation failed: " +:+ s
  | InvalidPaymentProof s => "payment proof invalid: " +:+ s
  | Serialization s => "serialization error: " +:+ s
  | InvalidRoomId s => "invalid room id: " +:+ s
  | HexDecode s => "hex decode error: " +:+ s
  end.

(** [slice.try_into()] to a fixed array. *)
Definition try_from_slice (len : nat) (wrong : string -> CoreError) (slice : bytes) :
    result CoreError bytes :=
  if (length slice =? len)%nat then Ok slice
  else Err (wrong ("expected " +:+ show_uint (Z.of_nat len) +:+ " bytes, got "
                   +:+ show_uint (Z.of_nat (length slice)))).

Section WithPrims.
Context `{Prims}.

(** ** hex_serde *)

(** [fixed_hex::visit_str]: the length is checked before decoding. *)
Definition fixed_hex (N : nat) (value : string) : result string bytes :=
  if negb (String.length value =? N * 2)%nat
  then Err ("expected " +:+ show_uint (Z.of_nat (N * 2)) +:+ " hex characters")
  else hex_decode value.

Definition hex_serialize (b : bytes) : string := hex_encode b.

(** ** MessageId, NodeId, Nonce, Signature *)

Definition MessageId_compute (ciphertext : bytes) (nonce : Nonce) : MessageId :=
  blake3 (ciphertext ++ nonce).

Definition MessageId_try_from_slice := try_from_slice 32 InvalidMessageId.
Definition NodeId_try_from_slice := try_from_slice 32 InvalidPublicKey.
Definition Nonce_try_from_slice := try_from_slice 24 InvalidNonce.
Definition Signature_try_from_slice := try_from_slice 64 CoreInvalidSignature.

Definition MessageId_from_hex (s : string) : result CoreError MessageId :=
  let? b := map_err HexDecode (hex_decode s) in MessageId_try_from_slice b.
Definition NodeId_from_hex (s : string) : result CoreError NodeId :=
  let? b := map_err HexDecode (hex_decode s) in NodeId_try_from_slice b.
Definition NodeId_to_hex (n : NodeId) : string := hex_encode n.

Definition NodeId_to_verifying_key (n : NodeId) : result CoreError VerifyingKey :=
  map_err InvalidPublicKey (vk_from_bytes n).

Definition RoomId_parse (s : string) : result CoreError RoomId :=
  map_err InvalidRoomId (uuid_parse_str s).

(** Lexicographic [<] on byte arrays. *)
Fixpoint bytes_lt (a b : bytes) : bool :=
  match a, b with
  | [], [] => false
  | [], _ :: _ => true
  | _ :: _, [] => false
  | x :: a', y :: b' => if x <? y then true else if y <? x then false else bytes_lt a' b'
  end.

(** [format!("{:05}", n)]. *)
Definition pad5 (n : Z) : string :=
  let s := show_uint n in
  String.string_of_list_ascii (replicate (5 - String.length s) "0"%char) +:+ s.

Definition safety_group (bs bs2 : bytes) (i : nat) : string :=
  let src := if (i <? 8)%nat then bs else bs2 in
  let offset := (i mod 8 * 4)%nat in
  pad5 (from_be_bytes (take 4 (drop offset src)) mod 100000).

Definition safety_number (self peer : NodeId) : string :=
  let '(a, b) := if bytes_lt self peer then (self, peer) else (peer, self) in
  let hash := blake3 (bytes_of_string "konsensus-safety-number-v1" ++ a ++ b) in
  let hash2 := blake3 hash in
  String.concat " " (map (safety_group hash hash2) (seq 0 12)).

Definition ascii_to_uppercase (c : ascii) : ascii :=
  let n := nat_of_ascii c in
  if (97 <=? n)%nat && (n <=? 122)%nat then ascii_of_nat (n - 32) else c.

Definition short_fingerprint (n : NodeId) : string :=
  String.string_of_list_ascii (map ascii_to_uppercase
    (String.list_ascii_of_string (hex_encode (take 4 (blake3 n))))).
End WithPrims.

(** ** Recipients and payment proofs *)

Inductive Recipient : Type :=
| RNode (n : NodeId)
| RRoom (r : RoomId)
| RBroadcast.

#[export] Instance Recipient_eq_dec : EqDecision Recipient.
Proof. solve_decision. Defined.

Record PaymentProof := mkProof {
  payment_hash : bytes;
  preimage : bytes;
  amount_msat : Z
}.

#[export] Instance PaymentProof_eq_dec : EqDecision PaymentProof.
Proof. solve_decision. Defined.

(** The comparison is constant-time in the source; its result is equality. *)
Definition verify_preimage `{Prims} (p : PaymentProof) : result CoreError unit :=
  if bool_decide (sha256 (preimage p) = payment_hash p) then Ok tt
  else Err (InvalidPaymentProof "preimage does not match payment hash").

(** ** Properties *)

Lemma bytes_lt_irrefl a : bytes_lt a a = false.
Proof. induction a as [|x a IH]; simpl; [done|]. by rewrite Z.ltb_irrefl. Qed.

Lemma bytes_lt_asym a b : bytes_lt a b = true -> bytes_lt b a = false.
Proof.
  revert b; induction a as [|x a IH]; intros [|y b]; simpl; try done.
  destruct (Z.ltb_spec x y), (Z.ltb_spec y x); try done; try lia. apply IH.
Qed.

Lemma bytes_lt_total a b : bytes_lt a b = false -> bytes_lt b a = false -> a = b.
Proof.
  revert b; induction a as [|x a IH]; intros [|y b]; simpl; try done.
  destruct (Z.ltb_spec x y), (Z.ltb_spec y x); try done; try lia.
  intros. f_equal; [lia|]. by apply IH.
Qed.

Lemma safety_number_comm `{Prims} a b : safety_number a b = safety_number b a.
Proof.
  unfold safety_number. destruct (bytes_lt a b) eqn:Hab, (bytes_lt b a) eqn:Hba; try done.
  - rewrite (bytes_lt_asym _ _ Hab) in Hba. done.
  - by rewrite (bytes_lt_total a b).
Qed.

Lemma length_string_app s t : String.length (s +:+ t) = (String.length s + String.length t)%nat.
Proof. induction s as [|c s IH]; simpl; [done|]. by rewrite IH. Qed.

Lemma length_string_of_list l : String.length (String.string_of_list_ascii l) = length l.
Proof. induction l as [|c l IH]; simpl; [done|]. by rewrite IH. Qed.

Lemma pad5_length n : 0 <= n < 100000 -> String.length (pad5 n) = 5%nat.
Proof.
  intros Hn. unfold pad5. rewrite length_string_app, length_string_of_list, length_replicate.
  unfold show_uint. rewrite length_string_of_list, length_map.
  pose proof (dec_digits_length 39 4 n ltac:(simpl; lia)). lia.
Qed.

Lemma concat_groups_length (gs : list string) : Forall (fun g => String.length g = 5%nat) gs ->
  String.length (String.concat " " gs) = (6 * length gs - 1)%nat.
Proof.
  induction 1 as [|g [|g' gs] Hg _ IH]; [done| |].
  - cbn. lia.
  - change (String.concat " " (g :: g' :: gs)) with (g +:+ (" " +:+ String.concat " " (g' :: gs))).
    rewrite !length_string_app, IH, Hg. cbn. lia.
Qed.

(** Twelve groups of five digits with eleven separators. *)
Lemma safety_number_length `{Prims} a b : String.length (safety_number a b) = 71%nat.
Proof.
  unfold safety_number. destruct (if bytes_lt a b then _ else _) as [x y].
  rewrite concat_groups_length; [by rewrite length_map, length_seq|].
  apply Forall_map, Forall_true. intros i. apply pad5_length, Z.mod_pos_bound. lia.
Qed.

Lemma fixed_hex_roundtrip `{HexLaws} N b : is_array N b -> fixed_hex N (hex_serialize b) = Ok b.
Proof.
  intros [Hlen Hb]. unfold fixed_hex, hex_serialize. rewrite hex_length, Hlen.
  replace (2 * N)%nat with (N * 2)%nat by lia. rewrite Nat.eqb_refl. by apply hex_decode_encode.
Qed.

Lemma NodeId_hex_roundtrip `{HexLaws} n : is_array 32 n -> NodeId_from_hex (NodeId_to_hex n) = Ok n.
Proof.
  intros [Hlen Hb]. unfold NodeId_from_hex, NodeId_to_hex.
  rewrite hex_decode_encode by done. simpl. unfold NodeId_try_from_slice, try_from_slice.
  by rewrite Hlen.
Qed.
