(* ===== verification/Concrete.v ===== *)
(** * A concrete instance of the primitives

    Executable stand-ins for the third-party crates, used to run the model on
    concrete inputs and to show that the hypotheses of the theorems can hold.
    The hexadecimal codec is the real one (lower-case output, either case
    accepted); the hashes and signatures are simple injective-looking byte
    functions of the right output size and have no security meaning. *)

From Stdlib Require Import Ascii.
From S2P Require Import Prelude Text Types.

Definition hex_digit (n : Z) : ascii :=
  if n <? 10 then ascii_of_nat (Z.to_nat (48 + n)) else ascii_of_nat (Z.to_nat (87 + n)).

Definition hex_value (c : ascii) : option Z :=
  let n := Z.of_nat (nat_of_ascii c) in
  if (48 <=? n) && (n <=? 57) then Some (n - 48)
  else if (97 <=? n) && (n <=? 102) then Some (n - 87)
  else if (65 <=? n) && (n <=? 70) then Some (n - 55)
  else None.

Definition hex_chars (bs : bytes) : list ascii :=
  concat (map (fun b => [hex_digit (b / 16); hex_digit (b mod 16)]) bs).

Fixpoint unhex (cs : list ascii) : result string bytes :=
  match cs with
  | [] => Ok []
  | [_] => Err "Odd number of digits"
  | c :: d :: cs' =>
      match hex_value c, hex_value d with
      | Some x, Some y => let? bs := unhex cs' in Ok (16 * x + y :: bs)
      | _, _ => Err "Invalid character"
      end
  end.

(** A fixed-size digest: the bytes as digits of a number modulo [2^61 - 1]. *)
Definition fold32 (tag : Z) (bs : bytes) : bytes :=
  to_be_bytes 32 (fold_left (fun h b => ((h + 1) * 263 + b) mod 2305843009213693951) bs tag).

Definition toy_sign (key msg : bytes) : bytes := take 64 (fold32 7 (key ++ msg) ++ fold32 9 msg).

Definition toy_prims : Prims := {|
  blake3 := fold32 1;
  sha256 := fold32 2;
  VerifyingKey := bytes;
  vk_from_bytes b := if (length b =? 32)%nat then Ok b else Err "signature error";
  verify_strict k m s := if bool_decide (s = toy_sign k m) then Ok tt else Err "signature error";
  SigningKey := bytes;
  ed_sign := toy_sign;
  hex_encode bs := String.string_of_list_ascii (hex_chars bs);
  hex_decode s := unhex (String.list_ascii_of_string s);
  uuid_parse_str s := unhex (String.list_ascii_of_string s);
  uuid_to_string bs := String.string_of_list_ascii (hex_chars bs);
  json_string_list l := Ok ("[" +:+ String.concat "," l +:+ "]")
|}.

Lemma hex_value_digit n : 0 <= n < 16 -> hex_value (hex_digit n) = Some n.
Proof.
  intros Hn. assert (n ∈ map Z.of_nat (seq 0 16)) as Hin.
  { apply list_elem_of_fmap. exists (Z.to_nat n). rewrite elem_of_seq. lia. }
  revert n Hn Hin. cbn [map seq].
  intros n _ Hin. repeat (apply elem_of_cons in Hin as [->|Hin]; [reflexivity|]). by apply elem_of_nil in Hin.
Qed.

Lemma unhex_chars bs : Forall is_byte bs -> unhex (hex_chars bs) = Ok bs.
Proof.
  induction 1 as [|b bs Hb _ IH]; [done|].
  change (hex_chars (b :: bs)) with (hex_digit (b / 16) :: hex_digit (b mod 16) :: hex_chars bs).
  cbn [unhex]. unfold is_byte in Hb.
  rewrite !hex_value_digit, IH; [simpl; do 2 f_equal; pose proof (Z.div_mod b 16); lia|..].
  - apply Z.mod_pos_bound. lia.
  - split; [apply Z.div_pos; lia|apply Z.div_lt_upper_bound; lia].
Qed.

Lemma toy_hex_laws : @HexLaws toy_prims.
Proof.
  constructor; intros bs; simpl.
  - rewrite length_string_of_list. induction bs as [|b bs IH]; [done|].
    change (length (hex_chars (b :: bs))) with (2 + length (hex_chars bs))%nat. rewrite IH. simpl. lia.
  - intros Hb. rewrite String.list_ascii_of_string_of_list_ascii. by apply unhex_chars.
Qed.
