(* ===== verification/Envelope.v ===== *)
(** * The UKM envelope

    [konsensus-core/src/envelope.rs]: the one message format, the bytes its
    signature covers, its structural validation, the renewal of a paid
    envelope for a resend, the builder, and the bounded wire decoders.

    The signature covers every field except [id] (a function of two covered
    fields) and [references]; [signable_bytes_inj] is the exact statement. *)

From S2P Require Import Prelude Text Types.

Definition MAX_MESSAGE_REFERENCES : nat := 64.
Definition MAX_CIPHERTEXT_BYTES : nat := Z.to_nat (6 * 1024 * 1024).

Record UkmEnvelope := mkEnvelope {
  env_id : MessageId;
  env_kind : Z;
  env_sender : NodeId;
  env_recipient : Recipient;
  env_timestamp : Z;
  env_ciphertext : bytes;
  env_payment_proof : PaymentProof;
  env_signature : Signature;
  env_nonce : Nonce;
  env_references : list MessageId
}.

#[export] Instance UkmEnvelope_eq_dec : EqDecision UkmEnvelope.
Proof. solve_decision. Defined.

(** The part of [NodeIdentity] the envelope uses. *)
Record NodeIdentity `{Prims} := mkIdentity {
  ident_signing : SigningKey;
  ident_node_id : NodeId
}.

Section WithPrims.
Context `{Prims}.

Definition recipient_bytes (r : Recipient) : bytes :=
  match r with
  | RNode n => 1 :: n
  | RRoom r => 2 :: r
  | RBroadcast => [3]
  end.

Definition signable_bytes (e : UkmEnvelope) : bytes :=
  to_be_bytes 2 (env_kind e) ++
  env_sender e ++
  recipient_bytes (env_recipient e) ++
  to_be_bytes 8 (env_timestamp e) ++
  env_ciphertext e ++
  env_nonce e ++
  payment_hash (env_payment_proof e) ++
  preimage (env_payment_proof e) ++
  to_be_bytes 8 (amount_msat (env_payment_proof e)).

Definition validate (e : UkmEnvelope) : result CoreError unit :=
  check bool_decide (env_id e = MessageId_compute (env_ciphertext e) (env_nonce e))
    else EnvelopeValidation "message id does not match blake3(ciphertext || nonce)" ;;
  check bool_decide (env_ciphertext e <> [])
    else EnvelopeValidation "ciphertext must not be empty" ;;
  let? _ := verify_preimage (env_payment_proof e) in
  check (length (env_references e) <=? MAX_MESSAGE_REFERENCES)%nat
    else EnvelopeValidation "references list exceeds maximum of 64" ;;
  Ok tt.

Definition ident_sign (i : NodeIdentity) (msg : bytes) : Signature := ed_sign (ident_signing i) msg.

Definition with_timestamp (e : UkmEnvelope) (ts : Z) : UkmEnvelope :=
  mkEnvelope (env_id e) (env_kind e) (env_sender e) (env_recipient e) ts (env_ciphertext e)
    (env_payment_proof e) (env_signature e) (env_nonce e) (env_references e).

Definition with_signature (e : UkmEnvelope) (sig : Signature) : UkmEnvelope :=
  mkEnvelope (env_id e) (env_kind e) (env_sender e) (env_recipient e) (env_timestamp e)
    (env_ciphertext e) (env_payment_proof e) sig (env_nonce e) (env_references e).

(** The mutated envelope and the method's result. *)
Definition refresh_for_resend (e : UkmEnvelope) (identity : NodeIdentity) (now_ms : Z) :
    UkmEnvelope * result CoreError bool :=
  if bool_decide (env_sender e <> ident_node_id identity)
  then (e, Err (EnvelopeValidation "cannot re-sign another sender's envelope"))
  else if saturating_sub now_ms (env_timestamp e) <=? 240000 then (e, Ok false)
  else
    let e := with_timestamp e now_ms in
    (with_signature e (ident_sign identity (signable_bytes e)), Ok true).

(** ** The builder; the clock and the random nonce are arguments of [new] *)

Record UkmEnvelopeBuilder := mkBuilder {
  b_kind : Z;
  b_sender : NodeId;
  b_recipient : Recipient;
  b_timestamp : Z;
  b_ciphertext : bytes;
  b_payment_proof : PaymentProof;
  b_signature : Signature;
  b_nonce : Nonce;
  b_references : list MessageId
}.

Definition builder_new (now_ms : Z) (random_nonce : Nonce) (kind : Z) (sender : NodeId)
    (recipient : Recipient) (ciphertext : bytes) (proof : PaymentProof) : UkmEnvelopeBuilder :=
  mkBuilder kind sender recipient (Z.min now_ms U64_MAX) ciphertext proof
    (replicate 64 0) random_nonce [].

Definition builder_timestamp (b : UkmEnvelopeBuilder) (ts : Z) : UkmEnvelopeBuilder :=
  mkBuilder (b_kind b) (b_sender b) (b_recipient b) ts (b_ciphertext b) (b_payment_proof b)
    (b_signature b) (b_nonce b) (b_references b).
Definition builder_nonce (b : UkmEnvelopeBuilder) (n : Nonce) : UkmEnvelopeBuilder :=
  mkBuilder (b_kind b) (b_sender b) (b_recipient b) (b_timestamp b) (b_ciphertext b)
    (b_payment_proof b) (b_signature b) n (b_references b).
Definition builder_signature (b : UkmEnvelopeBuilder) (s : Signature) : UkmEnvelopeBuilder :=
  mkBuilder (b_kind b) (b_sender b) (b_recipient b) (b_timestamp b) (b_ciphertext b)
    (b_payment_proof b) s (b_nonce b) (b_references b).
Definition builder_references (b : UkmEnvelopeBuilder) (rs : list MessageId) : UkmEnvelopeBuilder :=
  mkBuilder (b_kind b) (b_sender b) (b_recipient b) (b_timestamp b) (b_ciphertext b)
    (b_payment_proof b) (b_signature b) (b_nonce b) rs.

Definition build (b : UkmEnvelopeBuilder) : UkmEnvelope :=
  mkEnvelope (MessageId_compute (b_ciphertext b) (b_nonce b)) (b_kind b) (b_sender b)
    (b_recipient b) (b_timestamp b) (b_ciphertext b) (b_payment_proof b) (b_signature b)
    (b_nonce b) (b_references b).
End WithPrims.

(** ** Bounded decoding

    A [SeqAccess] is the list of its elements, each already decoded or a
    decoding error.  The visitor returns its result and the elements it did
    not read. *)

Fixpoint visit_seq {A} (cap : nat) (too_long : string) (out : list A)
    (items : list (result string A)) : result string (list A) * list (result string A) :=
  match items with
  | [] => (Ok out, [])
  | Err e :: rest => (Err e, rest)
  | Ok a :: rest =>
      if (cap <=? length out)%nat then (Err too_long, rest)
      else visit_seq cap too_long (out ++ [a]) rest
  end.

Definition bounded_references (items : list (result string MessageId)) :=
  visit_seq MAX_MESSAGE_REFERENCES "references list exceeds maximum of 64 entries" [] items.

Definition bounded_ciphertext (items : list (result string Z)) :=
  visit_seq MAX_CIPHERTEXT_BYTES "ciphertext exceeds byte cap" [] items.

(** ** Well-formed envelopes

    What the Rust types guarantee of any envelope value. *)

Definition wf_recipient (r : Recipient) : Prop :=
  match r with
  | RNode n => is_array 32 n
  | RRoom r => is_array 16 r
  | RBroadcast => True
  end.

Record wf_proof (p : PaymentProof) : Prop := {
  wf_payment_hash : is_array 32 (payment_hash p);
  wf_preimage : is_array 32 (preimage p);
  wf_amount : is_u64 (amount_msat p)
}.

Record wf_envelope (e : UkmEnvelope) : Prop := {
  wf_id : is_array 32 (env_id e);
  wf_kind : is_u16 (env_kind e);
  wf_sender : is_array 32 (env_sender e);
  wf_recipient_ok : wf_recipient (env_recipient e);
  wf_timestamp : is_u64 (env_timestamp e);
  wf_ciphertext : Forall is_byte (env_ciphertext e);
  wf_proof_ok : wf_proof (env_payment_proof e);
  wf_signature : is_array 64 (env_signature e);
  wf_nonce : is_array 24 (env_nonce e);
  wf_references : Forall (is_array 32) (env_references e)
}.

#[export] Hint Resolve wf_payment_hash wf_preimage wf_amount wf_kind wf_sender wf_recipient_ok
  wf_timestamp wf_ciphertext wf_proof_ok wf_nonce : bitsov.

Lemma wf_lengths e : wf_envelope e ->
  length (env_sender e) = 32%nat /\ length (env_nonce e) = 24%nat /\
  length (payment_hash (env_payment_proof e)) = 32%nat /\
  length (preimage (env_payment_proof e)) = 32%nat.
Proof. intros []. destruct wf_proof_ok0. unfold is_array in *. tauto. Qed.

Lemma recipient_bytes_inj r1 r2 t1 t2 : wf_recipient r1 -> wf_recipient r2 ->
  recipient_bytes r1 ++ t1 = recipient_bytes r2 ++ t2 -> r1 = r2 /\ t1 = t2.
Proof.
  intros H1 H2 Heq. destruct r1, r2; simpl in *; try discriminate; injection Heq as Heq; try done;
    apply app_inj_fixed in Heq as [-> ->]; try done; destruct H1, H2; congruence.
Qed.

(** The signed bytes determine every covered field: a signature on one
    envelope is a signature on no envelope that differs in any of them. *)
Lemma signable_bytes_determines e1 e2 : wf_envelope e1 -> wf_envelope e2 ->
  signable_bytes e1 = signable_bytes e2 ->
  env_kind e1 = env_kind e2 /\ env_sender e1 = env_sender e2 /\
  env_recipient e1 = env_recipient e2 /\ env_timestamp e1 = env_timestamp e2 /\
  env_ciphertext e1 = env_ciphertext e2 /\ env_nonce e1 = env_nonce e2 /\
  env_payment_proof e1 = env_payment_proof e2.
Proof.
  intros W1 W2 Heq. unfold signable_bytes in Heq.
  destruct (wf_lengths _ W1) as (Ls1 & Ln1 & Lh1 & Lp1), (wf_lengths _ W2) as (Ls2 & Ln2 & Lh2 & Lp2).
  apply app_inj_fixed in Heq as [Hk Heq]; [|by rewrite !length_to_be_bytes].
  apply app_inj_fixed in Heq as [Hs Heq]; [|congruence].
  apply recipient_bytes_inj in Heq as [Hr Heq]; [|by apply wf_recipient_ok..].
  apply app_inj_fixed in Heq as [Ht Heq]; [|by rewrite !length_to_be_bytes].
  apply app_inj_fixed_r in Heq as [Hc Heq];
    [|rewrite !length_app, !length_to_be_bytes; congruence].
  apply app_inj_fixed in Heq as [Hn Heq]; [|congruence].
  apply app_inj_fixed in Heq as [Hh Heq]; [|congruence].
  apply app_inj_fixed in Heq as [Hp Ha]; [|congruence].
  apply to_be_bytes_inj in Hk, Ht, Ha.
  2-7: pose proof (wf_kind _ W1); pose proof (wf_kind _ W2);
       pose proof (wf_timestamp _ W1); pose proof (wf_timestamp _ W2);
       pose proof (wf_amount _ (wf_proof_ok _ W1)); pose proof (wf_amount _ (wf_proof_ok _ W2));
       change (256 ^ Z.of_nat 2) with (2 ^ 16); change (256 ^ Z.of_nat 8) with (2 ^ 64); solve_int.
  split_and!; try done. destruct (env_payment_proof e1), (env_payment_proof e2); simpl in *; congruence.
Qed.

(** The converse: nothing else is covered. *)
Lemma signable_bytes_covers e1 e2 :
  env_kind e1 = env_kind e2 -> env_sender e1 = env_sender e2 ->
  env_recipient e1 = env_recipient e2 -> env_timestamp e1 = env_timestamp e2 ->
  env_ciphertext e1 = env_ciphertext e2 -> env_nonce e1 = env_nonce e2 ->
  env_payment_proof e1 = env_payment_proof e2 ->
  signable_bytes e1 = signable_bytes e2.
Proof. unfold signable_bytes. by intros -> -> -> -> -> -> ->. Qed.

(** ** Validation *)

Section WithPrims.
Context `{Prims}.

Record valid_envelope (e : UkmEnvelope) : Prop := {
  ve_id : env_id e = blake3 (env_ciphertext e ++ env_nonce e);
  ve_nonempty : env_ciphertext e <> [];
  ve_preimage : sha256 (preimage (env_payment_proof e)) = payment_hash (env_payment_proof e);
  ve_references : (length (env_references e) <= 64)%nat
}.

Lemma validate_spec e : validate e = Ok tt <-> valid_envelope e.
Proof.
  unfold validate, verify_preimage, MessageId_compute, MAX_MESSAGE_REFERENCES. split.
  - intros Hv. repeat case_bool_decide; simpl in *; try done. inv_match Hv.
    constructor; try done. by apply Nat.leb_le.
  - intros [Hid Hne Hp Hr]. rewrite !bool_decide_eq_true_2 by done. simpl.
    by rewrite (proj2 (Nat.leb_le _ _)).
Qed.

(** A built envelope with a real preimage and a non-empty body validates. *)
Lemma build_valid b :
  b_ciphertext b <> [] -> sha256 (preimage (b_payment_proof b)) = payment_hash (b_payment_proof b) ->
  (length (b_references b) <= 64)%nat -> validate (build b) = Ok tt.
Proof. intros. apply validate_spec. by constructor. Qed.

(** ** Resending *)

Lemma refresh_for_resend_frame e i now :
  let e' := fst (refresh_for_resend e i now) in
  env_id e' = env_id e /\ env_ciphertext e' = env_ciphertext e /\ env_nonce e' = env_nonce e /\
  env_payment_proof e' = env_payment_proof e /\ env_references e' = env_references e /\
  env_kind e' = env_kind e /\ env_sender e' = env_sender e /\ env_recipient e' = env_recipient e.
Proof. unfold refresh_for_resend. repeat case_match; done. Qed.

Lemma refresh_for_resend_ok e i now : env_sender e = ident_node_id i ->
  240000 < now - env_timestamp e ->
  let '(e', r) := refresh_for_resend e i now in
  r = Ok true /\ env_timestamp e' = now /\
  env_signature e' = ed_sign (ident_signing i) (signable_bytes e').
Proof.
  intros Hs Hage. unfold refresh_for_resend.
  rewrite bool_decide_eq_false_2 by (intros Hn; by apply Hn).
  rewrite (proj2 (Z.leb_gt _ _)) by solve_int. done.
Qed.
End WithPrims.

(** ** Bounded decoding never keeps or reads more than the cap allows *)

Lemma visit_seq_spec {A} cap msg (items : list (result string A)) out r rest :
  (length out <= cap)%nat -> visit_seq cap msg out items = (r, rest) ->
  (forall l, r = Ok l -> (length l <= cap)%nat /\ items = map Ok (drop (length out) l) /\
                         take (length out) l = out) /\
  (length items - length rest <= S (cap - length out))%nat.
Proof.
  revert out. induction items as [|[a|e] items IH]; intros out Hout Hv; simpl in Hv; simplify_eq.
  - split; [|simpl; lia]. intros l [= <-]. by rewrite drop_all, firstn_all.
  - destruct (Nat.leb_spec cap (length out)); simplify_eq; [split; [done|simpl; lia]|].
    destruct (IH (out ++ [a])) as [IH1 IH2]; [rewrite length_app; simpl; lia|done|].
    rewrite length_app in *. simpl in *. split; [|lia].
    intros l ->. destruct (IH1 l eq_refl) as (Hl & -> & Ht). split_and!; [done|..].
    + rewrite Nat.add_1_r in *. assert (Hx : l !! length out = Some a).
      { rewrite <- (take_drop (S (length out)) l), Ht, <- app_assoc.
        by rewrite lookup_app_r, Nat.sub_diag by lia. }
      by rewrite (drop_S l a _ Hx).
    + rewrite Nat.add_1_r in Ht. apply (f_equal (take (length out))) in Ht.
      rewrite take_take, Nat.min_l, take_app_length in Ht by lia. done.
  - split; [done|simpl; lia].
Qed.
