(* ===== verification/WebReply.v ===== *)
(** * Web service replies bound to a paid request

    [konsensus-core/src/web_reply.rs]: a page or manifest reply carries the
    request's payment hash and preimage at amount zero and is matched against
    the outstanding request this node paid for. *)

From S2P Require Import Prelude Kind Types Envelope.

Definition OUTSTANDING_TTL_MS : Z := 5 * 60 * 1000.

Record OutstandingWebRequest := mkOutstanding {
  request_id : MessageId;
  ow_peer : NodeId;
  ow_expected_reply_kind : Z;
  expires_at_ms : Z
}.

#[export] Instance OutstandingWebRequest_eq_dec : EqDecision OutstandingWebRequest.
Proof. solve_decision. Defined.

Definition expected_reply_kind (request_kind : Z) : option Z :=
  if request_kind =? KIND_PAGE_REQUEST then Some KIND_PAGE_RESPONSE
  else if request_kind =? KIND_WEB_MANIFEST then Some KIND_WEB_MANIFEST
  else None.

Definition reply_bound_proof (request_proof : PaymentProof) : PaymentProof :=
  mkProof (payment_hash request_proof) (preimage request_proof) 0.

Definition is_web_service_reply (e : UkmEnvelope) : bool :=
  ((env_kind e =? KIND_PAGE_RESPONSE) || (env_kind e =? KIND_WEB_MANIFEST)) &&
  (amount_msat (env_payment_proof e) =? 0) &&
  bool_decide (env_references e <> []).

Definition reply_matches_outstanding (e : UkmEnvelope) (o : OutstandingWebRequest) (now_ms : Z) : bool :=
  if expires_at_ms o <? now_ms then false
  else if bool_decide (env_sender e <> ow_peer o) then false
  else if negb (env_kind e =? ow_expected_reply_kind o) then false
  else bool_decide (request_id o ∈ env_references e).

Record bound_reply (e : UkmEnvelope) (o : OutstandingWebRequest) (now_ms : Z) : Prop := {
  br_live : now_ms <= expires_at_ms o;
  br_sender : env_sender e = ow_peer o;
  br_kind : env_kind e = ow_expected_reply_kind o;
  br_ref : request_id o ∈ env_references e
}.

Lemma reply_matches_outstanding_spec e o now :
  reply_matches_outstanding e o now = true <-> bound_reply e o now.
Proof.
  unfold reply_matches_outstanding. split.
  - intros Hm. destruct (expires_at_ms o <? now) eqn:?; [done|].
    case_bool_decide as Hs; [done|]. destruct (env_kind e =? _) eqn:?; [|done]. simpl in Hm.
    bool_to_prop. constructor; lia || done || by apply dec_stable in Hs.
  - intros [? Hs ? ?]. rewrite (proj2 (Z.ltb_ge _ _)) by lia.
    rewrite bool_decide_eq_false_2 by (intros Hn; by apply Hn).
    rewrite (proj2 (Z.eqb_eq _ _)) by done. by apply bool_decide_eq_true_2.
Qed.
