(* ===== verification/Gate.v ===== *)
(** * The payment gate

    [konsensus-core/src/gate.rs] with the trait types it consults
    ([traits/lightning.rs], [traits/pricing.rs]): the fail-closed admission of
    every incoming envelope.

    The replay store is the class [NonceStore] over an abstract store type;
    its methods are store-passing computations, so what a rejected envelope
    leaves behind is part of the model.  The pricing engine and the Lightning
    backend are records of query functions: one verification asks each query
    at most once.  The wall clock is an argument. *)

From S2P Require Import Prelude Float Text Kind Types Envelope WebReply.

(** ** The traits the gate consults *)

Inductive PaymentStatus := Pending | InFlight | Settled | Failed | Expired.
Inductive PaymentDirection := Incoming | Outgoing.

#[export] Instance PaymentStatus_eq_dec : EqDecision PaymentStatus.
Proof. solve_decision. Defined.
#[export] Instance PaymentDirection_eq_dec : EqDecision PaymentDirection.
Proof. solve_decision. Defined.

(** Their derived [Debug] output. *)
Definition PaymentStatus_debug (s : PaymentStatus) : string :=
  match s with
  | Pending => "Pending" | InFlight => "InFlight" | Settled => "Settled"
  | Failed => "Failed" | Expired => "Expired"
  end.
Definition PaymentDirection_debug (d : PaymentDirection) : string :=
  match d with Incoming => "Incoming" | Outgoing => "Outgoing" end.

Record PaymentDetails := mkDetails {
  pd_payment_hash : string;
  pd_preimage : option string;
  pd_amount_msat : Z;
  pd_status : PaymentStatus;
  pd_direction : PaymentDirection;
  pd_timestamp : Z;
  pd_memo : option string;
  pd_fee_msat : option Z
}.

(** The two [LightningProvider] methods of the admission path; an error is its
    [to_string()]. *)
Record LightningProvider := mkLightning {
  is_funding_payment : string -> result string bool;
  get_payment_status : string -> result string PaymentDetails
}.

Inductive PricingError : Type :=
| NotPriceable (kind : Z)
| ChainUnavailable (s : string)
| PricingOther (s : string).

#[export] Instance PricingError_eq_dec : EqDecision PricingError.
Proof. solve_decision. Defined.

Definition PricingError_to_string (e : PricingError) : string :=
  match e with
  | NotPriceable k => "kind " +:+ show_uint k +:+ " is not priceable"
  | ChainUnavailable s => "chain data unavailable: " +:+ s
  | PricingOther s => "pricing error: " +:+ s
  end.

Record PricingEngine := mkPricing {
  get_price_msat : Z -> result PricingError Z;
  get_category_price_msat : KindCategory -> result PricingError Z;
  category_price_overrides : option (list Z)
}.

Inductive PaidReplay := Accepted | NonceReused | PaymentReused.

#[export] Instance PaidReplay_eq_dec : EqDecision PaidReplay.
Proof. solve_decision. Defined.

(** [trait NonceStore]; an error is its [to_string()]. *)
Class NonceStore (S : Type) := {
  delivery_price_floor : UkmEnvelope -> Z -> Z -> comp S string (option Z);
  is_paid_envelope_accepted : UkmEnvelope -> comp S string bool;
  check_and_store_paid : Nonce -> bytes -> NodeId -> MessageId -> comp S string PaidReplay;
  check_and_store : Nonce -> NodeId -> comp S string bool;
  check_and_store_payment_hash : bytes -> NodeId -> MessageId -> comp S string bool;
  record_outgoing_web_request : bytes -> OutstandingWebRequest -> comp S string unit;
  take_outstanding_web_request : bytes -> comp S string (option OutstandingWebRequest)
}.

(** The trait's default bodies, for a backend that overrides only the one
    required method. *)
Definition default_store (S : Type) (cas : Nonce -> NodeId -> comp S string bool) : NonceStore S := {|
  delivery_price_floor _ _ _ := cret None;
  is_paid_envelope_accepted _ := cret false;
  check_and_store_paid _ _ _ _ := cthrow "atomic paid replay protection not implemented";
  check_and_store := cas;
  check_and_store_payment_hash _ _ _ :=
    cthrow "NonceStore::check_and_store_payment_hash not implemented: economic replay protection is fail-closed and must be overridden with a durable payment-hash store";
  record_outgoing_web_request _ _ := cret tt;
  take_outstanding_web_request _ := cret None
|}.

(** ** Rejections and configuration *)

Inductive GateRejection : Type :=
| InvalidEnvelope (s : string)
| NotWhitelisted (n : NodeId)
| InvalidSignature (s : string)
| MessageTooOld (age_ms max_ms : Z)
| MessageFromFuture (ahead_ms max_ms : Z)
| ReplayDetected
| NonceCheckFailed (s : string)
| InsufficientPayment (required_msat paid_msat : Z)
| PricingFailed (s : string)
| PaymentNotSettled (s : string)
| PaymentSettlementMismatch (s : string)
| PaymentProofReused (payment_hash : string)
| LightningUnavailable (s : string)
| KindNotPriceable (kind : Z)
| RecipientMismatch (claimed ours : NodeId)
| WebReplyUnbound.

#[export] Instance GateRejection_eq_dec : EqDecision GateRejection.
Proof. solve_decision. Defined.

Record GateConfig := mkGateConfig {
  max_message_age_ms : Z;
  max_future_ms : Z;
  verify_lightning_settlement : bool;
  min_admission_cost_msat : Z
}.

Definition GateConfig_default : GateConfig :=
  mkGateConfig (5 * 60 * 1000) (5 * 60 * 1000) false 0.

Definition DELIVERY_PRICE_WINDOW_SECS : Z := 3600.

Definition price_with_floor_msat (discounted min_admission_cost : Z) : Z :=
  Z.max (Z.max discounted min_admission_cost) 1000.

(** ** Service invoice purposes *)

Definition SERVICE_INVOICE_PREFIX : string := "konsensus:service:".

Definition service_invoice_purpose (kind : Z) : string := SERVICE_INVOICE_PREFIX +:+ show_uint kind.

Definition parse_service_invoice_purpose (purpose : string) : option Z :=
  match strip_prefix SERVICE_INVOICE_PREFIX purpose with
  | None => None
  | Some kind =>
      if bool_decide (kind <> "") && forallb is_ascii_digit (String.list_ascii_of_string kind) &&
         (String.length kind <=? 5)%nat
      then parse_uint U16_MAX kind
      else None
  end.

(** ** The checks *)

Section Gate.
Context `{Prims}.

Definition decode_hex_32 (field value : string) : result GateRejection bytes :=
  match hex_decode value with
  | Err e => Err (PaymentSettlementMismatch (field +:+ ": invalid hex: " +:+ e))
  | Ok b =>
      if (length b =? 32)%nat then Ok b
      else Err (PaymentSettlementMismatch (field +:+ ": wrong length"))
  end.

Definition verify_signature (e : UkmEnvelope) : result GateRejection unit :=
  let? key := map_err (fun err => InvalidSignature ("bad sender key: " +:+ CoreError_to_string err))
                (NodeId_to_verifying_key (env_sender e)) in
  map_err InvalidSignature (verify_strict key (signable_bytes e) (env_signature e)).

(** [trust_discount.clamp(0.0, 0.5)] of a finite discount, else no discount. *)
Definition clamp_discount (trust_discount : spec_float) : spec_float :=
  if is_finite trust_discount then f_clamp trust_discount F64.zero (F64.lit 1 2) else F64.zero.

Definition discounted_price (base_msat : Z) (clamped : spec_float) : Z :=
  if f_gt clamped F64.zero
  then F64.as_u64 (F64.ceil (F64.mul (F64.of_u64 base_msat) (F64.sub F64.one clamped)))
  else base_msat.

Definition verify_price (cfg : GateConfig) (e : UkmEnvelope) (pricing : PricingEngine)
    (trust_discount : spec_float) : result GateRejection Z :=
  let? base_msat :=
    match get_price_msat pricing (env_kind e) with
    | Ok price => Ok price
    | Err (NotPriceable kind) => Err (KindNotPriceable kind)
    | Err err => Err (PricingFailed (PricingError_to_string err))
    end in
  let discounted_msat := discounted_price base_msat (clamp_discount trust_discount) in
  let required_msat := price_with_floor_msat discounted_msat (min_admission_cost_msat cfg) in
  let paid_msat := amount_msat (env_payment_proof e) in
  if paid_msat <? required_msat then Err (InsufficientPayment required_msat paid_msat)
  else Ok required_msat.

(** The recipient binding, made after authentication and again in settlement. *)
Definition check_recipient (e : UkmEnvelope) (our_node_id : option NodeId) :
    result GateRejection unit :=
  match env_recipient e, our_node_id with
  | RNode claimed, Some ours =>
      if bool_decide (ours = claimed) then Ok tt else Err (RecipientMismatch claimed ours)
  | _, _ => Ok tt
  end.

Definition verify_settlement (e : UkmEnvelope) (lightning : LightningProvider)
    (required_msat : Z) (our_node_id : option NodeId) : result GateRejection PaymentDetails :=
  let proof := env_payment_proof e in
  let hash := hex_encode (payment_hash proof) in
  let? funding := map_err LightningUnavailable (is_funding_payment lightning hash) in
  check negb funding
    else PaymentSettlementMismatch "funding payments cannot admit communication" ;;
  let? details := map_err LightningUnavailable (get_payment_status lightning hash) in
  check bool_decide (pd_status details = Settled)
    else PaymentNotSettled ("payment status: " +:+ PaymentStatus_debug (pd_status details)) ;;
  let? returned_hash := decode_hex_32 "payment_hash" (pd_payment_hash details) in
  check bool_decide (returned_hash = payment_hash proof)
    else PaymentSettlementMismatch "backend returned a different payment hash" ;;
  check bool_decide (pd_direction details = Incoming)
    else PaymentSettlementMismatch
      ("payment direction is " +:+ PaymentDirection_debug (pd_direction details)
       +:+ ", expected incoming") ;;
  let? _ := check_recipient e our_node_id in
  check amount_msat proof <=? pd_amount_msat details
    else PaymentSettlementMismatch
      ("settled amount " +:+ show_uint (pd_amount_msat details)
       +:+ " msat is below envelope claim " +:+ show_uint (amount_msat proof) +:+ " msat") ;;
  check required_msat <=? pd_amount_msat details
    else InsufficientPayment required_msat (pd_amount_msat details) ;;
  match pd_preimage details with
  | None => Err (PaymentSettlementMismatch "settled payment has no preimage")
  | Some preimage_hex =>
      let? returned_preimage := decode_hex_32 "preimage" preimage_hex in
      check bool_decide (returned_preimage = preimage proof)
        else PaymentSettlementMismatch "backend preimage does not match envelope proof" ;;
      Ok details
  end.

Context {S : Type} {NS : NonceStore S}.

Definition try_accept_web_service_reply (cfg : GateConfig) (e : UkmEnvelope)
    (lightning : option LightningProvider) (now_ms : Z) : comp S GateRejection bool :=
  let proof := env_payment_proof e in
  let! outstanding := cmap_err NonceCheckFailed
    (take_outstanding_web_request (payment_hash proof)) in
  match outstanding with
  | None => cret false
  | Some outstanding => clift (
      check reply_matches_outstanding e outstanding now_ms else WebReplyUnbound ;;
      if negb (verify_lightning_settlement cfg) then Ok true
      else match lightning with
      | None => Err (LightningUnavailable
          "web reply binding requires Lightning when settlement verification is on")
      | Some ln =>
          let? details := map_err LightningUnavailable
            (get_payment_status ln (hex_encode (payment_hash proof))) in
          check bool_decide (pd_status details = Settled) &&
                bool_decide (pd_direction details = Outgoing)
            else WebReplyUnbound ;;
          match pd_preimage details with
          | None => Err (PaymentSettlementMismatch "outgoing payment has no preimage")
          | Some preimage_hex =>
              let? returned_preimage := decode_hex_32 "preimage" preimage_hex in
              check bool_decide (returned_preimage = preimage proof)
                else PaymentSettlementMismatch
                  "web reply preimage does not match our outgoing payment" ;;
              Ok true
          end
      end)
  end.

Definition whitelist_admits (whitelist : option (gset NodeId)) (sender : NodeId) : bool :=
  match whitelist with
  | Some allowed => bool_decide (sender ∈ allowed)
  | None => true
  end.

(** Steps 1 to 3 and the recipient binding: everything decided before the
    receipts are consulted. *)
Definition authenticate (cfg : GateConfig) (now_ms : Z) (e : UkmEnvelope)
    (whitelist : option (gset NodeId)) (our_node_id : option NodeId) : result GateRejection unit :=
  let? _ := map_err (fun err => InvalidEnvelope (CoreError_to_string err)) (validate e) in
  check whitelist_admits whitelist (env_sender e)
    else NotWhitelisted (env_sender e) ;;
  let age_ms := saturating_sub now_ms (env_timestamp e) in
  check age_ms <=? max_message_age_ms cfg
    else MessageTooOld age_ms (max_message_age_ms cfg) ;;
  let ahead_ms := saturating_sub (env_timestamp e) now_ms in
  check ahead_ms <=? max_future_ms cfg
    else MessageFromFuture ahead_ms (max_future_ms cfg) ;;
  let? _ := verify_signature e in
  check_recipient e our_node_id.

(** Steps 5 and 6.  [receipts] says whether a store was passed. *)
Definition price_and_settle (cfg : GateConfig) (now_ms : Z) (e : UkmEnvelope)
    (pricing : PricingEngine) (lightning : option LightningProvider)
    (trust_discount : spec_float) (our_node_id : option NodeId) (receipts : bool) :
    comp S GateRejection unit :=
  let claim := amount_msat (env_payment_proof e) in
  let! (required_msat, settlement_checked) :=
    match verify_price cfg e pricing trust_discount with
    | Ok required => cret (required, false)
    | Err (InsufficientPayment _ _ as rejection) =>
        if claim =? 0 then cthrow rejection
        else match receipts, lightning, verify_lightning_settlement cfg with
        | true, Some ln, true =>
            let! settled := clift (verify_settlement e ln 1 our_node_id) in
            let! quoted := cmap_err NonceCheckFailed
              (delivery_price_floor e (pd_timestamp settled) (now_ms / 1000)) in
            match quoted with
            | None => cthrow rejection
            | Some price =>
                let required := price_with_floor_msat price (min_admission_cost_msat cfg) in
                if (claim <? required) || (pd_amount_msat settled <? required)
                then cthrow rejection
                else cret (required, true)
            end
        | _, _, _ => cthrow rejection
        end
    | Err rejection => cthrow rejection
    end in
  if verify_lightning_settlement cfg && negb settlement_checked then
    match lightning with
    | Some ln => let! _ := clift (verify_settlement e ln required_msat our_node_id) in cret tt
    | None => cthrow (LightningUnavailable
        "settlement verification enabled but no Lightning provider")
    end
  else cret tt.

Definition validate_paid_envelope_inner (cfg : GateConfig) (now : Z) (e : UkmEnvelope)
    (pricing : PricingEngine) (whitelist : option (gset NodeId))
    (lightning : option LightningProvider) (trust_discount : spec_float)
    (our_node_id : option NodeId) (receipts : bool) : comp S GateRejection bool :=
  let now_ms := Z.min now U64_MAX in
  let! _ := clift (authenticate cfg now_ms e whitelist our_node_id) in
  let! already := (if receipts then cmap_err NonceCheckFailed (is_paid_envelope_accepted e)
                   else cret false) in
  if (already : bool) then cret true
  else
    let! bound := (if is_web_service_reply e && receipts
                   then try_accept_web_service_reply cfg e lightning now_ms
                   else cret false) in
    if (bound : bool) then cret false
    else
      let! _ := price_and_settle cfg now_ms e pricing lightning trust_discount our_node_id receipts in
      cret false.

Definition validate_paid_envelope cfg now e pricing whitelist lightning trust_discount our_node_id :
    comp S GateRejection unit :=
  let! _ := validate_paid_envelope_inner cfg now e pricing whitelist lightning trust_discount
              our_node_id false in cret tt.

Definition validate_received_paid_envelope cfg now e pricing whitelist lightning trust_discount
    our_node_id : comp S GateRejection bool :=
  validate_paid_envelope_inner cfg now e pricing whitelist lightning trust_discount our_node_id true.

(** The commit that ends an admission. *)
Definition commit_paid (e : UkmEnvelope) : comp S GateRejection unit :=
  let! outcome := cmap_err NonceCheckFailed
    (check_and_store_paid (env_nonce e) (payment_hash (env_payment_proof e)) (env_sender e) (env_id e)) in
  match outcome with
  | Accepted => cret tt
  | NonceReused => cthrow ReplayDetected
  | PaymentReused => cthrow (PaymentProofReused (hex_encode (payment_hash (env_payment_proof e))))
  end.

Definition verify cfg now e pricing whitelist lightning trust_discount our_node_id :
    comp S GateRejection unit :=
  let! _ := validate_paid_envelope_inner cfg now e pricing whitelist lightning trust_discount
              our_node_id true in
  commit_paid e.
End Gate.
