(* ===== verification/Samples.v ===== *)
(** * Sample inputs

    A signed and paid envelope over the concrete primitives, a price list and
    a Lightning backend that settled its payment: the inputs of the runs that
    witness the theorems. *)

From S2P Require Import Prelude Float Text Kind Types Concrete Envelope WebReply Gate.

Definition alice : NodeId := replicate 32 5.
Definition bob : NodeId := replicate 32 6.

Definition sample_proof : PaymentProof :=
  mkProof (@sha256 toy_prims (replicate 32 4)) (replicate 32 4) 5000.

Definition sample_builder : UkmEnvelopeBuilder :=
  builder_references
    (builder_timestamp
       (builder_new 1700000000000 (replicate 24 9) KIND_CHAT alice (RNode bob) [1; 2; 3] sample_proof)
       1700000000000) [].

Definition unsigned_sample : UkmEnvelope := @build toy_prims sample_builder.

Definition sign_as (key : bytes) (e : UkmEnvelope) : UkmEnvelope :=
  with_signature e (toy_sign key (signable_bytes e)).

Definition sample : UkmEnvelope := sign_as alice unsigned_sample.

(** The same message re-signed five minutes later. *)
Definition sample_retry : UkmEnvelope := sign_as alice (with_timestamp unsigned_sample 1700000300000).

Definition flat_pricing (msat : Z) : PricingEngine :=
  mkPricing (fun _ => Ok msat) (fun _ => Ok msat) (Some []).

Definition sample_details : PaymentDetails :=
  mkDetails (@hex_encode toy_prims (payment_hash sample_proof))
    (Some (@hex_encode toy_prims (preimage sample_proof))) 5000 Settled Incoming 1699999990 None None.

Definition sample_lightning : LightningProvider :=
  mkLightning (fun _ => Ok false) (fun _ => Ok sample_details).

Definition strict_config : GateConfig := mkGateConfig 300000 300000 true 0.

Lemma sample_wf : wf_envelope sample.
Proof. constructor; vm_compute; try done; repeat constructor; try done. Qed.
