(* ===== verification/EnvelopeProps.v ===== *)
(** * Properties of identifiers and envelopes *)

From S2P Require Import Prelude Text Kind Types Concrete Envelope WebReply Gate Samples.

(** The fields the signature covers. *)
Record same_signed (e1 e2 : UkmEnvelope) : Prop := {
  ss_kind : env_kind e1 = env_kind e2;
  ss_sender : env_sender e1 = env_sender e2;
  ss_recipient : env_recipient e1 = env_recipient e2;
  ss_timestamp : env_timestamp e1 = env_timestamp e2;
  ss_ciphertext : env_ciphertext e1 = env_ciphertext e2;
  ss_nonce : env_nonce e1 = env_nonce e2;
  ss_proof : env_payment_proof e1 = env_payment_proof e2
}.

(** C17: two envelopes have the same signed bytes exactly when they agree on
    kind, sender, recipient, timestamp, ciphertext, nonce and the whole payment
    proof; the encoding confuses no two of them, whatever the length of the
    ciphertext and the form of the recipient.  The references are not signed. *)
Theorem signature_covers_exactly e1 e2 : wf_envelope e1 -> wf_envelope e2 ->
  signable_bytes e1 = signable_bytes e2 <-> same_signed e1 e2.
Proof.
  intros W1 W2. split.
  - intros Heq. destruct (signable_bytes_determines e1 e2 W1 W2 Heq) as (? & ? & ? & ? & ? & ? & ?).
    by constructor.
  - intros []. by apply signable_bytes_covers.
Qed.

Lemma signature_covers_exactly_witness :
  signable_bytes sample = signable_bytes sample <-> same_signed sample sample.
Proof. apply signature_covers_exactly; apply sample_wf. Defined.

Section WithPrims.
Context {PR : Prims}.

(** Renewing an envelope for a resend never changes what was paid for: id,
    kind, sender, recipient, ciphertext, nonce, references and payment proof.
    It refuses another sender's envelope, leaves a wrapper younger than four
    minutes alone, and otherwise stamps the present time and signs the new
    bytes with the node's own key. *)
Theorem resend_renews_only_the_wrapper e i now :
  let '(e', r) := refresh_for_resend e i now in
  (env_id e' = env_id e /\ env_kind e' = env_kind e /\ env_sender e' = env_sender e /\
   env_recipient e' = env_recipient e /\ env_ciphertext e' = env_ciphertext e /\
   env_nonce e' = env_nonce e /\ env_references e' = env_references e /\
   env_payment_proof e' = env_payment_proof e) /\
  match r with
  | Err _ => env_sender e <> ident_node_id i /\ e' = e
  | Ok false => env_sender e = ident_node_id i /\ now - env_timestamp e <= 240000 /\ e' = e
  | Ok true => env_sender e = ident_node_id i /\ 240000 < now - env_timestamp e /\
      env_timestamp e' = now /\ env_signature e' = ed_sign (ident_signing i) (signable_bytes e')
  end.
Proof.
  pose proof (refresh_for_resend_frame e i now) as Hframe.
  destruct (refresh_for_resend e i now) as [e' r] eqn:Hr. cbn [fst] in Hframe.
  split; [tauto|]. unfold refresh_for_resend in Hr.
  case_bool_decide as Hs; [by injection Hr as <- <-|].
  destruct (Z.leb_spec (saturating_sub now (env_timestamp e)) 240000); injection Hr as <- <-.
  - split_and!; [done|solve_int|done].
  - split_and!; [done|solve_int|done..].
Qed.

(** An envelope built around a matching preimage, a non-empty ciphertext
    and at most 64 references passes validation, with the identifier the
    builder computed. *)
Theorem built_envelope_validates b :
  b_ciphertext b <> [] -> sha256 (preimage (b_payment_proof b)) = payment_hash (b_payment_proof b) ->
  (length (b_references b) <= 64)%nat -> validate (build b) = Ok tt.
Proof. apply build_valid. Qed.

(** Both parties read the same safety number, and it is always twelve
    groups of five characters with single spaces between them. *)
Theorem safety_number_symmetric a b :
  safety_number a b = safety_number b a /\ String.length (safety_number a b) = 71%nat.
Proof. split; [apply safety_number_comm|apply safety_number_length]. Qed.
End WithPrims.

Lemma built_envelope_validates_witness : @validate toy_prims (@build toy_prims sample_builder) = Ok tt.
Proof.
  apply (@built_envelope_validates toy_prims sample_builder);
    [discriminate|vm_compute; reflexivity|simpl; lia].
Defined.

(** Identifiers survive the wire: a 32-byte node identifier serialised as
    hex is read back by the bounded deserialiser and by [NodeId::from_hex]. *)
Theorem node_id_hex_roundtrip `{HexLaws} n : is_array 32 n ->
  fixed_hex 32 (hex_serialize n) = Ok n /\ NodeId_from_hex (NodeId_to_hex n) = Ok n.
Proof. intros Hn. split; [by apply fixed_hex_roundtrip|by apply NodeId_hex_roundtrip]. Qed.

Lemma node_id_hex_roundtrip_witness :
  @fixed_hex toy_prims 32 (@hex_serialize toy_prims alice) = Ok alice /\
  @NodeId_from_hex toy_prims (@NodeId_to_hex toy_prims alice) = Ok alice.
Proof. apply (@node_id_hex_roundtrip toy_prims toy_hex_laws). vm_compute. split; [done|]. repeat constructor; done. Defined.

(** The bounded decoders of an envelope keep exactly the elements they
    were given, at most the cap, and never read more than one element past
    it, however long the sender declares the list to be. *)
Theorem bounded_decoding_stops_at_cap {A} cap msg (items : list (result string A)) :
  let '(r, rest) := visit_seq cap msg [] items in
  (forall l, r = Ok l -> items = map Ok l /\ (length l <= cap)%nat) /\
  (length items - length rest <= S cap)%nat.
Proof.
  destruct (visit_seq cap msg [] items) as [r rest] eqn:Hv.
  destruct (visit_seq_spec cap msg items [] r rest) as [Hok Hread]; [simpl; lia|done|].
  simpl in *. split; [|lia]. intros l ->. destruct (Hok l eq_refl) as (Hl & -> & _). done.
Qed.

(** The purpose a sender writes on an invoice request for a kind is read
    back by the recipient as that kind. *)
Theorem service_purpose_roundtrip k : is_u16 k ->
  parse_service_invoice_purpose (service_invoice_purpose k) = Some k.
Proof.
  intros Hk. unfold parse_service_invoice_purpose, service_invoice_purpose.
  rewrite strip_prefix_app, list_ascii_show.
  pose proof (dec_digits_range 39 k ltac:(solve_int)) as Hr.
  pose proof (dec_digits_length 39 4 k ltac:(unfold is_u16, U16_MAX in Hk; simpl; lia)) as Hlen.
  destruct (dec_digits_cons 38 k) as (d & ds & Heq).
  rewrite bool_decide_eq_true_2 by (unfold show_uint; rewrite Heq; done).
  assert (forallb is_ascii_digit (map digit_char (dec_digits 39 k)) = true) as ->.
  { apply forallb_forall. intros c (x & <- & Hx)%in_map_iff. rewrite Forall_forall in Hr.
    apply digit_char_spec, Hr. by apply list_elem_of_In. }
  unfold show_uint at 1. rewrite length_string_of_list, length_map, (proj2 (Nat.leb_le _ _) Hlen).
  apply parse_show_uint; [apply Hk|unfold is_u16, U16_MAX in Hk; lia].
Qed.

Lemma service_purpose_roundtrip_witness :
  parse_service_invoice_purpose (service_invoice_purpose KIND_CALL_BLOCK) = Some KIND_CALL_BLOCK.
Proof. apply service_purpose_roundtrip. vm_compute. split; discriminate. Defined.
