(* ===== verification/GateSpec.v ===== *)
(** * What an admission means

    The abstract contract of the payment gate and the proofs that the code of
    [Gate] implements it: characterisations of every check, soundness and
    completeness of [verify], the price bounds, and what a rejection leaves in
    the replay store. *)

From S2P Require Import Prelude Float FloatRound Text Kind Types Envelope WebReply Gate.

Section Spec.
Context {PR : Prims}.

(** ** The checks before the receipts *)

Record authentic (cfg : GateConfig) (now_ms : Z) (e : UkmEnvelope)
    (whitelist : option (gset NodeId)) (our_node_id : option NodeId) : Prop := {
  au_valid : valid_envelope e;
  au_whitelist : forall allowed, whitelist = Some allowed -> env_sender e ∈ allowed;
  au_not_old : saturating_sub now_ms (env_timestamp e) <= max_message_age_ms cfg;
  au_not_future : saturating_sub (env_timestamp e) now_ms <= max_future_ms cfg;
  au_signed : exists key, vk_from_bytes (env_sender e) = Ok key /\
    verify_strict key (signable_bytes e) (env_signature e) = Ok tt;
  au_recipient : forall claimed ours, env_recipient e = RNode claimed ->
    our_node_id = Some ours -> claimed = ours
}.

Lemma verify_signature_spec e : verify_signature e = Ok tt <->
  exists key, vk_from_bytes (env_sender e) = Ok key /\
    verify_strict key (signable_bytes e) (env_signature e) = Ok tt.
Proof.
  unfold verify_signature, NodeId_to_verifying_key.
  destruct (vk_from_bytes (env_sender e)) as [key|err]; simpl; [|by split; [|intros (? & ? & _)]].
  split.
  - destruct (verify_strict key _ _) as [[]|err] eqn:E; simpl; [|done]. by exists key.
  - by intros (key' & [= <-] & ->).
Qed.

Lemma whitelist_admits_spec whitelist (sender : NodeId) : whitelist_admits whitelist sender = true <->
  forall allowed, whitelist = Some allowed -> sender ∈ allowed.
Proof.
  destruct whitelist as [allowed|]; simpl; [|naive_solver].
  rewrite bool_decide_eq_true. naive_solver.
Qed.

Lemma check_recipient_spec e ours : check_recipient e ours = Ok tt <->
  forall claimed o, env_recipient e = RNode claimed -> ours = Some o -> claimed = o.
Proof.
  unfold check_recipient. destruct (env_recipient e) as [c| |], ours as [o|]; try naive_solver.
  case_bool_decide; naive_solver.
Qed.

Lemma authenticate_spec cfg now e wl ours :
  authenticate cfg now e wl ours = Ok tt <-> authentic cfg now e wl ours.
Proof.
  unfold authenticate. split.
  - destruct (validate e) as [[]|] eqn:Hv; simpl; [|done]. apply validate_spec in Hv.
    destruct (whitelist_admits wl (env_sender e)) eqn:Hw; [|done].
    rewrite whitelist_admits_spec in Hw.
    destruct (Z.leb_spec (saturating_sub now (env_timestamp e)) (max_message_age_ms cfg)); [|done].
    destruct (Z.leb_spec (saturating_sub (env_timestamp e) now) (max_future_ms cfg)); [|done].
    destruct (verify_signature e) as [[]|] eqn:Hs; simpl; [|done]. apply verify_signature_spec in Hs.
    rewrite check_recipient_spec. intros Hr. by constructor.
  - intros [Hv Hw Ho Hf Hs Hr]. apply validate_spec in Hv. rewrite Hv. simpl.
    rewrite <- whitelist_admits_spec in Hw. rewrite Hw.
    rewrite (proj2 (Z.leb_le _ _) Ho), (proj2 (Z.leb_le _ _) Hf).
    apply verify_signature_spec in Hs. rewrite Hs. simpl. by apply check_recipient_spec.
Qed.

(** ** Prices *)

Definition required_price (cfg : GateConfig) (base : Z) (trust_discount : spec_float) : Z :=
  price_with_floor_msat (discounted_price base (clamp_discount trust_discount))
    (min_admission_cost_msat cfg).

Lemma verify_price_ok cfg e pricing d r : verify_price cfg e pricing d = Ok r <->
  exists base, get_price_msat pricing (env_kind e) = Ok base /\
    r = required_price cfg base d /\ r <= amount_msat (env_payment_proof e).
Proof.
  unfold verify_price, required_price.
  destruct (get_price_msat pricing (env_kind e)) as [base|[]]; simpl; try naive_solver.
  destruct (Z.ltb_spec (amount_msat (env_payment_proof e))
    (price_with_floor_msat (discounted_price base (clamp_discount d)) (min_admission_cost_msat cfg)));
    split; intros; try (by destruct_and?); try naive_solver lia.
Qed.

Lemma verify_price_insufficient cfg e pricing d r p :
  verify_price cfg e pricing d = Err (InsufficientPayment r p) <->
  exists base, get_price_msat pricing (env_kind e) = Ok base /\ r = required_price cfg base d /\
    p = amount_msat (env_payment_proof e) /\ p < r.
Proof.
  unfold verify_price, required_price.
  destruct (get_price_msat pricing (env_kind e)) as [base|[]]; simpl; try naive_solver.
  destruct (Z.ltb_spec (amount_msat (env_payment_proof e))
    (price_with_floor_msat (discounted_price base (clamp_discount d)) (min_admission_cost_msat cfg)));
    split; intros; try naive_solver lia.
Qed.

Lemma required_price_floor cfg base d :
  1000 <= required_price cfg base d /\ min_admission_cost_msat cfg <= required_price cfg base d.
Proof. unfold required_price, price_with_floor_msat. lia. Qed.

(** A half-price discount at most, never a premium, for every base price a
    binary64 holds exactly. *)

Lemma F64_valid_zero : valid F64.prec F64.emax F64.zero.
Proof. reflexivity. Qed.
Lemma F64_valid_half : valid F64.prec F64.emax (F64.lit 1 2).
Proof. reflexivity. Qed.
Lemma F64_half_num : fnum F64.prec F64.emax (F64.lit 1 2) = 2 ^ (K F64.prec F64.emax - 1).
Proof. reflexivity. Qed.

Lemma clamp_discount_spec d : valid F64.prec F64.emax d ->
  let c := clamp_discount d in
  valid F64.prec F64.emax c /\ is_finite c = true /\
  0 <= fnum F64.prec F64.emax c <= 2 ^ (K F64.prec F64.emax - 1).
Proof.
  intros Vd. cbv zeta. unfold clamp_discount. destruct (is_finite d) eqn:Fd; [|done].
  destruct (clamp_spec F64.prec F64.emax eq_refl eq_refl d F64.zero (F64.lit 1 2))
    as (V & F & E); try done.
  rewrite E, F64_half_num. change (fnum F64.prec F64.emax F64.zero) with 0.
  assert (0 < 2 ^ (K F64.prec F64.emax - 1)) by reflexivity.
  split_and!; [done..| |]; lia.
Qed.

(** A finite float with a non-negative value that compares above zero has no
    sign bit. *)
Lemma f_gt_zero_nonneg c : valid F64.prec F64.emax c -> is_finite c = true ->
  f_gt c F64.zero = true -> nonneg c.
Proof. destruct c as [[]|[]| |[] m e]; cbn; try done. Qed.

Lemma discounted_price_bounds base d : valid F64.prec F64.emax d -> 0 <= base <= 2 ^ 53 ->
  (base + 1) / 2 <= discounted_price base (clamp_discount d) <= base.
Proof.
  intros Vd Hb. destruct (clamp_discount_spec d Vd) as (V & F & Hc).
  unfold discounted_price. destruct (f_gt _ _) eqn:Hg.
  - pose proof (f_gt_zero_nonneg _ V F Hg) as N.
    apply (discounted_ceil_bounds F64.prec F64.emax eq_refl eq_refl U64_MAX); try done;
      [solve_int|apply Hc].
  - assert ((base + 1) / 2 < base + 1) by (apply Z.div_lt_upper_bound; lia). lia.
Qed.

(** No discount at all for NaN, an infinity or a non-positive value. *)
Lemma discounted_price_none base d :
  is_finite d = false \/ f_gt d F64.zero = false -> discounted_price base (clamp_discount d) = base.
Proof.
  unfold discounted_price, clamp_discount. destruct (is_finite d) eqn:Fd; [|done].
  intros [|Hd]; [done|]. destruct d as [s|s| |[] m e]; try done.
Qed.

(** ** Settlement *)

Record settled_for (e : UkmEnvelope) (ln : LightningProvider) (required : Z)
    (ours : option NodeId) (d : PaymentDetails) : Prop := {
  st_not_funding : is_funding_payment ln (hex_encode (payment_hash (env_payment_proof e))) = Ok false;
  st_details : get_payment_status ln (hex_encode (payment_hash (env_payment_proof e))) = Ok d;
  st_settled : pd_status d = Settled;
  st_incoming : pd_direction d = Incoming;
  st_hash : hex_decode (pd_payment_hash d) = Ok (payment_hash (env_payment_proof e));
  st_claim : amount_msat (env_payment_proof e) <= pd_amount_msat d;
  st_required : required <= pd_amount_msat d;
  st_preimage : exists hex, pd_preimage d = Some hex /\
    hex_decode hex = Ok (preimage (env_payment_proof e));
  st_lengths : length (payment_hash (env_payment_proof e)) = 32%nat /\
    length (preimage (env_payment_proof e)) = 32%nat;
  st_recipient : forall claimed o, env_recipient e = RNode claimed -> ours = Some o -> claimed = o
}.

Lemma decode_hex_32_ok field v b : decode_hex_32 field v = Ok b <->
  hex_decode v = Ok b /\ length b = 32%nat.
Proof.
  unfold decode_hex_32. destruct (hex_decode v) as [b'|]; [|naive_solver].
  destruct (Nat.eqb_spec (length b') 32); naive_solver.
Qed.

Lemma verify_settlement_spec e ln required ours d :
  verify_settlement e ln required ours = Ok d <-> settled_for e ln required ours d.
Proof.
  unfold verify_settlement. split.
  - intros Hv.
    destruct (is_funding_payment _ _) as [[]|] eqn:Hf; simpl in Hv; try done.
    destruct (get_payment_status _ _) as [d'|] eqn:Hd; simpl in Hv; [|done].
    case_bool_decide as Hst; [|done].
    destruct (decode_hex_32 "payment_hash" _) as [h|] eqn:Hh; simpl in Hv; [|done].
    apply decode_hex_32_ok in Hh as [Hh Hhl]. case_bool_decide as Heq; [|done].
    case_bool_decide as Hdir; [|done].
    destruct (check_recipient e ours) as [[]|] eqn:Hr; simpl in Hv; [|done].
    rewrite check_recipient_spec in Hr.
    destruct (Z.leb_spec (amount_msat (env_payment_proof e)) (pd_amount_msat d')); [|done].
    destruct (Z.leb_spec required (pd_amount_msat d')); [|done].
    destruct (pd_preimage d') as [hex|] eqn:Hp; [|done].
    destruct (decode_hex_32 "preimage" hex) as [p|] eqn:Hx; simpl in Hv; [|done].
    apply decode_hex_32_ok in Hx as [Hx Hxl]. case_bool_decide as Hpe; [|done].
    injection Hv as <-. subst. constructor; eauto.
  - intros [Hf Hd Hst Hdir Hh Hc Hq (hex & Hp & Hx) [Hl1 Hl2] Hr].
    rewrite Hf, Hd. simpl. rewrite bool_decide_eq_true_2 by done.
    rewrite (proj2 (decode_hex_32_ok _ _ _) (conj Hh Hl1)). simpl.
    rewrite !bool_decide_eq_true_2 by done.
    rewrite (proj2 (check_recipient_spec e ours) Hr). simpl.
    rewrite (proj2 (Z.leb_le _ _) Hc), (proj2 (Z.leb_le _ _) Hq), Hp.
    rewrite (proj2 (decode_hex_32_ok _ _ _) (conj Hx Hl2)). simpl.
    by rewrite bool_decide_eq_true_2.
Qed.

(** ** Grounds for admission

    The abstract contract: an envelope is validated because it is a receipt
    already honoured, a reply bound to a request this node paid for, a payment
    at the current price, or a settled payment at a price this node quoted. *)

Context {S : Type} {NS : NonceStore S}.

Definition paid_now (cfg : GateConfig) (e : UkmEnvelope) (pricing : PricingEngine)
    (lightning : option LightningProvider) (d : spec_float) (ours : option NodeId) : Prop :=
  exists base, get_price_msat pricing (env_kind e) = Ok base /\
    required_price cfg base d <= amount_msat (env_payment_proof e) /\
    (verify_lightning_settlement cfg = true -> exists ln det, lightning = Some ln /\
       settled_for e ln (required_price cfg base d) ours det).

Definition paid_quote (cfg : GateConfig) (now_ms : Z) (e : UkmEnvelope) (pricing : PricingEngine)
    (lightning : option LightningProvider) (d : spec_float) (ours : option NodeId) (s s' : S) : Prop :=
  exists base ln det price, get_price_msat pricing (env_kind e) = Ok base /\
    amount_msat (env_payment_proof e) < required_price cfg base d /\
    amount_msat (env_payment_proof e) <> 0 /\
    verify_lightning_settlement cfg = true /\ lightning = Some ln /\
    settled_for e ln 1 ours det /\
    delivery_price_floor e (pd_timestamp det) (now_ms / 1000) s = (s', Ok (Some price)) /\
    price_with_floor_msat price (min_admission_cost_msat cfg) <= amount_msat (env_payment_proof e).

Lemma price_and_settle_spec cfg now_ms e pricing lightning d ours s s' :
  price_and_settle cfg now_ms e pricing lightning d ours true s = (s', Ok tt) <->
  (paid_now cfg e pricing lightning d ours /\ s' = s) \/
  paid_quote cfg now_ms e pricing lightning d ours s s'.
Proof.
  unfold price_and_settle, cbind. split.
  - destruct (verify_price cfg e pricing d) as [r|rej] eqn:Hp.
    + apply verify_price_ok in Hp as (base & Hb & -> & Hle). simpl. intros Hv. left.
      destruct (verify_lightning_settlement cfg) eqn:Hc; simpl in Hv;
        [|injection Hv as <-; split; [exists base; split_and!; congruence|done]].
      destruct lightning as [ln|]; [|done]. unfold clift in Hv.
      destruct (verify_settlement e ln _ ours) as [det|] eqn:Hs; simpl in Hv; [|done].
      apply verify_settlement_spec in Hs. injection Hv as <-. split; [|done]. exists base. eauto 10.
    + destruct rej; simpl; try done. destruct (Z.eqb_spec (amount_msat (env_payment_proof e)) 0); [done|].
      apply verify_price_insufficient in Hp as (base & Hb & -> & -> & Hlt).
      destruct lightning as [ln|]; [|done].
      destruct (verify_lightning_settlement cfg) eqn:Hc; [|done]. unfold clift, cmap_err.
      destruct (verify_settlement e ln 1 ours) as [det|] eqn:Hs; simpl; [|done].
      apply verify_settlement_spec in Hs.
      destruct (delivery_price_floor e _ _ s) as [s1 [[price|]|]] eqn:Hq; simpl; try done.
      destruct (_ || _) eqn:Hcmp; simpl; [done|]. intros [= ->]. right.
      bool_to_prop. exists base, ln, det, price. split_and!; done.
  - intros [[(base & Hb & Hle & Hset) ->]|(base & ln & det & price & Hb & Hlt & Hnz & Hc & -> & Hs & Hq & Hle)].
    + rewrite (proj2 (verify_price_ok cfg e pricing d _) (ex_intro _ base (conj Hb (conj eq_refl Hle)))).
      simpl. destruct (verify_lightning_settlement cfg); [|done].
      destruct (Hset eq_refl) as (ln & det & -> & Hs). simpl. unfold clift.
      by rewrite (proj2 (verify_settlement_spec _ _ _ _ _) Hs).
    + rewrite (proj2 (verify_price_insufficient cfg e pricing d (required_price cfg base d) _))
        by (exists base; eauto).
      rewrite (proj2 (Z.eqb_neq _ _) Hnz), Hc. unfold clift, cmap_err. cbn -[price_with_floor_msat].
      rewrite (proj2 (verify_settlement_spec _ _ _ _ _) Hs), Hq. cbn -[price_with_floor_msat].
      pose proof (st_claim _ _ _ _ _ Hs).
      by rewrite (proj2 (Z.ltb_ge _ _) Hle), (proj2 (Z.ltb_ge _ _)) by lia.
Qed.

(** Our own settled outgoing payment with the reply's preimage. *)
Definition outgoing_settled (e : UkmEnvelope) (ln : LightningProvider) : Prop :=
  exists det hex, get_payment_status ln (hex_encode (payment_hash (env_payment_proof e))) = Ok det /\
    pd_status det = Settled /\ pd_direction det = Outgoing /\ pd_preimage det = Some hex /\
    hex_decode hex = Ok (preimage (env_payment_proof e)) /\
    length (preimage (env_payment_proof e)) = 32%nat.

Definition web_bound (cfg : GateConfig) (now_ms : Z) (e : UkmEnvelope)
    (lightning : option LightningProvider) (s s' : S) : Prop :=
  exists o, take_outstanding_web_request (payment_hash (env_payment_proof e)) s = (s', Ok (Some o)) /\
    bound_reply e o now_ms /\
    (verify_lightning_settlement cfg = true ->
       exists ln, lightning = Some ln /\ outgoing_settled e ln).

Lemma try_accept_spec cfg e lightning now_ms s s' b :
  try_accept_web_service_reply cfg e lightning now_ms s = (s', Ok b) <->
  (b = true /\ web_bound cfg now_ms e lightning s s') \/
  (b = false /\ take_outstanding_web_request (payment_hash (env_payment_proof e)) s = (s', Ok None)).
Proof.
  unfold try_accept_web_service_reply, web_bound, outgoing_settled, cbind, cmap_err.
  destruct (take_outstanding_web_request _ s) as [s1 [[o|]|err]]; simpl;
    [|split; [intros [= <- <-]; by right|by intros [[_ (? & [=] & _)]|[-> [= <-]]]]
     |by split; [|intros [[_ (? & [=] & _)]|[_ [=]]]]].
  unfold clift. split.
  - intros [= <- Hv]. left.
    destruct (reply_matches_outstanding e o now_ms) eqn:Hm; [|done].
    apply reply_matches_outstanding_spec in Hm.
    destruct (verify_lightning_settlement cfg) eqn:Hc; simpl in Hv; [|naive_solver].
    destruct lightning as [ln|]; [|done].
    destruct (get_payment_status ln _) as [det|] eqn:Hd; simpl in Hv; [|done].
    case_bool_decide; [|done]. case_bool_decide; [|done]. simpl in Hv.
    destruct (pd_preimage det) as [hex|] eqn:Hh; [|done].
    destruct (decode_hex_32 "preimage" hex) as [p|] eqn:Hx; simpl in Hv; [|done].
    apply decode_hex_32_ok in Hx as [Hx Hl]. case_bool_decide; [|done].
    split; [congruence|]. subst p. exists o. split_and!; [done..|].
    intros _. exists ln. split; [done|]. exists det, hex. auto 10.
  - intros [[-> (o' & [= <- <-] & Hb & Hset)]|[_ [=]]]. f_equal.
    apply reply_matches_outstanding_spec in Hb. rewrite Hb.
    destruct (verify_lightning_settlement cfg); [|done]. simpl.
    destruct (Hset eq_refl) as (ln & -> & det & hex & Hd & Hs & Ho & Hp & Hx & Hl).
    rewrite Hd. simpl. rewrite Hp, !bool_decide_eq_true_2 by done. simpl.
    rewrite (proj2 (decode_hex_32_ok _ _ _) (conj Hx Hl)). simpl. by rewrite bool_decide_eq_true_2.
Qed.

(** The envelope is not a web reply, or there is no request it could answer. *)
Definition no_outstanding (e : UkmEnvelope) (s s' : S) : Prop :=
  if is_web_service_reply e
  then take_outstanding_web_request (payment_hash (env_payment_proof e)) s = (s', Ok None)
  else s' = s.

Section Validated.
Context (cfg : GateConfig) (now : Z) (e : UkmEnvelope) (pricing : PricingEngine)
  (whitelist : option (gset NodeId)) (lightning : option LightningProvider)
  (d : spec_float) (ours : option NodeId).

Local Abbreviation now_ms := (Z.min now U64_MAX).

Inductive validated (s : S) : S -> bool -> Prop :=
| by_receipt s1 :
    is_paid_envelope_accepted e s = (s1, Ok true) ->
    validated s s1 true
| by_web_reply s1 s2 :
    is_paid_envelope_accepted e s = (s1, Ok false) ->
    is_web_service_reply e = true ->
    web_bound cfg now_ms e lightning s1 s2 ->
    validated s s2 false
| by_price s1 s2 :
    is_paid_envelope_accepted e s = (s1, Ok false) ->
    no_outstanding e s1 s2 ->
    paid_now cfg e pricing lightning d ours ->
    validated s s2 false
| by_quote s1 s2 s3 :
    is_paid_envelope_accepted e s = (s1, Ok false) ->
    no_outstanding e s1 s2 ->
    paid_quote cfg now_ms e pricing lightning d ours s2 s3 ->
    validated s s3 false.

Lemma inner_sound s s' b :
  validate_paid_envelope_inner cfg now e pricing whitelist lightning d ours true s = (s', Ok b) ->
  authentic cfg now_ms e whitelist ours /\ validated s s' b.
Proof.
  unfold validate_paid_envelope_inner, cbind, clift, cmap_err. cbv zeta.
  destruct (authenticate _ _ _ _ _) as [[]|] eqn:Ha; [|done]. apply authenticate_spec in Ha.
  intros Hv. split; [done|].
  destruct (is_paid_envelope_accepted e s) as [s1 [[]|]] eqn:Hr; simpl in Hv; [|..|done].
  { injection Hv as <- <-. by apply by_receipt. }
  rewrite andb_true_r in Hv.
  destruct (if is_web_service_reply e then _ else _) as [s2 [w|]] eqn:Hw; [|done].
  assert (Hc : (w = true /\ is_web_service_reply e = true /\ web_bound cfg now_ms e lightning s1 s2) \/
               (w = false /\ no_outstanding e s1 s2)).
  { unfold no_outstanding. destruct (is_web_service_reply e).
    - apply try_accept_spec in Hw. naive_solver.
    - injection Hw as <- <-. auto. }
  destruct Hc as [(-> & Hweb & Hb)|(-> & Hn)].
  { injection Hv as <- <-. by eapply by_web_reply. }
  destruct (price_and_settle _ _ _ _ _ _ _ _ s2) as [s3 [[]|]] eqn:Hp; [|done].
  injection Hv as <- <-. apply price_and_settle_spec in Hp as [[Hp ->]|Hq].
  - by eapply by_price.
  - by eapply by_quote.
Qed.

Lemma inner_complete s s' b :
  authentic cfg now_ms e whitelist ours -> validated s s' b ->
  validate_paid_envelope_inner cfg now e pricing whitelist lightning d ours true s = (s', Ok b).
Proof.
  intros Ha%authenticate_spec Hv.
  unfold validate_paid_envelope_inner, cbind, clift, cmap_err. cbv zeta. rewrite Ha, andb_true_r.
  destruct Hv as [s1 Hr|s1 s2 Hr Hweb Hb|s1 s2 Hr Hn Hp|s1 s2 s3 Hr Hn Hq]; rewrite Hr; simpl.
  - done.
  - rewrite Hweb, (proj2 (try_accept_spec cfg e lightning now_ms s1 s2 true)) by auto. done.
  - assert (Hs := proj2 (price_and_settle_spec cfg now_ms e pricing lightning d ours s2 s2)
      (or_introl (conj Hp eq_refl))).
    unfold no_outstanding in Hn. destruct (is_web_service_reply e); [|subst s2; simpl; by rewrite Hs].
    rewrite (proj2 (try_accept_spec cfg e lightning now_ms s1 s2 false)) by auto. by rewrite Hs.
  - assert (Hs := proj2 (price_and_settle_spec cfg now_ms e pricing lightning d ours s2 s3)
      (or_intror Hq)).
    unfold no_outstanding in Hn. destruct (is_web_service_reply e); [|subst s2; simpl; by rewrite Hs].
    rewrite (proj2 (try_accept_spec cfg e lightning now_ms s1 s2 false)) by auto. by rewrite Hs.
Qed.

Definition commit_outcome (s s' : S) (o : PaidReplay) : Prop :=
  check_and_store_paid (env_nonce e) (payment_hash (env_payment_proof e)) (env_sender e) (env_id e) s
  = (s', Ok o).

Lemma commit_paid_ok s s' : commit_paid e s = (s', Ok tt) <-> commit_outcome s s' Accepted.
Proof.
  unfold commit_paid, commit_outcome, cbind, cmap_err, cret, cthrow.
  destruct (check_and_store_paid _ _ _ _ s) as [s1 [[]|]]; simpl; split; congruence.
Qed.

Lemma verify_refines s s' :
  verify cfg now e pricing whitelist lightning d ours s = (s', Ok tt) <->
  authentic cfg now_ms e whitelist ours /\
  exists s1 b, validated s s1 b /\ commit_outcome s1 s' Accepted.
Proof.
  unfold verify, cbind at 1. split.
  - destruct (validate_paid_envelope_inner _ _ _ _ _ _ _ _ _ s) as [s1 [b|]] eqn:Hi; [|done].
    intros Hc%commit_paid_ok. apply inner_sound in Hi as [Ha Hv]. eauto.
  - intros (Ha & s1 & b & Hv & Hc). rewrite (inner_complete _ _ _ Ha Hv).
    by apply commit_paid_ok.
Qed.
End Validated.
End Spec.
