(* ===== verification/Replay.v ===== *)
(** * Replay protection of the gate

    What the gate needs of its replay store ([ReplayView] and
    [NonceStoreLaws]), and what it gives in return: an admission consumes a
    fresh nonce and a fresh payment hash, and a rejection consumes neither.
    [StoreTasks] is what the other tasks of the node do to the same store,
    the clean-up of expired nonces among them. *)

From S2P Require Import Prelude Float Types Envelope WebReply Gate GateSpec.

(** ** The promises of a replay store *)

(** The consumed keys a store represents, each nonce with the time it was
    recorded, and the store's clock (both in milliseconds). *)
Class ReplayView (S : Type) := {
  nonce_recorded : S -> Nonce -> option Z;
  payment_used : S -> bytes -> Prop;
  store_now : S -> Z
}.

Section Keys.
Context {S : Type} `{ReplayView S}.

Definition nonce_used (s : S) (n : Nonce) : Prop := is_Some (nonce_recorded s n).

Definition same_keys (s s' : S) : Prop :=
  (forall n, nonce_recorded s' n = nonce_recorded s n) /\
  (forall h, payment_used s' h <-> payment_used s h).

Definition keys_grow (s s' : S) : Prop :=
  (forall n t, nonce_recorded s n = Some t -> nonce_recorded s' n = Some t) /\
  (forall h, payment_used s h -> payment_used s' h).

#[export] Instance same_keys_equiv : Equivalence same_keys.
Proof.
  split; unfold same_keys.
  - done.
  - intros s1 s2 [H1 H2]. split; intros; symmetry; auto.
  - intros s1 s2 s3 [H1 H2] [H3 H4]. split; intros; etransitivity; eauto.
Qed.

#[export] Instance keys_grow_preorder : PreOrder keys_grow.
Proof. split; unfold keys_grow; [done|]. intros s1 s2 s3 [] []. split; auto. Qed.

Lemma same_keys_grow s s' : same_keys s s' -> keys_grow s s'.
Proof. intros [H1 H2]. split; intros ?; [intros ?; by rewrite H1|by intros ?; apply H2]. Qed.

#[export] Instance nonce_used_proper : Proper (same_keys ==> eq ==> iff) nonce_used.
Proof. intros s s' [Hn _] n ? <-. unfold nonce_used. by rewrite Hn. Qed.
#[export] Instance payment_used_proper : Proper (same_keys ==> eq ==> iff) payment_used.
Proof. intros s s' [_ Hp] h ? <-. by rewrite Hp. Qed.
End Keys.

Class NonceStoreLaws (S : Type) `{!NonceStore S, !ReplayView S} : Prop := {
  law_accepted n h a i s s' : check_and_store_paid n h a i s = (s', Ok Accepted) ->
    ~ nonce_used s n /\ ~ payment_used s h /\ nonce_recorded s' n = Some (store_now s) /\
    payment_used s' h /\ keys_grow s s';
  law_refused n h a i s s' r : check_and_store_paid n h a i s = (s', r) -> r <> Ok Accepted ->
    same_keys s s';
  law_nonce_reused n h a i s s' : check_and_store_paid n h a i s = (s', Ok NonceReused) ->
    nonce_used s n;
  law_payment_reused n h a i s s' : check_and_store_paid n h a i s = (s', Ok PaymentReused) ->
    payment_used s h;
  law_receipt e s s' r : is_paid_envelope_accepted e s = (s', r) -> same_keys s s';
  law_receipt_used e s s' : is_paid_envelope_accepted e s = (s', Ok true) ->
    payment_used s (payment_hash (env_payment_proof e));
  law_floor e p t s s' r : delivery_price_floor e p t s = (s', r) -> same_keys s s';
  law_take h s s' r : take_outstanding_web_request h s = (s', r) -> same_keys s s';
  law_record h o s s' r : record_outgoing_web_request h o s = (s', r) -> same_keys s s';
  law_nonce n a s s' r : check_and_store n a s = (s', r) -> keys_grow s s';
  law_payment h a i s s' r : check_and_store_payment_hash h a i s = (s', r) -> keys_grow s s'
}.

(** What the rest of the node runs on the same store: its operations, and the
    age in seconds beyond which an operation drops recorded nonces, when it is
    a clean-up.  No operation frees a payment, and only a clean-up frees a
    nonce, one older than its age. *)
Class StoreTasks (S : Type) := {
  store_task : Type;
  run_task : store_task -> S -> S;
  cleanup_age : store_task -> option Z
}.

(** [t] is older than [max_age_secs] at [now]. *)
Definition older_than (max_age_secs now t : Z) : Prop := t < now - max_age_secs * 1000.

Class StoreTaskLaws (S : Type) `{!ReplayView S, !StoreTasks S} : Prop := {
  law_task_payment k h s : payment_used s h -> payment_used (run_task k s) h;
  law_task_nonce k n t s : nonce_recorded s n = Some t ->
    nonce_recorded (run_task k s) n = Some t \/
    exists age, cleanup_age k = Some age /\ older_than age (store_now s) t
}.

(** ** Computations that consume no key *)

Section Keeps.
Context {S : Type} `{ReplayView S}.

Definition keeps {E A} (m : comp S E A) : Prop := forall s s' r, m s = (s', r) -> same_keys s s'.

Lemma keeps_ret {E A} (a : A) : keeps (@cret S E A a).
Proof. by intros s s' r [= <- _]. Qed.
Lemma keeps_throw {E A} (err : E) : keeps (@cthrow S E A err).
Proof. by intros s s' r [= <- _]. Qed.
Lemma keeps_lift {E A} (r : result E A) : keeps (@clift S E A r).
Proof. by intros s s' r' [= <- _]. Qed.

Lemma keeps_bind {E A B} (m : comp S E A) (k : A -> comp S E B) :
  keeps m -> (forall a, keeps (k a)) -> keeps (cbind m k).
Proof.
  intros Hm Hk s s' r. unfold cbind. destruct (m s) as [s1 [a|err]] eqn:E1; intros Heq.
  - transitivity s1; [by eapply Hm|by eapply Hk].
  - injection Heq as <- _. by eapply Hm.
Qed.

Lemma keeps_map_err {E F A} (f : E -> F) (m : comp S E A) : keeps m -> keeps (cmap_err f m).
Proof.
  intros Hm s s' r. unfold cmap_err. destruct (m s) as [s1 q] eqn:E1.
  intros [= <- _]. by eapply Hm.
Qed.
End Keeps.

#[export] Hint Resolve keeps_ret keeps_throw keeps_lift keeps_bind keeps_map_err : bitsov.

(** ** One verification *)

Section OneCall.
Context {PR : Prims} {S : Type} `{NonceStoreLaws S}.
Context (cfg : GateConfig) (now : Z) (e : UkmEnvelope) (pricing : PricingEngine)
  (whitelist : option (gset NodeId)) (lightning : option LightningProvider)
  (d : spec_float) (ours : option NodeId).

Local Abbreviation hash := (payment_hash (env_payment_proof e)).

Lemma no_outstanding_keys s s' : no_outstanding e s s' -> same_keys s s'.
Proof. unfold no_outstanding. destruct (is_web_service_reply e); [apply law_take|by intros ->]. Qed.

Lemma validated_keys s s' b : validated cfg now e pricing lightning d ours s s' b -> same_keys s s'.
Proof.
  intros [s1 Hr|s1 s2 Hr _ (o & Ht & _)|s1 s2 Hr Hn _|s1 s2 s3 Hr Hn Hq].
  - by eapply law_receipt.
  - transitivity s1; [by eapply law_receipt|by eapply law_take].
  - transitivity s1; [by eapply law_receipt|by eapply no_outstanding_keys].
  - destruct Hq as (base & ln & det & price & _ & _ & _ & _ & _ & _ & Hf & _).
    transitivity s1; [by eapply law_receipt|].
    transitivity s2; [by eapply no_outstanding_keys|by eapply law_floor].
Qed.

(** The same, on the way to a rejection. *)
Lemma price_and_settle_keeps now_ms receipts :
  keeps (price_and_settle cfg now_ms e pricing lightning d ours receipts).
Proof.
  unfold price_and_settle. apply keeps_bind.
  - repeat case_match; eauto with bitsov.
    apply keeps_bind; [auto with bitsov|]. intros det. apply keeps_bind.
    + apply keeps_map_err. intros ? ? ?. apply law_floor.
    + intros [q|]; [|auto with bitsov]. repeat case_match; auto with bitsov.
  - intros [r c]. repeat case_match; auto with bitsov.
Qed.

Lemma try_accept_keeps now_ms : keeps (try_accept_web_service_reply cfg e lightning now_ms).
Proof.
  unfold try_accept_web_service_reply. apply keeps_bind.
  - apply keeps_map_err. intros ? ? ?. apply law_take.
  - intros [o|]; auto with bitsov.
Qed.

Lemma inner_keeps receipts :
  keeps (validate_paid_envelope_inner cfg now e pricing whitelist lightning d ours receipts).
Proof.
  unfold validate_paid_envelope_inner. apply keeps_bind; [auto with bitsov|]. intros _.
  apply keeps_bind; [destruct receipts; [|auto with bitsov]|].
  { apply keeps_map_err. intros ? ? ?. apply law_receipt. }
  intros []; [auto with bitsov|]. apply keeps_bind.
  - destruct (_ && _); [apply try_accept_keeps|auto with bitsov].
  - intros []; [auto with bitsov|]. apply keeps_bind; [apply price_and_settle_keeps|auto with bitsov].
Qed.

Local Abbreviation run := (verify cfg now e pricing whitelist lightning d ours).

Record consumed (s s' : S) : Prop := {
  cs_nonce_fresh : ~ nonce_used s (env_nonce e);
  cs_payment_fresh : ~ payment_used s hash;
  cs_nonce_used : nonce_used s' (env_nonce e);
  cs_payment_used : payment_used s' hash;
  cs_grow : keys_grow s s'
}.

Lemma verify_consumes s s' : run s = (s', Ok tt) -> consumed s s'.
Proof.
  intros (_ & s1 & b & Hv & Hc)%verify_refines.
  pose proof (validated_keys _ _ _ Hv) as Hk.
  apply law_accepted in Hc as (Hn & Hp & Hn' & Hp' & Hg). rewrite <- Hk in Hn. rewrite <- Hk in Hp.
  constructor; try done; [by eexists|]. transitivity s1; [by apply same_keys_grow|done].
Qed.

Lemma commit_refused_keys s s' r : commit_paid e s = (s', Err r) -> same_keys s s'.
Proof.
  unfold commit_paid, cbind, cmap_err, cret, cthrow.
  destruct (check_and_store_paid _ _ _ _ s) as [s1 [[]|]] eqn:E; simpl; intros [= <- _] || intros [=];
    by eapply law_refused.
Qed.

Lemma verify_rejects_keys s s' r : run s = (s', Err r) -> same_keys s s'.
Proof.
  unfold verify, cbind at 1. destruct (validate_paid_envelope_inner _ _ _ _ _ _ _ _ _ s) as [s1 [b|]] eqn:Hi.
  - intros Hc. transitivity s1; [by eapply inner_keeps|by eapply commit_refused_keys].
  - intros [= <- _]. by eapply inner_keeps.
Qed.

(** An admission is never a receipt that was already honoured. *)
Lemma verify_not_receipt s s' s1 : run s = (s', Ok tt) -> is_paid_envelope_accepted e s <> (s1, Ok true).
Proof. intros Hv Hr. apply (cs_payment_fresh _ _ (verify_consumes _ _ Hv)). by eapply law_receipt_used. Qed.

(** What this node holds when it admits an envelope that is not a reply to its
    own request, with settlement checks on. *)
Record earned (ln : LightningProvider) (det : PaymentDetails) : Prop := {
  ea_provider : lightning = Some ln;
  ea_not_funding : is_funding_payment ln (hex_encode hash) = Ok false;
  ea_details : get_payment_status ln (hex_encode hash) = Ok det;
  ea_settled : pd_status det = Settled;
  ea_incoming : pd_direction det = Incoming;
  ea_floor : 1000 <= pd_amount_msat det;
  ea_cost : min_admission_cost_msat cfg <= pd_amount_msat det;
  ea_claim : 1000 <= amount_msat (env_payment_proof e) <= pd_amount_msat det
}.

Lemma settled_earned ln det r : lightning = Some ln -> settled_for e ln r ours det ->
  min_admission_cost_msat cfg <= amount_msat (env_payment_proof e) ->
  1000 <= amount_msat (env_payment_proof e) -> earned ln det.
Proof. intros Hl [] Hc Hm. constructor; try done; lia. Qed.

Lemma verify_earns s s' : run s = (s', Ok tt) ->
  verify_lightning_settlement cfg = true -> is_web_service_reply e = false ->
  exists ln det, earned ln det.
Proof.
  intros Hv Hs Hw. pose proof Hv as (_ & s1 & b & Hval & _)%verify_refines.
  destruct Hval as [s1 Hr|s1 s2 _ Hweb _|s1 s2 _ _ (base & _ & Hle & Hset)
    |s1 s2 s3 _ _ (base & ln & det & price & _ & _ & _ & _ & Hln & Hset & _ & Hle)].
  - by apply verify_not_receipt with (s1 := s1) in Hv.
  - congruence.
  - destruct (Hset Hs) as (ln & det & Hln & Hset'). exists ln, det.
    pose proof (required_price_floor cfg base d). eapply settled_earned; [done|done|lia|lia].
  - exists ln, det. unfold price_with_floor_msat in Hle.
    eapply settled_earned; [done|done|lia|lia].
Qed.
End OneCall.
