(* ===== verification/Interleave.v ===== *)
(** * Concurrent verifications

    The gate's methods are [async]: between any two store calls of one
    verification, other tasks may call the store.  [world] wraps a store with a
    schedule of foreign calls, run before each call the gate makes, and a log
    of every commit that was accepted, ours or foreign, and of every clean-up
    of expired nonces.  Foreign calls are the calls of the gate's own interface
    and the operations the rest of the node runs on the store ([StoreTasks]).
    Because the gate is written against the [NonceStore] interface, [verify]
    runs on a [world] unchanged, and the theorems hold for every schedule. *)

From S2P Require Import Prelude Float Types Envelope WebReply Gate GateSpec Replay.

Inductive store_op (Task : Type) : Type :=
| OpFloor (e : UkmEnvelope) (paid_at now : Z)
| OpReceipt (e : UkmEnvelope)
| OpPaid (n : Nonce) (h : bytes) (sender : NodeId) (id : MessageId)
| OpNonce (n : Nonce) (sender : NodeId)
| OpPayment (h : bytes) (sender : NodeId) (id : MessageId)
| OpRecord (h : bytes) (o : OutstandingWebRequest)
| OpTake (h : bytes)
| OpTask (k : Task).

Arguments OpFloor {_}.
Arguments OpReceipt {_}.
Arguments OpPaid {_}.
Arguments OpNonce {_}.
Arguments OpPayment {_}.
Arguments OpRecord {_}.
Arguments OpTake {_}.
Arguments OpTask {_}.

(** What the log keeps, latest first: the keys of an admission, and a clean-up
    of nonces older than [age] seconds, each with the store's time. *)
Inductive log_entry : Type :=
| LogPaid (n : Nonce) (h : bytes) (t : Z)
| LogCleanup (age t : Z).

Definition admission (x : log_entry) : option (Nonce * bytes) :=
  match x with LogPaid n h _ => Some (n, h) | LogCleanup _ _ => None end.

Definition admissions (log : list log_entry) : list (Nonce * bytes) := omap admission log.

(** Some clean-up of the log dropped the nonces recorded at [t]. *)
Definition dropped (log : list log_entry) (t : Z) : Prop :=
  exists age now, LogCleanup age now ∈ log /\ older_than age now t.

Section World.
Context {S : Type} `{NonceStoreLaws S} `{!StoreTasks S, !StoreTaskLaws S}.

Record world := mkWorld {
  w_store : S;
  w_sched : list (list (store_op store_task));
  w_log : list log_entry
}.

(** The store after a foreign call, and what the log keeps of it. *)
Definition run_op (op : store_op store_task) (s : S) : S * option log_entry :=
  match op with
  | OpFloor e p t => (fst (delivery_price_floor e p t s), None)
  | OpReceipt e => (fst (is_paid_envelope_accepted e s), None)
  | OpPaid n h a i =>
      let '(s', r) := check_and_store_paid n h a i s in
      (s', if bool_decide (r = Ok Accepted) then Some (LogPaid n h (store_now s)) else None)
  | OpNonce n a => (fst (check_and_store n a s), None)
  | OpPayment h a i => (fst (check_and_store_payment_hash h a i s), None)
  | OpRecord h o => (fst (record_outgoing_web_request h o s), None)
  | OpTake h => (fst (take_outstanding_web_request h s), None)
  | OpTask k => (run_task k s, (fun age => LogCleanup age (store_now s)) <$> cleanup_age k)
  end.

Fixpoint run_ops (ops : list (store_op store_task)) (s : S) (log : list log_entry) :
    S * list log_entry :=
  match ops with
  | [] => (s, log)
  | op :: ops' => let '(s', k) := run_op op s in run_ops ops' s' (option_list k ++ log)
  end.

(** Run the next batch of foreign calls. *)
Definition interfere (w : world) : world :=
  match w_sched w with
  | [] => w
  | ops :: sched =>
      let '(s, log) := run_ops ops (w_store w) (w_log w) in mkWorld s sched log
  end.

(** A store call of the verification: interference, then the call itself. *)
Definition atomically {A} (m : comp S string A) : comp world string A :=
  fun w => let w := interfere w in
    let '(s, r) := m (w_store w) in (mkWorld s (w_sched w) (w_log w), r).

#[export] Instance interleaved_store : NonceStore world := {
  delivery_price_floor e p t := atomically (delivery_price_floor e p t);
  is_paid_envelope_accepted e := atomically (is_paid_envelope_accepted e);
  check_and_store_paid n h a i := fun w =>
    let w := interfere w in
    let '(s, r) := check_and_store_paid n h a i (w_store w) in
    (mkWorld s (w_sched w)
       (if bool_decide (r = Ok Accepted) then LogPaid n h (store_now (w_store w)) :: w_log w
        else w_log w), r);
  check_and_store n a := atomically (check_and_store n a);
  check_and_store_payment_hash h a i := atomically (check_and_store_payment_hash h a i);
  record_outgoing_web_request h o := atomically (record_outgoing_web_request h o);
  take_outstanding_web_request h := atomically (take_outstanding_web_request h)
}.

(** ** The log never repeats a payment, nor a nonce that was not dropped *)

(** Between two admissions of one nonce, a clean-up dropped the first. *)
Definition nonces_apart (log : list log_entry) : Prop :=
  forall later between earlier n h2 t2 h1 t1,
    log = later ++ LogPaid n h2 t2 :: between ++ LogPaid n h1 t1 :: earlier ->
    dropped between t1.

Record log_ok (s : S) (log : list log_entry) : Prop := {
  lo_nonces : nonces_apart log;
  lo_payments : NoDup (map snd (admissions log));
  lo_paid : Forall (fun k => payment_used s (snd k)) (admissions log);
  lo_recorded : forall later n h t earlier, log = later ++ LogPaid n h t :: earlier ->
    nonce_recorded s n = Some t \/ dropped later t
}.

Definition world_ok (w : world) : Prop := log_ok (w_store w) (w_log w).

Lemma dropped_app l1 l2 t : dropped l2 t -> dropped (l1 ++ l2) t.
Proof. intros (age & now & Hin & Ho). exists age, now. split; [|done]. apply elem_of_app. by right. Qed.

Lemma log_ok_nil s : log_ok s [].
Proof. constructor; [by intros [|? []] | constructor | constructor | by intros []]. Qed.

Lemma log_ok_grow s s' log : keys_grow s s' -> log_ok s log -> log_ok s' log.
Proof.
  intros [Hn Hp] [Ha Hd Hu Hr]. constructor; try done.
  - eapply Forall_impl; [exact Hu|]. auto.
  - intros later n h t earlier Heq. destruct (Hr _ _ _ _ _ Heq); auto.
Qed.

(** A list that starts with [x], split at an element [y]. *)
Lemma cons_split {A} (x y : A) l l1 l2 : x :: l = l1 ++ y :: l2 ->
  (l1 = [] /\ x = y /\ l = l2) \/ exists l1', l1 = x :: l1' /\ l = l1' ++ y :: l2.
Proof. destruct l1 as [|z l1]; intros [= -> ->]; [by left|right; eauto]. Qed.

Lemma log_ok_cons s s' n h a i log : check_and_store_paid n h a i s = (s', Ok Accepted) ->
  log_ok s log -> log_ok s' (LogPaid n h (store_now s) :: log).
Proof.
  intros Hc Hl. apply law_accepted in Hc as (Hn & Hp & Hn' & Hp' & Hg).
  pose proof (lo_paid _ _ Hl) as Hu. rewrite Forall_forall in Hu.
  pose proof (lo_recorded _ _ Hl) as Hrec.
  pose proof (log_ok_grow _ _ _ Hg Hl) as [Ha Hd Hu' Hr'].
  constructor; cbn [admissions omap list_omap admission map fst snd].
  - intros later between earlier m h2 t2 h1 t1 [(-> & [= <- _ _] & Hlog)|(l & -> & Hlog)]%cons_split;
      [|by eapply Ha].
    destruct (Hrec _ _ _ _ _ Hlog) as [Hused|]; [|done]. destruct Hn. by eexists.
  - constructor; [|done]. intros (k & -> & Hk)%list_elem_of_fmap. by apply Hp, Hu.
  - by constructor.
  - intros later m h1 t1 earlier [(-> & [= <- _ <-] & _)|(l & -> & Hlog)]%cons_split; [by left|].
    destruct (Hr' _ _ _ _ _ Hlog); [by left|right]. by apply (dropped_app [_]).
Qed.

Lemma log_ok_task s k log : log_ok s log -> log_ok (run_task k s)
  (option_list ((fun age => LogCleanup age (store_now s)) <$> cleanup_age k) ++ log).
Proof.
  intros [Ha Hd Hu Hr].
  assert (Hrec : forall later n h t earlier, log = later ++ LogPaid n h t :: earlier ->
    nonce_recorded (run_task k s) n = Some t \/
    dropped (option_list ((fun age => LogCleanup age (store_now s)) <$> cleanup_age k) ++ later) t).
  { intros later n h t earlier Heq. destruct (Hr _ _ _ _ _ Heq) as [Hs|]; [|right; by apply dropped_app].
    destruct (law_task_nonce k n t s Hs) as [|(age & -> & Ho)]; [by left|right].
    exists age, (store_now s). split; [apply elem_of_cons; by left|done]. }
  assert (Hpay : Forall (fun x => payment_used (run_task k s) (snd x)) (admissions log)).
  { eapply Forall_impl; [exact Hu|]. intros x. apply law_task_payment. }
  destruct (cleanup_age k) as [age|]; simpl in *; [|by constructor].
  constructor; try done.
  - intros later between earlier n h2 t2 h1 t1 [(_ & [=] & _)|(l & -> & Hlog)]%cons_split. by eapply Ha.
  - intros later n h t earlier [(_ & [=] & _)|(l & -> & Hlog)]%cons_split. by eapply Hrec.
Qed.

Lemma fst_eq {A B} (p : A * B) : exists b, p = (fst p, b).
Proof. destruct p. by eexists. Qed.

Lemma run_op_ok op s log : log_ok s log ->
  let '(s', k) := run_op op s in log_ok s' (option_list k ++ log).
Proof.
  intros Hl. destruct op; simpl;
    try (match goal with |- log_ok (fst ?m) _ => destruct (fst_eq m) as [r Hr] end;
         eapply log_ok_grow; [|exact Hl]).
  - by eapply same_keys_grow, law_floor.
  - by eapply same_keys_grow, law_receipt.
  - destruct (check_and_store_paid _ _ _ _ s) as [s' r] eqn:Hc. case_bool_decide as Hr.
    + subst r. by eapply log_ok_cons.
    + eapply log_ok_grow; [|exact Hl]. by eapply same_keys_grow, law_refused.
  - by eapply law_nonce.
  - by eapply law_payment.
  - by eapply same_keys_grow, law_record.
  - by eapply same_keys_grow, law_take.
  - by apply log_ok_task.
Qed.

Lemma run_ops_ok ops s log : log_ok s log ->
  let '(s', log') := run_ops ops s log in log_ok s' log' /\ log `suffix_of` log'.
Proof.
  revert s log. induction ops as [|op ops IH]; intros s log Hl; simpl; [done|].
  pose proof (run_op_ok op s log Hl) as Ho. destruct (run_op op s) as [s' k]. specialize (IH _ _ Ho).
  destruct (run_ops ops s' _) as [s'' log'']. destruct IH as [Ho' Hs]. split; [done|].
  etransitivity; [|exact Hs]. by eexists.
Qed.

Lemma interfere_ok w : world_ok w -> world_ok (interfere w) /\ w_log w `suffix_of` w_log (interfere w).
Proof.
  unfold interfere, world_ok. intros Hw. destruct (w_sched w) as [|ops sched]; [done|].
  pose proof (run_ops_ok ops _ _ Hw) as Hr. by destruct (run_ops ops _ _).
Qed.

(** ** What every computation over a world maintains *)

Definition safe {E A} (m : comp world E A) : Prop :=
  forall w w' r, m w = (w', r) -> world_ok w -> world_ok w' /\ w_log w `suffix_of` w_log w'.

Lemma safe_ret {E A} (a : A) : safe (@cret world E A a).
Proof. by intros w w' r [= <- _]. Qed.
Lemma safe_throw {E A} (err : E) : safe (@cthrow world E A err).
Proof. by intros w w' r [= <- _]. Qed.
Lemma safe_lift {E A} (r : result E A) : safe (@clift world E A r).
Proof. by intros w w' r' [= <- _]. Qed.
Lemma safe_bind {E A B} (m : comp world E A) (k : A -> comp world E B) :
  safe m -> (forall a, safe (k a)) -> safe (cbind m k).
Proof.
  intros Hm Hk w w' r. unfold cbind. destruct (m w) as [w1 [a|err]] eqn:E1; intros Heq Hw.
  - destruct (Hm _ _ _ E1 Hw) as [Hw1 Hs1]. destruct (Hk a _ _ _ Heq Hw1). split; [done|by etransitivity].
  - injection Heq as <- _. by eapply Hm.
Qed.
Lemma safe_map_err {E F A} (f : E -> F) (m : comp world E A) : safe m -> safe (cmap_err f m).
Proof.
  intros Hm w w' r. unfold cmap_err. destruct (m w) as [w1 q] eqn:E1.
  intros [= <- _]. by eapply Hm.
Qed.

Lemma safe_atomically {A} (m : comp S string A) :
  (forall s s' r, m s = (s', r) -> keys_grow s s') -> safe (atomically m).
Proof.
  intros Hm w w' r. unfold atomically. destruct (m (w_store (interfere w))) as [s q] eqn:E1.
  intros [= <- _] Hw. destruct (interfere_ok _ Hw) as [Hi Hs]. split; [|done].
  eapply log_ok_grow; [by eapply Hm|exact Hi].
Qed.
End World.

#[export] Hint Resolve safe_ret safe_throw safe_lift : bitsov.
Arguments world S {_}.

(** ** A verification in an interleaved world *)

Section Verify.
Context {PR : Prims} {S : Type} `{NonceStoreLaws S} `{!StoreTasks S, !StoreTaskLaws S}.
Context (cfg : GateConfig) (now : Z) (e : UkmEnvelope) (pricing : PricingEngine)
  (whitelist : option (gset NodeId)) (lightning : option LightningProvider)
  (d : spec_float) (ours : option NodeId).

Lemma price_and_settle_safe now_ms receipts :
  safe (S := S) (price_and_settle cfg now_ms e pricing lightning d ours receipts).
Proof.
  unfold price_and_settle. apply safe_bind.
  - repeat case_match; auto with bitsov.
    apply safe_bind; [auto with bitsov|]. intros det. apply safe_bind.
    + apply safe_map_err, safe_atomically. intros s s' r Hf. by eapply same_keys_grow, law_floor.
    + intros [q|]; [|auto with bitsov]. repeat case_match; auto with bitsov.
  - intros [r c]. repeat case_match; auto with bitsov.
    apply safe_bind; auto with bitsov.
Qed.

Lemma try_accept_safe now_ms :
  safe (S := S) (try_accept_web_service_reply cfg e lightning now_ms).
Proof.
  unfold try_accept_web_service_reply. apply safe_bind.
  - apply safe_map_err, safe_atomically. intros s s' r Hf. by eapply same_keys_grow, law_take.
  - intros [o|]; auto with bitsov.
Qed.

Lemma inner_safe receipts :
  safe (S := S) (validate_paid_envelope_inner cfg now e pricing whitelist lightning d ours receipts).
Proof.
  unfold validate_paid_envelope_inner. apply safe_bind; [auto with bitsov|]. intros _.
  apply safe_bind; [destruct receipts; [|auto with bitsov]|].
  { apply safe_map_err, safe_atomically. intros s s' r Hf. by eapply same_keys_grow, law_receipt. }
  intros []; [auto with bitsov|]. apply safe_bind.
  - destruct (_ && _); [apply try_accept_safe|auto with bitsov].
  - intros []; [auto with bitsov|]. apply safe_bind; [apply price_and_settle_safe|auto with bitsov].
Qed.

(** The commit is logged exactly when it admits. *)
Lemma commit_logged (w w' : world S) r : commit_paid e w = (w', r) -> world_ok w ->
  world_ok w' /\ exists log, w_log w `suffix_of` log /\
    if is_ok r
    then exists t, w_log w' = LogPaid (env_nonce e) (payment_hash (env_payment_proof e)) t :: log
    else w_log w' = log.
Proof.
  unfold commit_paid, cbind, cmap_err, cret, cthrow. intros Hc Hw. cbn in Hc.
  destruct (interfere_ok _ Hw) as [Hi Hs].
  destruct (check_and_store_paid _ _ _ _ (w_store (interfere w))) as [s q] eqn:Hq.
  case_bool_decide as Hr.
  - subst q. injection Hc as <- <-. simpl. split; [by eapply log_ok_cons|]. eauto.
  - assert (Hok : world_ok (mkWorld s (w_sched (interfere w)) (w_log (interfere w)))).
    { eapply log_ok_grow; [|exact Hi]. by eapply same_keys_grow, law_refused. }
    destruct q as [[]|]; simpl in Hc; [done|..]; injection Hc as <- <-; simpl; eauto.
Qed.

Lemma verify_logged (w w' : world S) r :
  verify cfg now e pricing whitelist lightning d ours w = (w', r) -> world_ok w ->
  world_ok w' /\ exists log, w_log w `suffix_of` log /\
    if is_ok r
    then exists t, w_log w' = LogPaid (env_nonce e) (payment_hash (env_payment_proof e)) t :: log
    else w_log w' = log.
Proof.
  unfold verify, cbind at 1. intros Hv Hw.
  destruct (validate_paid_envelope_inner _ _ _ _ _ _ _ _ _ w) as [w1 [b|err]] eqn:Hi;
    destruct (inner_safe true _ _ _ Hi Hw) as [Hw1 Hs1].
  - destruct (commit_logged _ _ _ Hv Hw1) as (Hw' & log & Hl & Heq). split; [done|].
    exists log. split; [by etransitivity|done].
  - injection Hv as <- <-. simpl. eauto.
Qed.
End Verify.

(** ** Any number of verifications *)

Record call := mkCall {
  c_cfg : GateConfig; c_now : Z; c_env : UkmEnvelope; c_pricing : PricingEngine;
  c_whitelist : option (gset NodeId); c_lightning : option LightningProvider;
  c_discount : spec_float; c_ours : option NodeId
}.

Section Calls.
Context {PR : Prims} {S : Type} `{NonceStoreLaws S} `{!StoreTasks S, !StoreTaskLaws S}.

Definition run_call (c : call) : comp (world S) GateRejection unit :=
  verify (c_cfg c) (c_now c) (c_env c) (c_pricing c) (c_whitelist c) (c_lightning c)
    (c_discount c) (c_ours c).

Definition call_keys (c : call) : Nonce * bytes :=
  (env_nonce (c_env c), payment_hash (env_payment_proof (c_env c))).

(** The world after the calls and the keys of those admitted, latest first. *)
Fixpoint run_calls (cs : list call) (w : world S) (adm : list (Nonce * bytes)) :
    world S * list (Nonce * bytes) :=
  match cs with
  | [] => (w, adm)
  | c :: cs' =>
      let '(w', r) := run_call c w in
      run_calls cs' w' (if is_ok r then call_keys c :: adm else adm)
  end.

Lemma run_calls_ok cs w adm : world_ok w -> adm `sublist_of` admissions (w_log w) ->
  let '(w', adm') := run_calls cs w adm in world_ok w' /\ adm' `sublist_of` admissions (w_log w').
Proof.
  revert w adm. induction cs as [|c cs IH]; intros w adm Hw Hs; simpl; [done|].
  destruct (run_call c w) as [w1 r] eqn:Hc.
  destruct (verify_logged _ _ _ _ _ _ _ _ _ _ _ Hc Hw) as (Hw1 & log & Hl & Heq).
  apply IH; [done|].
  assert (adm `sublist_of` admissions log).
  { destruct Hl as [k ->]. unfold admissions. rewrite omap_app. by apply sublist_inserts_l. }
  destruct (is_ok r); [destruct Heq as [t ->]; by apply sublist_skip|by rewrite Heq].
Qed.
End Calls.
