(* ===== verification/Sqlite.v ===== *)
(** * The SQLite storage of the admission path

    [konsensus-storage/src/sqlite.rs] (replay keys, receipts, delivery quotes,
    outstanding web requests, call admission holds) and the adapter of
    [konsensus-storage/src/lib.rs] that presents it to the gate.

    A table is a finite map from its primary key, with the column types of the
    migrations.  Any statement can fail: [db_faults] is the environment's
    answer to each statement in order ([Some] is an [sqlx] error), and a
    transaction that ends in an error restores the tables it started from.
    The database clock ([strftime('now')]) is [db_now], in milliseconds. *)

From Stdlib Require Import Ascii.
From S2P Require Import Prelude Text Kind Types Envelope WebReply Gate Replay.

(** ** Rows *)

(** The receipt columns of migration 022, set together by every writer. *)
Record Binding := mkBinding {
  bd_kind : Z;
  bd_recipient_type : string;
  bd_recipient_id : string;
  bd_preimage : string;
  bd_amount_msat : Z;
  bd_nonce : string;
  bd_references_json : string
}.

Record ReceiptRow := mkReceipt {
  rc_message_id : string;
  rc_sender : string;
  rc_accepted : Z;
  rc_binding : option Binding
}.

Record MessageRow := mkMessage {
  ms_sender : string;
  ms_payment_hash : string;
  ms_binding : Binding;
  ms_timestamp : Z;
  ms_ciphertext : bytes;
  ms_signature : string
}.

Record NonceRow := mkNonce { nr_sender : string; nr_received_at : Z }.
Record HoldRow := mkHold { hl_sender : string; hl_held_at_ms : Z }.
Record OutstandingRow := mkOutRow {
  or_request_id : string; or_peer : string; or_kind : Z; or_expires_at_ms : Z
}.
(** The primary key of a quote; its value is [expires_at]. *)
Record QuoteKey := mkQuote {
  qk_sender : string; qk_scope : string; qk_amount_msat : Z; qk_issued_at : Z; qk_excluded : string
}.

#[export] Instance Binding_eq_dec : EqDecision Binding.
Proof. solve_decision. Defined.
#[export] Instance ReceiptRow_eq_dec : EqDecision ReceiptRow.
Proof. solve_decision. Defined.
#[export] Instance MessageRow_eq_dec : EqDecision MessageRow.
Proof. solve_decision. Defined.
#[export] Instance QuoteKey_eq_dec : EqDecision QuoteKey.
Proof. solve_decision. Defined.
#[export] Instance QuoteKey_countable : Countable QuoteKey.
Proof.
  apply (inj_countable'
    (fun k => (qk_sender k, qk_scope k, qk_amount_msat k, qk_issued_at k, qk_excluded k))
    (fun '(a, b, c, d, e) => mkQuote a b c d e)). by intros [].
Defined.

Record DB := mkDB {
  db_nonces : gmap string NonceRow;
  db_receipts : gmap string ReceiptRow;
  db_messages : gmap string MessageRow;
  db_holds : gmap string HoldRow;
  db_outstanding : gmap string OutstandingRow;
  db_quotes : gmap QuoteKey Z;
  db_now : Z;
  db_faults : list (option string)
}.

Definition set_nonces t db := mkDB t (db_receipts db) (db_messages db) (db_holds db)
  (db_outstanding db) (db_quotes db) (db_now db) (db_faults db).
Definition set_receipts t db := mkDB (db_nonces db) t (db_messages db) (db_holds db)
  (db_outstanding db) (db_quotes db) (db_now db) (db_faults db).
Definition set_messages t db := mkDB (db_nonces db) (db_receipts db) t (db_holds db)
  (db_outstanding db) (db_quotes db) (db_now db) (db_faults db).
Definition set_holds t db := mkDB (db_nonces db) (db_receipts db) (db_messages db) t
  (db_outstanding db) (db_quotes db) (db_now db) (db_faults db).
Definition set_outstanding t db := mkDB (db_nonces db) (db_receipts db) (db_messages db) (db_holds db)
  t (db_quotes db) (db_now db) (db_faults db).
Definition set_quotes t db := mkDB (db_nonces db) (db_receipts db) (db_messages db) (db_holds db)
  (db_outstanding db) t (db_now db) (db_faults db).
Definition set_faults t db := mkDB (db_nonces db) (db_receipts db) (db_messages db) (db_holds db)
  (db_outstanding db) (db_quotes db) (db_now db) t.

(** ** Errors and statements *)

Inductive StorageError : Type :=
| Database (s : string)
| SSerialization (s : string)
| Conversion (s : string).

#[export] Instance StorageError_eq_dec : EqDecision StorageError.
Proof. solve_decision. Defined.

Definition StorageError_to_string (e : StorageError) : string :=
  match e with
  | Database s => "database error: " +:+ s
  | SSerialization s => "serialization error: " +:+ s
  | Conversion s => "type conversion: " +:+ s
  end.

Abbreviation sql := (comp DB StorageError).

(** One round trip to the database, which may fail. *)
Definition round_trip : sql unit := fun db =>
  match db_faults db with
  | [] => (db, Ok tt)
  | f :: fs => (set_faults fs db, match f with Some e => Err (Database e) | None => Ok tt end)
  end.

(** A query, and a statement with its result. *)
Definition query {A} (f : DB -> A) : sql A :=
  let! _ := round_trip in fun db => (db, Ok (f db)).
Definition execute {A} (f : DB -> DB * A) : sql A :=
  let! _ := round_trip in fun db => let '(db', a) := f db in (db', Ok a).

(** How the body of a transaction leaves it; an error drops it. *)
Inductive tx_end (A : Type) : Type := TxCommit (a : A) | TxRollback (a : A).
Arguments TxCommit {A} a.
Arguments TxRollback {A} a.

Definition roll_back (start now : DB) : DB := set_faults (db_faults now) start.

Definition transaction {A} (body : sql (tx_end A)) : sql A :=
  let! _ := round_trip in fun db =>
  match body db with
  | (db1, Err e) => (roll_back db db1, Err e)
  | (db1, Ok (TxRollback a)) => (let! _ := round_trip in cret a) (roll_back db db1)
  | (db1, Ok (TxCommit a)) =>
      match round_trip db1 with
      | (db2, Ok _) => (db2, Ok a)
      | (db2, Err e) => (roll_back db db2, Err e)
      end
  end.

(** [i64::try_from] of an unsigned value. *)
Definition i64_try_from (n : Z) (msg : string) : sql Z :=
  clift (if n <=? I64_MAX then Ok n else Err (Conversion msg)).

(** [INSERT OR IGNORE] and [INSERT .. ON CONFLICT DO NOTHING]: the table and
    whether a row was added. *)
Definition insert_or_ignore `{Countable K} {V} (k : K) (v : V) (t : gmap K V) : gmap K V * bool :=
  match t !! k with Some _ => (t, false) | None => (<[k := v]> t, true) end.

Definition ins_nonce (k : string) (v : NonceRow) (db : DB) : DB * bool :=
  let '(t, b) := insert_or_ignore k v (db_nonces db) in (set_nonces t db, b).
Definition ins_receipt (k : string) (v : ReceiptRow) (db : DB) : DB * bool :=
  let '(t, b) := insert_or_ignore k v (db_receipts db) in (set_receipts t db, b).

(** ** Operations *)

Section Ops.
Context {PR : Prims}.

Definition recipient_to_parts (r : Recipient) : string * string :=
  match r with
  | RNode id => ("node", NodeId_to_hex id)
  | RRoom id => ("room", uuid_to_string id)
  | RBroadcast => ("broadcast", "")
  end.

Definition env_ph (e : UkmEnvelope) : string := hex_encode (payment_hash (env_payment_proof e)).

(** The bound column values of an envelope; the amount is converted before the
    references are serialised. *)
Definition binding_of (e : UkmEnvelope) : sql Binding :=
  let '(rtype, rid) := recipient_to_parts (env_recipient e) in
  let amount := amount_msat (env_payment_proof e) in
  let! amt := i64_try_from amount ("amount_msat overflows i64: " +:+ show_uint amount) in
  let! refs := clift (map_err SSerialization (json_string_list (map hex_encode (env_references e)))) in
  cret (mkBinding (env_kind e) rtype rid (hex_encode (preimage (env_payment_proof e))) amt
    (hex_encode (env_nonce e)) refs).

(** A receipt of this payment hash, message and sender. *)
Definition receipt_for (db : DB) (ph id sender : string) : option ReceiptRow :=
  match db_receipts db !! ph with
  | Some r => if bool_decide (rc_message_id r = id /\ rc_sender r = sender) then Some r else None
  | None => None
  end.

(** [SELECT COUNT( * ) .. WHERE accepted = a AND <binding columns>]. *)
Definition durable_receipt (db : DB) (ph id sender : string) (a : Z) (b : Binding) : bool :=
  match receipt_for db ph id sender with
  | Some r => bool_decide (rc_accepted r = a /\ rc_binding r = Some b)
  | None => false
  end.

(** The message a legacy receipt was accepted with. *)
Definition message_for (db : DB) (ph id sender : string) (b : Binding) : bool :=
  match db_messages db !! id with
  | Some m => bool_decide (ms_sender m = sender /\ ms_binding m = b /\ ms_payment_hash m = ph)
  | None => false
  end.

Definition legacy_match (db : DB) (ph id sender : string) (b : Binding) : bool :=
  match receipt_for db ph id sender with Some _ => message_for db ph id sender b | None => false end.

Definition held (db : DB) (id : string) : bool := bool_decide (is_Some (db_holds db !! id)).

(** [UPDATE payment_receipts SET accepted = 1, <binding columns>]. *)
Definition bind_receipt (ph : string) (b : Binding) (db : DB) : DB :=
  set_receipts (alter (fun r => mkReceipt (rc_message_id r) (rc_sender r) 1 (Some b)) ph
    (db_receipts db)) db.

Definition is_paid_envelope_rejected (e : UkmEnvelope) : sql bool :=
  let! b := binding_of e in
  query (fun db => durable_receipt db (env_ph e) (hex_encode (env_id e)) (hex_encode (env_sender e)) (-1) b).

Definition sqlite_is_paid_envelope_accepted (e : UkmEnvelope) : sql bool :=
  let id := hex_encode (env_id e) in
  let sender := hex_encode (env_sender e) in
  let ph := env_ph e in
  let! b := binding_of e in
  let! durable := query (fun db => negb (held db id) && durable_receipt db ph id sender 1 b) in
  if (durable : bool) then cret true
  else
    let! matched := query (fun db => negb (held db id) && legacy_match db ph id sender b) in
    if negb matched then cret false
    else
      let! upgraded := execute (fun db =>
        if legacy_match db ph id sender b then (bind_receipt ph b db, true) else (db, false)) in
      if negb upgraded
      then cthrow (Conversion "legacy acceptance binding changed during lookup")
      else cret true.

Inductive PaidAcceptance := PAccepted | PAlreadyAccepted | PNonceReused | PPaymentReused | PWithdrawn.

#[export] Instance PaidAcceptance_eq_dec : EqDecision PaidAcceptance.
Proof. solve_decision. Defined.

(** The decision about a receipt that already exists: answer now, or repair
    its missing message. *)
Definition heal_receipt (ph id sender : string) (b : Binding) : sql (option (tx_end PaidAcceptance)) :=
  let! row := query (fun db => db_receipts db !! ph) in
  match row with
  | None => cthrow (Database "no rows returned")
  | Some r =>
      if bool_decide (rc_message_id r <> id \/ rc_sender r <> sender)
      then cret (Some (TxRollback PPaymentReused))
      else if rc_accepted r =? -1 then cret (Some (TxRollback PWithdrawn))
      else
        let! durable := query (fun db => durable_receipt db ph id sender 1 b) in
        if (durable : bool) then cret (Some (TxRollback PAlreadyAccepted))
        else
          let! matched := query (fun db => legacy_match db ph id sender b) in
          if (matched : bool) then
            let! _ := execute (fun db => (bind_receipt ph b db, tt)) in
            cret (Some (TxCommit PAlreadyAccepted))
          else
            let! exists_ := query (fun db => bool_decide (is_Some (db_messages db !! id))) in
            if exists_ || negb (rc_accepted r =? 0) then cret (Some (TxRollback PPaymentReused))
            else cret None
  end.

(** Nonce, message row, receipt binding: the statements that store the
    envelope once its receipt row is in place. *)
Definition store_message (e : UkmEnvelope) (healing : bool) (ts : Z) (b : Binding) :
    sql (tx_end PaidAcceptance) :=
  let id := hex_encode (env_id e) in
  let sender := hex_encode (env_sender e) in
  let nonce := hex_encode (env_nonce e) in
  let! new := execute (fun db => ins_nonce nonce (mkNonce sender (db_now db)) db) in
  let! reused := (if negb new then
      let! owner := query (fun db => nr_sender <$> db_nonces db !! nonce) in
      cret (negb healing || bool_decide (owner <> Some sender))
    else cret false) in
  if (reused : bool) then cret (TxRollback PNonceReused)
  else
    let! stored := execute (fun db =>
      match db_messages db !! id with
      | Some _ => (db, false)
      | None => (set_messages (<[id := mkMessage sender (env_ph e) b ts (env_ciphertext e)
                   (hex_encode (env_signature e))]> (db_messages db)) db, true)
      end) in
    if negb stored then cthrow (Database "UNIQUE constraint failed: messages.id")
    else
      let! _ := execute (fun db => (bind_receipt (env_ph e) b db, tt)) in
      cret (TxCommit PAccepted).

Definition accept_paid_envelope (e : UkmEnvelope) : sql PaidAcceptance :=
  let id := hex_encode (env_id e) in
  let sender := hex_encode (env_sender e) in
  let ph := env_ph e in
  let! ts := i64_try_from (env_timestamp e)
    ("timestamp overflows i64: " +:+ show_uint (env_timestamp e)) in
  let! b := binding_of e in
  transaction (
    let! inserted := execute (ins_receipt ph (mkReceipt id sender 0 None)) in
    let healing := negb inserted in
    let! early := (if healing then heal_receipt ph id sender b else cret None) in
    match early with
    | Some out => cret out
    | None => store_message e healing ts b
    end).

Definition reject_accepted_envelope (e : UkmEnvelope) : sql unit :=
  let id := hex_encode (env_id e) in
  let sender := hex_encode (env_sender e) in
  transaction (
    let! _ := execute (fun db =>
      (match db_messages db !! id with
       | Some m => if bool_decide (ms_sender m = sender)
                   then set_messages (delete id (db_messages db)) db else db
       | None => db
       end, tt)) in
    let! _ := execute (fun db =>
      (set_receipts (alter (fun r => if bool_decide (rc_message_id r = id)
         then mkReceipt (rc_message_id r) (rc_sender r) (-1) (rc_binding r) else r) (env_ph e)
         (db_receipts db)) db, tt)) in
    let! _ := execute (fun db => (set_holds (delete id (db_holds db)) db, tt)) in
    cret (TxCommit tt)).

Definition call_admission_hold (e : UkmEnvelope) (now_ms : Z) : sql bool :=
  let id := hex_encode (env_id e) in
  let! now := i64_try_from now_ms "call time overflow" in
  execute (fun db =>
    match db_messages db !! id with
    | Some _ => (db, false)
    | None =>
        let '(t, b) := insert_or_ignore id (mkHold (hex_encode (env_sender e)) now) (db_holds db) in
        (set_holds t db, b)
    end).

Definition call_admission_release (id : MessageId) : sql unit :=
  execute (fun db => (set_holds (delete (hex_encode id) (db_holds db)) db, tt)).

Definition call_admission_held (id : MessageId) : sql bool :=
  query (fun db => held db (hex_encode id)).

(** The holds of [SELECT .. WHERE held_at_ms < before]. *)
Definition expired_hold (db : DB) (before : Z) (id sender : string) : bool :=
  match db_holds db !! id with
  | Some h => bool_decide (hl_sender h = sender) && (hl_held_at_ms h <? before)
  | None => false
  end.

Definition call_admission_withdraw (held_before_ms : Z) : sql Z :=
  let before := Z.min held_before_ms I64_MAX in
  transaction (
    let! _ := execute (fun db =>
      (set_receipts ((fun r => if expired_hold db before (rc_message_id r) (rc_sender r)
         then mkReceipt (rc_message_id r) (rc_sender r) (-1) (rc_binding r) else r)
         <$> db_receipts db) db, tt)) in
    let! _ := execute (fun db =>
      (set_messages (filter (fun '(id, m) => expired_hold db before id (ms_sender m) = false)
         (db_messages db)) db, tt)) in
    let! done := execute (fun db =>
      let kept := filter (fun '(_, h) => before <= hl_held_at_ms h) (db_holds db) in
      (set_holds kept db, Z.of_nat (size (db_holds db)) - Z.of_nat (size kept))) in
    cret (TxCommit done)).

Definition store_paid_nonce (nonce : Nonce) (ph : bytes) (sender : NodeId) (id : MessageId) :
    sql PaidReplay :=
  transaction (
    let! nonce_new := execute (fun db =>
      ins_nonce (hex_encode nonce) (mkNonce (hex_encode sender) (db_now db)) db) in
    if negb nonce_new then cret (TxRollback NonceReused)
    else
      let! payment_new := execute
        (ins_receipt (hex_encode ph) (mkReceipt (hex_encode id) (hex_encode sender) 0 None)) in
      if negb payment_new then cret (TxRollback PaymentReused)
      else cret (TxCommit Accepted)).

Definition store_nonce (nonce : Nonce) (sender : NodeId) : sql bool :=
  execute (fun db => ins_nonce (hex_encode nonce) (mkNonce (hex_encode sender) (db_now db)) db).

Definition store_payment_receipt (ph : bytes) (sender : NodeId) (id : MessageId) : sql bool :=
  execute (ins_receipt (hex_encode ph) (mkReceipt (hex_encode id) (hex_encode sender) 0 None)).

Definition has_nonce (nonce : Nonce) : sql bool :=
  query (fun db => bool_decide (is_Some (db_nonces db !! hex_encode nonce))).

Definition cleanup_expired_nonces (max_age_secs : Z) : sql Z :=
  execute (fun db =>
    let kept := filter (fun '(_, r) => db_now db - max_age_secs * 1000 <= nr_received_at r)
                  (db_nonces db) in
    (set_nonces kept db, Z.of_nat (size (db_nonces db)) - Z.of_nat (size kept))).

Definition sqlite_record_outgoing_web_request (ph : bytes) (o : OutstandingWebRequest) : sql unit :=
  let! expires := i64_try_from (expires_at_ms o) "web request expiry overflow" in
  execute (fun db => (set_outstanding (<[hex_encode ph := mkOutRow (hex_encode (request_id o))
    (hex_encode (ow_peer o)) (ow_expected_reply_kind o) expires]> (db_outstanding db)) db, tt)).

Definition outstanding_from_row (r : OutstandingRow) : result StorageError OutstandingWebRequest :=
  let bad (what : string) := Conversion ("outstanding web request: bad " +:+ what) in
  let? rid := map_err (fun _ => bad "request id") (MessageId_from_hex (or_request_id r)) in
  let? peer := map_err (fun _ => bad "peer") (NodeId_from_hex (or_peer r)) in
  check bool_decide (is_u16 (or_kind r)) else bad "reply kind" ;;
  check bool_decide (is_u64 (or_expires_at_ms r)) else bad "expiry" ;;
  Ok (mkOutstanding rid peer (or_kind r) (or_expires_at_ms r)).

Definition sqlite_take_outstanding_web_request (ph : bytes) : sql (option OutstandingWebRequest) :=
  let! row := execute (fun db =>
    (set_outstanding (delete (hex_encode ph) (db_outstanding db)) db,
     db_outstanding db !! hex_encode ph)) in
  match row with
  | None => cret None
  | Some r => let! o := clift (outstanding_from_row r) in cret (Some o)
  end.

(** ** Delivery quotes *)

Definition exclusions_text (kinds : list Z) : string :=
  "," +:+ String.concat "," (map show_uint kinds) +:+ ",".

Fixpoint insert_quotes (sender exclusions : string) (issued expires : Z) (prices : list (string * Z)) :
    sql unit :=
  match prices with
  | [] => cret tt
  | (scope, amount) :: rest =>
      let! amount := i64_try_from amount "quote amount overflow" in
      let! ok := execute (fun db =>
        if amount <=? 0 then (db, false)
        else (set_quotes (insert_or_ignore (mkQuote sender scope amount issued exclusions) expires
                (db_quotes db)).1 db, true)) in
      if negb ok then cthrow (Database "CHECK constraint failed: amount_msat > 0")
      else insert_quotes sender exclusions issued expires rest
  end.

Definition record_delivery_prices (sender : NodeId) (prices : list (string * Z))
    (excluded_kinds : list Z) (issued_at expires_at : Z) : sql unit :=
  if (expires_at <=? issued_at) || (DELIVERY_PRICE_WINDOW_SECS <? expires_at - issued_at)
  then cthrow (Conversion "invalid delivery price window")
  else
    let! issued := i64_try_from issued_at "quote time overflow" in
    let! expires := i64_try_from expires_at "quote expiry overflow" in
    transaction (
      let! _ := execute (fun db =>
        (set_quotes (filter (fun '(_, x) => issued - DELIVERY_PRICE_WINDOW_SECS <= x)
           (db_quotes db)) db, tt)) in
      let! _ := insert_quotes (hex_encode sender) (exclusions_text excluded_kinds) issued expires prices in
      cret (TxCommit tt)).

(** A quote that covers a kind at the moment it was paid. *)
Definition quote_covers (sender : string) (kind paid : Z) (k : QuoteKey) (expires : Z) : bool :=
  let category := "category:" +:+ price_table_key (from_kind kind) in
  bool_decide (qk_sender k = sender) &&
  (bool_decide (qk_scope k = "kind:" +:+ show_uint kind) ||
   (bool_decide (qk_scope k = category) &&
    negb (string_contains ("," +:+ show_uint kind +:+ ",") (qk_excluded k)))) &&
  (qk_issued_at k <=? paid) && (paid <=? expires).

(** [SELECT MIN(amount_msat)] over a list of rows. *)
Fixpoint min_amount (l : list QuoteKey) : option Z :=
  match l with
  | [] => None
  | k :: l' => Some (match min_amount l' with
                     | Some m => Z.min (qk_amount_msat k) m
                     | None => qk_amount_msat k
                     end)
  end.

Definition sqlite_delivery_price_floor (e : UkmEnvelope) (paid_at now : Z) : sql (option Z) :=
  if (now <? paid_at) || (DELIVERY_PRICE_WINDOW_SECS <? saturating_sub now paid_at) then cret None
  else
    let! paid := i64_try_from paid_at "payment time overflow" in
    let! amount := query (fun db => min_amount (map fst (filter
      (fun '(k, x) => quote_covers (hex_encode (env_sender e)) (env_kind e) paid k x = true)
      (map_to_list (db_quotes db))))) in
    match amount with
    | None => cret None
    | Some n => if n <? 0 then cthrow (Conversion "negative quoted price") else cret (Some n)
    end.
End Ops.

(** ** The adapter: [StorageNonceAdapter] *)

Definition adapt {A} (m : sql A) : comp DB string A := cmap_err StorageError_to_string m.

#[export] Instance sqlite_nonce_store {PR : Prims} : NonceStore DB := {
  delivery_price_floor e p t := adapt (sqlite_delivery_price_floor e p t);
  is_paid_envelope_accepted e := adapt (sqlite_is_paid_envelope_accepted e);
  check_and_store_paid n h a i := adapt (store_paid_nonce n h a i);
  check_and_store n a := adapt (store_nonce n a);
  check_and_store_payment_hash h a i := adapt (store_payment_receipt h a i);
  record_outgoing_web_request h o := adapt (sqlite_record_outgoing_web_request h o);
  take_outstanding_web_request h := adapt (sqlite_take_outstanding_web_request h)
}.
