(* ===== verification/SqliteSpec.v ===== *)
(** * The SQLite storage keeps the gate's promises

    [Sqlite] implements the interface of [Replay] under every sequence of
    database failures: the paid-replay transaction is all-or-nothing, lookups
    and quotes consume no replay key, and a receipt is answered as accepted
    only while it is in the receipts table. *)

From S2P Require Import Prelude Text Kind Types Envelope WebReply Gate Replay Sqlite.

#[export] Instance sqlite_view {PR : Prims} : ReplayView DB := {
  nonce_recorded db n := nr_received_at <$> db_nonces db !! hex_encode n;
  payment_used db h := is_Some (db_receipts db !! hex_encode h);
  store_now := db_now
}.

(** ** Statements *)

Lemma round_trip_cases db : exists fs,
  round_trip db = (set_faults fs db, Ok tt) \/ exists e, round_trip db = (set_faults fs db, Err e).
Proof.
  unfold round_trip. destruct db as [n r m h o q now [|[e|] fs]]; simpl; eauto.
Qed.

(** Split a run of statements into its possible outcomes. *)
Ltac sql_step H :=
  repeat match type of H with
  | context [round_trip ?db] =>
      let fs := fresh "fs" in let e := fresh "err" in let E := fresh "E" in
      destruct (round_trip_cases db) as [fs [E|[e E]]]; rewrite E in H; clear E;
      cbv beta iota delta [cbind cret cthrow clift] in H
  | (_, _) = (_, _) => injection H as <- <-
  end.

Lemma insert_or_ignore_cases `{Countable K} {V} (k : K) (v : V) t :
  (t !! k = None /\ insert_or_ignore k v t = (<[k := v]> t, true)) \/
  (is_Some (t !! k) /\ insert_or_ignore k v t = (t, false)).
Proof. unfold insert_or_ignore. destruct (t !! k) eqn:E; [right; eauto|left; auto]. Qed.

Section Paid.
Context {PR : Prims}.

Inductive paid_spec (n : Nonce) (h : bytes) (a : NodeId) (i : MessageId) (db db' : DB) :
    result StorageError PaidReplay -> Prop :=
| ps_accepted :
    db_nonces db !! hex_encode n = None -> db_receipts db !! hex_encode h = None ->
    db_nonces db' = <[hex_encode n := mkNonce (hex_encode a) (db_now db)]> (db_nonces db) ->
    db_receipts db' = <[hex_encode h := mkReceipt (hex_encode i) (hex_encode a) 0 None]> (db_receipts db) ->
    paid_spec n h a i db db' (Ok Accepted)
| ps_nonce :
    is_Some (db_nonces db !! hex_encode n) ->
    db_nonces db' = db_nonces db -> db_receipts db' = db_receipts db ->
    paid_spec n h a i db db' (Ok NonceReused)
| ps_payment :
    is_Some (db_receipts db !! hex_encode h) ->
    db_nonces db' = db_nonces db -> db_receipts db' = db_receipts db ->
    paid_spec n h a i db db' (Ok PaymentReused)
| ps_failed err :
    db_nonces db' = db_nonces db -> db_receipts db' = db_receipts db ->
    paid_spec n h a i db db' (Err err).

Lemma store_paid_nonce_spec n h a i db db' r :
  store_paid_nonce n h a i db = (db', r) -> paid_spec n h a i db db' r.
Proof.
  unfold store_paid_nonce, transaction, execute, cbind. intros H.
  sql_step H; try (by apply ps_failed).
  unfold ins_nonce in H. cbn [db_nonces set_faults db_now] in H.
  destruct (insert_or_ignore_cases (hex_encode n) (mkNonce (hex_encode a) (db_now db)) (db_nonces db))
    as [[Hn E]|[Hn E]]; rewrite E in H; cbn in H; unfold roll_back in H;
    [|by sql_step H; [apply ps_nonce|apply ps_failed]].
  sql_step H; try (by apply ps_failed).
  unfold ins_receipt in H. cbn [db_receipts set_faults set_nonces] in H.
  destruct (insert_or_ignore_cases (hex_encode h)
    (mkReceipt (hex_encode i) (hex_encode a) 0 None) (db_receipts db))
    as [[Hh E']|[Hh E']]; rewrite E' in H; cbn in H;
    [|by sql_step H; [apply ps_payment|apply ps_failed]].
  by sql_step H; [apply ps_accepted|apply ps_failed].
Qed.
End Paid.

(** ** Relations every statement maintains *)

Section Preserve.
Context (R : DB -> DB -> Prop) `{!PreOrder R} (Rfaults : forall db fs, R db (set_faults fs db)).

Definition pres {E A} (m : comp DB E A) : Prop := forall db db' r, m db = (db', r) -> R db db'.

Lemma pres_ret {E A} (a : A) : pres (@cret DB E A a).
Proof. by intros db db' r [= <- _]. Qed.
Lemma pres_throw {E A} (err : E) : pres (@cthrow DB E A err).
Proof. by intros db db' r [= <- _]. Qed.
Lemma pres_lift {E A} (x : result E A) : pres (@clift DB E A x).
Proof. by intros db db' r [= <- _]. Qed.
Lemma pres_bind {E A B} (m : comp DB E A) (k : A -> comp DB E B) :
  pres m -> (forall a, pres (k a)) -> pres (cbind m k).
Proof.
  intros Hm Hk db db' r. unfold cbind. destruct (m db) as [db1 [a|err]] eqn:E1; intros Heq.
  - transitivity db1; [by eapply Hm|by eapply Hk].
  - injection Heq as <- _. by eapply Hm.
Qed.
Lemma pres_map_err {E F A} (f : E -> F) (m : comp DB E A) : pres m -> pres (cmap_err f m).
Proof.
  intros Hm db db' r. unfold cmap_err. destruct (m db) as [db1 q] eqn:E1.
  intros [= <- _]. by eapply Hm.
Qed.
Lemma pres_round_trip : pres round_trip.
Proof. intros db db' r H. sql_step H; apply Rfaults. Qed.
Lemma pres_query {A} (f : DB -> A) : pres (query f).
Proof. apply pres_bind; [apply pres_round_trip|]. by intros _ db db' r [= <- _]. Qed.
Lemma pres_execute {A} (f : DB -> DB * A) : (forall db, R db (f db).1) -> pres (execute f).
Proof.
  intros Hf. apply pres_bind; [apply pres_round_trip|]. intros _ db db' r.
  specialize (Hf db). destruct (f db). by intros [= <- _].
Qed.
Lemma pres_transaction {A} (body : sql (tx_end A)) : pres body -> pres (transaction body).
Proof.
  intros Hb. apply pres_bind; [apply pres_round_trip|]. intros _ db db' r.
  destruct (body db) as [db1 [[a|a]|err]] eqn:E; intros H; unfold roll_back in H.
  - apply Hb in E. sql_step H; [etransitivity; [exact E|apply Rfaults]|apply Rfaults].
  - eapply pres_bind in H; [|apply pres_round_trip|intros; apply pres_ret].
    etransitivity; [|exact H]. apply Rfaults.
  - injection H as <- _. apply Rfaults.
Qed.
Lemma pres_i64 n msg : pres (i64_try_from n msg).
Proof. apply pres_lift. Qed.
Lemma pres_binding_of {PR : Prims} e : pres (binding_of e).
Proof.
  unfold binding_of. destruct (recipient_to_parts _). apply pres_bind; [apply pres_i64|].
  intros amt. apply pres_bind; [apply pres_lift|intros; apply pres_ret].
Qed.
End Preserve.

(** Walk through a computation statement by statement. *)
Ltac pres_tac :=
  repeat (intros; first
    [ apply pres_query | apply pres_execute | apply pres_transaction | apply pres_binding_of
    | apply pres_i64 | apply pres_map_err | apply pres_ret | apply pres_throw | apply pres_lift
    | apply pres_bind | progress case_match ]; auto with typeclass_instances).

(** ** The interface of the gate *)

Section Laws.
Context {PR : Prims}.

Lemma same_keys_faults db fs : same_keys db (set_faults fs db).
Proof. done. Qed.
Lemma keys_grow_faults db fs : keys_grow db (set_faults fs db).
Proof. done. Qed.

Lemma same_keys_bind_receipt ph b db : same_keys db (bind_receipt ph b db).
Proof.
  split; [done|]. intros h. simpl. rewrite lookup_alter. case_decide; [subst|done].
  by rewrite fmap_is_Some.
Qed.

Lemma accepted_keeps e : keeps (sqlite_is_paid_envelope_accepted e).
Proof.
  change (pres same_keys (sqlite_is_paid_envelope_accepted e)).
  unfold sqlite_is_paid_envelope_accepted. pres_tac; try apply same_keys_faults.
  all: try case_match; first [apply same_keys_bind_receipt|done].
Qed.

Lemma floor_keeps e p t : keeps (sqlite_delivery_price_floor e p t).
Proof.
  change (pres same_keys (sqlite_delivery_price_floor e p t)).
  unfold sqlite_delivery_price_floor. pres_tac; try apply same_keys_faults.
Qed.

Lemma take_keeps h : keeps (sqlite_take_outstanding_web_request h).
Proof.
  change (pres same_keys (sqlite_take_outstanding_web_request h)).
  unfold sqlite_take_outstanding_web_request. pres_tac; try apply same_keys_faults; done.
Qed.

Lemma record_keeps h o : keeps (sqlite_record_outgoing_web_request h o).
Proof.
  change (pres same_keys (sqlite_record_outgoing_web_request h o)).
  unfold sqlite_record_outgoing_web_request. pres_tac; try apply same_keys_faults; done.
Qed.

Lemma ins_nonce_grow k v db : keys_grow db (ins_nonce k v db).1.
Proof.
  unfold ins_nonce. destruct (insert_or_ignore_cases k v (db_nonces db)) as [[Hk ->]|[_ ->]]; [|done].
  split; [|done]. intros n t Hn. simpl in *. rewrite lookup_insert_ne; [done|].
  intros ->. by rewrite Hk in Hn.
Qed.

Lemma ins_receipt_grow k v db : keys_grow db (ins_receipt k v db).1.
Proof.
  unfold ins_receipt. destruct (insert_or_ignore_cases k v (db_receipts db)) as [[_ ->]|[_ ->]]; [|done].
  split; [done|]. intros h Hh. simpl in *. by apply lookup_insert_is_Some'; right.
Qed.

Lemma store_nonce_grow n a : pres keys_grow (store_nonce n a).
Proof. apply pres_execute; [apply _|done|]. intros db. apply ins_nonce_grow. Qed.

Lemma store_payment_receipt_grow h a i : pres keys_grow (store_payment_receipt h a i).
Proof. apply pres_execute; [apply _|done|]. intros db. apply ins_receipt_grow. Qed.

Lemma legacy_match_receipt db ph id sender b : legacy_match db ph id sender b = true ->
  is_Some (db_receipts db !! ph).
Proof. unfold legacy_match, receipt_for. destruct (db_receipts db !! ph); [eauto|done]. Qed.

Lemma durable_receipt_receipt db ph id sender a b : durable_receipt db ph id sender a b = true ->
  is_Some (db_receipts db !! ph).
Proof. unfold durable_receipt, receipt_for. destruct (db_receipts db !! ph); [eauto|done]. Qed.

Lemma binding_of_store e db db' r : binding_of e db = (db', r) -> db' = db.
Proof.
  unfold binding_of, cbind, i64_try_from, clift, cret. destruct (recipient_to_parts _).
  destruct (_ <=? _); simpl; [|by intros [= <- _]].
  match goal with |- context [json_string_list ?l] => destruct (json_string_list l) end;
    simpl; by intros [= <- _].
Qed.

Lemma accepted_used e db db' : sqlite_is_paid_envelope_accepted e db = (db', Ok true) ->
  is_Some (db_receipts db !! env_ph e).
Proof.
  unfold sqlite_is_paid_envelope_accepted, cbind at 1. intros H.
  destruct (binding_of e db) as [db1 [b|]] eqn:Hb; [|done].
  apply binding_of_store in Hb as ->.
  unfold query, execute, cbind in H. sql_step H; try done. cbn [db_receipts set_faults] in H.
  destruct (negb (held _ _) && durable_receipt _ _ _ _ _ _) eqn:Hd.
  { apply andb_true_iff in Hd as [_ Hd]. by apply durable_receipt_receipt in Hd. }
  sql_step H; try done.
  destruct (negb (held _ _) && legacy_match _ _ _ _ _) eqn:Hl; [|done].
  apply andb_true_iff in Hl as [_ Hl]. by apply legacy_match_receipt in Hl.
Qed.

Lemma paid_law n h a i db db' r : check_and_store_paid n h a i db = (db', r) ->
  exists q, paid_spec n h a i db db' q /\ r = map_err StorageError_to_string q.
Proof.
  simpl. unfold adapt, cmap_err. destruct (store_paid_nonce n h a i db) as [db1 q] eqn:E.
  intros [= <- <-]. apply store_paid_nonce_spec in E. eauto.
Qed.

#[export] Instance sqlite_laws : NonceStoreLaws DB.
Proof.
  constructor.
  - intros n h a i db db' (q & Hq & Heq)%paid_law. destruct Hq as [Hn Hh En Eh| | |]; try done.
    unfold nonce_used. simpl. rewrite Hn, Hh, En, Eh, !lookup_insert_eq.
    split_and!; try (by intros []); try done. split; simpl.
    + intros x t Hx. rewrite En, lookup_insert_ne; [done|]. intros Heq'. by rewrite <- Heq', Hn in Hx.
    + intros x Hx. rewrite Eh. by apply lookup_insert_is_Some'; right.
  - intros n h a i db db' r (q & Hq & ->)%paid_law Hr. destruct Hq as [|_ En Eh|_ En Eh|err En Eh];
      [done|..]; split; intros; simpl; by rewrite ?En, ?Eh.
  - intros n h a i db db' (q & Hq & Heq)%paid_law. destruct Hq; try done. by apply fmap_is_Some.
  - intros n h a i db db' (q & Hq & Heq)%paid_law. by destruct Hq.
  - intros e db db' r. apply keeps_map_err, accepted_keeps.
  - intros e db db'. simpl. unfold adapt, cmap_err.
    destruct (sqlite_is_paid_envelope_accepted e db) as [db1 [[]|]] eqn:E; simpl; try done.
    intros _. by eapply accepted_used.
  - intros e p t db db' r. apply keeps_map_err, floor_keeps.
  - intros h db db' r. apply keeps_map_err, take_keeps.
  - intros h o db db' r. apply keeps_map_err, record_keeps.
  - intros n a db db' r. apply pres_map_err, store_nonce_grow.
  - intros h a i db db' r. apply pres_map_err, store_payment_receipt_grow.
Qed.
End Laws.
