(* ===== verification/SqliteAccept.v ===== *)
(** * Accepting, withdrawing and re-answering paid envelopes

    The one transaction that turns a validated envelope into a stored message
    ([accept_paid_envelope]), and the theorem that no sequence of storage
    operations, with failures anywhere, accepts one payment hash twice. *)

From S2P Require Import Prelude Text Kind Types Concrete Envelope WebReply Gate Samples Replay Sqlite.
From S2P Require Import SqliteSpec.

(** A receipt whose payment was consumed: accepted, or withdrawn later. *)
Definition spent (db : DB) (ph : string) : Prop :=
  exists r, db_receipts db !! ph = Some r /\ rc_accepted r <> 0.

Definition spends_kept (db db' : DB) : Prop := forall ph, spent db ph -> spent db' ph.

#[export] Instance spends_kept_preorder : PreOrder spends_kept.
Proof. split; [by intros db ph|]. intros x y z H1 H2 ph Hp. by apply H2, H1. Qed.

Lemma spends_kept_faults db fs : spends_kept db (set_faults fs db).
Proof. by intros ph. Qed.

Lemma spends_kept_receipts db db' : db_receipts db' = db_receipts db -> spends_kept db db'.
Proof. intros Heq ph (r & Hr & Ha). exists r. by rewrite Heq. Qed.

(** A row-wise update that never clears [accepted]. *)
Lemma spends_kept_alter f ph db :
  (forall r, rc_accepted r <> 0 -> rc_accepted (f r) <> 0) ->
  spends_kept db (set_receipts (alter f ph (db_receipts db)) db).
Proof.
  intros Hf q (r & Hr & Ha). destruct (decide (q = ph)) as [->|Hne].
  - exists (f r). simpl. rewrite lookup_alter_eq, Hr. auto.
  - exists r. simpl. by rewrite lookup_alter_ne.
Qed.

Lemma spends_kept_bind ph b db : spends_kept db (bind_receipt ph b db).
Proof. by apply spends_kept_alter. Qed.

Lemma spends_kept_ins k v db : spends_kept db (ins_receipt k v db).1.
Proof.
  unfold ins_receipt. destruct (insert_or_ignore_cases k v (db_receipts db)) as [[Hk ->]|[_ ->]]; [|by apply spends_kept_receipts].
  intros q (r & Hr & Ha). exists r. simpl. rewrite lookup_insert_ne by congruence. done.
Qed.

Lemma ins_nonce_receipts k v db : db_receipts (ins_nonce k v db).1 = db_receipts db.
Proof. unfold ins_nonce. by destruct (insert_or_ignore k v (db_nonces db)). Qed.

Section Accept.
Context {PR : Prims}.

Lemma heal_receipt_store ph id sender b db db' out :
  heal_receipt ph id sender b db = (db', Ok out) ->
  (exists fs, out = None /\ db' = set_faults fs db /\ db_messages db !! id = None /\
     exists q, db_receipts db !! ph = Some (mkReceipt id sender 0 q)) \/
  (exists fs a, out = Some (TxRollback a) /\ a <> PAccepted /\ db' = set_faults fs db) \/
  (exists fs, out = Some (TxCommit PAlreadyAccepted) /\ db' = bind_receipt ph b (set_faults fs db)).
Proof.
  unfold heal_receipt, query, execute, cbind. intros H. sql_step H; [|done].
  cbn [db_receipts set_faults] in H. destruct (db_receipts db !! ph) as [[i s a q]|] eqn:Hr; [|done].
  case_bool_decide as Hb; cbn [rc_message_id rc_sender rc_accepted] in *.
  { injection H as <- <-. right; left. by eexists _, PPaymentReused. }
  destruct (a =? -1). { injection H as <- <-. right; left. by eexists _, PWithdrawn. }
  sql_step H; [|done].
  destruct (durable_receipt _ _ _ _ _ _).
  { injection H as <- <-. right; left. by eexists _, PAlreadyAccepted. }
  sql_step H; [|done]. destruct (legacy_match _ _ _ _ _).
  { sql_step H; [|done]. right; right. by eexists. }
  sql_step H; [|done]. cbn [db_messages set_faults] in H.
  case_bool_decide as Hm; cbn [orb] in H.
  { injection H as <- <-. right; left. by eexists _, PPaymentReused. }
  destruct (Z.eqb_spec a 0) as [->|]; cbn [negb] in H; injection H as <- <-.
  - left. eexists. split_and!; [done..| |].
    + apply eq_None_not_Some. done.
    + apply Decidable.not_or in Hb as [->%dec_stable ->%dec_stable]. by eexists.
  - right; left. by eexists _, PPaymentReused.
Qed.

(** The first statement of the transaction: the receipt row exists from here
    on, fresh or found. *)
Lemma open_receipt ph id sender b db db1 db' inserted early :
  execute (ins_receipt ph (mkReceipt id sender 0 None)) db = (db1, Ok inserted) ->
  (if negb inserted then heal_receipt ph id sender b else cret None) db1 = (db', Ok early) ->
  (early = None /\ ~ spent db ph /\ db_messages db' = db_messages db /\ db_nonces db' = db_nonces db /\
     (inserted = false -> is_Some (db_receipts db !! ph) /\ db_messages db !! id = None) /\
     exists q, db_receipts db' !! ph = Some (mkReceipt id sender 0 q)) \/
  (exists a, early = Some (TxRollback a) /\ a <> PAccepted) \/
  early = Some (TxCommit PAlreadyAccepted).
Proof.
  unfold execute, cbind, cret. intros H. sql_step H; [|done].
  unfold ins_receipt in H. cbn [db_receipts set_faults] in H.
  destruct (insert_or_ignore_cases ph (mkReceipt id sender 0 None) (db_receipts db))
    as [[Hn E]|[Hn E]]; rewrite E in H; injection H as <- <-; cbn [negb]; intros Hh.
  { injection Hh as <- <-. left. split_and!; try done.
    - by intros (r & Hr & _); congruence.
    - exists None. simpl. by rewrite lookup_insert_eq. }
  apply heal_receipt_store in Hh as [(fs' & -> & -> & Hm & q & Hq)|[(fs' & a & -> & Ha & ->)|(fs' & -> & ->)]].
  - left. simpl in *. split_and!; try done; [|by eexists].
    intros (r & Hr & Hacc). rewrite Hq in Hr. by injection Hr as <-.
  - right; left. by exists a.
  - by right; right.
Qed.

Record accepted (e : UkmEnvelope) (db db' : DB) : Prop := {
  ac_unspent : ~ spent db (env_ph e);
  ac_new_message : db_messages db !! hex_encode (env_id e) = None;
  ac_nonce : db_nonces db !! hex_encode (env_nonce e) = None \/
    (is_Some (db_receipts db !! env_ph e) /\
     nr_sender <$> db_nonces db !! hex_encode (env_nonce e) = Some (hex_encode (env_sender e)));
  ac_receipt : exists b, binding_of e db = (db, Ok b) /\ db_receipts db' !! env_ph e =
    Some (mkReceipt (hex_encode (env_id e)) (hex_encode (env_sender e)) 1 (Some b));
  ac_message : is_Some (db_messages db' !! hex_encode (env_id e));
  ac_nonce_used : is_Some (db_nonces db' !! hex_encode (env_nonce e))
}.

Lemma bind_receipt_lookup ph b db id sender a q :
  db_receipts db !! ph = Some (mkReceipt id sender a q) ->
  db_receipts (bind_receipt ph b db) !! ph = Some (mkReceipt id sender 1 (Some b)).
Proof. intros Hr. simpl. by rewrite lookup_alter_eq, Hr. Qed.

(** The statements after it, when the envelope is to be stored. *)
Lemma store_message_spec (e : UkmEnvelope) (healing : bool) b ts q (db db' : DB) out :
  let id := hex_encode (env_id e) in
  let sender := hex_encode (env_sender e) in
  let nonce := hex_encode (env_nonce e) in
  store_message e healing ts b db = (db', Ok out) ->
  db_receipts db !! env_ph e = Some (mkReceipt id sender 0 q) ->
  out = TxRollback PNonceReused \/
  (out = TxCommit PAccepted /\ db_messages db !! id = None /\
   (db_nonces db !! nonce = None \/
    (healing = true /\ nr_sender <$> db_nonces db !! nonce = Some sender)) /\
   db_receipts db' !! env_ph e = Some (mkReceipt id sender 1 (Some b)) /\
   is_Some (db_messages db' !! id) /\ is_Some (db_nonces db' !! nonce)).
Proof.
  cbv zeta. unfold store_message, execute, query, cbind, cret, cthrow. intros H Hr. sql_step H; [|done].
  unfold ins_nonce in H. cbn [db_nonces set_faults db_now] in H.
  destruct (insert_or_ignore_cases (hex_encode (env_nonce e))
    (mkNonce (hex_encode (env_sender e)) (db_now db)) (db_nonces db)) as [[Hn E]|[Hn E]];
    rewrite E in H; cbn [negb] in H.
  - sql_step H; [|done]. cbn [db_messages set_faults set_nonces] in H.
    destruct (db_messages db !! hex_encode (env_id e)) eqn:Hm; [done|]. cbn [negb] in H.
    sql_step H; [|done]. right. split_and!; try done; [by left|..]; simpl.
    + by rewrite lookup_alter_eq, Hr.
    + by rewrite lookup_insert_eq.
    + by rewrite lookup_insert_eq.
  - sql_step H; [|done]. cbn [db_nonces set_faults set_nonces] in H.
    destruct (negb healing || _) eqn:Hreuse; [injection H as _ <-; by left|].
    bool_to_prop. apply dec_stable in H1. sql_step H; [|done].
    cbn [db_messages set_faults set_nonces] in H.
    destruct (db_messages db !! hex_encode (env_id e)) eqn:Hm; [done|]. cbn [negb] in H.
    sql_step H; [|done]. right. split_and!; try done; [by right|..]; simpl.
    + by rewrite lookup_alter_eq, Hr.
    + by rewrite lookup_insert_eq.
Qed.

Lemma transaction_ok {A} (body : sql (tx_end A)) db db' a : transaction body db = (db', Ok a) ->
  exists fs db1, (body (set_faults fs db) = (db1, Ok (TxCommit a)) /\ exists fs', db' = set_faults fs' db1) \/
    body (set_faults fs db) = (db1, Ok (TxRollback a)).
Proof.
  unfold transaction, cbind. intros H. sql_step H; [|done].
  destruct (body (set_faults fs db)) as [db1 [[x|x]|]] eqn:Hb; exists fs, db1; [| |done].
  - sql_step H; [|done]. left. eauto.
  - unfold roll_back in H. sql_step H; [|done]. by right.
Qed.

Lemma accept_accepted e db db' :
  accept_paid_envelope e db = (db', Ok PAccepted) -> accepted e db db'.
Proof.
  unfold accept_paid_envelope, cbind at 1. unfold i64_try_from at 1, clift at 1.
  destruct (_ <=? _); [|done]. unfold cbind at 1.
  destruct (binding_of e db) as [db1 [b|]] eqn:Hb; [|done]. pose proof (binding_of_store _ _ _ _ Hb) as ->.
  intros (fs & db2 & Hbody)%transaction_ok. revert Hbody. unfold cbind at 1 2 3 4.
  destruct (execute _ _) as [db3 [ins|]] eqn:Hi; [|by intros [[]|]].
  match goal with |- context [(if negb ins then ?x else ?y) db3] =>
    destruct ((if negb ins then x else y) db3) as [db4 [early|]] eqn:Hh end; [|by intros [[]|]].
  destruct (open_receipt _ _ _ _ _ _ _ _ _ Hi Hh)
    as [(-> & Hs & Em & En & Hheal & q & Hq)|[(a & -> & Ha)| ->]];
    [|by intros [[[=] _]|[=]]|by intros [[[=] _]|[=]]].
  intros [[Hst [fs' ->]]|Hst]; destruct (store_message_spec _ _ _ _ _ _ _ _ Hst Hq)
    as [Hx|(Hx & Hm & Hn & Hr & Hms & Hns)]; try discriminate Hx.
  rewrite Em in Hm. rewrite En in Hn.
  constructor; try done; [|by exists b].
  destruct Hn as [Hn|[Hheal' Hn]]; [by left|right]. split; [|done].
  apply Hheal. by destruct ins.
Qed.

(** ** Any sequence of storage operations *)

(** The storage interface of the admission path, and the environment changing
    the clock or the failures to come. *)
Inductive db_op : Type :=
| OAccept (e : UkmEnvelope)
| OReject (e : UkmEnvelope)
| OHold (e : UkmEnvelope) (now_ms : Z)
| ORelease (id : MessageId)
| OWithdraw (before_ms : Z)
| OStorePaid (n : Nonce) (h : bytes) (sender : NodeId) (id : MessageId)
| OStoreNonce (n : Nonce) (sender : NodeId)
| OStoreReceipt (h : bytes) (sender : NodeId) (id : MessageId)
| ORecordWeb (h : bytes) (o : OutstandingWebRequest)
| OTakeWeb (h : bytes)
| ORecordPrices (sender : NodeId) (prices : list (string * Z)) (excluded : list Z) (from until : Z)
| OFloor (e : UkmEnvelope) (paid_at now : Z)
| OIsAccepted (e : UkmEnvelope)
| OIsRejected (e : UkmEnvelope)
| OCleanup (max_age_secs : Z)
| OEnvironment (now : Z) (faults : list (option string)).

(** The database afterwards and the payment hash newly accepted, if any. *)
Definition run_db_op (op : db_op) (db : DB) : DB * option string :=
  match op with
  | OAccept e =>
      let '(db', r) := accept_paid_envelope e db in
      (db', if bool_decide (r = Ok PAccepted) then Some (env_ph e) else None)
  | OReject e => ((reject_accepted_envelope e db).1, None)
  | OHold e now => ((call_admission_hold e now db).1, None)
  | ORelease id => ((call_admission_release id db).1, None)
  | OWithdraw t => ((call_admission_withdraw t db).1, None)
  | OStorePaid n h a i => ((store_paid_nonce n h a i db).1, None)
  | OStoreNonce n a => ((store_nonce n a db).1, None)
  | OStoreReceipt h a i => ((store_payment_receipt h a i db).1, None)
  | ORecordWeb h o => ((sqlite_record_outgoing_web_request h o db).1, None)
  | OTakeWeb h => ((sqlite_take_outstanding_web_request h db).1, None)
  | ORecordPrices a p x f u => ((record_delivery_prices a p x f u db).1, None)
  | OFloor e p t => ((sqlite_delivery_price_floor e p t db).1, None)
  | OIsAccepted e => ((sqlite_is_paid_envelope_accepted e db).1, None)
  | OIsRejected e => ((is_paid_envelope_rejected e db).1, None)
  | OCleanup s => ((cleanup_expired_nonces s db).1, None)
  | OEnvironment now fs =>
      (mkDB (db_nonces db) (db_receipts db) (db_messages db) (db_holds db) (db_outstanding db)
         (db_quotes db) now fs, None)
  end.

Fixpoint run_db_ops (ops : list db_op) (db : DB) (acc : list string) : DB * list string :=
  match ops with
  | [] => (db, acc)
  | op :: ops' =>
      let '(db', a) := run_db_op op db in
      run_db_ops ops' db' (match a with Some ph => ph :: acc | None => acc end)
  end.

Ltac spend_tac := pres_tac; try apply spends_kept_faults; intros; try (by apply spends_kept_receipts).

Lemma accept_spends e : pres spends_kept (accept_paid_envelope e).
Proof.
  unfold accept_paid_envelope, heal_receipt, store_message. spend_tac;
    try apply spends_kept_ins; try apply spends_kept_bind.
  all: intros; apply spends_kept_receipts, ins_nonce_receipts.
Qed.

Lemma reject_spends e : pres spends_kept (reject_accepted_envelope e).
Proof.
  unfold reject_accepted_envelope. spend_tac.
  apply spends_kept_alter. intros r Hr. by case_bool_decide.
Qed.

Lemma withdraw_spends t : pres spends_kept (call_admission_withdraw t).
Proof.
  unfold call_admission_withdraw. spend_tac. intros ph (r & Hr & Ha).
  eexists. cbn [fst set_receipts db_receipts]. rewrite lookup_fmap, Hr. split; [done|].
  by destruct (expired_hold _ _ _ _).
Qed.

Lemma store_paid_spends n h a i : pres spends_kept (store_paid_nonce n h a i).
Proof.
  unfold store_paid_nonce. spend_tac; try apply spends_kept_ins.
  intros; apply spends_kept_receipts, ins_nonce_receipts.
Qed.

Lemma insert_quotes_spends s x i u ps : pres spends_kept (insert_quotes s x i u ps).
Proof.
  induction ps as [|[sc am] ps IH]; simpl; [apply pres_ret, _|]. spend_tac.
Qed.

Lemma fst_of {A B} (m : A * B) : exists b, m = (m.1, b).
Proof. destruct m. by eexists. Qed.

Lemma pres_fst {A} (m : sql A) db : pres spends_kept m -> spends_kept db (m db).1.
Proof. intros Hm. destruct (fst_of (m db)) as [r Hr]. by eapply Hm. Qed.

Lemma run_db_op_spends op db : spends_kept db (run_db_op op db).1.
Proof.
  destruct op; cbn [run_db_op fst]; try (by apply spends_kept_receipts); try apply pres_fst.
  - pose proof (pres_fst (accept_paid_envelope e) db (accept_spends e)) as Hp.
    by destruct (accept_paid_envelope e db).
  - apply reject_spends.
  - unfold call_admission_hold. spend_tac.
  - unfold call_admission_release. spend_tac.
  - apply withdraw_spends.
  - apply store_paid_spends.
  - unfold store_nonce. spend_tac. intros; apply spends_kept_receipts, ins_nonce_receipts.
  - unfold store_payment_receipt. spend_tac. apply spends_kept_ins.
  - unfold sqlite_record_outgoing_web_request. spend_tac.
  - unfold sqlite_take_outstanding_web_request. spend_tac.
  - unfold record_delivery_prices. spend_tac. apply insert_quotes_spends.
  - unfold sqlite_delivery_price_floor. spend_tac.
  - unfold sqlite_is_paid_envelope_accepted. spend_tac. apply spends_kept_bind.
  - unfold is_paid_envelope_rejected. spend_tac.
  - unfold cleanup_expired_nonces. spend_tac.
Qed.

(** The other tasks of the node, as the gate sees them. *)
#[export] Instance sqlite_tasks : StoreTasks DB := {
  store_task := db_op;
  run_task op db := (run_db_op op db).1;
  cleanup_age op := match op with OCleanup age => Some age | _ => None end
}.

Lemma keys_grow_receipts db f : (forall ph, is_Some (db_receipts db !! ph) -> is_Some (f !! ph)) ->
  keys_grow db (set_receipts f db).
Proof. intros Hf. split; [done|]. intros h. apply Hf. Qed.

Lemma keys_grow_alter db g ph : keys_grow db (set_receipts (alter g ph (db_receipts db)) db).
Proof.
  apply keys_grow_receipts. intros q Hq. rewrite lookup_alter. case_decide; [subst|done].
  by apply fmap_is_Some.
Qed.

Lemma keys_grow_same db db' : db_nonces db' = db_nonces db -> db_receipts db' = db_receipts db ->
  keys_grow db db'.
Proof. intros Hn Hr. split; simpl; intros; by rewrite ?Hn, ?Hr. Qed.

Ltac grow_tac := pres_tac; try apply keys_grow_faults; intros;
  try first [apply ins_nonce_grow|apply ins_receipt_grow|by apply keys_grow_same|apply keys_grow_alter].

Lemma accept_grow e : pres keys_grow (accept_paid_envelope e).
Proof. unfold accept_paid_envelope, heal_receipt, store_message. grow_tac. Qed.

Lemma withdraw_grow t : pres keys_grow (call_admission_withdraw t).
Proof.
  unfold call_admission_withdraw. grow_tac. split; [done|]. intros h Hh. simpl in *.
  rewrite lookup_fmap. by apply fmap_is_Some.
Qed.

Lemma insert_quotes_grow s x i u ps : pres keys_grow (insert_quotes s x i u ps).
Proof. induction ps as [|[sc am] ps IH]; simpl; [apply pres_ret, _|]. grow_tac. Qed.

Lemma grow_fst {A} (m : sql A) db : pres keys_grow m -> keys_grow db (m db).1.
Proof. intros Hm. destruct (fst_of (m db)) as [r Hr]. by eapply Hm. Qed.

(** Every operation but the clean-up keeps all keys. *)
Lemma run_db_op_grow op db : (forall age, op <> OCleanup age) -> keys_grow db (run_db_op op db).1.
Proof.
  intros Hop. destruct op; cbn [run_db_op fst]; try (by apply keys_grow_same); try apply grow_fst.
  - pose proof (grow_fst (accept_paid_envelope e) db (accept_grow e)) as Hp.
    by destruct (accept_paid_envelope e db).
  - unfold reject_accepted_envelope. grow_tac.
  - unfold call_admission_hold. grow_tac.
  - unfold call_admission_release. grow_tac.
  - apply withdraw_grow.
  - unfold store_paid_nonce. grow_tac.
  - apply store_nonce_grow.
  - apply store_payment_receipt_grow.
  - unfold sqlite_record_outgoing_web_request. grow_tac.
  - unfold sqlite_take_outstanding_web_request. grow_tac.
  - unfold record_delivery_prices. grow_tac. apply insert_quotes_grow.
  - unfold sqlite_delivery_price_floor. grow_tac.
  - unfold sqlite_is_paid_envelope_accepted. grow_tac.
  - unfold is_paid_envelope_rejected. grow_tac.
  - by destruct (Hop max_age_secs).
Qed.

(** The clean-up keeps every payment, and every nonce that is young enough. *)
Lemma cleanup_keys age db db' r : cleanup_expired_nonces age db = (db', r) ->
  db_receipts db' = db_receipts db /\
  forall n t, nonce_recorded db n = Some t ->
    nonce_recorded db' n = Some t \/ older_than age (store_now db) t.
Proof.
  unfold cleanup_expired_nonces, execute, cbind. intros H. sql_step H; [|by auto].
  split; [done|]. intros n t. simpl. intros (row & Hrow & ->)%fmap_Some.
  destruct (decide (db_now db - age * 1000 <= nr_received_at row)) as [Hy|Ho];
    [left|right; unfold older_than; simpl; lia].
  apply fmap_Some. exists row. split; [|done]. by apply map_lookup_filter_Some_2.
Qed.

#[export] Instance sqlite_task_laws : StoreTaskLaws DB.
Proof.
  assert (Hsplit : forall op, (exists age, op = OCleanup age) \/ forall age, op <> OCleanup age).
  { intros []; eauto; by right. }
  constructor; intros op; destruct (Hsplit op) as [[age ->]|Hop].
  - intros h db. destruct (fst_of (cleanup_expired_nonces age db)) as [r Hr].
    apply cleanup_keys in Hr as [Heq _]. simpl. by rewrite Heq.
  - intros h db. by apply run_db_op_grow.
  - intros n t db Ht. destruct (fst_of (cleanup_expired_nonces age db)) as [r Hr].
    destruct (proj2 (cleanup_keys _ _ _ _ Hr) n t Ht) as [|Ho]; [by left|right].
    exists age. done.
  - intros n t db Ht. left. by apply run_db_op_grow.
Qed.

Lemma run_db_ops_once ops db db0 acc : spends_kept db0 db ->
  NoDup acc -> Forall (fun ph => spent db ph /\ ~ spent db0 ph) acc ->
  let '(db', acc') := run_db_ops ops db acc in
  NoDup acc' /\ Forall (fun ph => spent db' ph /\ ~ spent db0 ph) acc'.
Proof.
  revert db acc. induction ops as [|op ops IH]; intros db acc H0 Hd Hf; [done|]. cbn [run_db_ops].
  pose proof (run_db_op_spends op db) as Hs.
  assert (Hnew : forall ph, (run_db_op op db).2 = Some ph -> ~ spent db ph /\ spent (run_db_op op db).1 ph).
  { intros ph. destruct op; cbn [run_db_op snd fst]; try done.
    destruct (accept_paid_envelope e db) as [db' r] eqn:Ha. case_bool_decide as Hr; [|done].
    intros [= <-]. subst r. apply accept_accepted in Ha as [Hu _ _ (b & _ & Hb) _ _].
    split; [done|]. eexists. by split. }
  destruct (run_db_op op db) as [db' [ph|]]; cbn [fst snd] in *.
  - destruct (Hnew ph eq_refl) as [Hn Hsp]. apply IH; [by etransitivity|..].
    + constructor; [|done]. intros Hin. rewrite Forall_forall in Hf. by apply Hn, Hf.
    + constructor; [split; [done|]; intros H1; by apply Hn, H0|].
      eapply Forall_impl; [exact Hf|]. intros q []. split; [by apply Hs|done].
  - apply IH; [by etransitivity|done|]. eapply Forall_impl; [exact Hf|].
    intros q []. split; [by apply Hs|done].
Qed.

(** C4: no sequence of storage operations on the admission path, whatever the
    clock and whichever statements fail, stores a message for one payment hash
    twice, or for a payment hash that was already spent. *)
Theorem payment_accepted_once ops db :
  let '(_, acc) := run_db_ops ops db [] in NoDup acc /\ Forall (fun ph => ~ spent db ph) acc.
Proof.
  pose proof (run_db_ops_once ops db db [] (reflexivity db) (NoDup_nil_2) (Forall_nil_2 _)) as Hr.
  destruct (run_db_ops ops db []) as [db' acc]. destruct Hr as [Hd Hf]. split; [done|].
  eapply Forall_impl; [exact Hf|]. by intros ph [].
Qed.

(** What a retry of an accepted envelope may change: the signed wrapper. *)
Record same_paid (e e' : UkmEnvelope) : Prop := {
  sp_id : env_id e' = env_id e;
  sp_kind : env_kind e' = env_kind e;
  sp_sender : env_sender e' = env_sender e;
  sp_recipient : env_recipient e' = env_recipient e;
  sp_proof : env_payment_proof e' = env_payment_proof e;
  sp_nonce : env_nonce e' = env_nonce e;
  sp_references : env_references e' = env_references e
}.

Lemma binding_of_same e e' db : same_paid e e' -> binding_of e' db = binding_of e db.
Proof. intros [_ Ek _ Er Ep En Ef]. unfold binding_of. by rewrite Ek, Er, Ep, En, Ef. Qed.

Lemma binding_of_any e db db1 b : binding_of e db = (db, Ok b) -> binding_of e db1 = (db1, Ok b).
Proof.
  unfold binding_of, cbind, i64_try_from, clift, cret. destruct (recipient_to_parts _).
  destruct (_ <=? _); simpl; [|done].
  match goal with |- context [json_string_list ?l] => destruct (json_string_list l) end; simpl; congruence.
Qed.

Lemma round_trip_healthy db : db_faults db = [] -> round_trip db = (db, Ok tt).
Proof. unfold round_trip. by intros ->. Qed.

Lemma accept_again e e' b db : db_faults db = [] -> same_paid e e' -> env_timestamp e' <= I64_MAX ->
  binding_of e db = (db, Ok b) ->
  db_receipts db !! env_ph e =
    Some (mkReceipt (hex_encode (env_id e)) (hex_encode (env_sender e)) 1 (Some b)) ->
  accept_paid_envelope e' db = (db, Ok PAlreadyAccepted).
Proof.
  intros Hf Hsame Hts Hb Hr. unfold accept_paid_envelope.
  assert (env_ph e' = env_ph e) as -> by (unfold env_ph; by rewrite (sp_proof _ _ Hsame)).
  rewrite (sp_id _ _ Hsame), (sp_sender _ _ Hsame).
  unfold i64_try_from, cbind at 1, clift. rewrite (proj2 (Z.leb_le _ _) Hts). unfold cbind at 1.
  rewrite (binding_of_same e e') by done. rewrite Hb.
  unfold transaction, execute, cbind at 1. rewrite round_trip_healthy by done.
  unfold cbind at 1 2 3. rewrite round_trip_healthy by done. unfold ins_receipt, insert_or_ignore.
  rewrite Hr. cbn [negb]. unfold heal_receipt, query, cbind, set_receipts.
  destruct db as [n r m h o q now fs]. cbn [db_faults db_receipts db_nonces db_messages db_holds
    db_outstanding db_quotes db_now] in *. subst fs. cbn. rewrite Hr. cbn.
  rewrite bool_decide_eq_false_2 by naive_solver. cbn.
  unfold durable_receipt, receipt_for. cbn. rewrite Hr. cbn.
  by rewrite !bool_decide_eq_true_2.
Qed.

(** Once stored, a retry of the same paid envelope under a refreshed
    timestamp and signature is answered as already accepted and changes
    nothing. *)
Theorem accept_idempotent e e' db db' :
  accept_paid_envelope e db = (db', Ok PAccepted) -> db_faults db' = [] ->
  same_paid e e' -> env_timestamp e' <= I64_MAX ->
  accept_paid_envelope e' db' = (db', Ok PAlreadyAccepted).
Proof.
  intros Ha Hf Hs Ht. apply accept_accepted in Ha as [_ _ _ (b & Hb & Hr) _ _].
  eapply accept_again; try done. by eapply binding_of_any.
Qed.

(** An envelope is stored by [accept_paid_envelope] only when its payment
    was unspent, its message unknown, and its nonce fresh (or already held by
    the same sender for the same unfinished receipt); the transaction then
    leaves the message, its nonce and an accepted receipt bound to it. *)
Theorem accept_stores e db db' :
  accept_paid_envelope e db = (db', Ok PAccepted) -> accepted e db db'.
Proof. apply accept_accepted. Qed.
End Accept.

(** ** A run *)

Definition fresh_db : DB := mkDB ∅ ∅ ∅ ∅ ∅ ∅ 1700000000500 [].
Definition accepted_db : DB := (@accept_paid_envelope toy_prims sample fresh_db).1.

Lemma accept_stores_witness : @accepted toy_prims sample fresh_db accepted_db.
Proof. apply (@accept_stores toy_prims). unfold accepted_db. apply run_result. vm_compute. reflexivity. Defined.

Lemma accept_idempotent_witness :
  @accept_paid_envelope toy_prims sample_retry accepted_db = (accepted_db, Ok PAlreadyAccepted).
Proof.
  apply (@accept_idempotent toy_prims sample sample_retry fresh_db accepted_db).
  - unfold accepted_db. apply run_result. vm_compute. reflexivity.
  - vm_compute. reflexivity.
  - constructor; vm_compute; reflexivity.
  - vm_compute. discriminate.
Defined.
