(* ===== verification/SqliteQuotes.v ===== *)
(** * Delivery quotes

    A price this node once quoted stays payable for an hour.  The excluded
    kinds of a category quote are stored as text and matched with [LIKE]; the
    first half proves that encoding exact, the second what
    [delivery_price_floor] returns. *)

From Stdlib Require Import Ascii.
From S2P Require Import Prelude Text Kind Types Concrete Envelope WebReply Gate Samples Replay Sqlite.
From S2P Require Import SqliteSpec SqliteAccept.

(** ** The excluded-kinds text *)

Fixpoint no_comma (s : string) : Prop :=
  match s with EmptyString => True | String c s' => c <> ","%char /\ no_comma s' end.

(** Tokens, each preceded by a comma, and a closing comma. *)
Fixpoint comma_list (ts : list string) : string :=
  match ts with [] => "," | t :: ts' => "," +:+ t +:+ comma_list ts' end.

Lemma string_append_assoc s t u : (s +:+ t) +:+ u = s +:+ (t +:+ u).
Proof. induction s as [|c s IH]; [done|]. exact (f_equal (String c) IH). Qed.

Lemma concat_comma_list t ts : "," +:+ String.concat "," (t :: ts) +:+ "," = comma_list (t :: ts).
Proof.
  revert t. induction ts as [|t' ts IH]; intros t; [done|].
  change (String.concat "," (t :: t' :: ts)) with (t +:+ ("," +:+ String.concat "," (t' :: ts))).
  change (comma_list (t :: t' :: ts)) with ("," +:+ t +:+ comma_list (t' :: ts)).
  rewrite <- IH. by rewrite !string_append_assoc.
Qed.

Lemma strip_prefix_spec p s r : strip_prefix p s = Some r <-> s = p +:+ r.
Proof.
  split; [|intros ->; apply strip_prefix_app].
  revert s. induction p as [|c p IH]; intros [|d s]; simpl; try (by intros [= <-]); try done.
  case_bool_decide; [|done]. subst. intros Hs. by rewrite (IH s Hs).
Qed.

(** Two comma-free words followed by a comma are the same word. *)
Lemma no_comma_word d t r r' : no_comma d -> no_comma t ->
  d +:+ "," +:+ r = t +:+ "," +:+ r' -> d = t.
Proof.
  revert t. induction d as [|c d IH]; intros [|c' t] Hd Ht Heq; [done|..]; simpl in *.
  - injection Heq as Hc _. naive_solver.
  - injection Heq as Hc _. naive_solver.
  - injection Heq as -> Heq. f_equal. apply IH; [apply Hd|apply Ht|exact Heq].
Qed.

Lemma comma_list_head ts : exists r, comma_list ts = "," +:+ r.
Proof. destruct ts; simpl; eauto. Qed.

(** Text without commas contributes no match. *)
Lemma contains_skip d t ts : no_comma t ->
  string_contains ("," +:+ d) (t +:+ comma_list ts) = string_contains ("," +:+ d) (comma_list ts).
Proof.
  induction t as [|c t IH]; simpl; [done|]. intros [Hc Ht].
  rewrite bool_decide_eq_false_2 by congruence. by apply IH.
Qed.

Lemma contains_comma_list d ts : no_comma d -> Forall no_comma ts -> d <> "" ->
  string_contains ("," +:+ d +:+ ",") (comma_list ts) = true <-> d ∈ ts.
Proof.
  intros Hd Hts Hne. induction Hts as [|t ts Ht Hts IH].
  - split; [|by intros ?%elem_of_nil]. destruct d as [|c d]; [done|]. simpl. by destruct c.
  - change (comma_list (t :: ts)) with (String "," (t +:+ comma_list ts)).
    cbn [string_contains]. destruct (strip_prefix _ _) as [r|] eqn:Hp.
    + apply strip_prefix_spec in Hp. split; [intros _|done].
      destruct (comma_list_head ts) as [q Hq]. rewrite Hq in Hp. simpl in Hp.
      injection Hp as Hp. change ("" +:+ ?x) with x in Hp. rewrite string_append_assoc in Hp.
      symmetry in Hp. apply no_comma_word in Hp; [|done..]. subst. apply elem_of_cons. by left.
    + change (String "," (d +:+ ",")) with ("," +:+ (d +:+ ",")).
      rewrite contains_skip, IH, elem_of_cons by done. split; [by right|].
      intros [->|]; [|done]. exfalso. destruct (comma_list_head ts) as [q Hq].
      apply (f_equal (fun o => match o with Some _ => true | None => false end)) in Hp.
      rewrite (proj2 (strip_prefix_spec _ _ q)) in Hp; [done|].
      rewrite Hq. by rewrite !string_append_assoc.
Qed.

Lemma digit_no_comma cs : Forall (fun c => is_ascii_digit c = true) cs ->
  no_comma (String.string_of_list_ascii cs).
Proof. induction 1 as [|c cs Hc _ IH]; simpl; [done|]. split; [|done]. by intros ->. Qed.

Lemma show_uint_no_comma n : 0 <= n -> no_comma (show_uint n).
Proof.
  intros Hn. apply digit_no_comma, Forall_map. eapply Forall_impl; [by apply dec_digits_range|].
  intros d Hd. by apply digit_char_spec.
Qed.

Lemma show_uint_inj m n : 0 <= m < 10 ^ 39 -> 0 <= n < 10 ^ 39 -> show_uint m = show_uint n -> m = n.
Proof.
  intros Hm Hn Heq. pose proof (parse_show_uint (10 ^ 39) m) as H1.
  rewrite Heq, parse_show_uint in H1 by lia. assert (Some n = Some m) as [= ->] by (apply H1; lia). done.
Qed.

Lemma show_uint_nonempty n : show_uint n <> "".
Proof.
  unfold show_uint. destruct (dec_digits_cons 38 n) as (d & ds & ->). done.
Qed.

Lemma exclusions_exact k ks : is_u16 k -> Forall is_u16 ks ->
  string_contains ("," +:+ show_uint k +:+ ",") (exclusions_text ks) = true <-> k ∈ ks.
Proof.
  intros Hk Hks. assert (H16 : forall x, is_u16 x -> 0 <= x < 10 ^ 39) by (intros x Hx; solve_int).
  destruct ks as [|k0 ks].
  { split; [|by intros ?%elem_of_nil]. unfold exclusions_text. simpl.
    pose proof (show_uint_no_comma k ltac:(solve_int)) as Hc. pose proof (show_uint_nonempty k).
    destruct (show_uint k) as [|c s]; [done|]. destruct Hc as [Hc _].
    simpl. rewrite !(bool_decide_eq_false_2 (c = ","%char)) by done. done. }
  unfold exclusions_text. cbn [map]. rewrite concat_comma_list.
  change (show_uint k0 :: map show_uint ks) with (map show_uint (k0 :: ks)).
  rewrite contains_comma_list; [|apply show_uint_no_comma; solve_int| |apply show_uint_nonempty].
  - rewrite list_elem_of_fmap. split; [|intros Hin; by exists k].
    intros (x & Hx & Hin). rewrite Forall_forall in Hks.
    apply show_uint_inj in Hx; [by subst|auto|auto].
  - apply Forall_map. eapply Forall_impl; [exact Hks|]. intros x Hx. apply show_uint_no_comma. solve_int.
Qed.

(** ** Looking a quote up *)

(** The quote [k] of this database applies to a payment by [sender] for
    [kind] made at [paid]. *)
Record quote_applies (db : DB) (sender : string) (kind paid : Z) (k : QuoteKey) : Prop := {
  qa_sender : qk_sender k = sender;
  qa_scope : qk_scope k = "kind:" +:+ show_uint kind \/
    (qk_scope k = "category:" +:+ price_table_key (from_kind kind) /\
     string_contains ("," +:+ show_uint kind +:+ ",") (qk_excluded k) = false);
  qa_live : exists expires, db_quotes db !! k = Some expires /\ qk_issued_at k <= paid <= expires
}.

Lemma quote_covers_spec sender kind paid k x : quote_covers sender kind paid k x = true <->
  qk_sender k = sender /\
  (qk_scope k = "kind:" +:+ show_uint kind \/
   (qk_scope k = "category:" +:+ price_table_key (from_kind kind) /\
    string_contains ("," +:+ show_uint kind +:+ ",") (qk_excluded k) = false)) /\
  qk_issued_at k <= paid <= x.
Proof.
  unfold quote_covers. rewrite !andb_true_iff, orb_true_iff, andb_true_iff, negb_true_iff.
  rewrite !bool_decide_eq_true, !Z.leb_le. tauto.
Qed.

Definition covering (db : DB) (sender : string) (kind paid : Z) : list QuoteKey :=
  map fst (filter (fun '(k, x) => quote_covers sender kind paid k x = true) (map_to_list (db_quotes db))).

Lemma elem_of_covering db sender kind paid k :
  k ∈ covering db sender kind paid <-> quote_applies db sender kind paid k.
Proof.
  unfold covering. rewrite list_elem_of_fmap. split.
  - intros ([k' x] & -> & [Hc Hin]%list_elem_of_filter). apply elem_of_map_to_list in Hin.
    apply quote_covers_spec in Hc as (Hs & Hsc & Hl). constructor; eauto.
  - intros [Hs Hsc (x & Hx & Hl)]. exists (k, x). split; [done|].
    apply list_elem_of_filter. split; [by apply quote_covers_spec|by apply elem_of_map_to_list].
Qed.

Lemma min_amount_some l n : min_amount l = Some n ->
  (exists k, k ∈ l /\ qk_amount_msat k = n) /\ forall k, k ∈ l -> n <= qk_amount_msat k.
Proof.
  revert n. induction l as [|k l IH]; intros n; simpl; [done|].
  destruct (min_amount l) as [m|] eqn:Hm; intros [= <-].
  - destruct (IH m eq_refl) as [(k' & Hk' & Ha) Hall]. split.
    + destruct (Z.min_spec (qk_amount_msat k) m) as [[? ->]|[? ->]].
      * exists k. split; [by apply elem_of_cons; left|done].
      * exists k'. split; [by apply elem_of_cons; right|done].
    + intros q [->|Hq]%elem_of_cons; [lia|]. specialize (Hall q Hq). lia.
  - split; [exists k; split; [by apply elem_of_cons; left|done]|].
    intros q [->|Hq]%elem_of_cons; [lia|]. destruct l; [by apply elem_of_nil in Hq|discriminate Hm].
Qed.

Lemma min_amount_is_some k l : k ∈ l -> exists n, min_amount l = Some n.
Proof. destruct l; [by intros ?%elem_of_nil|]. intros _. simpl. eauto. Qed.

Section Floor.
Context {PR : Prims}.

Lemma floor_some e paid now db db' n :
  sqlite_delivery_price_floor e paid now db = (db', Ok (Some n)) ->
  paid <= now <= paid + 3600 /\
  (exists k, quote_applies db (hex_encode (env_sender e)) (env_kind e) paid k /\ qk_amount_msat k = n) /\
  (forall k, quote_applies db (hex_encode (env_sender e)) (env_kind e) paid k -> n <= qk_amount_msat k).
Proof.
  unfold sqlite_delivery_price_floor, DELIVERY_PRICE_WINDOW_SECS.
  destruct (_ || _) eqn:Hw; [done|]. bool_to_prop.
  unfold i64_try_from, query, clift, cbind, cret, cthrow. intros Hq.
  destruct (paid <=? I64_MAX); [|done]. sql_step Hq; [|done].
  change (map fst _) with (covering db (hex_encode (env_sender e)) (env_kind e) paid) in Hq.
  destruct (min_amount _) as [m|] eqn:Hm; [|done]. destruct (m <? 0); [done|]. injection Hq as _ <-.
  apply min_amount_some in Hm as [(k & Hk & Ha) Hall]. split; [solve_int|]. split.
  - exists k. split; [by apply elem_of_covering|done].
  - intros q Hq. apply Hall. by apply elem_of_covering.
Qed.

Definition quotes_positive (db : DB) : Prop :=
  forall k x, db_quotes db !! k = Some x -> 0 < qk_amount_msat k.

Lemma floor_found e paid now db k : db_faults db = [] -> quotes_positive db ->
  paid <= I64_MAX -> paid <= now <= paid + 3600 ->
  quote_applies db (hex_encode (env_sender e)) (env_kind e) paid k ->
  exists n, sqlite_delivery_price_floor e paid now db = (db, Ok (Some n)) /\ 0 < n <= qk_amount_msat k.
Proof.
  intros Hf Hpos Hi Hw Hk. unfold sqlite_delivery_price_floor, DELIVERY_PRICE_WINDOW_SECS.
  rewrite (proj2 (Z.ltb_ge _ _)), (proj2 (Z.ltb_ge _ _)) by solve_int. cbn [orb].
  unfold i64_try_from, query, clift, cbind, cret, cthrow. rewrite (proj2 (Z.leb_le _ _) Hi).
  rewrite round_trip_healthy by done.
  change (map fst _) with (covering db (hex_encode (env_sender e)) (env_kind e) paid).
  apply elem_of_covering in Hk. destruct (min_amount_is_some _ _ Hk) as [n Hn]. rewrite Hn.
  apply min_amount_some in Hn as [(q & Hq & Ha) Hall]. specialize (Hall _ Hk).
  apply elem_of_covering in Hq as [_ _ (x & Hx & _)]. specialize (Hpos q x Hx).
  rewrite (proj2 (Z.ltb_ge _ _)) by lia. exists n. split; [done|lia].
Qed.

(** ** Recording quotes *)

Lemma insert_quotes_spec s x i u ps db db' : insert_quotes s x i u ps db = (db', Ok tt) ->
  (forall k v, db_quotes db !! k = Some v -> db_quotes db' !! k = Some v) /\
  (forall sc am, (sc, am) ∈ ps -> exists v, db_quotes db' !! mkQuote s sc am i x = Some v /\
     (v = u \/ db_quotes db !! mkQuote s sc am i x = Some v)) /\
  (quotes_positive db -> quotes_positive db').
Proof.
  revert db. induction ps as [|[sc am] ps IH]; intros db; cbn [insert_quotes].
  { intros [= <-]. split_and!; try done. by intros sc am ?%elem_of_nil. }
  unfold i64_try_from, clift, execute, cbind, cthrow. intros Hq.
  destruct (am <=? I64_MAX); [|done]. sql_step Hq; [|done].
  destruct (Z.leb_spec am 0); [done|]. cbn [negb] in Hq. cbn [db_quotes set_faults] in Hq.
  destruct (insert_or_ignore_cases (mkQuote s sc am i x) u (db_quotes db)) as [[Hn E]|[[v Hv] E]];
    rewrite E in Hq; destruct (IH _ Hq) as (Hmono & Hin & Hpos); cbn [fst db_quotes set_quotes set_faults] in *.
  - split_and!.
    + intros k v Hk. apply Hmono. rewrite lookup_insert_ne by congruence. done.
    + intros sc' am' [[= -> ->]|Hps]%elem_of_cons.
      * exists u. split; [apply Hmono; by rewrite lookup_insert_eq|by left].
      * destruct (Hin _ _ Hps) as (v & Hv & Ho). exists v. split; [done|].
        destruct Ho as [|Ho]; [by left|]. apply lookup_insert_Some in Ho as [[_ <-]|[_ Ho]]; auto.
    + intros Hp. apply Hpos. intros k v Hk. cbn [db_quotes set_quotes] in Hk.
      apply lookup_insert_Some in Hk as [[<- _]|[_ Hk]]; [done|by eapply Hp].
  - split_and!; [done| |done].
    intros sc' am' [[= -> ->]|Hps]%elem_of_cons; [|by apply Hin].
    exists v. split; [by apply Hmono|by right].
Qed.

Lemma record_spec a ps ks i u db db' : record_delivery_prices a ps ks i u db = (db', Ok tt) ->
  (forall sc am, (sc, am) ∈ ps ->
     exists v, db_quotes db' !! mkQuote (hex_encode a) sc am i (exclusions_text ks) = Some v /\
       (v = u \/ db_quotes db !! mkQuote (hex_encode a) sc am i (exclusions_text ks) = Some v)) /\
  (quotes_positive db -> quotes_positive db').
Proof.
  unfold record_delivery_prices. destruct (_ || _); [done|].
  unfold i64_try_from, clift, cbind at 1 2. destruct (i <=? I64_MAX); [|done].
  destruct (u <=? I64_MAX); [|done].
  intros (fs & db1 & [[Hb [fs' ->]]|Hb])%transaction_ok; revert Hb; unfold execute, cbind, cret.
  all: intros Hb; sql_step Hb; [|done].
  all: match type of Hb with context [insert_quotes ?s ?x ?i ?u ?p ?d] =>
    destruct (insert_quotes s x i u p d) as [db2 [[]|]] eqn:Hq end; try discriminate Hb.
  injection Hb as ->. apply insert_quotes_spec in Hq as (_ & Hin & Hpos).
  cbn [db_quotes set_quotes set_faults] in *. split.
  - intros sc am Hps. destruct (Hin sc am Hps) as (v & Hv & Ho). exists v. split; [done|].
    destruct Ho as [|Ho]; [by left|]. apply map_lookup_filter_Some in Ho as [Ho _]. by right.
  - intros Hp. apply Hpos. intros k v Hk. cbn in Hk. apply map_lookup_filter_Some in Hk as [Hk _].
    by eapply Hp.
Qed.

(** The price floor applied to a late payment is the lowest amount this
    node quoted to that sender, for that kind or for its category with the
    kind not excluded, in a quote that was live when the payment settled no
    more than an hour ago. *)
Theorem late_price_was_quoted e paid now db db' n :
  sqlite_delivery_price_floor e paid now db = (db', Ok (Some n)) ->
  paid <= now <= paid + 3600 /\
  (exists k, quote_applies db (hex_encode (env_sender e)) (env_kind e) paid k /\ qk_amount_msat k = n) /\
  (forall k, quote_applies db (hex_encode (env_sender e)) (env_kind e) paid k -> n <= qk_amount_msat k).
Proof. apply floor_some. Qed.

(** A category price recorded for a peer is honoured: a payment for any
    kind of that category that was not excluded, made while the offer ran and
    presented within an hour, finds a floor no higher than the recorded price. *)
Theorem recorded_price_is_honoured e ps ks i u am paid now db db1 :
  record_delivery_prices (env_sender e) ps ks i u db = (db1, Ok tt) ->
  ("category:" +:+ price_table_key (from_kind (env_kind e)), am) ∈ ps ->
  is_u16 (env_kind e) -> Forall is_u16 ks -> env_kind e ∉ ks ->
  db_quotes db = ∅ -> db_faults db1 = [] -> i <= paid <= u -> paid <= I64_MAX ->
  paid <= now <= paid + 3600 ->
  exists n, sqlite_delivery_price_floor e paid now db1 = (db1, Ok (Some n)) /\ 0 < n <= am.
Proof.
  intros Hrec Hps Hk Hks Hnot Hempty Hf Hlive Hi Hw. apply record_spec in Hrec as [Hin Hpos].
  destruct (Hin _ _ Hps) as (v & Hv & [->|Ho]); [|by rewrite Hempty in Ho].
  apply (floor_found e paid now db1
    (mkQuote (hex_encode (env_sender e)) ("category:" +:+ price_table_key (from_kind (env_kind e))) am i
       (exclusions_text ks))); try done.
  - apply Hpos. intros k x Hx. by rewrite Hempty in Hx.
  - constructor; [done| |by exists u]. right. split; [done|]. cbn [qk_excluded].
    apply not_true_iff_false. by rewrite exclusions_exact.
Qed.
End Floor.

(** ** A run *)

Definition quoted_db : DB :=
  (@record_delivery_prices toy_prims alice [("category:communication", 900); ("kind:501", 70)] [1]
     1000 2000 fresh_db).1.

Lemma recorded_price_is_honoured_witness :
  exists n, @sqlite_delivery_price_floor toy_prims sample 1500 3000 quoted_db = (quoted_db, Ok (Some n)) /\
    0 < n <= 900.
Proof.
  apply (@recorded_price_is_honoured toy_prims sample
    [("category:communication", 900); ("kind:501", 70)] [1] 1000 2000 900 1500 3000 fresh_db quoted_db).
  - unfold quoted_db. apply run_result. vm_compute. reflexivity.
  - apply elem_of_cons. left. reflexivity.
  - vm_compute. split; discriminate.
  - repeat constructor; vm_compute; discriminate.
  - intros Hin. apply list_elem_of_singleton in Hin. discriminate Hin.
  - reflexivity.
  - vm_compute. reflexivity.
  - lia.
  - vm_compute. discriminate.
  - lia.
Defined.

Lemma late_price_was_quoted_witness :
  1500 <= 3000 <= 1500 + 3600 /\
  (exists k, @quote_applies quoted_db (@hex_encode toy_prims alice) 0 1500 k /\ qk_amount_msat k = 900) /\
  (forall k, @quote_applies quoted_db (@hex_encode toy_prims alice) 0 1500 k -> 900 <= qk_amount_msat k).
Proof.
  apply (@late_price_was_quoted toy_prims sample 1500 3000 quoted_db
    (@sqlite_delivery_price_floor toy_prims sample 1500 3000 quoted_db).1 900).
  apply run_result. vm_compute. reflexivity.
Defined.
