(* ===== verification/GateProps.v ===== *)
(** * Properties of admission

    The theorems about the payment gate, for any store that keeps the laws of
    [Replay] and for the SQLite storage in particular, with concrete runs. *)

From S2P Require Import Prelude Float FloatRound Text Kind Types Concrete Envelope WebReply Gate.
From S2P Require Import Samples GateSpec Replay Interleave Sqlite SqliteSpec SqliteAccept.

(** ** Fail-closed admission *)

Section Contract.
Context {PR : Prims} {S : Type} {NS : NonceStore S}.

(** C1: [verify] admits an envelope exactly when the abstract contract holds:
    it is authentic (intact, whitelisted, fresh, signed, addressed to this
    node), there are grounds to admit it (an honoured receipt, a reply bound
    to our own paid request, a payment at the current price, or a settled
    payment at a price this node quoted), and the atomic commit of its two
    replay keys reports both as new. *)
Theorem verify_refines_contract cfg now e pricing wl ln d ours s s' :
  verify cfg now e pricing wl ln d ours s = (s', Ok tt) <->
  authentic cfg (Z.min now U64_MAX) e wl ours /\
  exists s1 b, validated cfg now e pricing ln d ours s s1 b /\ commit_outcome e s1 s' Accepted.
Proof. apply verify_refines. Qed.

(** With the default store methods of the trait (only the plain nonce
    check implemented) no envelope is ever admitted. *)
Theorem default_store_never_admits cas cfg now e pricing wl ln d ours s :
  is_ok (verify (NS := default_store S cas) cfg now e pricing wl ln d ours s).2 = false.
Proof.
  destruct (verify cfg now e pricing wl ln d ours s) as [s' [[]|r]] eqn:Hv; [|done].
  apply verify_refines in Hv as (_ & s1 & b & _ & Hc). discriminate Hc.
Qed.
End Contract.

(** ** Replay *)

Section Replayed.
Context {PR : Prims} {S : Type} `{NonceStoreLaws S}.

(** An admission consumes a nonce and a payment hash that were both
    unused; keys consumed before stay consumed. *)
Theorem admission_consumes_fresh_keys cfg now e pricing wl ln d ours (s s' : S) :
  verify cfg now e pricing wl ln d ours s = (s', Ok tt) -> consumed e s s'.
Proof. apply verify_consumes. Qed.

(** A rejected envelope consumes nothing: neither its nonce nor its
    payment hash, nor anybody else's, changes in the store. *)
Theorem rejection_consumes_nothing cfg now e pricing wl ln d ours (s s' : S) r :
  verify cfg now e pricing wl ln d ours s = (s', Err r) -> same_keys s s'.
Proof. apply verify_rejects_keys. Qed.

(** C3: with settlement checks on, every admitted envelope that is not a reply
    to our own request is backed by a settled incoming payment that is not a
    funding payment, of at least the envelope's claim, one satoshi and the
    operator's admission cost. *)
Theorem admission_is_paid_for cfg now e pricing wl ln d ours (s s' : S) :
  verify cfg now e pricing wl ln d ours s = (s', Ok tt) ->
  verify_lightning_settlement cfg = true -> is_web_service_reply e = false ->
  exists provider det, earned cfg e ln provider det.
Proof. apply verify_earns. Qed.

Context `{!StoreTasks S, !StoreTaskLaws S}.

(** C2: whatever calls other tasks make between the store calls of each
    verification (the gate's own calls, and the rest of the node's operations
    on the same database, the periodic clean-up of expired nonces included),
    and however many verifications run: the admitted envelopes, ours and the
    others', have pairwise distinct payment hashes, and a nonce is admitted a
    second time only when in between a clean-up ran at which the first
    admission was older than the clean-up's age. *)
Theorem single_use_interleaved (cs : list call) (s : S) (sched : list (list (store_op store_task))) :
  let '(w, adm) := run_calls cs (mkWorld s sched []) [] in
  adm `sublist_of` admissions (w_log w) /\ NoDup (map snd (admissions (w_log w))) /\
  nonces_apart (w_log w).
Proof.
  pose proof (run_calls_ok cs (mkWorld s sched []) [] (log_ok_nil s) (sublist_nil_l _)) as Hr.
  by destruct (run_calls cs _ _) as [w adm], Hr as [[Hn Hp _ _] Hs].
Qed.
End Replayed.

(** ** Prices *)

(** Whatever the trust discount (any float, NaN and infinities included),
    the price the gate requires is at least 1000 msat and the operator's
    admission cost; for base prices up to 2^53 msat it is never more than the
    undiscounted requirement nor less than half the base price; and a discount
    that is not finite or not positive is no discount. *)
Theorem required_price_bounds cfg base d :
  valid F64.prec F64.emax d -> 0 <= base <= 2 ^ 53 ->
  1000 <= required_price cfg base d /\
  min_admission_cost_msat cfg <= required_price cfg base d /\
  (base + 1) / 2 <= required_price cfg base d <=
    Z.max (Z.max base (min_admission_cost_msat cfg)) 1000 /\
  (is_finite d = false \/ f_gt d F64.zero = false ->
     required_price cfg base d = Z.max (Z.max base (min_admission_cost_msat cfg)) 1000).
Proof.
  intros Vd Hb. pose proof (discounted_price_bounds base d Vd Hb).
  pose proof (discounted_price_none base d) as Hnone.
  unfold required_price, price_with_floor_msat. split_and!; try lia.
  intros Hd. by rewrite (Hnone Hd).
Qed.

Lemma required_price_bounds_witness :
  1000 <= required_price strict_config 12345 (F64.lit 1 5) /\
  min_admission_cost_msat strict_config <= required_price strict_config 12345 (F64.lit 1 5) /\
  (12345 + 1) / 2 <= required_price strict_config 12345 (F64.lit 1 5) <=
    Z.max (Z.max 12345 (min_admission_cost_msat strict_config)) 1000 /\
  (is_finite (F64.lit 1 5) = false \/ f_gt (F64.lit 1 5) F64.zero = false ->
     required_price strict_config 12345 (F64.lit 1 5) =
     Z.max (Z.max 12345 (min_admission_cost_msat strict_config)) 1000).
Proof. apply required_price_bounds; [reflexivity|lia]. Defined.

(** ** Honest payments are admitted *)

Section Liveness.
Context {PR : Prims}.

(** The database answers, and both keys of the envelope are new to it. *)
Record ready_for (e : UkmEnvelope) (db : DB) : Prop := {
  rf_healthy : db_faults db = [];
  rf_nonce : db_nonces db !! hex_encode (env_nonce e) = None;
  rf_payment : db_receipts db !! env_ph e = None;
  rf_columns : exists b, binding_of e db = (db, Ok b)
}.

Lemma ready_not_accepted e db : ready_for e db -> is_paid_envelope_accepted e db = (db, Ok false).
Proof.
  intros [Hf _ Hp [b Hb]]. simpl. unfold adapt, cmap_err, sqlite_is_paid_envelope_accepted.
  unfold cbind at 1. rewrite Hb. unfold query, cbind. rewrite round_trip_healthy by done.
  unfold durable_receipt, legacy_match, receipt_for. rewrite Hp, andb_false_r.
  rewrite round_trip_healthy by done. rewrite Hp, andb_false_r. done.
Qed.

Lemma ready_commits e db : ready_for e db -> exists db', commit_outcome e db db' Accepted.
Proof.
  intros [Hf Hn Hp _]. unfold commit_outcome. simpl. unfold adapt, cmap_err, store_paid_nonce, transaction,
    execute, cbind. rewrite round_trip_healthy by done. rewrite round_trip_healthy by done.
  unfold ins_nonce, insert_or_ignore. rewrite Hn. cbn [negb].
  rewrite round_trip_healthy by done. unfold ins_receipt, insert_or_ignore. simpl.
  unfold env_ph in Hp. rewrite Hp. simpl. rewrite round_trip_healthy by done. by eexists.
Qed.

(** C18: an authentic envelope that pays the current price (with its payment
    settled, where settlement is checked), and whose keys are new, is admitted
    by the gate over a working SQLite storage. *)
Theorem honest_payment_admitted cfg now e pricing wl ln d ours db :
  authentic cfg (Z.min now U64_MAX) e wl ours -> paid_now cfg e pricing ln d ours ->
  is_web_service_reply e = false -> ready_for e db ->
  exists db', verify cfg now e pricing wl ln d ours db = (db', Ok tt).
Proof.
  intros Ha Hp Hw Hr. destruct (ready_commits e db Hr) as [db' Hc]. exists db'.
  apply verify_refines. split; [done|]. exists db, false. split; [|done].
  eapply by_price; [by apply ready_not_accepted| |done]. unfold no_outstanding. by rewrite Hw.
Qed.
End Liveness.

(** ** Runs on the SQLite storage *)

Section Runs.
#[local] Existing Instance toy_prims.

(** The sample envelope, priced at 4000 msat, verified with settlement on. *)
Definition run_sample : comp DB GateRejection unit :=
  verify strict_config 1700000000500 sample (flat_pricing 4000) (Some {[alice]})
    (Some sample_lightning) F64.zero (Some bob).
Definition admitted_db : DB := (run_sample fresh_db).1.
Definition refused_db : DB := (run_sample admitted_db).1.

Lemma admission_consumes_fresh_keys_witness : consumed sample fresh_db admitted_db.
Proof.
  apply (admission_consumes_fresh_keys strict_config 1700000000500 sample (flat_pricing 4000)
    (Some {[alice]}) (Some sample_lightning) F64.zero (Some bob)).
  unfold admitted_db, run_sample. apply run_result. vm_compute. reflexivity.
Defined.

Lemma rejection_consumes_nothing_witness : same_keys admitted_db refused_db.
Proof.
  apply (rejection_consumes_nothing strict_config 1700000000500 sample (flat_pricing 4000)
    (Some {[alice]}) (Some sample_lightning) F64.zero (Some bob) admitted_db refused_db ReplayDetected).
  unfold refused_db, run_sample. apply run_result. vm_compute. reflexivity.
Defined.

Lemma admission_is_paid_for_witness :
  exists provider det, earned strict_config sample (Some sample_lightning) provider det.
Proof.
  apply (admission_is_paid_for strict_config 1700000000500 sample (flat_pricing 4000)
    (Some {[alice]}) (Some sample_lightning) F64.zero (Some bob) fresh_db admitted_db).
  - unfold admitted_db, run_sample. apply run_result. vm_compute. reflexivity.
  - reflexivity.
  - vm_compute. reflexivity.
Defined.

Lemma honest_payment_admitted_witness :
  exists db', verify strict_config 1700000000500 sample (flat_pricing 4000) (Some {[alice]})
    (Some sample_lightning) F64.zero (Some bob) fresh_db = (db', Ok tt).
Proof.
  apply (honest_payment_admitted strict_config 1700000000500 sample (flat_pricing 4000) (Some {[alice]})
    (Some sample_lightning) F64.zero (Some bob) fresh_db).
  - apply authenticate_spec. vm_compute. reflexivity.
  - exists 4000. split; [reflexivity|]. split; [vm_compute; discriminate|]. intros _.
    exists sample_lightning, sample_details. split; [reflexivity|].
    apply verify_settlement_spec. vm_compute. reflexivity.
  - vm_compute. reflexivity.
  - constructor; [reflexivity..|]. eexists. vm_compute. reflexivity.
Defined.

(** Two verifications of the same envelope; before the second store call an
    hour and a bit passes, the clean-up runs and another task commits the
    envelope's payment under another nonce. *)
Definition sample_call : call :=
  mkCall strict_config 1700000000500 sample (flat_pricing 4000) (Some {[alice]})
    (Some sample_lightning) F64.zero (Some bob).
Definition sample_sched : list (list (store_op db_op)) :=
  [[]; [OpTask (OEnvironment 1700003700000 []); OpTask (OCleanup 3600);
        OpPaid (replicate 24 1) (payment_hash sample_proof) bob (replicate 32 2)]].

Lemma single_use_interleaved_witness :
  let '(w, adm) := run_calls [sample_call; sample_call] (mkWorld fresh_db sample_sched []) [] in
  adm `sublist_of` admissions (w_log w) /\ NoDup (map snd (admissions (w_log w))) /\
  nonces_apart (w_log w).
Proof.
  pose proof (single_use_interleaved [sample_call; sample_call] fresh_db sample_sched) as Hx. exact Hx.
Defined.

(** The clean-up is needed in the statement: an envelope paid anew under the
    nonce of one admitted more than an hour earlier is admitted. *)
Definition paid_anew : store_op db_op :=
  OpPaid (env_nonce sample) (replicate 32 3) bob (replicate 32 2).

Lemma cleaned_nonce_is_admitted_again :
  admissions (run_ops [OpPaid (env_nonce sample) (payment_hash sample_proof) alice (env_id sample);
    paid_anew; OpTask (OEnvironment 1700003700000 []); OpTask (OCleanup 3600); paid_anew]
    fresh_db []).2 =
  [(env_nonce sample, replicate 32 3); (env_nonce sample, payment_hash sample_proof)].
Proof. vm_compute. reflexivity. Qed.
End Runs.
