(* ===== verification/StaticPricing.v ===== *)
(** * Static prices

    [konsensus-pricing/src/static_pricing.rs]: a configured price per category
    with three per-kind tariffs, and the contract its
    [category_price_overrides] attests. *)

From S2P Require Import Prelude Kind Types Envelope WebReply Gate.

Record StaticPricingConfig := mkStatic {
  chat_msat : Z;
  longform_msat : Z;
  calendar_msat : Z;
  file_ref_msat : Z;
  control_msat : Z;
  collaboration_msat : Z;
  realtime_signal_msat : Z;
  call_msat : Z;
  call_block_msat : Z;
  app_ext_msat : Z;
  web_content_msat : Z;
  relay_storage_msat : Z
}.

Definition default_collab_msat : Z := 25.
Definition default_realtime_signal_msat : Z := 50.
Definition default_call_msat : Z := 10000.
Definition default_app_ext_msat : Z := 10.
Definition default_web_content_msat : Z := 1000.
Definition default_relay_storage_msat : Z := 100.

Definition StaticPricingConfig_default : StaticPricingConfig := {|
  chat_msat := 10;
  longform_msat := 50;
  calendar_msat := 25;
  file_ref_msat := 100;
  control_msat := 1;
  collaboration_msat := 25;
  realtime_signal_msat := 50;
  call_msat := default_call_msat;
  call_block_msat := default_call_msat;
  app_ext_msat := 10;
  web_content_msat := default_web_content_msat;
  relay_storage_msat := 100
|}.

Definition price_for_category (cfg : StaticPricingConfig) (c : KindCategory) : result PricingError Z :=
  match c with
  | Communication => Ok (chat_msat cfg)
  | StructuredData => Ok (calendar_msat cfg)
  | FilesMedia => Ok (file_ref_msat cfg)
  | Collaboration => Ok (collaboration_msat cfg)
  | RealTimeSignaling => Ok (realtime_signal_msat cfg)
  | WebContent => Ok (web_content_msat cfg)
  | Storage => Ok (relay_storage_msat cfg)
  | Control => Ok (control_msat cfg)
  | AppExtension => Ok (app_ext_msat cfg)
  | Unknown => Err (NotPriceable 0)
  end.

Definition static_category_price_overrides (cfg : StaticPricingConfig) : option (list Z) :=
  let kinds := [] in
  let kinds := if negb (longform_msat cfg =? chat_msat cfg) then kinds ++ [KIND_LONGFORM] else kinds in
  let kinds := if negb (call_msat cfg =? realtime_signal_msat cfg)
               then kinds ++ [KIND_CALL_INVITE] else kinds in
  let kinds := if negb (call_block_msat cfg =? realtime_signal_msat cfg)
               then kinds ++ [KIND_CALL_BLOCK] else kinds in
  Some kinds.

Definition static_get_price_msat (cfg : StaticPricingConfig) (kind : Z) : result PricingError Z :=
  let category := from_kind kind in
  if bool_decide (category = Unknown) then Err (NotPriceable kind)
  else if kind =? KIND_LONGFORM then Ok (longform_msat cfg)
  else if kind =? KIND_CALL_INVITE then Ok (call_msat cfg)
  else if kind =? KIND_CALL_BLOCK then Ok (call_block_msat cfg)
  else price_for_category cfg category.

Definition static_engine (cfg : StaticPricingConfig) : PricingEngine :=
  mkPricing (static_get_price_msat cfg) (price_for_category cfg) (static_category_price_overrides cfg).

(** ** The contract of [category_price_overrides]

    [Some kinds] attests that every other priceable kind is charged its
    category price. *)

Definition honours_overrides (p : PricingEngine) : Prop :=
  forall kinds kind, category_price_overrides p = Some kinds -> is_u16 kind ->
    from_kind kind <> Unknown -> kind ∉ kinds ->
    get_price_msat p kind = get_category_price_msat p (from_kind kind).

Lemma static_honours cfg : honours_overrides (static_engine cfg).
Proof.
  intros kinds kind [= <-] _ Hu Hnot. simpl. unfold static_get_price_msat.
  rewrite bool_decide_eq_false_2 by done. cbv zeta in Hnot.
  destruct (Z.eqb_spec kind KIND_LONGFORM) as [->|].
  { destruct (Z.eqb_spec (longform_msat cfg) (chat_msat cfg)) as [Heq|]; simpl in *; [by rewrite Heq|].
    exfalso. apply Hnot. repeat case_match; set_solver. }
  destruct (Z.eqb_spec kind KIND_CALL_INVITE) as [->|].
  { destruct (Z.eqb_spec (call_msat cfg) (realtime_signal_msat cfg)) as [Heq|]; simpl in *; [by rewrite Heq|].
    exfalso. apply Hnot. repeat case_match; set_solver. }
  destruct (Z.eqb_spec kind KIND_CALL_BLOCK) as [->|]; [|done].
  destruct (Z.eqb_spec (call_block_msat cfg) (realtime_signal_msat cfg)) as [Heq|]; simpl in *; [by rewrite Heq|].
  exfalso. apply Hnot. repeat case_match; set_solver.
Qed.
