(* ===== verification/ChainAware.v ===== *)
(** * Chain-aware prices

    [konsensus-pricing/src/chain_aware.rs]: static base prices adjusted by
    smoothed fee rates, the halving epoch and a per-category confirmation
    target, with a time-limited cache and a static fallback.

    One query of the engine reads the chain at most once; [ChainReads] holds
    what the chain answers and the monotonic clock at each read.  Instants and
    durations are milliseconds.  The engine's state is its cache. *)

From S2P Require Import Prelude Float Kind Types Envelope WebReply Gate StaticPricing.

Definition DEFAULT_MAX_PRICE_MULTIPLIER : spec_float := F64.lit 5 1.
Definition DEFAULT_FEE_RATE_EMA_ALPHA : spec_float := F64.lit 3 10.
Definition HALVING_INTERVAL : Z := 210000.

Record ChainAwarePricingConfig := mkChainCfg {
  cc_base : StaticPricingConfig;
  fee_target_blocks : Z;
  cache_ttl : Z;
  max_price_multiplier : spec_float;
  fee_rate_ema_alpha : spec_float;
  category_fee_targets : gmap string Z
}.

Definition ChainAwarePricingConfig_default : ChainAwarePricingConfig :=
  mkChainCfg StaticPricingConfig_default 6 60000 DEFAULT_MAX_PRICE_MULTIPLIER
    DEFAULT_FEE_RATE_EMA_ALPHA ∅.

Definition target_for_category (cfg : ChainAwarePricingConfig) (c : KindCategory) : Z :=
  default (fee_target_blocks cfg) (category_fee_targets cfg !! price_table_key c).

(** The configured targets, each once; the order of the map is immaterial. *)
Definition unique_targets (cfg : ChainAwarePricingConfig) : list Z :=
  fold_left (fun ts t => if bool_decide (t ∈ ts) then ts else ts ++ [t])
    (map snd (map_to_list (category_fee_targets cfg))) [fee_target_blocks cfg].

Definition normalized_ema_alpha (alpha : spec_float) : spec_float :=
  if is_finite alpha then f_clamp alpha F64.zero F64.one else DEFAULT_FEE_RATE_EMA_ALPHA.

Definition normalized_fee_rate (rate : spec_float) : option spec_float :=
  if is_finite rate && f_ge rate F64.zero then Some rate else None.

Definition normalized_max_multiplier (m : spec_float) : spec_float :=
  if f_eq m F64.zero then F64.zero
  else if is_finite m && f_gt m F64.zero then m
  else DEFAULT_MAX_PRICE_MULTIPLIER.

Record TargetFeeState := mkFee {
  raw_sat_per_vbyte : spec_float;
  ema_sat_per_vbyte : spec_float;
  fetched_at : Z
}.

Record CachedChainState := mkCache {
  ch_targets : gmap Z TargetFeeState;
  block_height : Z;
  block_height_fetched_at : Z;
  refreshed_at : Z
}.

Record FeeRateSnapshot := mkSnapshot {
  sn_targets : gmap Z spec_float;
  sn_block_height : Z;
  sn_timestamp_secs : Z
}.

(** ** Reading the chain *)

Record ChainReads := mkReads {
  rd_synced : bool;
  rd_synced_with_height : Z -> bool;
  rd_height : result string Z;
  rd_height_at : Z;
  rd_fee : Z -> result string spec_float;
  rd_fee_at : Z -> Z;
  rd_now : Z
}.

(** [instant.checked_sub(d).unwrap_or(instant)] on a clock that starts at zero. *)
Definition instant_back (now d : Z) : Z := if d <=? now then now - d else now.

(** [seed_ema]; [now] is the monotonic clock, [now_secs] the wall clock. *)
Definition seed_ema (cfg : ChainAwarePricingConfig) (now now_secs : Z) (snap : FeeRateSnapshot)
    (st : option CachedChainState) : option CachedChainState :=
  let age_secs := saturating_sub now_secs (sn_timestamp_secs snap) in
  if 3600 <? age_secs then st
  else if bool_decide (sn_targets snap = ∅) then st
  else
    let expired := instant_back now (cache_ttl cfg) in
    let targets := omap (fun ema =>
      match normalized_fee_rate ema with
      | Some ema => Some (mkFee ema ema expired)
      | None => None
      end) (sn_targets snap) in
    if bool_decide (targets = ∅) then st
    else Some (mkCache targets (sn_block_height snap) expired expired).

Definition snapshot (now_secs : Z) (st : option CachedChainState) : option FeeRateSnapshot :=
  match st with
  | None => None
  | Some c => Some (mkSnapshot (ema_sat_per_vbyte <$> ch_targets c) (block_height c) now_secs)
  end.

(** The previous smoothed rate of a target, if it is usable. *)
Definition previous_fee (st : option CachedChainState) (target : Z) : option TargetFeeState :=
  match st with
  | None => None
  | Some c =>
      match ch_targets c !! target with
      | Some p => match normalized_fee_rate (ema_sat_per_vbyte p) with Some _ => Some p | None => None end
      | None => None
      end
  end.

(** The new state of one target: a smoothed fresh rate, else the previous one
    carried forward. *)
Definition refresh_target (alpha : spec_float) (reads : ChainReads) (st : option CachedChainState)
    (target : Z) : option TargetFeeState :=
  match rd_fee reads target with
  | Ok estimate =>
      match normalized_fee_rate estimate with
      | None => previous_fee st target
      | Some raw_rate =>
          let ema_rate :=
            match previous_fee st target with
            | Some prev => F64.add (F64.mul alpha raw_rate)
                             (F64.mul (F64.sub F64.one alpha) (ema_sat_per_vbyte prev))
            | None => raw_rate
            end in
          Some (mkFee raw_rate ema_rate (rd_fee_at reads target))
      end
  | Err _ => previous_fee st target
  end.

Fixpoint refresh_targets (alpha : spec_float) (reads : ChainReads) (st : option CachedChainState)
    (ts : list Z) (acc : gmap Z TargetFeeState) : gmap Z TargetFeeState :=
  match ts with
  | [] => acc
  | t :: ts' => refresh_targets alpha reads st ts'
      (match refresh_target alpha reads st t with Some f => <[t := f]> acc | None => acc end)
  end.

Definition refresh_chain_state (cfg : ChainAwarePricingConfig) (reads : ChainReads)
    (observed_height : option (Z * Z)) (st : option CachedChainState) :
    option CachedChainState * option Z :=
  let synced := match observed_height with
                | Some (height, _) => rd_synced_with_height reads height
                | None => rd_synced reads
                end in
  if negb synced then (st, None)
  else
    let alpha := normalized_ema_alpha (fee_rate_ema_alpha cfg) in
    let '(height_result, height_read_at) :=
      match observed_height with
      | Some (height, observed_at) => (Ok height, observed_at)
      | None => (rd_height reads, rd_height_at reads)
      end in
    let '(height, height_fetched_at) :=
      match height_result with
      | Ok h => (h, height_read_at)
      | Err _ => (0, instant_back (rd_now reads) (cache_ttl cfg))
      end in
    let new_targets := refresh_targets alpha reads st (unique_targets cfg) ∅ in
    if bool_decide (new_targets = ∅) then (st, None)
    else (Some (mkCache new_targets height height_fetched_at (rd_now reads)), Some height).

(** [now] is the clock when the cache is consulted. *)
Definition get_chain_state_for_category (cfg : ChainAwarePricingConfig) (now : Z) (reads : ChainReads)
    (c : KindCategory) (observed_height : option (Z * Z)) (st : option CachedChainState) :
    option CachedChainState * option (spec_float * Z) :=
  let target := target_for_category cfg c in
  let fresh :=
    match st with
    | Some cached =>
        if saturating_sub now (refreshed_at cached) <? cache_ttl cfg then
          match ch_targets cached !! target with
          | Some f => Some (ema_sat_per_vbyte f, block_height cached)
          | None => None
          end
        else None
    | None => None
    end in
  match fresh with
  | Some r => (st, Some r)
  | None =>
      let '(st', h) := refresh_chain_state cfg reads observed_height st in
      match h with
      | None => (st', None)
      | Some height =>
          (st', match st' with
                | Some cached =>
                    match ch_targets cached !! target with
                    | Some f => Some (ema_sat_per_vbyte f, height)
                    | None => None
                    end
                | None => None
                end)
      end
  end.

(** ** Prices *)

Definition halving_sensitivity (height : Z) : spec_float :=
  let halvings := height / HALVING_INTERVAL in
  let sensitivity := F64.add F64.one (F64.mul (F64.of_u64 halvings) (F64.lit 1 5)) in
  f_min sensitivity (F64.lit 4 1).

Definition clamped_fee (fee_rate : spec_float) : spec_float :=
  if is_infinite fee_rate && is_sign_positive fee_rate then F64.max_value
  else default F64.zero (normalized_fee_rate fee_rate).

Definition clamped_sens (sensitivity : spec_float) : spec_float :=
  if is_infinite sensitivity && is_sign_positive sensitivity then F64.lit 4 1
  else if is_finite sensitivity then f_max sensitivity F64.one
  else F64.one.

(** [base * effective_rate / 100_000], rounded up and clamped to [u64]. *)
Definition fee_adjustment (base_price : Z) (fee_rate sensitivity : spec_float) : Z :=
  let effective_rate := F64.mul (F64.mul (clamped_fee fee_rate) (clamped_sens sensitivity))
                          (F64.lit 1000 1) in
  let effective_rate_milli := if is_finite effective_rate then F64.as_u128 effective_rate
                              else U128_MAX in
  let numerator := saturating_mul U128_MAX base_price effective_rate_milli in
  if numerator =? 0 then 0
  else
    let ceiled := if 0 <? numerator mod 100000 then numerator / 100000 + 1 else numerator / 100000 in
    Z.min ceiled U64_MAX.

Definition price_cap (base_price : Z) (max_multiplier : spec_float) : Z :=
  let cap_f64 := F64.mul (F64.of_u64 base_price) max_multiplier in
  if f_ge cap_f64 (F64.of_u64 U64_MAX) then U64_MAX
  else if f_le cap_f64 F64.zero then 0
  else F64.as_u64 cap_f64.

Definition apply_multiplier (base_price : Z) (fee_rate sensitivity max_multiplier : spec_float) : Z :=
  let result := saturating_add U64_MAX base_price (fee_adjustment base_price fee_rate sensitivity) in
  let max_multiplier := normalized_max_multiplier max_multiplier in
  if f_gt max_multiplier F64.zero
  then Z.min result (Z.max (price_cap base_price max_multiplier) base_price)
  else result.

Definition price_for_kind (cfg : ChainAwarePricingConfig) (now : Z) (reads : ChainReads) (kind : Z)
    (observed_height : option (Z * Z)) (st : option CachedChainState) :
    option CachedChainState * result PricingError Z :=
  match static_get_price_msat (cc_base cfg) kind with
  | Err e => (st, Err e)
  | Ok base_price =>
      let '(st', s) := get_chain_state_for_category cfg now reads (from_kind kind) observed_height st in
      (st', Ok (match s with
                | Some (fee_rate, height) => apply_multiplier base_price fee_rate
                    (halving_sensitivity height) (max_price_multiplier cfg)
                | None => base_price
                end))
  end.

Definition chain_get_category_price_msat (cfg : ChainAwarePricingConfig) (now : Z) (reads : ChainReads)
    (c : KindCategory) (st : option CachedChainState) :
    option CachedChainState * result PricingError Z :=
  match price_for_category (cc_base cfg) c with
  | Err e => (st, Err e)
  | Ok base_price =>
      let '(st', s) := get_chain_state_for_category cfg now reads c None st in
      (st', Ok (match s with
                | Some (fee_rate, height) => apply_multiplier base_price fee_rate
                    (halving_sensitivity height) (max_price_multiplier cfg)
                | None => base_price
                end))
  end.

(** The trait view of the engine for one query against a given cache. *)
Definition chain_engine (cfg : ChainAwarePricingConfig) (now : Z) (reads : ChainReads)
    (st : option CachedChainState) : PricingEngine :=
  mkPricing (fun kind => (price_for_kind cfg now reads kind None st).2)
    (fun c => (chain_get_category_price_msat cfg now reads c st).2)
    (static_category_price_overrides (cc_base cfg)).

(** ** Observability *)

Definition current_block_height (st : option CachedChainState) : option Z := block_height <$> st.

(** The oldest real fetch among the cached values. *)
Definition oldest_fetch (c : CachedChainState) : Z :=
  fold_right Z.min (block_height_fetched_at c)
    (map (fun '(_, f) => fetched_at f) (map_to_list (ch_targets c))).

Definition fee_rate_state (cfg : ChainAwarePricingConfig) (st : option CachedChainState) :
    option (spec_float * spec_float) :=
  match st with
  | None => None
  | Some c =>
      match ch_targets c !! fee_target_blocks cfg with
      | Some f => Some (raw_sat_per_vbyte f, ema_sat_per_vbyte f)
      | None => None
      end
  end.
