(* ===== verification/ChainProps.v ===== *)
(** * Properties of the pricing engines

    Bounded adaptation of chain-aware prices under every fee rate, the
    soundness of the fee cache, the static fallback, and the contract of
    category prices that delivery offers rest on. *)

From S2P Require Import Prelude Float FloatRound Kind Types Envelope WebReply Gate GateSpec.
From S2P Require Import StaticPricing ChainAware.

Abbreviation fvalid := (valid F64.prec F64.emax).
Abbreviation fval := (fnum F64.prec F64.emax).
Abbreviation unit_ := (2 ^ K F64.prec F64.emax).

Lemma unit_pos : 0 < unit_.
Proof. reflexivity. Qed.

Lemma nonneg_of_fnum x : fvalid x -> is_finite x = true -> 0 <= fval x -> nonneg x.
Proof.
  destruct x as [s|s| |[] m e]; try done. intros Vx _ Hx. cbn [fnum] in Hx.
  apply valid_finite in Vx as [Hc _].
  pose proof (canon_K F64.prec F64.emax eq_refl eq_refl m e Hc).
  pose proof (pow2_pos (e + K F64.prec F64.emax) ltac:(done)). lia.
Qed.

Lemma as_uint_range top x : 0 <= top -> 0 <= f_as_uint top x <= top.
Proof.
  intros Ht. destruct x as [s|[]| |[] m e]; simpl; try lia. destruct (0 <=? e) eqn:He.
  - assert (0 <= Zpos m * 2 ^ e) by (apply Z.mul_nonneg_nonneg; [lia|apply Z.pow_nonneg; lia]). lia.
  - assert (0 <= Zpos m / 2 ^ (- e)) by (apply Z.div_pos; [lia|apply Z.pow_pos_nonneg; lia]). lia.
Qed.

(** ** The fee adjustment can only raise a price *)

Lemma fee_adjustment_range base fee sens : 0 <= base -> 0 <= fee_adjustment base fee sens <= U64_MAX.
Proof.
  intros Hb. unfold fee_adjustment. set (milli := if is_finite _ then _ else U128_MAX).
  assert (Hm : 0 <= milli).
  { unfold milli. destruct (is_finite _); [apply as_uint_range; done|done]. }
  assert (Hn : 0 <= saturating_mul U128_MAX base milli).
  { unfold saturating_mul. assert (0 <= base * milli) by nia. unfold U128_MAX. lia. }
  set (n := saturating_mul _ _ _) in *. destruct (n =? 0); [unfold U64_MAX; lia|].
  pose proof (Z.div_pos n 100000 Hn ltac:(lia)). unfold U64_MAX. destruct (0 <? n mod 100000); lia.
Qed.

Lemma apply_multiplier_ge base fee sens m : is_u64 base -> base <= apply_multiplier base fee sens m <= U64_MAX.
Proof.
  intros [H0 H1]. pose proof (fee_adjustment_range base fee sens H0) as Ha.
  unfold apply_multiplier, saturating_add. destruct (f_gt _ _); lia.
Qed.

(** ** The cap *)

Lemma price_cap_bound base m : 0 <= base <= 2 ^ 53 -> fvalid m -> is_finite m = true -> nonneg m ->
  ceil_div (base * fval m) unit_ <= 2 ^ 53 ->
  price_cap base m <= ceil_div (base * fval m) unit_.
Proof.
  intros Hb Vm Fm Nm Hc. pose proof unit_pos as HU. pose proof (fnum_nonneg F64.prec F64.emax m Nm) as Hm.
  destruct (of_int_exact F64.prec F64.emax eq_refl eq_refl base Hb) as (Vb & Nb & Fb & Eb).
  pose proof (mul_faithful F64.prec F64.emax eq_refl eq_refl _ _ Vb Vm Fb Fm Nb Nm) as Hf.
  set (n := ceil_div (base * fval m) unit_) in *.
  pose proof (ceil_div_bounds (base * fval m) unit_ HU) as Hbd. fold n in Hbd.
  assert (Hn : 0 <= n <= 2 ^ 53) by (split; [apply ceil_div_ge; [done|lia]|done]).
  destruct (of_int_exact F64.prec F64.emax eq_refl eq_refl n Hn) as (Vn & Nn & Fn & En).
  pose proof Hf as (Vx & Nx & _).
  destruct (faithful_le F64.prec F64.emax _ _ _ _ Hf Vn Fn Nn) as [Fx Hle].
  { rewrite En, Eb. nia. }
  rewrite En in Hle. unfold price_cap, F64.mul, F64.of_u64.
  unfold f_ge. change (SFleb ?a ?b) with (f_le a b).
  rewrite (f_le_fnum F64.prec F64.emax eq_refl eq_refl (f_of_int F64.prec F64.emax U64_MAX)) by done.
  change (fval (f_of_int F64.prec F64.emax U64_MAX)) with (2 ^ 64 * unit_).
  rewrite (proj2 (Z.leb_gt _ _)) by nia.
  destruct (f_le _ F64.zero); [lia|]. unfold F64.as_u64.
  rewrite (as_uint_spec F64.prec F64.emax eq_refl eq_refl) by done.
  apply Z.min_le_iff. right. apply Z.div_le_upper_bound; lia.
Qed.

Lemma apply_multiplier_capped base fee sens m :
  0 <= base <= 2 ^ 53 -> fvalid m -> is_finite m = true -> f_gt m F64.zero = true ->
  ceil_div (base * fval m) unit_ <= 2 ^ 53 ->
  apply_multiplier base fee sens m <= Z.max base (ceil_div (base * fval m) unit_).
Proof.
  intros Hb Vm Fm Hpos Hc. pose proof (f_gt_zero_nonneg m Vm Fm Hpos) as Nm.
  pose proof (price_cap_bound base m Hb Vm Fm Nm Hc) as Hcap.
  unfold apply_multiplier, normalized_max_multiplier. rewrite Fm, Hpos. cbn [andb].
  assert (f_eq m F64.zero = false) as -> by (destruct m as [s|s| |[] p e]; done).
  rewrite Hpos. lia.
Qed.

(** ** Halving sensitivity *)

Lemma lit_ok_fifth : fvalid (F64.lit 1 5) /\ is_finite (F64.lit 1 5) = true /\ nonneg (F64.lit 1 5) /\
  0 <= fval (F64.lit 1 5) <= unit_.
Proof. split_and!; vm_compute; first [exact I|done]. Qed.

Lemma halving_sensitivity_range h : 0 <= h <= 2 ^ 64 ->
  let s := halving_sensitivity h in
  fvalid s /\ is_finite s = true /\ unit_ <= fval s <= 4 * unit_.
Proof.
  intros Hh. cbv zeta. unfold halving_sensitivity, HALVING_INTERVAL. pose proof unit_pos as HU.
  set (n := h / 210000).
  assert (Hn : 0 <= n < 2 ^ 52).
  { unfold n. split; [apply Z.div_pos; lia|apply Z.div_lt_upper_bound; lia]. }
  destruct (of_int_exact F64.prec F64.emax eq_refl eq_refl n) as (Vn & Nn & Fn & En);
    [unfold F64.prec; lia|].
  destruct lit_ok_fifth as (V5 & F5 & N5 & H5).
  pose proof (mul_faithful F64.prec F64.emax eq_refl eq_refl _ _ Vn V5 Fn F5 Nn N5) as Hm.
  pose proof Hm as (Vm & Nm & _).
  destruct (faithful_le F64.prec F64.emax _ _ _ _ Hm Vn Fn Nn) as [Fm Hmle]; [rewrite En; nia|].
  destruct (of_int_exact F64.prec F64.emax eq_refl eq_refl 1) as (V1 & N1 & F1 & E1);
    [unfold F64.prec; lia|].
  pose proof (add_faithful F64.prec F64.emax eq_refl eq_refl _ _ V1 Vm F1 Fm N1 Nm) as Ha.
  pose proof Ha as (Va & Na & _).
  destruct (of_int_exact F64.prec F64.emax eq_refl eq_refl (n + 1)) as (Vp & Np & Fp & Ep);
    [unfold F64.prec; lia|].
  destruct (faithful_le F64.prec F64.emax _ _ _ _ Ha Vp Fp Np) as [Fa Hale]; [rewrite Ep; lia|].
  pose proof (fnum_nonneg F64.prec F64.emax _ Nm).
  pose proof (faithful_ge F64.prec F64.emax _ _ _ _ Ha V1 F1 N1 Fa ltac:(lia)) as Hage.
  rewrite E1 in Hage. unfold F64.add, F64.mul, F64.of_u64, F64.one in *. unfold f_min.
  set (s := f_add _ _ _ _) in *. assert (is_nan s = false) as -> by (destruct s; done).
  unfold f_gt. change (SFltb ?a ?b) with (f_lt a b).
  rewrite (f_lt_fnum F64.prec F64.emax eq_refl eq_refl) by done.
  change (fval (F64.lit 4 1)) with (4 * unit_).
  destruct (Z.ltb_spec (4 * unit_) (fval s)); split_and!; try done; try lia.
Qed.

(** ** The fee cache *)

Definition rate_ok (x : spec_float) : Prop := fvalid x /\ nonneg x.

Record cache_ok (c : CachedChainState) : Prop := {
  co_rates : forall t f, ch_targets c !! t = Some f -> rate_ok (ema_sat_per_vbyte f);
  co_nonempty : ch_targets c <> ∅
}.

Definition state_ok (st : option CachedChainState) : Prop := forall c, st = Some c -> cache_ok c.

Lemma normalized_fee_rate_some r x : fvalid r -> normalized_fee_rate r = Some x ->
  x = r /\ is_finite x = true /\ rate_ok x.
Proof.
  intros Vr. unfold normalized_fee_rate. destruct (is_finite r) eqn:F; [|done]. cbn [andb].
  destruct (f_ge r F64.zero) eqn:Hge; [|done]. intros [= <-]. split_and!; try done.
  by destruct r as [[]|[]| |[] m e].
Qed.

Lemma previous_fee_ok st t p : state_ok st -> previous_fee st t = Some p ->
  rate_ok (ema_sat_per_vbyte p) /\ is_finite (ema_sat_per_vbyte p) = true.
Proof.
  intros Hst. destruct st as [c|]; [|done]. simpl. destruct (ch_targets c !! t) as [q|] eqn:Hq; [|done].
  destruct (normalized_fee_rate (ema_sat_per_vbyte q)) eqn:Hn; [|done]. intros [= <-].
  pose proof (co_rates c (Hst c eq_refl) t q Hq) as Hr.
  apply normalized_fee_rate_some in Hn as (-> & ? & ?); [done|apply Hr].
Qed.

Lemma normalized_ema_alpha_ok a : fvalid a ->
  let x := normalized_ema_alpha a in
  fvalid x /\ nonneg x /\ is_finite x = true /\ fval x <= unit_.
Proof.
  intros Va. cbv zeta. unfold normalized_ema_alpha. destruct (is_finite a) eqn:F;
    [|split_and!; vm_compute; first [exact I|done]].
  destruct (clamp_spec F64.prec F64.emax eq_refl eq_refl a F64.zero F64.one) as (V & Fc & E); try done.
  change (fval F64.zero) with 0 in E. change (fval F64.one) with unit_ in E. pose proof unit_pos.
  assert (0 <= fval (f_clamp a F64.zero F64.one)) by lia.
  split_and!; try done; [by apply nonneg_of_fnum|lia].
Qed.

(** The smoothed rate is a rate again: never NaN, never negative. *)
Lemma smoothing_ok alpha raw prev :
  fvalid alpha -> nonneg alpha -> is_finite alpha = true -> fval alpha <= unit_ ->
  rate_ok raw -> is_finite raw = true -> rate_ok prev -> is_finite prev = true ->
  rate_ok (F64.add (F64.mul alpha raw) (F64.mul (F64.sub F64.one alpha) prev)).
Proof.
  intros Va Na Fa Ha [Vr Nr] Fr [Vp Np] Fp. pose proof unit_pos as HU.
  destruct (of_int_exact F64.prec F64.emax eq_refl eq_refl 1) as (V1 & N1 & F1 & E1);
    [unfold F64.prec; lia|].
  pose proof (sub_faithful F64.prec F64.emax eq_refl eq_refl _ _ V1 Va F1 Fa N1 Na ltac:(lia)) as Hs.
  pose proof Hs as (Vs & Ns & _). pose proof (fnum_nonneg F64.prec F64.emax _ Na).
  destruct (faithful_le F64.prec F64.emax _ _ _ _ Hs V1 F1 N1 ltac:(lia)) as [Fs Hsle].
  pose proof (mul_faithful F64.prec F64.emax eq_refl eq_refl _ _ Va Vr Fa Fr Na Nr) as Hm1.
  pose proof (mul_faithful F64.prec F64.emax eq_refl eq_refl _ _ Vs Vp Fs Fp Ns Np) as Hm2.
  pose proof Hm1 as (V2 & N2 & _). pose proof Hm2 as (V3 & N3 & _).
  pose proof (fnum_nonneg F64.prec F64.emax _ Nr). pose proof (fnum_nonneg F64.prec F64.emax _ Np).
  destruct (faithful_le F64.prec F64.emax _ _ _ _ Hm1 Vr Fr Nr) as [F2 _]; [nia|].
  destruct (faithful_le F64.prec F64.emax _ _ _ _ Hm2 Vp Fp Np) as [F3 _]; [nia|].
  pose proof (add_faithful F64.prec F64.emax eq_refl eq_refl _ _ V2 V3 F2 F3 N2 N3) as (V & N & _).
  done.
Qed.

(** What the chain answers are floats of the format. *)
Definition reads_ok (reads : ChainReads) : Prop := forall t x, rd_fee reads t = Ok x -> fvalid x.

Lemma refresh_target_ok alpha reads st t f :
  fvalid alpha -> nonneg alpha -> is_finite alpha = true -> fval alpha <= unit_ ->
  reads_ok reads -> state_ok st -> refresh_target alpha reads st t = Some f ->
  rate_ok (ema_sat_per_vbyte f).
Proof.
  intros Va Na Fa Ha Hr Hst. unfold refresh_target.
  destruct (rd_fee reads t) as [x|err] eqn:Hx; [|intros Hp; apply (previous_fee_ok st t f Hst Hp)].
  destruct (normalized_fee_rate x) as [raw|] eqn:Hn; [|intros Hp; apply (previous_fee_ok st t f Hst Hp)].
  apply normalized_fee_rate_some in Hn as (-> & Fr & Or); [|by eapply Hr].
  destruct (previous_fee st t) as [p|] eqn:Hp; intros [= <-]; cbn [ema_sat_per_vbyte]; [|done].
  apply previous_fee_ok in Hp as [Op Fp]; [|done]. by apply smoothing_ok.
Qed.

Lemma refresh_targets_ok alpha reads st ts acc :
  (forall t f, refresh_target alpha reads st t = Some f -> rate_ok (ema_sat_per_vbyte f)) ->
  (forall t f, acc !! t = Some f -> rate_ok (ema_sat_per_vbyte f)) ->
  forall t f, refresh_targets alpha reads st ts acc !! t = Some f -> rate_ok (ema_sat_per_vbyte f).
Proof.
  intros Hnew. revert acc. induction ts as [|t0 ts IH]; intros acc Hacc t f; simpl; [apply Hacc|].
  apply IH. destruct (refresh_target alpha reads st t0) as [g|] eqn:Hg; [|done].
  intros t1 f1 [[_ <-]|[_ H1]]%lookup_insert_Some; [by eapply Hnew|by eapply Hacc].
Qed.

Lemma refresh_state_ok cfg reads oh st : fvalid (fee_rate_ema_alpha cfg) -> reads_ok reads ->
  state_ok st -> state_ok (refresh_chain_state cfg reads oh st).1.
Proof.
  intros Va Hr Hst. unfold refresh_chain_state.
  destruct (negb _); [done|].
  destruct (match oh with Some _ => _ | None => _ end) as [hr hat].
  destruct (match hr with Ok _ => _ | Err _ => _ end) as [h hf].
  case_bool_decide as He; [done|]. intros c [= <-]. constructor; [|done]. cbn [ch_targets].
  destruct (normalized_ema_alpha_ok _ Va) as (V & N & F & H1).
  apply refresh_targets_ok; [|by intros t f ?%lookup_empty_Some].
  intros t f. by apply refresh_target_ok.
Qed.

(** ** The properties *)

(** C36: whatever the chain reports (NaN, infinite, negative or absurd fee
    rates, any block height, failures) and whatever is cached, a chain-aware
    price under the default multiplier lies between the static price and five
    times it, for static prices up to 2^50 msat; kinds without a static price
    stay unpriceable. *)
Theorem chain_price_is_bounded cfg now reads kind oh st :
  max_price_multiplier cfg = DEFAULT_MAX_PRICE_MULTIPLIER ->
  match static_get_price_msat (cc_base cfg) kind with
  | Err err => price_for_kind cfg now reads kind oh st = (st, Err err)
  | Ok base => 0 <= base <= 2 ^ 50 ->
      exists p, (price_for_kind cfg now reads kind oh st).2 = Ok p /\ base <= p <= 5 * base
  end.
Proof.
  intros Hm. unfold price_for_kind. destruct (static_get_price_msat _ kind) as [base|err]; [|done].
  intros Hb. destruct (get_chain_state_for_category _ _ _ _ _ _) as [st' [[fee h]|]]; cbn [snd];
    [|exists base; split; [done|lia]].
  eexists. split; [done|]. rewrite Hm.
  pose proof (apply_multiplier_ge base fee (halving_sensitivity h) DEFAULT_MAX_PRICE_MULTIPLIER) as Hge.
  pose proof (apply_multiplier_capped base fee (halving_sensitivity h) DEFAULT_MAX_PRICE_MULTIPLIER) as Hle.
  assert (Hc : ceil_div (base * fval DEFAULT_MAX_PRICE_MULTIPLIER) unit_ = 5 * base).
  { apply ceil_div_unique; [done|]. change (fval DEFAULT_MAX_PRICE_MULTIPLIER) with (5 * unit_).
    pose proof unit_pos. nia. }
  rewrite Hc in Hle. split; [apply Hge; solve_int|].
  transitivity (Z.max base (5 * base)); [apply Hle; try done; lia|lia].
Qed.

(** Halving sensitivity is a number between 1 and 4 at every height. *)
Theorem halving_sensitivity_bounded h : is_u64 h ->
  is_finite (halving_sensitivity h) = true /\
  f_le F64.one (halving_sensitivity h) = true /\ f_le (halving_sensitivity h) (F64.lit 4 1) = true.
Proof.
  intros Hh. destruct (halving_sensitivity_range h) as (V & F & Hr); [solve_int|].
  rewrite !(f_le_fnum F64.prec F64.emax eq_refl eq_refl) by done.
  change (fval F64.one) with unit_. change (fval (F64.lit 4 1)) with (4 * unit_).
  split_and!; [done|apply Z.leb_le; lia|apply Z.leb_le; lia].
Qed.

(** A smoothed fee rate in the cache is never NaN and never negative, and
    a cache always has a rate: refreshing keeps both, whichever of the chain
    queries fail or answer nonsense. *)
Theorem refresh_keeps_cache_ok cfg reads oh st :
  fvalid (fee_rate_ema_alpha cfg) -> reads_ok reads -> state_ok st ->
  state_ok (refresh_chain_state cfg reads oh st).1.
Proof. apply refresh_state_ok. Qed.

(** While the cache is fresh and holds the category's target, the chain is
    not consulted: the price is the same for all chain answers, and the cache
    is left alone. *)
Theorem fresh_cache_asks_nothing cfg now reads reads' kind c f :
  saturating_sub now (refreshed_at c) < cache_ttl cfg ->
  ch_targets c !! target_for_category cfg (from_kind kind) = Some f ->
  price_for_kind cfg now reads kind None (Some c) = price_for_kind cfg now reads' kind None (Some c) /\
  (price_for_kind cfg now reads kind None (Some c)).1 = Some c.
Proof.
  intros Hfresh Hf. unfold price_for_kind. destruct (static_get_price_msat _ kind) as [base|]; [|done].
  unfold get_chain_state_for_category. by rewrite (proj2 (Z.ltb_lt _ _) Hfresh), Hf.
Qed.

(** When the chain provider is not synced and nothing fresh is cached, the
    engine charges exactly the static price and keeps its cache. *)
Theorem unsynced_chain_falls_back cfg now reads kind st :
  rd_synced reads = false ->
  (forall c, st = Some c -> cache_ttl cfg <= saturating_sub now (refreshed_at c)) ->
  price_for_kind cfg now reads kind None st = (st, static_get_price_msat (cc_base cfg) kind).
Proof.
  intros Hs Hst. unfold price_for_kind. destruct (static_get_price_msat _ kind) as [base|]; [|done].
  unfold get_chain_state_for_category, refresh_chain_state. rewrite Hs. cbn [negb].
  destruct st as [c|]; [|done]. by rewrite (proj2 (Z.ltb_ge _ _) (Hst c eq_refl)).
Qed.

(** Both engines keep the promise of [category_price_overrides], on which
    durable category offers rest: a priceable kind that is not listed is
    charged exactly its category's price, here for any cache and any chain
    answers. *)
Theorem engines_honour_overrides cfg now reads st :
  honours_overrides (static_engine (cc_base cfg)) /\ honours_overrides (chain_engine cfg now reads st).
Proof.
  split; [apply static_honours|]. intros kinds kind Hk H16 Hu Hnot. simpl in *.
  unfold price_for_kind, chain_get_category_price_msat.
  pose proof (static_honours (cc_base cfg) kinds kind Hk H16 Hu Hnot) as Hs. simpl in Hs. rewrite Hs.
  by destruct (price_for_category (cc_base cfg) (from_kind kind)) as [base|];
    [destruct (get_chain_state_for_category _ _ _ _ _ _)|].
Qed.

Lemma finite_rates_normalized c t f : cache_ok c -> ch_targets c !! t = Some f ->
  is_finite (ema_sat_per_vbyte f) = true ->
  normalized_fee_rate (ema_sat_per_vbyte f) = Some (ema_sat_per_vbyte f).
Proof.
  intros Hc Hf Ff. destruct (co_rates c Hc t f Hf) as [_ N]. unfold normalized_fee_rate. rewrite Ff.
  by destruct (ema_sat_per_vbyte f) as [[]|[]| |[] m e].
Qed.

(** A node that restarts within the hour resumes its smoothing: seeding
    the engine with the snapshot it saved restores every target's smoothed
    rate and the height, and the restored cache is already expired, so the
    next price asks the chain. *)
Theorem snapshot_seeds_same_rates cfg c now saved_secs now_secs st :
  cache_ok c -> (forall t f, ch_targets c !! t = Some f -> is_finite (ema_sat_per_vbyte f) = true) ->
  now_secs - saved_secs <= 3600 -> 0 <= cache_ttl cfg <= now ->
  exists snap c', snapshot saved_secs (Some c) = Some snap /\
    seed_ema cfg now now_secs snap st = Some c' /\
    ema_sat_per_vbyte <$> ch_targets c' = ema_sat_per_vbyte <$> ch_targets c /\
    block_height c' = block_height c /\ cache_ttl cfg <= saturating_sub now (refreshed_at c').
Proof.
  intros Hc Hfin Hage Httl. eexists _, _. split; [done|].
  assert (Hom : omap (fun ema => match normalized_fee_rate ema with
                                 | Some ema => Some (mkFee ema ema (now - cache_ttl cfg))
                                 | None => None end) (ema_sat_per_vbyte <$> ch_targets c) =
                (fun f => mkFee (ema_sat_per_vbyte f) (ema_sat_per_vbyte f) (now - cache_ttl cfg))
                  <$> ch_targets c).
  { apply map_eq. intros t. rewrite lookup_omap, !lookup_fmap.
    destruct (ch_targets c !! t) as [f|] eqn:Hf; [|done]. simpl.
    by rewrite (finite_rates_normalized c t f Hc Hf (Hfin t f Hf)). }
  unfold seed_ema. cbn [sn_targets sn_block_height sn_timestamp_secs].
  rewrite (proj2 (Z.ltb_ge _ _)) by solve_int.
  rewrite bool_decide_eq_false_2 by (intros He%fmap_empty_inv; by apply (co_nonempty c Hc)).
  unfold instant_back. rewrite (proj2 (Z.leb_le _ _)) by lia. rewrite Hom.
  rewrite bool_decide_eq_false_2 by (intros He%fmap_empty_inv; by apply (co_nonempty c Hc)).
  split; [done|]. cbn [ch_targets block_height refreshed_at]. split_and!; [|done|solve_int].
  rewrite <- map_fmap_compose. by apply map_fmap_ext.
Qed.

(** The adjustment is not the documented [ceil(base * fee * sensitivity /
    100)]: the rate is first cut to thousandths, so a fee rate of 0.0004 sat/vB
    leaves a 10 msat price at 10 where the formula gives 11. *)
Theorem fee_rate_is_cut_to_thousandths :
  apply_multiplier 10 (F64.lit 4 10000) F64.one DEFAULT_MAX_PRICE_MULTIPLIER = 10 /\
  10 + ceil_div (10 * 4 * 1) (10000 * 100) = 11.
Proof. split; vm_compute; reflexivity. Qed.

(** ** Runs *)

Definition sample_reads : ChainReads :=
  mkReads true (fun _ => true) (Ok 850000) 100000 (fun t => if t =? 6 then Ok (F64.lit 50 1) else Err "down")
    (fun _ => 100001) 100005.

Definition sample_cache : CachedChainState :=
  mkCache {[6 := mkFee (F64.lit 50 1) (F64.lit 40 1) 90000]} 850000 90000 90000.

Lemma sample_cache_ok : cache_ok sample_cache.
Proof.
  constructor; [|done]. intros t f Hf. unfold sample_cache in Hf. cbn [ch_targets] in Hf.
  apply lookup_singleton_Some in Hf as [<- <-]. split; [reflexivity|exact I].
Qed.

Lemma chain_price_is_bounded_witness :
  match static_get_price_msat StaticPricingConfig_default 500 with
  | Err err => price_for_kind ChainAwarePricingConfig_default 200000 sample_reads 500 None None = (None, Err err)
  | Ok base => 0 <= base <= 2 ^ 50 ->
      exists p, (price_for_kind ChainAwarePricingConfig_default 200000 sample_reads 500 None None).2 = Ok p /\
        base <= p <= 5 * base
  end.
Proof.
  pose proof (chain_price_is_bounded ChainAwarePricingConfig_default 200000 sample_reads 500 None None) as Hx.
  apply Hx. reflexivity.
Defined.

Lemma halving_sensitivity_bounded_witness :
  is_finite (halving_sensitivity 850000) = true /\
  f_le F64.one (halving_sensitivity 850000) = true /\
  f_le (halving_sensitivity 850000) (F64.lit 4 1) = true.
Proof. apply halving_sensitivity_bounded. solve_int. Defined.

Lemma refresh_keeps_cache_ok_witness :
  state_ok (refresh_chain_state ChainAwarePricingConfig_default sample_reads None (Some sample_cache)).1.
Proof.
  apply refresh_keeps_cache_ok.
  - reflexivity.
  - intros t x. unfold sample_reads. cbn [rd_fee]. destruct (t =? 6); [|discriminate].
    intros [= <-]. reflexivity.
  - intros c [= <-]. apply sample_cache_ok.
Defined.

Lemma fresh_cache_asks_nothing_witness :
  price_for_kind ChainAwarePricingConfig_default 100000 sample_reads 0 None (Some sample_cache) =
  price_for_kind ChainAwarePricingConfig_default 100000
    (mkReads false (fun _ => false) (Err "down") 0 (fun _ => Err "down") (fun _ => 0) 0) 0 None
    (Some sample_cache) /\
  (price_for_kind ChainAwarePricingConfig_default 100000 sample_reads 0 None (Some sample_cache)).1 =
  Some sample_cache.
Proof.
  apply (fresh_cache_asks_nothing ChainAwarePricingConfig_default 100000 sample_reads _ 0 sample_cache
    (mkFee (F64.lit 50 1) (F64.lit 40 1) 90000)); vm_compute; reflexivity.
Defined.

Lemma unsynced_chain_falls_back_witness :
  price_for_kind ChainAwarePricingConfig_default 200000
    (mkReads false (fun _ => false) (Err "down") 0 (fun _ => Err "down") (fun _ => 0) 0) 0 None
    (Some sample_cache) = (Some sample_cache, static_get_price_msat StaticPricingConfig_default 0).
Proof.
  apply (unsynced_chain_falls_back ChainAwarePricingConfig_default 200000
    (mkReads false (fun _ => false) (Err "down") 0 (fun _ => Err "down") (fun _ => 0) 0) 0
    (Some sample_cache)).
  - reflexivity.
  - intros c [= <-]. vm_compute. discriminate.
Defined.

Lemma snapshot_seeds_same_rates_witness :
  exists snap c', snapshot 1000 (Some sample_cache) = Some snap /\
    seed_ema ChainAwarePricingConfig_default 200000 1600 snap None = Some c' /\
    ema_sat_per_vbyte <$> ch_targets c' = ema_sat_per_vbyte <$> ch_targets sample_cache /\
    block_height c' = block_height sample_cache /\
    cache_ttl ChainAwarePricingConfig_default <= saturating_sub 200000 (refreshed_at c').
Proof.
  apply (snapshot_seeds_same_rates ChainAwarePricingConfig_default sample_cache 200000 1000 1600 None).
  - apply sample_cache_ok.
  - intros t f Hf. unfold sample_cache in Hf. cbn [ch_targets] in Hf.
    apply lookup_singleton_Some in Hf as [<- <-]. reflexivity.
  - lia.
  - vm_compute. split; discriminate.
Defined.
