(* ===== verification/PeerPrices.v ===== *)
(** * Peer price tables and trust discounts

    [konsensus-pricing/src/peer_prices.rs]: the tables peers announce, the
    cache a sender quotes from, the single place where a trust discount is
    applied, and the tables a node builds from its own pricing engine.

    Instants and ages are milliseconds; every operation takes the clock it
    reads.  A [HashMap] is a finite map. *)

From S2P Require Import Prelude Float Text Kind Types Envelope WebReply Gate.

Definition MAX_TRUST_DISCOUNT : spec_float := F64.lit 1 2.
Definition ADMISSION_FLOOR_KEY : string := "min_admission_cost_msat".
Definition RESYNC_DISCOUNT : spec_float := F64.lit 1 2.
Definition DIFFICULTY_EPOCH : Z := 2016.

(** ** Discounts *)

Definition trust_discount_floor_msat (base_msat : Z) : Z :=
  let floor := F64.as_u64 (F64.ceil (F64.mul (F64.of_u64 base_msat) (F64.sub F64.one MAX_TRUST_DISCOUNT))) in
  Z.max floor 1.

Definition apply_trust_discount (base_msat : Z) (discount : spec_float) : Z :=
  if negb (is_finite discount) || is_nan discount then base_msat
  else
    let clamped := f_clamp discount F64.zero MAX_TRUST_DISCOUNT in
    if f_eq clamped F64.zero then base_msat
    else
      let discounted := F64.mul (F64.of_u64 base_msat) (F64.sub F64.one clamped) in
      let result := Z.max (F64.as_u64 (F64.ceil discounted)) 1 in
      let floor := trust_discount_floor_msat base_msat in
      Z.max result floor.

Definition compute_trust_discount (synaptic_weight : spec_float) : spec_float :=
  if negb (is_finite synaptic_weight) then F64.zero
  else F64.mul MAX_TRUST_DISCOUNT (f_clamp synaptic_weight F64.zero F64.one).

Definition apply_resync_discount (base_msat : Z) : Z :=
  let discounted := F64.mul (F64.of_u64 base_msat) (F64.sub F64.one RESYNC_DISCOUNT) in
  Z.max (F64.as_u64 (F64.ceil discounted)) 1.

(** ** Tables *)

Definition category_to_string (c : KindCategory) : string := price_table_key c.
Definition kind_key (kind : Z) : string := "kind:" +:+ show_uint kind.

Record PeerPriceEntry := mkEntry {
  pe_prices : gmap string Z;
  pe_block_height : Z;
  pe_valid_blocks : Z;
  pe_received_at : Z;
  pe_trust_discount : spec_float
}.

(** The kinds that carry a price of their own in a table. *)
Definition is_call_offer (kind : Z) : bool :=
  (kind =? KIND_CALL_INVITE) || (kind =? KIND_CALL_BLOCK).

Definition get_price_for_kind (e : PeerPriceEntry) (kind : Z) : option Z :=
  let by_category := pe_prices e !! category_to_string (from_kind kind) in
  if is_call_offer kind then
    match pe_prices e !! kind_key kind with
    | Some price => Some price
    | None => by_category
    end
  else by_category.

Definition get_discounted_price_for_kind (e : PeerPriceEntry) (kind : Z) : option Z :=
  match get_price_for_kind e kind with
  | None => None
  | Some base =>
      let discounted := apply_trust_discount base (pe_trust_discount e) in
      Some (price_with_floor_msat discounted (default 0 (pe_prices e !! ADMISSION_FLOOR_KEY)))
  end.

Definition is_stale (now : Z) (e : PeerPriceEntry) (current_block_height max_age : Z) : bool :=
  if pe_block_height e =? 0 then true
  else if max_age <? saturating_sub now (pe_received_at e) then true
  else if (0 <? pe_valid_blocks e) &&
          (saturating_add U64_MAX (pe_block_height e) (pe_valid_blocks e) <? current_block_height)
  then true
  else false.

Definition compute_valid_blocks (block_height : Z) : Z :=
  if block_height =? 0 then 72
  else
    let position_in_epoch := block_height mod DIFFICULTY_EPOCH in
    if position_in_epoch <=? 100 then 72
    else if 1916 <=? position_in_epoch then 36
    else 144.

(** ** The cache *)

Record PeerPriceCache := mkPeerCache {
  pc_entries : gmap NodeId PeerPriceEntry;
  pc_current_height : Z;
  pc_kind_answers : gmap (NodeId * Z) Z
}.

Definition PeerPriceCache_new : PeerPriceCache := mkPeerCache ∅ 0 ∅.

Definition HOUR : Z := 3600 * 1000.
Definition MAX_KIND_ANSWERS : nat := 4096.

Definition keep_cached_price (now : Z) (c : PeerPriceCache) (old : PeerPriceEntry)
    (height valid_blocks : Z) : bool :=
  let tip := if pc_current_height c =? 0 then pe_block_height old else pc_current_height c in
  (0 <? valid_blocks) &&
  (saturating_add U64_MAX height valid_blocks <? tip) &&
  negb (is_stale now old tip HOUR).

(** [entries.get(&peer).is_some_and(|old| self.keep_cached_price(..))]. *)
Definition keeps_old (now : Z) (c : PeerPriceCache) (peer : NodeId) (height valid_blocks : Z) : bool :=
  match pc_entries c !! peer with
  | Some old => keep_cached_price now c old height valid_blocks
  | None => false
  end.

Definition update (now : Z) (peer_id : NodeId) (prices : gmap string Z) (block_height valid_blocks : Z)
    (trust_discount : spec_float) (c : PeerPriceCache) : PeerPriceCache :=
  if (block_height =? 0) || keeps_old now c peer_id block_height valid_blocks then c
  else
    let clamped_discount := f_clamp trust_discount F64.zero MAX_TRUST_DISCOUNT in
    let entry := mkEntry prices block_height valid_blocks now clamped_discount in
    mkPeerCache (<[peer_id := entry]> (pc_entries c)) (pc_current_height c) (pc_kind_answers c).

(** Recording a kind's answer, with the bound on the map. *)
Definition record_answer (now : Z) (peer_id : NodeId) (kind : Z) (answers : gmap (NodeId * Z) Z) :
    gmap (NodeId * Z) Z :=
  let answers :=
    if decide (MAX_KIND_ANSWERS <= size answers)%nat then
      let kept := filter (fun '(_, at_) => saturating_sub now at_ < HOUR) answers in
      if decide (MAX_KIND_ANSWERS <= size kept)%nat then ∅ else kept
    else answers in
  <[(peer_id, kind) := now]> answers.

Definition update_kind_price (now : Z) (peer_id : NodeId) (kind price_msat block_height : Z)
    (c : PeerPriceCache) : PeerPriceCache :=
  let category_name := if is_call_offer kind then kind_key kind
                       else category_to_string (from_kind kind) in
  let valid_blocks := compute_valid_blocks block_height in
  let known_tip := pc_current_height c in
  if (block_height =? 0) ||
     (saturating_add U64_MAX block_height valid_blocks <? known_tip) ||
     keeps_old now c peer_id block_height valid_blocks
  then c
  else
    let entry :=
      match pc_entries c !! peer_id with
      | Some entry => mkEntry (<[category_name := price_msat]> (pe_prices entry)) block_height
                        (pe_valid_blocks entry) now (pe_trust_discount entry)
      | None => mkEntry {[category_name := price_msat]} block_height valid_blocks now F64.zero
      end in
    mkPeerCache (<[peer_id := entry]> (pc_entries c)) (pc_current_height c)
      (record_answer now peer_id kind (pc_kind_answers c)).

Definition remove (peer_id : NodeId) (c : PeerPriceCache) : PeerPriceCache :=
  mkPeerCache (delete peer_id (pc_entries c)) (pc_current_height c)
    (filter (fun '((peer, _), _) => peer <> peer_id) (pc_kind_answers c)).

Definition get_peer_price (c : PeerPriceCache) (peer_id : NodeId) (kind : Z) : option Z :=
  pc_entries c !! peer_id ≫= fun e => get_price_for_kind e kind.

Definition get_discounted_peer_price (c : PeerPriceCache) (peer_id : NodeId) (kind : Z) : option Z :=
  pc_entries c !! peer_id ≫= fun e => get_discounted_price_for_kind e kind.

Definition get_trust_discount (c : PeerPriceCache) (peer_id : NodeId) : spec_float :=
  match pc_entries c !! peer_id with Some e => pe_trust_discount e | None => F64.zero end.

Definition kind_answered_at (c : PeerPriceCache) (peer_id : NodeId) (kind : Z) : option Z :=
  pc_kind_answers c !! (peer_id, kind).

(** A freshness reader records the tip it was given. *)
Definition store_height (current_block_height : Z) (c : PeerPriceCache) : PeerPriceCache :=
  if 0 <? current_block_height
  then mkPeerCache (pc_entries c) current_block_height (pc_kind_answers c) else c.

Definition get_fresh_with (price : PeerPriceEntry -> Z -> option Z) (now : Z) (peer_id : NodeId)
    (kind current_block_height max_age : Z) (c : PeerPriceCache) : PeerPriceCache * option Z :=
  let c := store_height current_block_height c in
  (c, match pc_entries c !! peer_id with
      | None => None
      | Some entry => if is_stale now entry current_block_height max_age then None else price entry kind
      end).

Definition get_fresh_peer_price := get_fresh_with get_price_for_kind.
Definition get_fresh_discounted_peer_price := get_fresh_with get_discounted_price_for_kind.

(** ** Building our own table *)

Definition table_categories : list KindCategory :=
  [Communication; StructuredData; FilesMedia; Collaboration; RealTimeSignaling;
   WebContent; Control; AppExtension].

Definition add_category (pricing : PricingEngine) (prices : gmap string Z) (c : KindCategory) :
    gmap string Z :=
  match get_category_price_msat pricing c with
  | Ok price => <[category_to_string c := price]> prices
  | Err _ => prices
  end.

Definition add_call (pricing : PricingEngine) (prices : gmap string Z) (call : Z) : gmap string Z :=
  match category_price_overrides pricing with
  | Some ks =>
      if bool_decide (call ∈ ks) then
        match get_price_msat pricing call with
        | Ok price => <[kind_key call := price]> prices
        | Err _ => prices
        end
      else prices
  | None => prices
  end.

Definition build_price_table (pricing : PricingEngine) : gmap string Z :=
  fold_left (add_call pricing) [KIND_CALL_INVITE; KIND_CALL_BLOCK]
    (fold_left (add_category pricing) table_categories ∅).

Inductive TrustLevel := Spv | ServerTrust | FullValidation.

Record PriceTableMetadata := mkTable {
  pt_prices : gmap string Z;
  pt_block_height : Z;
  pt_valid_blocks : Z;
  pt_trust_level : TrustLevel
}.

(** The one [LightningError] this code answers with. *)
Inductive LightningError := NotReady.

(** [get_block_height] answers [height], [trust_level] is the provider's. *)
Definition build_full_price_table (pricing : PricingEngine) (height : result string Z)
    (trust_level : TrustLevel) : result LightningError PriceTableMetadata :=
  let prices := build_price_table pricing in
  let? block_height := map_err (fun _ => NotReady) height in
  if block_height =? 0 then Err NotReady
  else Ok (mkTable prices block_height (compute_valid_blocks block_height) trust_level).
