(* ===== verification/DeliveryPrices.v ===== *)
(** * Announcing prices

    [konsensus-node/src/delivery_prices.rs] with the transport method it calls
    ([send_price_frame_with] of [konsensus-message/src/transport/messaging.rs]),
    the handlers of [konsensus-node/src/session_handler.rs] on both ends, the
    wire check of a received table, and the sender's [quoted_price]
    ([konsensus-api/src/handlers/messages/compose.rs]).

    A node announces over a [Link]: its connections and its database.  A
    connection remembers the discount of the last table written to it and the
    frames written so far; [cn_faults] is the environment's answer to each
    write ([Some] is a serialisation, encryption or socket error). *)

From S2P Require Import Prelude Float Text Kind Types Envelope WebReply Gate Replay Sqlite PeerPrices.

Section Announce.
Context {PR : Prims}.

(** The frames of the price exchange; every other variant of the wire enum is
    [OtherFrame]. *)
Inductive Frame : Type :=
| PriceTable (prices : gmap string Z) (block_height valid_blocks : Z) (trust_discount : spec_float)
| PriceQuery (kind : Z)
| PriceResponse (kind price_msat block_height : Z)
| OtherFrame (tag : string).

Inductive TransportError : Type :=
| NotConnected (s : string)
| ConnectionFailed (s : string)
| WireProtocol (s : string)
| NoiseError (s : string)
| Rejected (s : string)
| Timeout (s : string)
| TransportOther (s : string).

(** The check of [Frame::from_bytes] on a decoded price table. *)
Definition validate_frame (f : Frame) : result string unit :=
  match f with
  | PriceTable _ _ _ d =>
      check is_finite d else "trust_discount must be finite (not NaN or Infinity)" ;;
      check negb (f_lt d F64.zero || f_gt d F64.one) else "trust_discount must be in [0.0, 1.0]" ;;
      Ok tt
  | _ => Ok tt
  end.

(** ** The connection *)

Record PeerConnection := mkConn {
  advertised_trust_discount : option spec_float;
  cn_sent : list Frame;
  cn_faults : list (option TransportError)
}.

(** Write one frame; a table that went out sets the advertised discount. *)
Definition write_frame (f : Frame) : comp PeerConnection TransportError unit := fun c =>
  let faults := tail (cn_faults c) in
  match head (cn_faults c) with
  | Some (Some e) => (mkConn (advertised_trust_discount c) (cn_sent c) faults, Err e)
  | _ => (mkConn (match f with
                  | PriceTable _ _ _ d => Some d
                  | _ => advertised_trust_discount c
                  end) (cn_sent c ++ [f]) faults, Ok tt)
  end.

Fixpoint write_frames (fs : list Frame) : comp PeerConnection TransportError unit :=
  match fs with
  | [] => cret tt
  | f :: fs' => let! _ := write_frame f in write_frames fs'
  end.

Record Link := mkLink { lk_peers : gmap NodeId PeerConnection; lk_db : DB }.

Definition is_price_frame (f : Frame) : bool :=
  match f with PriceTable _ _ _ _ | PriceResponse _ _ _ => true | _ => false end.

Definition send_price_frame_with (peer : NodeId) (frame initial_table : Frame)
    (persist : spec_float -> bool -> comp DB TransportError unit) : comp Link TransportError unit :=
  fun lk =>
  match initial_table with
  | PriceTable _ _ _ initial_discount =>
      if negb (is_price_frame frame) then (lk, Err (TransportOther "expected a price frame"))
      else
        match lk_peers lk !! peer with
        | None => (lk, Err (NotConnected (NodeId_to_hex peer)))
        | Some conn =>
            let needs_table :=
              match frame, advertised_trust_discount conn with
              | PriceResponse _ _ _, None => true
              | _, _ => false
              end in
            let discount :=
              match frame with
              | PriceTable _ _ _ d => d
              | _ => default initial_discount (advertised_trust_discount conn)
              end in
            match persist discount needs_table (lk_db lk) with
            | (db', Err e) => (mkLink (lk_peers lk) db', Err e)
            | (db', Ok _) =>
                let outgoing := (if needs_table then [initial_table] else []) ++ [frame] in
                let '(conn', r) := write_frames outgoing conn in
                (mkLink (<[peer := conn']> (lk_peers lk)) db', r)
            end
        end
  | _ => (lk, Err (TransportOther "expected initial price table"))
  end.

(** ** Persist, then publish *)

Definition advertised_price (base : Z) (discount : spec_float) (admission : Z) : Z :=
  price_with_floor_msat (apply_trust_discount base discount) admission.

(** [prices.insert(ADMISSION_FLOOR_KEY, ..)] on a table. *)
Definition with_floor (min_admission_cost : Z) (f : Frame) : Frame :=
  match f with
  | PriceTable prices h v d => PriceTable (<[ADMISSION_FLOOR_KEY := min_admission_cost]> prices) h v d
  | _ => f
  end.

(** The durable scope of a table key. *)
Definition price_scope (category : string) : string :=
  match strip_prefix "kind:" category with
  | Some _ => category
  | None => "category:" +:+ category
  end.

Definition table_offers (discount : spec_float) (admission : Z) (categories : gmap string Z) :
    list (string * Z) :=
  map (fun '(category, price) => (price_scope category, advertised_price price discount admission))
    (filter (fun '(category, _) => category <> ADMISSION_FLOOR_KEY) (map_to_list categories)).

(** The closure handed to the transport; [clock] is the system time in seconds
    or the error of a clock before the epoch. *)
Definition persist_offers (peer : NodeId) (frame initial_table : Frame) (pricing : PricingEngine)
    (min_admission_cost : Z) (clock : result string Z) (discount : spec_float) (needs_table : bool) :
    comp DB TransportError unit :=
  let table :=
    if needs_table then Some initial_table
    else match frame with PriceTable _ _ _ _ => Some frame | _ => None end in
  let! offers :=
    match table with
    | Some (PriceTable categories _ _ _) =>
        match category_price_overrides pricing with
        | Some kinds => cret (table_offers discount min_admission_cost categories, kinds)
        | None => cthrow (TransportOther "pricing engine cannot bind category offer applicability")
        end
    | _ => cret ([], [])
    end in
  let '(prices, excluded_kinds) := offers in
  let prices :=
    match frame with
    | PriceResponse kind price_msat _ =>
        prices ++ [("kind:" +:+ show_uint kind, advertised_price price_msat discount min_admission_cost)]
    | _ => prices
    end in
  let! now := clift (map_err TransportOther clock) in
  cmap_err (fun e => TransportOther ("persist offered prices: " +:+ StorageError_to_string e))
    (record_delivery_prices peer prices excluded_kinds now
       (saturating_add U64_MAX now DELIVERY_PRICE_WINDOW_SECS)).

Definition send_price_frame (peer : NodeId) (frame : Frame) (pricing : PricingEngine)
    (min_admission_cost : Z) (clock : result string Z) : comp Link TransportError unit :=
  let no_tip := match frame with
                | PriceTable _ h _ _ | PriceResponse _ _ h => h =? 0
                | _ => false
                end in
  if no_tip then cthrow (TransportOther "konsensus:not_ready:chain_unavailable")
  else
    let frame := with_floor min_admission_cost frame in
    match
      match frame with
      | PriceTable _ _ _ _ => Some frame
      | PriceResponse _ _ h =>
          Some (PriceTable (build_price_table pricing) h (compute_valid_blocks h) F64.zero)
      | _ => None
      end
    with
    | None => cthrow (TransportOther "expected a price frame")
    | Some initial_table =>
        let initial_table := with_floor min_admission_cost initial_table in
        send_price_frame_with peer frame initial_table
          (persist_offers peer frame initial_table pricing min_admission_cost clock)
    end.

(** ** Handlers of the announcing node: failures are logged and dropped *)

(** After the handshake; [weight] is the peer's weight in the routing table. *)
Definition announce_prices (peer : NodeId) (pricing : PricingEngine) (height : result string Z)
    (trust_level : TrustLevel) (weight : option spec_float) (min_admission_cost : Z)
    (clock : result string Z) (lk : Link) : Link :=
  match build_full_price_table pricing height trust_level with
  | Ok meta =>
      let peer_discount := default F64.zero (compute_trust_discount <$> weight) in
      let price_frame := PriceTable (pt_prices meta) (pt_block_height meta) (pt_valid_blocks meta)
                           peer_discount in
      (send_price_frame peer price_frame pricing min_admission_cost clock lk).1
  | Err _ => lk
  end.

Definition handle_price_query (peer : NodeId) (kind : Z) (pricing : PricingEngine)
    (height : result string Z) (min_admission_cost : Z) (clock : result string Z) (lk : Link) : Link :=
  match get_price_msat pricing kind with
  | Ok price_msat =>
      match height with
      | Ok h =>
          if 0 <? h then
            (send_price_frame peer (PriceResponse kind price_msat h) pricing min_admission_cost clock lk).1
          else lk
      | Err _ => lk
      end
  | Err _ => lk
  end.

(** ** Handlers of the receiving node *)

Definition handle_price_table_received (now : Z) (peer : NodeId) (prices : gmap string Z)
    (block_height valid_blocks : Z) (trust_discount : spec_float) (privileged : bool)
    (c : PeerPriceCache) : PeerPriceCache :=
  if negb privileged then c
  else update now peer prices block_height valid_blocks trust_discount c.

Definition handle_price_response_received (now : Z) (peer : NodeId) (kind price_msat block_height : Z)
    (privileged : bool) (c : PeerPriceCache) : PeerPriceCache :=
  if negb privileged then c
  else update_kind_price now peer kind price_msat block_height c.

(** A frame read from [peer]'s connection, as far as prices are concerned. *)
Definition receive_frame (now : Z) (peer : NodeId) (privileged : bool) (c : PeerPriceCache) (f : Frame) :
    PeerPriceCache :=
  match validate_frame f with
  | Err _ => c
  | Ok _ =>
      match f with
      | PriceTable prices h v d => handle_price_table_received now peer prices h v d privileged c
      | PriceResponse kind price h => handle_price_response_received now peer kind price h privileged c
      | _ => c
      end
  end.

(** ** The price a sender pays *)

Definition payable (price : Z) : Z := if price =? 0 then 0 else Z.max price 1000.

Definition MAX_PRICE_AGE : Z := 3600 * 1000.

Inductive ApiError : Type :=
| ApiNotReady
| ApiInternal (s : string).

(** [ready] and [still_ready] are the two answers of [money_ready], [timed_out]
    whether the 100 ms limit of the not-ready path passed first. *)
Definition quoted_price (ready still_ready has_session timed_out : bool) (pricing : PricingEngine)
    (now : Z) (peer : NodeId) (kind height : Z) (c : PeerPriceCache) :
    PeerPriceCache * result ApiError Z :=
  if negb ready && negb has_session then (c, Err ApiNotReady)
  else
    let '(c, cached) := get_fresh_discounted_peer_price now peer kind height MAX_PRICE_AGE c in
    let quote :=
      match cached with
      | Some price => Ok price
      | None => map_err (fun e => ApiInternal ("pricing error: " +:+ PricingError_to_string e))
                  (get_price_msat pricing kind)
      end in
    let price := if ready then quote else if timed_out then Err ApiNotReady else quote in
    (c, let? price := price in
        if ((0 <? payable price) || negb has_session) && negb still_ready then Err ApiNotReady
        else Ok (payable price)).
End Announce.
