(* ===== verification/PriceProps.v ===== *)
(** * What the price exchange guarantees

    Theorems about [PeerPrices] and [DeliveryPrices]: the sender's discounted
    price is the one the gate asks for, an announced price is written down
    before it is published and honoured for an hour, and the sender's cache
    cannot be poisoned or grow without bound. *)

From S2P Require Import Prelude Float FloatRound Text Kind Types Concrete Envelope WebReply Gate Samples.
From S2P Require Import GateSpec Replay Sqlite SqliteSpec SqliteAccept SqliteQuotes.
From S2P Require Import StaticPricing PeerPrices DeliveryPrices.

(** ** Discounts *)

Lemma discount_floor_half base : 0 <= base <= 2 ^ 53 ->
  trust_discount_floor_msat base = Z.max ((base + 1) / 2) 1.
Proof.
  intros Hb. unfold trust_discount_floor_msat. cbv zeta. f_equal.
  apply (half_ceil_exact F64.prec F64.emax eq_refl eq_refl U64_MAX); try done. solve_int.
Qed.

Lemma clamp_idempotent d lo hi : f_lt lo lo = false -> f_lt hi lo = false -> f_gt lo hi = false ->
  f_gt hi hi = false -> f_clamp (f_clamp d lo hi) lo hi = f_clamp d lo hi.
Proof.
  intros H1 H2 H3 H4. unfold f_clamp. destruct (f_lt d lo) eqn:Hl.
  - by rewrite H3, H1, H3.
  - destruct (f_gt d hi) eqn:Hh; [by rewrite H2, H4|by rewrite Hl, Hh].
Qed.

Lemma clamp_finite d : is_finite d = true -> is_finite (f_clamp d F64.zero MAX_TRUST_DISCOUNT) = true.
Proof. intros Hd. unfold f_clamp. destruct (f_lt d F64.zero); destruct (f_gt _ _); done. Qed.

Lemma clamp_not_negative d m e : f_clamp d F64.zero MAX_TRUST_DISCOUNT <> S754_finite true m e.
Proof.
  unfold f_clamp. destruct (f_lt d F64.zero) eqn:Hl; destruct (f_gt _ _); try done. by intros ->.
Qed.

Lemma finite_not_nan d : is_finite d = true -> is_nan d = false.
Proof. by destruct d. Qed.

(** The receiver's clamp changes nothing about the discount it later applies. *)
Lemma apply_discount_clamped base d : is_finite d = true ->
  apply_trust_discount base (f_clamp d F64.zero MAX_TRUST_DISCOUNT) = apply_trust_discount base d.
Proof.
  intros Hd. pose proof (clamp_finite d Hd) as Hc. unfold apply_trust_discount.
  rewrite Hd, Hc, !finite_not_nan by done. by rewrite clamp_idempotent by reflexivity.
Qed.

(** The discount the sender applies and the discount the gate applies differ
    at most by the 1 msat minimum. *)
Lemma trust_discount_is_gate_discount base d : valid F64.prec F64.emax d -> 0 <= base <= 2 ^ 53 ->
  Z.max (apply_trust_discount base d) 1 = Z.max (discounted_price base (clamp_discount d)) 1.
Proof.
  intros Vd Hb. pose proof (discounted_price_bounds base d Vd Hb) as Hbd.
  revert Hbd. unfold apply_trust_discount, clamp_discount.
  destruct (is_finite d) eqn:Fd; [|done]. rewrite finite_not_nan by done. cbn [negb orb].
  destruct (clamp_spec F64.prec F64.emax eq_refl eq_refl d F64.zero (F64.lit 1 2)) as (V & F & _); try done.
  unfold discounted_price. change (F64.lit 1 2) with MAX_TRUST_DISCOUNT in *.
  set (c := f_clamp d F64.zero MAX_TRUST_DISCOUNT) in *.
  destruct (f_eq c F64.zero) eqn:Hz.
  - assert (f_gt c F64.zero = false) as ->; [|done].
    destruct c as [[]|[]| |[] m e]; done.
  - assert (f_gt c F64.zero = true) as ->.
    { pose proof (clamp_not_negative d) as Hn. fold c in Hn.
      destruct c as [[]|[]| |[] m e]; try done. exfalso. by eapply Hn. }
    rewrite discount_floor_half by done. cbv zeta. lia.
Qed.

Lemma advertised_is_required cfg base d : valid F64.prec F64.emax d -> 0 <= base <= 2 ^ 53 ->
  advertised_price base d (min_admission_cost_msat cfg) = required_price cfg base d.
Proof.
  intros Vd Hb. unfold advertised_price, required_price, price_with_floor_msat.
  pose proof (trust_discount_is_gate_discount base d Vd Hb). lia.
Qed.

Lemma entry_price_is_advertised e kind base d adm : is_finite d = true ->
  get_price_for_kind e kind = Some base ->
  pe_trust_discount e = f_clamp d F64.zero MAX_TRUST_DISCOUNT ->
  pe_prices e !! ADMISSION_FLOOR_KEY = Some adm ->
  get_discounted_price_for_kind e kind = Some (advertised_price base d adm).
Proof.
  intros Fd Hp Hd Hf. unfold get_discounted_price_for_kind, advertised_price.
  by rewrite Hp, Hd, Hf, apply_discount_clamped.
Qed.

(** A sender that quotes from a cached table pays exactly what the
    recipient's gate asks for: with the same base price, the discount the
    recipient announced and its admission cost, the discounted table price is
    the gate's required price to the millisatoshi. *)
Theorem sender_price_is_gate_price cfg e kind base d :
  valid F64.prec F64.emax d -> is_finite d = true -> 0 <= base <= 2 ^ 53 ->
  get_price_for_kind e kind = Some base ->
  pe_trust_discount e = f_clamp d F64.zero MAX_TRUST_DISCOUNT ->
  pe_prices e !! ADMISSION_FLOOR_KEY = Some (min_admission_cost_msat cfg) ->
  get_discounted_price_for_kind e kind = Some (required_price cfg base d).
Proof.
  intros Vd Fd Hb Hp Hd Hf. rewrite <- advertised_is_required by done. by apply entry_price_is_advertised.
Qed.

(** A trust discount takes at most half of the price and never makes it
    free; NaN, infinities and non-positive discounts leave it alone. *)
Theorem trust_discount_bounds base d :
  valid F64.prec F64.emax d -> 1 <= base <= 2 ^ 53 ->
  1 <= apply_trust_discount base d /\
  trust_discount_floor_msat base <= apply_trust_discount base d <= base /\
  (is_finite d = false \/ f_gt d F64.zero = false -> apply_trust_discount base d = base).
Proof.
  intros Vd Hb. pose proof (trust_discount_is_gate_discount base d Vd ltac:(lia)) as Heq.
  pose proof (discounted_price_bounds base d Vd ltac:(lia)) as Hbd.
  rewrite discount_floor_half by lia.
  assert (1 <= (base + 1) / 2) by (apply Z.div_le_lower_bound; lia).
  assert (1 <= apply_trust_discount base d).
  { unfold apply_trust_discount. destruct (_ || _); [lia|]. cbv zeta. destruct (f_eq _ _); lia. }
  split_and!; [lia..|]. intros Hn. rewrite (discounted_price_none base d Hn) in Heq. lia.
Qed.

(** ** Writing frames *)

Lemma write_frames_ok fs c c' : write_frames fs c = (c', Ok tt) -> cn_sent c' = cn_sent c ++ fs.
Proof.
  revert c. induction fs as [|f fs IH]; intros c; cbn [write_frames].
  { intros [= <-]. by rewrite app_nil_r. }
  unfold cbind, write_frame. destruct (head (cn_faults c)) as [[]|]; [done|..];
    intros ->%IH; simpl; by rewrite <- app_assoc.
Qed.

(** What a successful [send_price_frame_with] has done. *)
Lemma send_with_ok {PR : Prims} peer frame p h v d persist lk lk' :
  send_price_frame_with peer frame (PriceTable p h v d) persist lk = (lk', Ok tt) ->
  exists conn conn' needs discount,
    lk_peers lk !! peer = Some conn /\ lk_peers lk' !! peer = Some conn' /\
    persist discount needs (lk_db lk) = (lk_db lk', Ok tt) /\
    cn_sent conn' = cn_sent conn ++ (if needs then [PriceTable p h v d] else []) ++ [frame] /\
    match frame with
    | PriceTable _ _ _ d' => needs = false /\ discount = d'
    | PriceResponse _ _ _ => needs = bool_decide (advertised_trust_discount conn = None) /\
        discount = default d (advertised_trust_discount conn)
    | _ => False
    end.
Proof.
  unfold send_price_frame_with. destruct (is_price_frame frame) eqn:Hpf; [|done]. cbn [negb].
  destruct (lk_peers lk !! peer) as [conn|] eqn:Hc; [|done]. cbv zeta.
  match goal with |- context [persist ?a ?b _] => set (disc := a); set (nd := b) end.
  destruct (persist disc nd (lk_db lk)) as [db' [[]|e]] eqn:Hp; [|done].
  destruct (write_frames _ conn) as [conn' r] eqn:Hw. intros [= <- ->].
  exists conn, conn', nd, disc. cbn [lk_peers lk_db]. rewrite lookup_insert_eq.
  apply write_frames_ok in Hw. split_and!; [done..|].
  destruct frame; try done. unfold nd, disc. split; [|done].
  by destruct (advertised_trust_discount conn).
Qed.

(** ** The durable offers *)

(** Every quote on file has a positive amount and runs for exactly the window. *)
Definition offers_ok (db : DB) : Prop :=
  quotes_positive db /\
  forall k x, db_quotes db !! k = Some x -> x = qk_issued_at k + DELIVERY_PRICE_WINDOW_SECS.

Lemma table_offers_elem d adm prices cat base :
  prices !! cat = Some base -> cat <> ADMISSION_FLOOR_KEY ->
  (price_scope cat, advertised_price base d adm) ∈ table_offers d adm prices.
Proof.
  intros Hp Hne. unfold table_offers. apply list_elem_of_fmap. exists (cat, base). split; [done|].
  apply list_elem_of_filter. split; [done|]. by apply elem_of_map_to_list.
Qed.

Lemma price_scope_category c : price_scope (price_table_key c) = "category:" +:+ price_table_key c.
Proof. by destruct c. Qed.
Lemma price_scope_kind k : price_scope (kind_key k) = "kind:" +:+ show_uint k.
Proof. unfold price_scope, kind_key. by rewrite strip_prefix_app. Qed.
Lemma category_key_not_floor c : price_table_key c <> ADMISSION_FLOOR_KEY.
Proof. by destruct c. Qed.
Lemma kind_key_not_floor k : kind_key k <> ADMISSION_FLOOR_KEY.
Proof. unfold kind_key. done. Qed.

(** The table key a kind's price comes from. *)
Lemma price_for_kind_key e kind p : get_price_for_kind e kind = Some p ->
  (is_call_offer kind = true /\ pe_prices e !! kind_key kind = Some p) \/
  ((is_call_offer kind = true -> pe_prices e !! kind_key kind = None) /\
   pe_prices e !! price_table_key (from_kind kind) = Some p).
Proof.
  unfold get_price_for_kind, category_to_string. destruct (is_call_offer kind); [|by right].
  destruct (pe_prices e !! kind_key kind); naive_solver.
Qed.

Lemma discounted_price_base e kind p : get_discounted_price_for_kind e kind = Some p ->
  exists base, get_price_for_kind e kind = Some base.
Proof. unfold get_discounted_price_for_kind. destruct (get_price_for_kind e kind); [by eexists|done]. Qed.

Section Offers.
Context {PR : Prims}.

(** A recorded offer whose scope covers the envelope's kind caps the price of
    a payment made while it runs. *)
Lemma recorded_offer_floor e ps ks t paid now db db' sc am :
  record_delivery_prices (env_sender e) ps ks t (t + DELIVERY_PRICE_WINDOW_SECS) db = (db', Ok tt) ->
  offers_ok db -> (sc, am) ∈ ps ->
  sc = "kind:" +:+ show_uint (env_kind e) \/
  (sc = "category:" +:+ price_table_key (from_kind (env_kind e)) /\ env_kind e ∉ ks) ->
  is_u16 (env_kind e) -> Forall is_u16 ks -> db_faults db' = [] ->
  t <= paid <= t + DELIVERY_PRICE_WINDOW_SECS -> paid <= I64_MAX -> paid <= now <= paid + 3600 ->
  exists n, sqlite_delivery_price_floor e paid now db' = (db', Ok (Some n)) /\ 0 < n <= am.
Proof.
  intros Hrec [Hp Hx] Hps Hsc Hk Hks Hf Hlive Hi Hw. apply record_spec in Hrec as [Hin Hpos].
  destruct (Hin _ _ Hps) as (v & Hv & Ho).
  assert (v = t + DELIVERY_PRICE_WINDOW_SECS) as -> by (destruct Ho as [|Ho%Hx]; done).
  apply (floor_found e paid now db' (mkQuote (hex_encode (env_sender e)) sc am t (exclusions_text ks)));
    try done; [by apply Hpos|].
  constructor; [done| |by eexists]. destruct Hsc as [->|[-> Hn]]; [by left|]. right. split; [done|].
  cbn [qk_excluded]. apply not_true_iff_false. by rewrite exclusions_exact.
Qed.

(** Persisting the offers of a table is recording them. *)
Lemma persist_table_ok peer prices h v d it pricing adm clock disc db db' :
  persist_offers peer (PriceTable prices h v d) it pricing adm clock disc false db = (db', Ok tt) ->
  exists ks t, category_price_overrides pricing = Some ks /\ clock = Ok t /\
    record_delivery_prices peer (table_offers disc adm prices) ks t
      (saturating_add U64_MAX t DELIVERY_PRICE_WINDOW_SECS) db = (db', Ok tt).
Proof.
  unfold persist_offers, cbind at 1. destruct (category_price_overrides pricing) as [ks|]; [|done].
  unfold cret, cbind, clift. destruct clock as [t|]; [|done]. cbn [map_err].
  unfold cmap_err. destruct (record_delivery_prices _ _ _ _ _ _) as [db1 [[]|]] eqn:Hr; [|done].
  intros [= <-]. by exists ks, t.
Qed.

Lemma update_lookup now peer prices h v d c :
  h <> 0 -> keeps_old now c peer h v = false ->
  pc_entries (update now peer prices h v d c) !! peer =
    Some (mkEntry prices h v now (f_clamp d F64.zero MAX_TRUST_DISCOUNT)).
Proof.
  intros Hh Hk. unfold update. rewrite Hk, (proj2 (Z.eqb_neq _ _) Hh). cbn [orb]. cbv zeta.
  cbn [pc_entries]. apply lookup_insert_eq.
Qed.

Lemma validate_finite prices h v d : validate_frame (PriceTable prices h v d) = Ok tt -> is_finite d = true.
Proof. cbn. by destruct (is_finite d). Qed.

(** The price a sender derives from a table it just received. *)
Lemma received_table_price now us c prices h v d kind :
  validate_frame (PriceTable prices h v d) = Ok tt -> h <> 0 -> keeps_old now c us h v = false ->
  get_discounted_peer_price (receive_frame now us true c (PriceTable prices h v d)) us kind =
  get_discounted_price_for_kind (mkEntry prices h v now (f_clamp d F64.zero MAX_TRUST_DISCOUNT)) kind.
Proof.
  intros Hv Hh Hk. unfold receive_frame. rewrite Hv.
  unfold handle_price_table_received, get_discounted_peer_price. cbn [negb]. by rewrite update_lookup.
Qed.

(** A successful announcement of a table, and the table as it was sent. *)
Lemma send_table_ok peer prices h v d pricing adm clock lk lk' :
  send_price_frame peer (PriceTable prices h v d) pricing adm clock lk = (lk', Ok tt) ->
  let prices' := <[ADMISSION_FLOOR_KEY := adm]> prices in
  h <> 0 /\ exists conn conn' ks t,
    lk_peers lk !! peer = Some conn /\ lk_peers lk' !! peer = Some conn' /\
    cn_sent conn' = cn_sent conn ++ [PriceTable prices' h v d] /\
    category_price_overrides pricing = Some ks /\ clock = Ok t /\
    record_delivery_prices peer (table_offers d adm prices') ks t
      (saturating_add U64_MAX t DELIVERY_PRICE_WINDOW_SECS) (lk_db lk) = (lk_db lk', Ok tt).
Proof.
  unfold send_price_frame. destruct (Z.eqb_spec h 0) as [|Hh]; [done|]. cbn [with_floor].
  intros (conn & conn' & needs & disc & Hc & Hc' & Hp & Hs & -> & ->)%send_with_ok.
  split; [done|]. apply persist_table_ok in Hp as (ks & t & Hks & Ht & Hr).
  by exists conn, conn', ks, t.
Qed.

(** C34: an announced price is honoured.  Once a price table has been written
    down and sent, the price a sender derives from the frame it received (its own
    clamping, discounting and floor included) is at least the floor the
    recipient's gate looks up for a payment made within the hour and looked at
    within the hour after it, even if the recipient's prices have changed since.
    This is for every kind the table prices that has no price of its own, and for
    a call offer whose own price is in the table; a long-form message, which has an
    own price the table does not carry, is not covered.  The sender must not hold a
    table it keeps in preference to this one, the recipient's database must
    answer, and its quotes must be as the node writes them. *)
Theorem announced_price_is_honoured e us prices h v d pricing adm t lk lk' c ks p paid now_recv now :
  send_price_frame (env_sender e) (PriceTable prices h v d) pricing adm (Ok t) lk = (lk', Ok tt) ->
  validate_frame (PriceTable prices h v d) = Ok tt ->
  category_price_overrides pricing = Some ks ->
  (env_kind e ∈ ks -> is_call_offer (env_kind e) = true /\ is_Some (prices !! kind_key (env_kind e))) ->
  is_u16 (env_kind e) -> Forall is_u16 ks ->
  offers_ok (lk_db lk) -> db_faults (lk_db lk') = [] -> t + 3600 <= I64_MAX ->
  keeps_old now_recv c us h v = false ->
  (exists conn conn' f, lk_peers lk !! env_sender e = Some conn /\ lk_peers lk' !! env_sender e = Some conn' /\
     cn_sent conn' = cn_sent conn ++ [f] /\
     get_discounted_peer_price (receive_frame now_recv us true c f) us (env_kind e) = Some p) ->
  t <= paid <= t + 3600 -> paid <= now <= paid + 3600 ->
  exists n, sqlite_delivery_price_floor e paid now (lk_db lk') = (lk_db lk', Ok (Some n)) /\
    price_with_floor_msat n adm <= p.
Proof.
  intros (Hh & conn & conn' & ks' & t' & Hc & Hc' & Hs & Hks & [= <-] & Hrec)%send_table_ok Hv Hks2
    Hown Hk Hksr Hok Hf Hi Hkeep (conn2 & conn2' & f & Hc2 & Hc2' & Hs2 & Hp) Hpaid Hw.
  simplify_eq. rewrite Hs2 in Hs. apply app_inv_head in Hs as [= ->].
  rewrite received_table_price in Hp by done. pose proof (validate_finite _ _ _ _ Hv) as Hfin.
  destruct (discounted_price_base _ _ _ Hp) as [base Hb].
  rewrite (entry_price_is_advertised _ _ base d adm) in Hp by (done || apply lookup_insert_eq).
  injection Hp as <-.
  assert (Hsat : saturating_add U64_MAX t DELIVERY_PRICE_WINDOW_SECS = t + DELIVERY_PRICE_WINDOW_SECS)
    by (unfold DELIVERY_PRICE_WINDOW_SECS; solve_int).
  rewrite Hsat in Hrec.
  assert (Hn : exists n, sqlite_delivery_price_floor e paid now (lk_db lk') = (lk_db lk', Ok (Some n)) /\
    0 < n <= advertised_price base d adm).
  { apply price_for_kind_key in Hb as [[Ho Hb]|[Hno Hb]]; cbn [pe_prices] in *.
    - eapply (recorded_offer_floor e _ _ t paid now _ _ _ _ Hrec Hok); try done; [|by left|solve_int].
      rewrite <- price_scope_kind. apply table_offers_elem; [done|apply kind_key_not_floor].
    - eapply (recorded_offer_floor e _ _ t paid now _ _ _ _ Hrec Hok); try done; [| |solve_int].
      + apply table_offers_elem; [done|apply category_key_not_floor].
      + rewrite price_scope_category. right. split; [done|]. intros Hin.
        destruct (Hown Hin) as [Ho [q Hq]]. specialize (Hno Ho).
        rewrite lookup_insert_ne in Hno by (symmetry; apply kind_key_not_floor). by rewrite Hq in Hno. }
  destruct Hn as (n & Hn & Hle). exists n. split; [done|].
  revert Hle. unfold advertised_price, price_with_floor_msat. lia.
Qed.
End Offers.

(** ** Offers stay well-formed, and nothing is published unrecorded *)

Definition keeps_offers (db db' : DB) : Prop := offers_ok db -> offers_ok db'.

#[export] Instance keeps_offers_preorder : PreOrder keeps_offers.
Proof. split; [by intros db Hdb|]. intros a b c Hab Hbc Ha. by apply Hbc, Hab. Qed.

Lemma keeps_offers_faults db fs : keeps_offers db (set_faults fs db).
Proof. by intros Hdb. Qed.
#[local] Hint Resolve keeps_offers_faults : core.

Section Publish.
Context {PR : Prims}.

Lemma insert_quotes_keeps s x i ps :
  pres keeps_offers (insert_quotes s x i (i + DELIVERY_PRICE_WINDOW_SECS) ps).
Proof.
  induction ps as [|[sc am] ps IH]; cbn [insert_quotes]; [pres_tac|].
  apply pres_bind; [apply _|apply pres_i64; apply _|intros am'].
  apply pres_bind; [apply _|apply pres_execute; [apply _|auto|]|intros []; [exact IH|apply pres_throw; apply _]].
  intros db. destruct (Z.leb_spec am' 0) as [|Hpos]; [done|]. intros [Hp Hx]. unfold insert_or_ignore.
  destruct (db_quotes db !! _) eqn:Hl; [done|].
  split; intros k y; cbn [fst db_quotes set_quotes]; intros [[<- <-]|[_ Hk]]%lookup_insert_Some; eauto; done.
Qed.

Lemma record_keeps_offers a ps ks t :
  pres keeps_offers (record_delivery_prices a ps ks t (t + DELIVERY_PRICE_WINDOW_SECS)).
Proof.
  unfold record_delivery_prices. destruct (_ || _); [pres_tac|].
  intros db db' r. unfold i64_try_from, clift, cbind at 1 2.
  destruct (t <=? I64_MAX); [|by intros [= <- _]].
  destruct (t + DELIVERY_PRICE_WINDOW_SECS <=? I64_MAX); [|by intros [= <- _]].
  revert db db' r. apply pres_transaction; [apply _|auto|].
  apply pres_bind; [apply _|apply pres_execute; [apply _|auto|]|intros _].
  - intros db [Hp Hx]. split; intros k y; cbn; intros [Hk _]%map_lookup_filter_Some; eauto.
  - apply pres_bind; [apply _|apply insert_quotes_keeps|intros _; apply pres_ret; apply _].
Qed.

Lemma persist_keeps peer frame it pricing adm t disc needs :
  t + DELIVERY_PRICE_WINDOW_SECS <= U64_MAX ->
  pres keeps_offers (persist_offers peer frame it pricing adm (Ok t) disc needs).
Proof.
  intros Ht. unfold persist_offers. cbv zeta. apply pres_bind; [apply _|pres_tac|intros [ps ks]].
  intros db db' r. unfold clift, cbind at 1. cbn [map_err].
  replace (saturating_add U64_MAX t DELIVERY_PRICE_WINDOW_SECS) with (t + DELIVERY_PRICE_WINDOW_SECS)
    by solve_int.
  revert db db' r. apply pres_map_err, record_keeps_offers.
Qed.

(** The durable offers a published frame stands for. *)
Definition offers_of (adm : Z) (discount : spec_float) (f : Frame) : list (string * Z) :=
  match f with
  | PriceTable prices _ _ _ => table_offers discount adm prices
  | PriceResponse kind price _ => [("kind:" +:+ show_uint kind, advertised_price price discount adm)]
  | _ => []
  end.

Lemma persist_ok peer frame it pricing adm t disc needs db db' :
  (needs = true -> match frame with PriceResponse _ _ _ => True | _ => False end) ->
  persist_offers peer frame it pricing adm (Ok t) disc needs db = (db', Ok tt) ->
  exists prices ks,
    record_delivery_prices peer prices ks t (saturating_add U64_MAX t DELIVERY_PRICE_WINDOW_SECS) db
      = (db', Ok tt) /\
    (is_price_frame frame = true -> forall o, o ∈ offers_of adm disc frame -> o ∈ prices) /\
    (needs = true -> forall p h v d o, it = PriceTable p h v d -> o ∈ offers_of adm disc it -> o ∈ prices).
Proof.
  intros Hn. unfold persist_offers. cbv zeta. unfold cbind at 1.
  match goal with |- context [(match ?m db with _ => _ end)] => destruct (m db) as [db1 [[ps ks]|]] eqn:Ho end;
    [|done].
  unfold clift, cbind. cbn [map_err]. unfold cmap_err.
  destruct (record_delivery_prices _ _ _ _ _ _) as [db2 [[]|]] eqn:Hr; [|done]. intros [= <-].
  eexists _, ks. assert (db1 = db /\ forall p h v d, (if needs then Some it else
    match frame with PriceTable _ _ _ _ => Some frame | _ => None end) = Some (PriceTable p h v d) ->
    ps = table_offers disc adm p) as [-> Hps].
  { revert Ho. destruct needs; [destruct it|destruct frame]; try (by intros [= <- <- <-]);
      (destruct (category_price_overrides pricing); [|done]); intros [= <- <- <-]; (split; [done|]);
      by intros ? ? ? ? [= <- _ _ _]. }
  split_and!; [exact Hr|..].
  - intros Hf o. destruct frame as [p h v d|k|k p h|tag]; try done; cbn [offers_of].
    + destruct needs; [by destruct (Hn eq_refl)|by rewrite <- (Hps p h v d)].
    + intros ->%list_elem_of_singleton. apply elem_of_app. right. by apply list_elem_of_singleton.
  - intros -> p h v d o -> Ho'. cbn [offers_of] in Ho'. rewrite <- (Hps p h v d eq_refl) in Ho'.
    destruct frame; try done. apply elem_of_app. by left.
Qed.

Lemma write_frames_prefix fs c c' r : write_frames fs c = (c', r) ->
  exists sent, sent `prefix_of` fs /\ cn_sent c' = cn_sent c ++ sent.
Proof.
  revert c. induction fs as [|f fs IH]; intros c; cbn [write_frames].
  { intros [= <- _]. exists []. by rewrite app_nil_r. }
  unfold cbind, write_frame. destruct (head (cn_faults c)) as [[]|].
  { intros [= <- _]. exists []. split; [apply prefix_nil|]. by rewrite app_nil_r. }
  all: intros (sent & Hp & Hs)%IH; exists (f :: sent); split; [by apply prefix_cons|];
    rewrite Hs; simpl; by rewrite <- app_assoc.
Qed.

Lemma send_with_outcome peer frame p h v d persist lk lk' r :
  send_price_frame_with peer frame (PriceTable p h v d) persist lk = (lk', r) ->
  lk' = lk \/ exists needs disc,
    (needs = true -> match frame with PriceResponse _ _ _ => True | _ => False end) /\
    is_price_frame frame = true /\
    ((exists e, persist disc needs (lk_db lk) = (lk_db lk', Err e) /\ lk_peers lk' = lk_peers lk) \/
     (persist disc needs (lk_db lk) = (lk_db lk', Ok tt) /\ exists conn conn' sent,
        lk_peers lk !! peer = Some conn /\ lk_peers lk' = <[peer := conn']> (lk_peers lk) /\
        cn_sent conn' = cn_sent conn ++ sent /\
        sent `prefix_of` (if needs then [PriceTable p h v d] else []) ++ [frame])).
Proof.
  unfold send_price_frame_with. destruct (is_price_frame frame) eqn:Hpf; cbn [negb];
    [|intros [= <- _]; by left].
  destruct (lk_peers lk !! peer) as [conn|] eqn:Hc; [|intros [= <- _]; by left]. cbv zeta.
  match goal with |- context [persist ?a ?b _] => set (disc := a); set (nd := b) end.
  intros Hr. right. exists nd, disc.
  split_and!; [destruct frame; try done; by destruct (advertised_trust_discount conn)|done|].
  destruct (persist disc nd (lk_db lk)) as [db' [[]|e]] eqn:Hp.
  - destruct (write_frames _ conn) as [conn' q] eqn:Hw. injection Hr as <- <-. right. split; [done|].
    apply write_frames_prefix in Hw as (sent & Hpre & Hs). by exists conn, conn', sent.
  - injection Hr as <- <-. left. by exists e.
Qed.

(** C35: prices are written down before they are published: an announcement,
    however it ends, either leaves every connection as it was, or it first
    recorded, with the database's success, an offer for every price in every
    frame it wrote; and the table of offers stays well-formed. *)
Theorem nothing_published_unrecorded peer frame pricing adm t lk lk' r :
  send_price_frame peer frame pricing adm (Ok t) lk = (lk', r) -> t + 3600 <= U64_MAX ->
  (offers_ok (lk_db lk) -> offers_ok (lk_db lk')) /\
  (lk_peers lk' = lk_peers lk \/
   exists conn conn' sent prices ks discount,
     lk_peers lk !! peer = Some conn /\ lk_peers lk' = <[peer := conn']> (lk_peers lk) /\
     cn_sent conn' = cn_sent conn ++ sent /\
     record_delivery_prices peer prices ks t (t + 3600) (lk_db lk) = (lk_db lk', Ok tt) /\
     forall f o, f ∈ sent -> o ∈ offers_of adm discount f -> o ∈ prices).
Proof.
  intros Hsend Ht. unfold send_price_frame in Hsend. destruct (match frame with PriceTable _ _ _ _ => _ | _ => _ end).
  { injection Hsend as <- _. split; [done|by left]. }
  set (fr := with_floor adm frame) in *. cbv zeta in Hsend.
  match type of Hsend with context [match ?m with Some _ => _ | None => _ end] => destruct m as [it|] eqn:Hit end;
    [|injection Hsend as <- _; split; [done|by left]].
  assert (exists p h v d, with_floor adm it = PriceTable p h v d) as (p & h & v & d & Hw).
  { destruct fr; simplify_eq; eexists _, _, _, _; done. }
  rewrite Hw in Hsend. apply send_with_outcome in Hsend as [->|(nd & disc & Hnd & Hpf & Ho)];
    [split; [done|by left]|].
  assert (Hkeep : pres keeps_offers (persist_offers peer fr (PriceTable p h v d) pricing adm (Ok t) disc nd))
    by (by apply persist_keeps).
  destruct Ho as [(e & Hp & Hl)|(Hp & conn & conn' & sent & Hc & Hl & Hs & Hpre)].
  { split; [by eapply Hkeep|by left]. }
  split; [by eapply Hkeep|]. right. apply persist_ok in Hp as (ps & ks & Hrec & Hfr & Hin); [|done].
  replace (saturating_add U64_MAX t DELIVERY_PRICE_WINDOW_SECS) with (t + 3600) in Hrec
    by (unfold DELIVERY_PRICE_WINDOW_SECS; solve_int).
  exists conn, conn', sent, ps, ks, disc. split_and!; [done..|]. intros f o Hf Hof.
  assert (Hf' : f ∈ (if nd then [PriceTable p h v d] else []) ++ [fr]).
  { destruct Hpre as [k ->]. apply elem_of_app. by left. }
  apply elem_of_app in Hf' as [Hf'| ->%list_elem_of_singleton]; [|by apply Hfr].
  destruct nd; [|by apply elem_of_nil in Hf']. apply list_elem_of_singleton in Hf' as ->.
  by apply (Hin eq_refl p h v d).
Qed.
End Publish.

(** ** The sender's cache *)

Inductive cache_op : Type :=
| OpFrame (now : Z) (peer : NodeId) (privileged : bool) (f : Frame)
| OpFresh (now : Z) (peer : NodeId) (kind height max_age : Z)
| OpRemove (peer : NodeId).

Definition run_cache_op (c : PeerPriceCache) (op : cache_op) : PeerPriceCache :=
  match op with
  | OpFrame now peer privileged f => receive_frame now peer privileged c f
  | OpFresh now peer kind height max_age =>
      (get_fresh_discounted_peer_price now peer kind height max_age c).1
  | OpRemove peer => remove peer c
  end.

(** Bounded answers, each from a peer with a table; tables at a known height
    with a discount between zero and one half. *)
Record price_cache_ok (c : PeerPriceCache) : Prop := {
  pco_bound : (size (pc_kind_answers c) <= MAX_KIND_ANSWERS)%nat;
  pco_answers : forall p k at_, pc_kind_answers c !! (p, k) = Some at_ -> is_Some (pc_entries c !! p);
  pco_entries : forall p e, pc_entries c !! p = Some e -> pe_block_height e <> 0 /\
    is_finite (pe_trust_discount e) = true /\
    f_lt (pe_trust_discount e) F64.zero = false /\ f_gt (pe_trust_discount e) MAX_TRUST_DISCOUNT = false
}.

Lemma record_answer_lookup now peer kind answers p k at_ :
  record_answer now peer kind answers !! (p, k) = Some at_ ->
  (p = peer /\ k = kind) \/ answers !! (p, k) = Some at_.
Proof.
  unfold record_answer. cbv zeta. intros [[[= <- <-] _]|[_ H]]%lookup_insert_Some; [by left|]. right.
  destruct (decide _); [|done]. destruct (decide _); [by rewrite lookup_empty in H|].
  by apply map_lookup_filter_Some in H as [H _].
Qed.

Lemma record_answer_bound now peer kind answers : (size answers <= MAX_KIND_ANSWERS)%nat ->
  (size (record_answer now peer kind answers) <= MAX_KIND_ANSWERS)%nat.
Proof.
  intros Hs. unfold record_answer. cbv zeta. set (a := if decide _ then _ else _).
  assert (size a < MAX_KIND_ANSWERS)%nat.
  { unfold a. destruct (decide _) as [|Hn]; [|lia]. destruct (decide _); [|lia].
    rewrite map_size_empty. unfold MAX_KIND_ANSWERS. lia. }
  rewrite map_size_insert. destruct (a !! _); simpl; lia.
Qed.

Lemma clamp_in_range d : is_finite d = true -> let c := f_clamp d F64.zero MAX_TRUST_DISCOUNT in
  is_finite c = true /\ f_lt c F64.zero = false /\ f_gt c MAX_TRUST_DISCOUNT = false.
Proof.
  intros Hd. cbv zeta. split; [by apply clamp_finite|]. unfold f_clamp.
  destruct (f_lt d F64.zero) eqn:Hl; [done|]. by destruct (f_gt d MAX_TRUST_DISCOUNT) eqn:Hh.
Qed.

Lemma update_ok now peer prices h v d c : is_finite d = true -> price_cache_ok c ->
  price_cache_ok (update now peer prices h v d c).
Proof.
  intros Hd [Hb Ha He]. unfold update. destruct (Z.eqb_spec h 0); [done|].
  destruct (keeps_old _ _ _ _ _); [done|]. cbn [orb]. cbv zeta. split; cbn [pc_kind_answers pc_entries].
  - done.
  - intros p k t Hp. apply lookup_insert_is_Some'. right. by eapply Ha.
  - intros p e [[<- <-]|[_ Hp]]%lookup_insert_Some; [|by eapply He]. split; [done|].
    by apply clamp_in_range.
Qed.

Lemma update_kind_ok now peer kind price h c : price_cache_ok c ->
  price_cache_ok (update_kind_price now peer kind price h c).
Proof.
  intros [Hb Ha He]. unfold update_kind_price. cbv zeta. destruct (Z.eqb_spec h 0); [done|].
  destruct (_ || _); [done|]. split; cbn [pc_kind_answers pc_entries].
  - by apply record_answer_bound.
  - intros p k t [[-> ->]|Hp]%record_answer_lookup; apply lookup_insert_is_Some'; [by left|right].
    by eapply Ha.
  - intros p e [[<- <-]|[_ Hp]]%lookup_insert_Some; [|by eapply He].
    destruct (pc_entries c !! peer) as [old|] eqn:Ho; [|done].
    split; [done|]. apply (He _ _ Ho).
Qed.

Lemma remove_ok peer c : price_cache_ok c -> price_cache_ok (remove peer c).
Proof.
  intros [Hb Ha He]. unfold remove. split; cbn [pc_kind_answers pc_entries].
  - etransitivity; [apply map_size_filter|done].
  - intros p k t [Hp Hne]%map_lookup_filter_Some. rewrite lookup_delete_ne by done. by eapply Ha.
  - intros p e [_ Hp]%lookup_delete_Some. by eapply He.
Qed.

Lemma run_cache_op_ok c op : price_cache_ok c -> price_cache_ok (run_cache_op c op).
Proof.
  intros Hc. destruct op as [now peer priv f|now peer kind h a|peer]; cbn [run_cache_op].
  - unfold receive_frame. destruct (validate_frame f) as [[]|] eqn:Hv; [|done].
    destruct f as [prices h v d| |k p h|]; try done.
    + unfold handle_price_table_received. destruct priv; [|done]. apply update_ok; [|done].
      by eapply validate_finite.
    + unfold handle_price_response_received. destruct priv; [|done]. by apply update_kind_ok.
  - cbn. unfold store_height. destruct (0 <? h); [|done]. by destruct Hc.
  - by apply remove_ok.
Qed.

(** The sender's price cache stays sane under any sequence of received
    frames, hostile ones included, quotes and disconnects: at most 4096 query
    answers, each from a peer whose table is cached, and every table at a
    known height with a discount between zero and one half. *)
Theorem price_cache_invariant ops : price_cache_ok (fold_left run_cache_op ops PeerPriceCache_new).
Proof.
  assert (forall c, price_cache_ok c -> price_cache_ok (fold_left run_cache_op ops c)) as H.
  { induction ops as [|op ops IH]; intros c Hc; [done|]. by apply IH, run_cache_op_ok. }
  apply H. split; unfold PeerPriceCache_new; cbn [pc_kind_answers pc_entries].
  - rewrite map_size_empty. lia.
  - intros p k t Hp. by rewrite lookup_empty in Hp.
  - intros p e Hp. by rewrite lookup_empty in Hp.
Qed.

(** ** The table a node builds *)

Lemma add_categories_lookup pricing cs c m p : c ∈ cs -> get_category_price_msat pricing c = Ok p ->
  fold_left (add_category pricing) cs m !! price_table_key c = Some p.
Proof.
  intros Hin Hp. revert m. induction cs as [|c' cs IH] using rev_ind; intros m; [by apply elem_of_nil in Hin|].
  rewrite fold_left_app. cbn [fold_left]. unfold add_category at 1, category_to_string.
  apply elem_of_app in Hin as [Hin| ->%list_elem_of_singleton]; [|by rewrite Hp, lookup_insert_eq].
  destruct (decide (c' = c)) as [->|Hne]; [by rewrite Hp, lookup_insert_eq|].
  destruct (get_category_price_msat pricing c'); [|by apply IH].
  rewrite lookup_insert_ne; [by apply IH|]. intros Heq. by apply Hne, price_table_key_inj.
Qed.

Lemma add_call_other pricing m call key : key <> kind_key call -> add_call pricing m call !! key = m !! key.
Proof.
  intros Hne. unfold add_call. destruct (category_price_overrides pricing) as [ks|]; [|done].
  case_bool_decide; [|done]. destruct (get_price_msat pricing call); [|done].
  by rewrite lookup_insert_ne.
Qed.

Lemma add_call_own pricing m call ks : category_price_overrides pricing = Some ks ->
  add_call pricing m call !! kind_key call =
    (if bool_decide (call ∈ ks) then
       match get_price_msat pricing call with Ok p => Some p | Err _ => m !! kind_key call end
     else m !! kind_key call).
Proof.
  intros Hks. unfold add_call. rewrite Hks. case_bool_decide; [|done].
  destruct (get_price_msat pricing call); [by rewrite lookup_insert_eq|done].
Qed.

Lemma category_is_not_kind c k : price_table_key c <> kind_key k.
Proof. unfold kind_key. by destruct c. Qed.

Lemma table_category pricing c p : c ∈ table_categories -> get_category_price_msat pricing c = Ok p ->
  build_price_table pricing !! price_table_key c = Some p.
Proof.
  intros Hin Hp. unfold build_price_table. cbn [fold_left].
  rewrite !add_call_other by apply category_is_not_kind. by apply add_categories_lookup.
Qed.

(** No category writes a per-kind key. *)
Lemma add_categories_kind pricing cs k m :
  fold_left (add_category pricing) cs m !! kind_key k = m !! kind_key k.
Proof.
  revert m. induction cs as [|c cs IH]; intros m; [done|]. cbn [fold_left]. rewrite IH.
  unfold add_category. destruct (get_category_price_msat pricing c); [|done].
  by rewrite lookup_insert_ne by apply category_is_not_kind.
Qed.

Lemma call_keys_distinct : kind_key KIND_CALL_INVITE <> kind_key KIND_CALL_BLOCK.
Proof. by vm_compute. Qed.

Lemma table_call pricing ks call : category_price_overrides pricing = Some ks ->
  is_call_offer call = true ->
  build_price_table pricing !! kind_key call =
    (if bool_decide (call ∈ ks) then
       match get_price_msat pricing call with Ok p => Some p | Err _ => None end
     else None).
Proof.
  intros Hks Hc. unfold build_price_table. cbn [fold_left]. pose proof call_keys_distinct as Hd.
  unfold is_call_offer in Hc. apply orb_true_iff in Hc as [->%Z.eqb_eq| ->%Z.eqb_eq].
  - rewrite add_call_other by done. rewrite (add_call_own _ _ _ _ Hks), add_categories_kind. done.
  - rewrite (add_call_own _ _ _ _ Hks), add_call_other by done. by rewrite add_categories_kind.
Qed.

(** The table a node announces quotes its engine exactly: for every kind of
    a listed category that is charged its category price or is a call offer,
    the sender's lookup in the table is the engine's own price. *)
Theorem table_quotes_engine_price pricing ks kind p h v now d :
  honours_overrides pricing -> category_price_overrides pricing = Some ks -> is_u16 kind ->
  from_kind kind ∈ table_categories -> kind ∉ ks \/ is_call_offer kind = true ->
  get_price_msat pricing kind = Ok p ->
  get_price_for_kind (mkEntry (build_price_table pricing) h v now d) kind = Some p.
Proof.
  intros Hh Hks Hk Hc Hor Hp. unfold get_price_for_kind, category_to_string. cbn [pe_prices].
  assert (Hcat : kind ∉ ks -> build_price_table pricing !! price_table_key (from_kind kind) = Some p).
  { intros Hn. apply table_category; [done|]. rewrite <- (Hh ks kind); try done.
    intros Hu. rewrite Hu in Hc. unfold table_categories in Hc. set_solver. }
  destruct (is_call_offer kind) eqn:Ho; [|by destruct Hor; auto].
  rewrite (table_call _ _ _ Hks Ho), Hp. case_bool_decide; auto.
Qed.

(** ** Runs *)

Definition sample_link : Link :=
  mkLink {[ alice := mkConn None [] [] ]} fresh_db.

Definition sample_prices : gmap string Z := build_price_table (flat_pricing 3000).

Definition sent_link : Link :=
  (@send_price_frame toy_prims alice (PriceTable sample_prices 850000 144 (F64.lit 1 5))
     (flat_pricing 3000) 500 (Ok 1700000000) sample_link).1.

Lemma sender_price_is_gate_price_witness :
  get_discounted_price_for_kind
    (mkEntry (<[ADMISSION_FLOOR_KEY := 0]> (build_price_table (flat_pricing 3000))) 850000 144 0 (F64.lit 1 5)) 0
  = Some (required_price strict_config 3000 (F64.lit 1 5)).
Proof.
  apply (sender_price_is_gate_price strict_config _ 0 3000 (F64.lit 1 5)); vm_compute;
    try reflexivity; split; discriminate.
Defined.

Lemma trust_discount_bounds_witness :
  1 <= apply_trust_discount 3000 (F64.lit 1 5) /\
  trust_discount_floor_msat 3000 <= apply_trust_discount 3000 (F64.lit 1 5) <= 3000 /\
  (is_finite (F64.lit 1 5) = false \/ f_gt (F64.lit 1 5) F64.zero = false ->
   apply_trust_discount 3000 (F64.lit 1 5) = 3000).
Proof. apply trust_discount_bounds; [reflexivity|lia]. Defined.

Lemma announced_price_is_honoured_witness :
  exists n, @sqlite_delivery_price_floor toy_prims sample 1700001000 1700002000 (lk_db sent_link) =
      (lk_db sent_link, Ok (Some n)) /\ price_with_floor_msat n 500 <= 2400.
Proof.
  apply (@announced_price_is_honoured toy_prims sample bob sample_prices 850000 144 (F64.lit 1 5)
    (flat_pricing 3000) 500 1700000000 sample_link sent_link PeerPriceCache_new [] 2400 1700001000 0 1700002000).
  - unfold sent_link. apply run_result. vm_compute. reflexivity.
  - vm_compute. reflexivity.
  - reflexivity.
  - intros Hin. by apply elem_of_nil in Hin.
  - vm_compute. split; discriminate.
  - constructor.
  - split; intros k x Hk; discriminate Hk.
  - vm_compute. reflexivity.
  - vm_compute. discriminate.
  - reflexivity.
  - eexists (mkConn None [] []), _, _. split_and!; [reflexivity|vm_compute; reflexivity|reflexivity|].
    vm_compute. reflexivity.
  - lia.
  - lia.
Defined.

Lemma nothing_published_unrecorded_witness :
  let lk' := (@send_price_frame toy_prims alice (PriceResponse 400 7000 850000) (flat_pricing 3000) 500
                (Ok 1700000000) sample_link).1 in
  (offers_ok (lk_db sample_link) -> offers_ok (lk_db lk')) /\
  (lk_peers lk' = lk_peers sample_link \/
   exists conn conn' sent prices ks discount,
     lk_peers sample_link !! alice = Some conn /\
     lk_peers lk' = <[alice := conn']> (lk_peers sample_link) /\
     cn_sent conn' = cn_sent conn ++ sent /\
     @record_delivery_prices toy_prims alice prices ks 1700000000 (1700000000 + 3600) (lk_db sample_link)
       = (lk_db lk', Ok tt) /\
     forall f o, f ∈ sent -> o ∈ offers_of 500 discount f -> o ∈ prices).
Proof.
  cbv zeta. apply (@nothing_published_unrecorded toy_prims alice (PriceResponse 400 7000 850000)
    (flat_pricing 3000) 500 1700000000 sample_link _
    (@send_price_frame toy_prims alice (PriceResponse 400 7000 850000) (flat_pricing 3000) 500
                (Ok 1700000000) sample_link).2).
  - apply surjective_pairing.
  - vm_compute. discriminate.
Defined.

Lemma table_quotes_engine_price_witness :
  get_price_for_kind (mkEntry (build_price_table (static_engine StaticPricingConfig_default)) 850000 144 0
    F64.zero) KIND_CALL_INVITE = Some 10000.
Proof.
  apply (table_quotes_engine_price (static_engine StaticPricingConfig_default)
    [KIND_LONGFORM; KIND_CALL_INVITE; KIND_CALL_BLOCK]).
  - apply static_honours.
  - reflexivity.
  - vm_compute. split; discriminate.
  - apply (bool_decide_unpack _). vm_compute. exact I.
  - right. reflexivity.
  - reflexivity.
Defined.
