(* ===== verification/Longform.v ===== *)
(** * Long-form messages and the announced table

    The price table a node announces has no entry for kind 1, while its pricing
    engine charges long-form messages a price of their own.  What follows for a
    sender that quotes from the table, up to the decision of the recipient's gate. *)

From S2P Require Import Prelude Float FloatRound Text Kind Types Concrete Envelope WebReply Gate Samples.
From S2P Require Import GateSpec Replay Sqlite SqliteSpec SqliteAccept SqliteQuotes.
From S2P Require Import StaticPricing PeerPrices DeliveryPrices PriceProps.

Section Longform.
Context {PR : Prims}.

(** No quote on file for [sender] covers long-form: none is for kind 1, and
    those for its category exclude it. *)
Definition no_longform_quote (sender : NodeId) (db : DB) : Prop :=
  forall k x, db_quotes db !! k = Some x -> qk_sender k = hex_encode sender ->
    qk_scope k <> "kind:" +:+ show_uint KIND_LONGFORM /\
    (qk_scope k = "category:" +:+ price_table_key (from_kind KIND_LONGFORM) ->
     string_contains ("," +:+ show_uint KIND_LONGFORM +:+ ",") (qk_excluded k) = true).

Definition keeps_none (sender : NodeId) (db db' : DB) : Prop :=
  no_longform_quote sender db -> no_longform_quote sender db'.

#[local] Instance keeps_none_preorder sender : PreOrder (keeps_none sender).
Proof. split; [intros db Hdb; exact Hdb|]. intros x y z H1 H2 H. by apply H2, H1. Qed.

Lemma keeps_none_faults sender db fs : keeps_none sender db (set_faults fs db).
Proof. intros Hnone. exact Hnone. Qed.

(** ** Announcing a table records no such quote *)

Lemma insert_quotes_none sender s x i u ps :
  string_contains ("," +:+ show_uint KIND_LONGFORM +:+ ",") x = true ->
  Forall (fun o => fst o <> "kind:" +:+ show_uint KIND_LONGFORM) ps ->
  pres (keeps_none sender) (insert_quotes s x i u ps).
Proof.
  intros Hx Hps. induction Hps as [|[sc am] ps Hsc _ IH]; cbn [insert_quotes]; [pres_tac|].
  apply pres_bind; [apply _|apply pres_i64; apply _|intros am'].
  apply pres_bind; [apply _|apply pres_execute; [apply _|apply keeps_none_faults|]|intros []; [exact IH|apply pres_throw; apply _]].
  intros db. destruct (am' <=? 0); [intros Hnone; exact Hnone|]. intros Hnone k y. cbn [fst db_quotes set_quotes]. unfold insert_or_ignore.
  destruct (db_quotes db !! _); [apply Hnone|]. cbn [fst].
  intros [[<- <-]|[_ Hk]]%lookup_insert_Some; [|by apply (Hnone _ _ Hk)]. by intros _.
Qed.

Lemma record_none sender a ps ks i u : KIND_LONGFORM ∈ ks -> Forall is_u16 ks ->
  Forall (fun o => fst o <> "kind:" +:+ show_uint KIND_LONGFORM) ps ->
  pres (keeps_none sender) (record_delivery_prices a ps ks i u).
Proof.
  intros Hin Hks Hps. unfold record_delivery_prices. destruct (_ || _); [pres_tac|].
  apply pres_bind; [apply _|apply pres_i64; apply _|intros i'].
  apply pres_bind; [apply _|apply pres_i64; apply _|intros u'].
  apply pres_transaction; [apply _|apply keeps_none_faults|].
  apply pres_bind; [apply _|apply pres_execute; [apply _|apply keeps_none_faults|]|intros _].
  - intros db Hnone k x. cbn. intros [Hk _]%map_lookup_filter_Some. by apply (Hnone _ _ Hk).
  - apply pres_bind; [apply _|apply insert_quotes_none; [|done]|intros _; apply pres_ret; apply _].
    by apply exclusions_exact.
Qed.

Lemma price_scope_is_kind key k : price_scope key = "kind:" +:+ show_uint k -> key = kind_key k.
Proof.
  unfold price_scope. destruct (strip_prefix "kind:" key); [by intros ->|]. by intros [=].
Qed.

(** The table has no entry of its own for long-form. *)
Lemma table_offers_none cfg d adm :
  Forall (fun o => fst o <> "kind:" +:+ show_uint KIND_LONGFORM)
    (table_offers d adm (<[ADMISSION_FLOOR_KEY := adm]> (build_price_table (static_engine cfg)))).
Proof.
  unfold table_offers. apply Forall_fmap, Forall_forall. intros [key p] [Hne Hin]%list_elem_of_filter Hsc.
  apply elem_of_map_to_list in Hin. apply price_scope_is_kind in Hsc as ->.
  rewrite lookup_insert_ne in Hin by (symmetry; apply kind_key_not_floor).
  unfold build_price_table in Hin. cbn [fold_left] in Hin.
  rewrite !add_call_other in Hin by done. by rewrite add_categories_kind, lookup_empty in Hin.
Qed.

Lemma longform_excluded cfg ks : longform_msat cfg <> chat_msat cfg ->
  category_price_overrides (static_engine cfg) = Some ks -> KIND_LONGFORM ∈ ks /\ Forall is_u16 ks.
Proof.
  intros Hne [= <-]. rewrite (proj2 (Z.eqb_neq _ _) Hne). cbn [negb app].
  repeat case_match; (split; [set_solver|]); repeat constructor; unfold is_u16; vm_compute; discriminate.
Qed.

Lemma announce_none sender peer cfg h v d adm clock lk lk' r : longform_msat cfg <> chat_msat cfg ->
  send_price_frame peer (PriceTable (build_price_table (static_engine cfg)) h v d) (static_engine cfg) adm clock lk
    = (lk', r) ->
  no_longform_quote sender (lk_db lk) -> no_longform_quote sender (lk_db lk').
Proof.
  intros Hne. unfold send_price_frame. destruct (h =? 0); [by intros [= <- _]|]. cbn [with_floor].
  intros [->|(needs & disc & Hn & _ & Hp)]%send_with_outcome; [done|].
  assert (needs = false) as -> by (destruct needs; [by destruct (Hn eq_refl)|done]).
  match type of Hp with context [persist_offers ?a ?b ?c ?e ?f ?g _ _ _] =>
    assert (Hpres : pres (keeps_none sender) (persist_offers a b c e f g disc false)) end.
  { unfold persist_offers. cbv zeta.
    destruct (category_price_overrides (static_engine cfg)) as [ks|] eqn:Hks; [|pres_tac].
    destruct (longform_excluded cfg ks Hne Hks) as [Hin Hu].
    intros db db' q. unfold cret, cbind at 1. apply pres_bind; [apply _|apply pres_lift; apply _|intros t].
    apply pres_map_err. apply record_none; [done..|]. apply table_offers_none. }
  destruct Hp as [(e & Hp & _)|[Hp _]]; exact (Hpres _ _ _ Hp).
Qed.

(** ** The gate rejects the chat price *)

Lemma accepted_keeps_quotes e db db' r : is_paid_envelope_accepted e db = (db', r) -> db_quotes db' = db_quotes db.
Proof.
  assert (Hp : PreOrder (fun a b : DB => db_quotes b = db_quotes a)).
  { split; [done|]. by intros x y z -> ->. }
  revert db db' r. change (pres (fun a b => db_quotes b = db_quotes a) (is_paid_envelope_accepted e)).
  cbn [is_paid_envelope_accepted sqlite_nonce_store]. unfold adapt, sqlite_is_paid_envelope_accepted.
  pres_tac; done.
Qed.

Lemma no_quote_no_floor e paid now db db' n : env_kind e = KIND_LONGFORM -> no_longform_quote (env_sender e) db ->
  delivery_price_floor e paid now db <> (db', Ok (Some n)).
Proof.
  intros Hk Hnone Hf. cbn in Hf. unfold adapt, cmap_err in Hf.
  destruct (sqlite_delivery_price_floor e paid now db) as [db1 [o|]] eqn:Hq; [|done]. injection Hf as -> ->.
  apply floor_some in Hq as (_ & (k & [Hs Hsc (x & Hx & _)] & _) & _). rewrite Hk in Hsc.
  destruct (Hnone k x Hx Hs) as [H1 H2]. destruct Hsc as [Hsc|[Hsc Hex]]; [done|]. by rewrite (H2 Hsc) in Hex.
Qed.

Lemma longform_rejected gc now e cfg wl ln d ours db : env_kind e = KIND_LONGFORM ->
  amount_msat (env_payment_proof e) < required_price gc (longform_msat cfg) d ->
  no_longform_quote (env_sender e) db ->
  is_ok (verify gc now e (static_engine cfg) wl ln d ours db).2 = false.
Proof.
  intros Hk Ha Hnone.
  destruct (verify gc now e (static_engine cfg) wl ln d ours db) as [db' [[]|]] eqn:Hv; [exfalso|done].
  assert (Hw : is_web_service_reply e = false).
  { unfold is_web_service_reply. rewrite Hk. reflexivity. }
  pose proof Hv as (_ & s1 & b & Hval & _)%verify_refines.
  destruct Hval as [s1 Hr|s1 s2 _ Hweb _|s1 s2 _ _ (base & Hb & Hle & _)
    |s1 s2 s3 Hr Hno (base & l & det & price & _ & _ & _ & _ & _ & _ & Hf & _)].
  - by apply verify_not_receipt with (s1 := s1) in Hv.
  - congruence.
  - rewrite Hk in Hb. injection Hb as <-. lia.
  - unfold no_outstanding in Hno. rewrite Hw in Hno. subst s2.
    eapply (no_quote_no_floor e _ _ s1); [done| |exact Hf].
    intros k x. rewrite (accepted_keeps_quotes _ _ _ _ Hr). apply Hnone.
Qed.

(** C37: a long-form message is underpaid.  With the static engine, a finite
    discount and a chat price of at most 2^53 msat, whenever the gate asks more for
    long-form than for chat after the discount, the floor and the admission cost: the announced table has no price for kind 1, so a sender
    that quotes from it pays the chat price; announcing tables, the first or a
    corrective one, never records a quote that covers kind 1; and as long as no
    such quote is on file for the sender, the recipient's gate rejects every
    long-form envelope that pays the chat price, whatever else is true of it. *)
Theorem longform_is_underpaid gc cfg d :
  valid F64.prec F64.emax d -> is_finite d = true ->
  0 <= chat_msat cfg <= 2 ^ 53 ->
  required_price gc (chat_msat cfg) d < required_price gc (longform_msat cfg) d ->
  (forall h v now,
     get_discounted_price_for_kind
       (mkEntry (<[ADMISSION_FLOOR_KEY := min_admission_cost_msat gc]> (build_price_table (static_engine cfg)))
          h v now (f_clamp d F64.zero MAX_TRUST_DISCOUNT)) KIND_LONGFORM =
     Some (required_price gc (chat_msat cfg) d)) /\
  (forall sender peer h v d' adm clock lk,
     no_longform_quote sender (lk_db lk) ->
     no_longform_quote sender (lk_db (send_price_frame peer
       (PriceTable (build_price_table (static_engine cfg)) h v d') (static_engine cfg) adm clock lk).1)) /\
  (forall now e wl ln ours db, env_kind e = KIND_LONGFORM ->
     amount_msat (env_payment_proof e) = required_price gc (chat_msat cfg) d ->
     no_longform_quote (env_sender e) db ->
     is_ok (verify gc now e (static_engine cfg) wl ln d ours db).2 = false).
Proof.
  intros Vd Fd Hb Hlt.
  assert (Hne : longform_msat cfg <> chat_msat cfg) by (intros Heq; rewrite Heq in Hlt; lia).
  split_and!.
  - intros h v now. apply sender_price_is_gate_price; try done; [|apply lookup_insert_eq].
    unfold get_price_for_kind. cbn [pe_prices]. change (is_call_offer KIND_LONGFORM) with false. cbv iota.
    rewrite lookup_insert_ne by done. apply table_category; [|done]. unfold table_categories. set_solver.
  - intros sender peer h v d' adm clock lk Hnone.
    destruct (send_price_frame peer _ _ adm clock lk) as [lk' r] eqn:Hs. by apply (announce_none sender) in Hs.
  - intros now e wl ln ours db Hk Ha Hnone. apply longform_rejected; [done| |done]. lia.
Qed.
End Longform.

(** ** A run *)

#[local] Existing Instance toy_prims.

Definition longform_config : StaticPricingConfig :=
  mkStatic 2000 5000 2000 2000 2000 2000 2000 10000 10000 2000 2000 2000.

(** A long-form envelope that pays the chat price, and the recipient's link
    after it announced its table to the sender. *)
Definition longform_sample : UkmEnvelope :=
  build (builder_new 1700000000000 (replicate 24 9) KIND_LONGFORM alice (RNode bob) [1; 2; 3]
    (mkProof (sha256 (replicate 32 4)) (replicate 32 4) 2000)).
Definition longform_announced : Link :=
  (send_price_frame alice (PriceTable (build_price_table (static_engine longform_config)) 850000 144 F64.zero)
     (static_engine longform_config) 0 (Ok 1700000000) sample_link).1.

Lemma longform_is_underpaid_witness :
  size (db_quotes (lk_db longform_announced)) = 10%nat /\
  get_discounted_price_for_kind
    (mkEntry (<[ADMISSION_FLOOR_KEY := 0]> (build_price_table (static_engine longform_config)))
       850000 144 0 (f_clamp F64.zero F64.zero MAX_TRUST_DISCOUNT)) KIND_LONGFORM = Some 2000 /\
  is_ok (verify strict_config 1700000000500 longform_sample (static_engine longform_config) (Some {[alice]})
    (Some sample_lightning) F64.zero (Some bob) (lk_db longform_announced)).2 = false.
Proof.
  destruct (longform_is_underpaid strict_config longform_config F64.zero) as (Hq & Ha & Hv).
  - reflexivity.
  - reflexivity.
  - vm_compute. split; discriminate.
  - vm_compute. reflexivity.
  - split; [vm_compute; reflexivity|]. split; [exact (Hq 850000 144 0)|]. apply Hv.
    + reflexivity.
    + vm_compute. reflexivity.
    + apply Ha. intros k x Hk. discriminate Hk.
Defined.
