(* ===== verification/DoubleRatchet.v ===== *)
(** * The Double Ratchet

    [konsensus-crypto/src/double_ratchet.rs]: per-message keys for one pair of
    nodes, with DH ratchet steps, skipped keys for messages out of order, and
    staged receives that touch the session only after a message authenticates.

    Keys are byte strings.  The curve, HMAC, HKDF and AES-GCM come from
    third-party crates and are the class [RatchetPrims]; a freshly generated
    secret is an argument of the operation that generates it.  Zeroising dropped
    keys has no effect on the values modelled here.  Counters wrap as [u32] does
    in a release build. *)

From stdpp Require Import sorting.
From S2P Require Import Prelude.

Class RatchetPrims := {
  x25519_public : bytes -> bytes;
  diffie_hellman : bytes -> bytes -> bytes;
  hmac_digest : bytes -> bytes -> result string bytes;
  hkdf_expand : bytes -> bytes -> string -> nat -> result string bytes;
  aes_gcm_encrypt : bytes -> bytes -> bytes -> bytes -> result string bytes;
  aes_gcm_decrypt : bytes -> bytes -> bytes -> bytes -> result string bytes
}.

(** Documented behaviour: the two ends of a Diffie-Hellman exchange agree, HMAC
    takes keys of any length, HKDF expands to at most 255 digests, and opening
    inverts sealing under the same key, nonce and associated data. *)
Class RatchetLaws `{RatchetPrims} : Prop := {
  dh_agree a b : diffie_hellman a (x25519_public b) = diffie_hellman b (x25519_public a);
  hmac_total key data : exists out, hmac_digest key data = Ok out;
  hkdf_total salt ikm info len : (len <= 255 * 32)%nat -> exists out, hkdf_expand salt ikm info len = Ok out;
  aes_gcm_open key nonce msg aad ct :
    aes_gcm_encrypt key nonce msg aad = Ok ct -> aes_gcm_decrypt key nonce ct aad = Ok msg
}.

Inductive RatchetError : Type :=
| DecryptionFailed (s : string)
| TooManySkipped (n max : Z)
| NotInitialized
| EncryptionError (s : string)
| CryptoPrimitive (s : string).

Definition MAX_SKIP : Z := 1000.
Definition MAX_TOTAL_SKIPPED_KEYS : nat := 2000.

(** ** Headers *)

Record MessageHeader := mkHeader {
  hd_dh_public : bytes;
  hd_previous_chain_length : Z;
  hd_message_number : Z
}.

Definition header_to_bytes (h : MessageHeader) : bytes :=
  hd_dh_public h ++ to_be_bytes 4 (hd_previous_chain_length h) ++ to_be_bytes 4 (hd_message_number h).

Definition header_from_bytes (buf : bytes) : MessageHeader :=
  mkHeader (take 32 buf) (from_be_bytes (take 4 (drop 32 buf))) (from_be_bytes (take 4 (drop 36 buf))).

Record RatchetMessage := mkRatchetMsg { rm_header : MessageHeader; rm_ciphertext : bytes }.

Section Ratchet.
Context {RP : RatchetPrims}.

(** ** Primitives *)

Definition hmac_sha256 (key data : bytes) : result RatchetError bytes :=
  map_err CryptoPrimitive (hmac_digest key data).

Definition kdf_rk (root_key dh_output : bytes) : result RatchetError (bytes * bytes) :=
  let? output := map_err CryptoPrimitive (hkdf_expand root_key dh_output "konsensus-v2-double-ratchet" 64) in
  Ok (take 32 output, drop 32 output).

Definition derive_nonce (key ad : bytes) : result RatchetError bytes :=
  map_err CryptoPrimitive (hkdf_expand key ad "konsensus-v2-aead-nonce" 12).

Definition aead_encrypt (key plaintext ad : bytes) : result RatchetError bytes :=
  let? nonce := derive_nonce key ad in
  map_err EncryptionError (aes_gcm_encrypt key nonce plaintext ad).

Definition aead_decrypt (key ciphertext ad : bytes) : result RatchetError bytes :=
  let? nonce := derive_nonce key ad in
  map_err DecryptionFailed (aes_gcm_decrypt key nonce ciphertext ad).

(** [ChainKey::ratchet]: the next chain key and the message key. *)
Definition ratchet (key : bytes) : result RatchetError (bytes * bytes) :=
  let? message_key := hmac_sha256 key [1] in
  let? next_chain := hmac_sha256 key [2] in
  Ok (next_chain, message_key).

(** ** The session *)

Record DoubleRatchet := mkRatchet {
  dh_secret : bytes;
  dh_public : bytes;
  remote_dh_public : option bytes;
  root_key : bytes;
  sending_chain : option bytes;
  receiving_chain : option bytes;
  send_count : Z;
  recv_count : Z;
  previous_chain_length : Z;
  skipped_keys : gmap (bytes * Z) (bytes * Z);
  skipped_key_seq : Z;
  associated_data : bytes
}.

(** [fresh] is the generated ratchet secret. *)
Definition init_sender (fresh shared_secret bob_signed_prekey ad : bytes) :
    result RatchetError DoubleRatchet :=
  let? (root, chain) := kdf_rk shared_secret (diffie_hellman fresh bob_signed_prekey) in
  Ok (mkRatchet fresh (x25519_public fresh) (Some bob_signed_prekey) root (Some chain) None
        0 0 0 ∅ 0 ad).

Definition init_receiver (shared_secret prekey_secret prekey_public ad : bytes) : DoubleRatchet :=
  mkRatchet prekey_secret prekey_public None shared_secret None None 0 0 0 ∅ 0 ad.

Definition can_send (s : DoubleRatchet) : bool :=
  match sending_chain s with Some _ => true | None => false end.

Definition aead_ad (s : DoubleRatchet) (h : MessageHeader) : bytes :=
  associated_data s ++ header_to_bytes h.

Definition set_sending (chain : bytes) (n : Z) (s : DoubleRatchet) : DoubleRatchet :=
  mkRatchet (dh_secret s) (dh_public s) (remote_dh_public s) (root_key s) (Some chain)
    (receiving_chain s) n (recv_count s) (previous_chain_length s) (skipped_keys s)
    (skipped_key_seq s) (associated_data s).

Definition encrypt (plaintext : bytes) : comp DoubleRatchet RatchetError RatchetMessage := fun s =>
  match
    (let? chain := ok_or (sending_chain s) NotInitialized in
     let? (next_chain, message_key) := ratchet chain in
     let header := mkHeader (dh_public s) (previous_chain_length s) (send_count s) in
     let? ciphertext := aead_encrypt message_key plaintext (aead_ad s header) in
     Ok (next_chain, mkRatchetMsg header ciphertext))
  with
  | Err e => (s, Err e)
  | Ok (next_chain, m) => (set_sending next_chain (wrapping_add_u32 (send_count s) 1) s, Ok m)
  end.

(** ** Receiving *)

(** The loop of [stage_skipped_keys], [n] steps from [recv_count]: the staged
    keys in derivation order, the chain and the counter. *)
Fixpoint skip_keys (n : nat) (chain : bytes) (recv : Z) (ratchet_public : bytes) :
    result RatchetError (list ((bytes * Z) * bytes) * bytes) :=
  match n with
  | O => Ok ([], chain)
  | S n' =>
      let? (next_chain, message_key) := ratchet chain in
      let? (keys, last) := skip_keys n' next_chain (recv + 1) ratchet_public in
      Ok (((ratchet_public, recv), message_key) :: keys, last)
  end.

Definition stage_skipped_keys (chain : bytes) (recv until : Z) (ratchet_public : bytes) :
    result RatchetError (list ((bytes * Z) * bytes) * bytes * Z) :=
  if saturating_add U32_MAX recv MAX_SKIP <? until then Err (TooManySkipped (until - recv) MAX_SKIP)
  else
    let? (keys, chain) := skip_keys (Z.to_nat (until - recv)) chain recv ratchet_public in
    Ok (keys, chain, Z.max recv until).

Record PendingDhStep := mkDhStep {
  ps_remote_dh_public : bytes;
  ps_dh_secret : bytes;
  ps_dh_public : bytes;
  ps_root_key : bytes;
  ps_sending_chain : bytes;
  ps_previous_chain_length : Z
}.

Record PendingReceive := mkPending {
  pr_dh_step : option PendingDhStep;
  pr_receiving_chain : bytes;
  pr_recv_count : Z;
  pr_skipped : list ((bytes * Z) * bytes);
  pr_message_key : bytes
}.

Definition stage_dh_ratchet (fresh : bytes) (s : DoubleRatchet) (remote_pub : bytes) :
    result RatchetError (PendingDhStep * bytes) :=
  let? (root, receiving) := kdf_rk (root_key s) (diffie_hellman (dh_secret s) remote_pub) in
  let? (root, sending) := kdf_rk root (diffie_hellman fresh remote_pub) in
  Ok (mkDhStep remote_pub fresh (x25519_public fresh) root sending (send_count s), receiving).

(** Skipping in a chain that exists under a known ratchet key, else nothing. *)
Definition stage_skip_opt (chain : option bytes) (recv until : Z) (public : option bytes) :
    result RatchetError (list ((bytes * Z) * bytes) * option bytes * Z) :=
  match chain, public with
  | Some ck, Some pub =>
      let? (keys, ck, recv) := stage_skipped_keys ck recv until pub in Ok (keys, Some ck, recv)
  | _, _ => Ok ([], chain, recv)
  end.

Definition stage_receive (fresh : bytes) (s : DoubleRatchet) (h : MessageHeader) :
    result RatchetError PendingReceive :=
  let is_new_ratchet :=
    match remote_dh_public s with
    | Some current => bool_decide (current <> hd_dh_public h)
    | None => true
    end in
  let? (dh_step, chain, recv, skipped, chain_public) :=
    if is_new_ratchet then
      let? (keys, _, _) := stage_skip_opt (receiving_chain s) (recv_count s)
                             (hd_previous_chain_length h) (remote_dh_public s) in
      let? (step, receiving) := stage_dh_ratchet fresh s (hd_dh_public h) in
      Ok (Some step, Some receiving, 0, keys, Some (hd_dh_public h))
    else Ok (None, receiving_chain s, recv_count s, [], remote_dh_public s) in
  let? (keys, chain, recv) := stage_skip_opt chain recv (hd_message_number h) chain_public in
  let? chain := ok_or chain NotInitialized in
  let? (next_chain, message_key) := ratchet chain in
  Ok (mkPending dh_step next_chain (wrapping_add_u32 recv 1) (skipped ++ keys) message_key).

(** [min_by_key(|(_, (_, seq))| *seq)]: the oldest insertion. *)
Definition oldest_key (m : gmap (bytes * Z) (bytes * Z)) : option (bytes * Z) :=
  fst <$> fold_right (fun '(k, (_, seq)) best =>
    match best with
    | Some (_, seq') => if seq' <? seq then best else Some (k, seq)
    | None => Some (k, seq)
    end) None (map_to_list m).

Fixpoint evict (fuel : nat) (m : gmap (bytes * Z) (bytes * Z)) : gmap (bytes * Z) (bytes * Z) :=
  match fuel with
  | O => m
  | S f =>
      if decide (MAX_TOTAL_SKIPPED_KEYS < size m)%nat then
        match oldest_key m with
        | Some k => evict f (delete k m)
        | None => m
        end
      else m
  end.

(** Every round removes a key, so [size] rounds are enough. *)
Definition evict_excess_skipped_keys (m : gmap (bytes * Z) (bytes * Z)) := evict (size m) m.

Fixpoint store_skipped (keys : list ((bytes * Z) * bytes)) (seq : Z) (m : gmap (bytes * Z) (bytes * Z)) :
    gmap (bytes * Z) (bytes * Z) * Z :=
  match keys with
  | [] => (m, seq)
  | (id, key) :: keys' => store_skipped keys' (seq + 1) (<[id := (key, seq)]> m)
  end.

Definition commit_receive (p : PendingReceive) (s : DoubleRatchet) : DoubleRatchet :=
  let '(keys, seq) := store_skipped (pr_skipped p) (skipped_key_seq s) (skipped_keys s) in
  let keys := evict_excess_skipped_keys keys in
  match pr_dh_step p with
  | Some step =>
      mkRatchet (ps_dh_secret step) (ps_dh_public step) (Some (ps_remote_dh_public step))
        (ps_root_key step) (Some (ps_sending_chain step)) (Some (pr_receiving_chain p))
        0 (pr_recv_count p) (ps_previous_chain_length step) keys seq (associated_data s)
  | None =>
      mkRatchet (dh_secret s) (dh_public s) (remote_dh_public s) (root_key s) (sending_chain s)
        (Some (pr_receiving_chain p)) (send_count s) (pr_recv_count p) (previous_chain_length s)
        keys seq (associated_data s)
  end.

Definition set_skipped (m : gmap (bytes * Z) (bytes * Z)) (s : DoubleRatchet) : DoubleRatchet :=
  mkRatchet (dh_secret s) (dh_public s) (remote_dh_public s) (root_key s) (sending_chain s)
    (receiving_chain s) (send_count s) (recv_count s) (previous_chain_length s) m
    (skipped_key_seq s) (associated_data s).

Definition decrypt (fresh : bytes) (m : RatchetMessage) : comp DoubleRatchet RatchetError bytes := fun s =>
  let ad := aead_ad s (rm_header m) in
  let skip_key := (hd_dh_public (rm_header m), hd_message_number (rm_header m)) in
  match skipped_keys s !! skip_key with
  | Some (message_key, _) =>
      match aead_decrypt message_key (rm_ciphertext m) ad with
      | Ok plaintext => (set_skipped (delete skip_key (skipped_keys s)) s, Ok plaintext)
      | Err e => (s, Err e)
      end
  | None =>
      match stage_receive fresh s (rm_header m) with
      | Err e => (s, Err e)
      | Ok pending =>
          match aead_decrypt (pr_message_key pending) (rm_ciphertext m) ad with
          | Ok plaintext => (commit_receive pending s, Ok plaintext)
          | Err e => (s, Err e)
          end
      end
  end.

(** ** Snapshots *)

Record SkippedKey := mkSkipped { sk_ratchet_public : bytes; sk_message_number : Z; sk_message_key : bytes }.

Record RatchetState := mkState {
  rs_dh_secret : bytes;
  rs_dh_public : bytes;
  rs_remote_dh_public : option bytes;
  rs_root_key : bytes;
  rs_sending_chain : option bytes;
  rs_receiving_chain : option bytes;
  rs_send_count : Z;
  rs_recv_count : Z;
  rs_previous_chain_length : Z;
  rs_skipped_keys : list SkippedKey;
  rs_associated_data : bytes
}.

(** The order of [sort_by_key(|(_, _, _, seq)| *seq)]. *)
Definition seq_le (a b : (bytes * Z) * (bytes * Z)) : Prop := a.2.2 <= b.2.2.
#[export] Instance seq_le_dec a b : Decision (seq_le a b).
Proof. unfold seq_le. apply _. Defined.

Definition export_state (s : DoubleRatchet) : RatchetState :=
  let skipped := map (fun '((pub, n), (key, _)) => mkSkipped pub n key)
                   (merge_sort seq_le (map_to_list (skipped_keys s))) in
  mkState (dh_secret s) (dh_public s) (remote_dh_public s) (root_key s) (sending_chain s)
    (receiving_chain s) (send_count s) (recv_count s) (previous_chain_length s) skipped
    (associated_data s).

Fixpoint import_skipped (seq : Z) (l : list SkippedKey) (m : gmap (bytes * Z) (bytes * Z)) :
    gmap (bytes * Z) (bytes * Z) :=
  match l with
  | [] => m
  | k :: l' => import_skipped (seq + 1) l'
      (<[(sk_ratchet_public k, sk_message_number k) := (sk_message_key k, seq)]> m)
  end.

Definition from_state (st : RatchetState) : DoubleRatchet :=
  mkRatchet (rs_dh_secret st) (rs_dh_public st) (rs_remote_dh_public st) (rs_root_key st)
    (rs_sending_chain st) (rs_receiving_chain st) (rs_send_count st) (rs_recv_count st)
    (rs_previous_chain_length st) (import_skipped 0 (rs_skipped_keys st) ∅)
    (Z.of_nat (length (rs_skipped_keys st))) (rs_associated_data st).
End Ratchet.
