(* ===== verification/RatchetConcrete.v ===== *)
(** * A concrete instance of the ratchet's primitives

    Executable stand-ins for the curve, HMAC, HKDF and AES-GCM that satisfy the
    documented laws, used to run sessions on concrete inputs.  They have no
    security meaning: the "curve" adds secrets byte by byte, and a ciphertext is
    a checksum tag in front of the plaintext. *)

From S2P Require Import Prelude Text Types Concrete DoubleRatchet.

Definition toy_dh (a b : bytes) : bytes := zip_with (fun x y => (x + y) mod 256) a b.

Definition toy_tag (key nonce msg aad : bytes) : bytes := fold32 11 (key ++ nonce ++ msg ++ aad).

#[export] Instance toy_ratchet : RatchetPrims := {|
  x25519_public s := s;
  diffie_hellman := toy_dh;
  hmac_digest k d := Ok (fold32 3 (k ++ d));
  hkdf_expand salt ikm _ len :=
    if (len <=? 255 * 32)%nat
    then Ok (take len (fold32 5 (salt ++ ikm) ++ fold32 6 (ikm ++ salt)))
    else Err "invalid number of blocks, too large output";
  aes_gcm_encrypt key nonce msg aad := Ok (toy_tag key nonce msg aad ++ msg);
  aes_gcm_decrypt key nonce ct aad :=
    if bool_decide (take 32 ct = toy_tag key nonce (drop 32 ct) aad) then Ok (drop 32 ct)
    else Err "aead::Error"
|}.

Lemma length_fold32 tag bs : length (fold32 tag bs) = 32%nat.
Proof. apply length_to_be_bytes. Qed.

#[export] Instance toy_ratchet_laws : RatchetLaws.
Proof.
  split; cbn [toy_ratchet x25519_public diffie_hellman hmac_digest hkdf_expand aes_gcm_encrypt aes_gcm_decrypt].
  - intros a. induction a as [|x a IH]; intros [|y b]; cbn; [done..|]. f_equal; [f_equal; lia|apply IH].
  - eauto.
  - intros salt ikm info len Hl. rewrite (proj2 (Nat.leb_le _ _) Hl). eauto.
  - intros key nonce msg aad ct Hct.
    assert (ct = toy_tag key nonce msg aad ++ msg) as -> by congruence. clear Hct.
    assert (Hlen : length (toy_tag key nonce msg aad) = 32%nat) by apply length_fold32.
    rewrite take_app_length', drop_app_length' by done. by rewrite bool_decide_eq_true_2.
Qed.
