(* ===== verification/RatchetSpec.v ===== *)
(** * Key chains, stored keys and atomic receives

    The lemmas behind the session theorems of [RatchetProps]: the abstract
    chain of message keys that both ends of an epoch walk along, what skipping
    and storing keys does to the key store, and its bound. *)

From S2P Require Import Prelude DoubleRatchet.

Section Spec.
Context {RP : RatchetPrims} {RL : RatchetLaws}.

Lemma ratchet_total ck : exists next mk, ratchet ck = Ok (next, mk).
Proof.
  destruct (hmac_total ck [1]) as [mk Hmk], (hmac_total ck [2]) as [nx Hnx].
  exists nx, mk. unfold ratchet, hmac_sha256. by rewrite Hmk, Hnx.
Qed.

Lemma kdf_rk_total root dh : exists r c, kdf_rk root dh = Ok (r, c).
Proof.
  destruct (hkdf_total root dh "konsensus-v2-double-ratchet" 64) as [out Ho]; [lia|].
  unfold kdf_rk. rewrite Ho. cbn. eauto.
Qed.

(** Opening what was sealed. *)
Lemma aead_open key pt ad ct : aead_encrypt key pt ad = Ok ct -> aead_decrypt key ct ad = Ok pt.
Proof.
  unfold aead_encrypt, aead_decrypt. destruct (derive_nonce key ad) as [nonce|]; [|done]. cbn.
  destruct (aes_gcm_encrypt key nonce pt ad) as [c|] eqn:Hc; [|done]. intros [= <-].
  by rewrite (aes_gcm_open _ _ _ _ _ Hc).
Qed.

(** ** The chain of an epoch *)

Fixpoint chain_at (ck : bytes) (n : nat) : bytes :=
  match n with
  | O => ck
  | S n' => match ratchet (chain_at ck n') with Ok (next, _) => next | Err _ => [] end
  end.

Definition msg_key (ck : bytes) (n : nat) : bytes :=
  match ratchet (chain_at ck n) with Ok (_, mk) => mk | Err _ => [] end.

Lemma ratchet_at ck n : ratchet (chain_at ck n) = Ok (chain_at ck (S n), msg_key ck n).
Proof.
  cbn [chain_at]. unfold msg_key. destruct (ratchet_total (chain_at ck n)) as (nx & mk & ->). done.
Qed.

(** The keys of messages [m .. m + n - 1]. *)
Definition chain_keys (pub ck : bytes) (m n : nat) : list ((bytes * Z) * bytes) :=
  map (fun i => ((pub, Z.of_nat i), msg_key ck i)) (seq m n).

Lemma skip_keys_chain pub ck n m :
  skip_keys n (chain_at ck m) (Z.of_nat m) pub = Ok (chain_keys pub ck m n, chain_at ck (m + n)).
Proof.
  revert m. induction n as [|n IH]; intros m; cbn [skip_keys].
  { by rewrite Nat.add_0_r. }
  rewrite ratchet_at. cbn [bind_result]. replace (Z.of_nat m + 1) with (Z.of_nat (S m)) by lia.
  rewrite IH. cbn [bind_result]. by rewrite Nat.add_succ_r.
Qed.

Lemma stage_skipped_chain pub ck m until :
  Z.of_nat m <= Z.of_nat until <= U32_MAX -> Z.of_nat until - Z.of_nat m <= MAX_SKIP ->
  stage_skipped_keys (chain_at ck m) (Z.of_nat m) (Z.of_nat until) pub =
    Ok (chain_keys pub ck m (until - m), chain_at ck until, Z.of_nat until).
Proof.
  intros Hle Hs. unfold stage_skipped_keys, MAX_SKIP in *.
  rewrite (proj2 (Z.ltb_ge _ _)) by solve_int.
  replace (Z.to_nat (Z.of_nat until - Z.of_nat m)) with (until - m)%nat by lia.
  rewrite skip_keys_chain. cbn [bind_result]. replace (m + (until - m))%nat with until by lia.
  by rewrite Z.max_r by lia.
Qed.

Lemma elem_of_chain_keys pub ck m n k key :
  (k, key) ∈ chain_keys pub ck m n <->
  exists i, (m <= i < m + n)%nat /\ k = (pub, Z.of_nat i) /\ key = msg_key ck i.
Proof.
  unfold chain_keys. rewrite list_elem_of_fmap. split.
  - intros (i & [= -> ->] & Hi%elem_of_seq). eauto.
  - intros (i & Hi & -> & ->). exists i. split; [done|]. by apply elem_of_seq.
Qed.

(** ** Storing skipped keys *)

Lemma store_skipped_spec keys seq m k :
  match (store_skipped keys seq m).1 !! k with
  | Some (key, _) => (k, key) ∈ keys \/ ((k ∉ keys.*1) /\ exists s, m !! k = Some (key, s))
  | None => (k ∉ keys.*1) /\ m !! k = None
  end.
Proof.
  revert seq m. induction keys as [|[id key] keys IH]; intros seq m; cbn [store_skipped].
  { cbn. destruct (m !! k) as [[key s]|]; set_solver. }
  specialize (IH (seq + 1) (<[id := (key, seq)]> m)).
  destruct ((store_skipped keys (seq + 1) _).1 !! k) as [[key' s]|].
  - destruct IH as [Hin|[Hn [s' Hs]]]; [left; set_solver|].
    apply lookup_insert_Some in Hs as [[-> [= -> _]]|[Hne Hs]]; [left; set_solver|].
    right. split; [set_solver|by exists s'].
  - destruct IH as [Hn Hs]. apply lookup_insert_None in Hs as [Hs Hne]. split; [set_solver|done].
Qed.

Lemma store_skipped_size keys seq m :
  (size (store_skipped keys seq m).1 <= size m + length keys)%nat.
Proof.
  revert seq m. induction keys as [|[id key] keys IH]; intros seq m; cbn [store_skipped length].
  { cbn. lia. }
  etransitivity; [apply IH|]. rewrite map_size_insert. destruct (m !! id); simpl; lia.
Qed.

Lemma oldest_key_spec m k : oldest_key m = Some k ->
  exists v a, m !! k = Some (v, a) /\ forall k' v' a', m !! k' = Some (v', a') -> a <= a'.
Proof.
  unfold oldest_key. intros Hk. apply fmap_Some in Hk as ([k0 s] & Hf & ->). cbn [fst].
  assert (Hin : exists v, (k0, (v, s)) ∈ map_to_list m /\
    forall k' v' a', (k', (v', a')) ∈ map_to_list m -> s <= a').
  { revert k0 s Hf. generalize (map_to_list m) as l. induction l as [|[k1 [v1 s1]] l IH]; [done|].
    intros k0 s. cbn [fold_right]. destruct (fold_right _ None l) as [[k2 s2]|] eqn:Hl.
    - destruct (IH _ _ eq_refl) as (v & Hv & Hmin). destruct (Z.ltb_spec s2 s1); intros [= -> ->].
      + exists v. split; [by right|]. intros k' v' a' [[= -> -> ->]|Hin]%elem_of_cons; [lia|by eapply Hmin].
      + exists v1. split; [by left|]. intros k' v' a' [[= -> -> ->]|Hin%Hmin]%elem_of_cons; lia.
    - intros [= -> ->]. exists v1. split; [by left|]. destruct l as [|[k3 [v3 s3]] l].
      { intros k' v' a' [[= -> -> ->]|[]%elem_of_nil]%elem_of_cons. lia. }
      cbn in Hl. destruct (fold_right _ None l) as [[k4 s4]|]; [by destruct (s4 <? s3)|done]. }
  destruct Hin as (v & Hv%elem_of_map_to_list & Hmin). exists v, s. split; [done|].
  intros k' v' a' Hk'. eapply Hmin. by apply elem_of_map_to_list.
Qed.

Lemma oldest_key_none m : oldest_key m = None -> m = ∅.
Proof.
  unfold oldest_key. intros Hk%fmap_None. apply map_to_list_empty_iff.
  destruct (map_to_list m) as [|[k [v s]] l]; [done|]. cbn in Hk.
  destruct (fold_right _ None l) as [[k2 s2]|]; [|done]. by destruct (s2 <? s).
Qed.

Lemma evict_bound fuel m : (size m <= fuel)%nat -> (size (evict fuel m) <= MAX_TOTAL_SKIPPED_KEYS)%nat.
Proof.
  revert m. induction fuel as [|fuel IH]; intros m Hs; cbn [evict]; [lia|].
  destruct (decide _) as [Hgt|]; [|lia]. destruct (oldest_key m) as [k|] eqn:Hk.
  - apply IH. destruct (oldest_key_spec m k Hk) as (v & a & Hv & _). rewrite map_size_delete, Hv. cbn. lia.
  - apply oldest_key_none in Hk as ->. rewrite map_size_empty in Hgt. lia.
Qed.

Lemma evict_sub fuel m k v : evict fuel m !! k = Some v -> m !! k = Some v.
Proof.
  revert m. induction fuel as [|fuel IH]; intros m; cbn [evict]; [done|].
  destruct (decide _); [|done]. destruct (oldest_key m) as [k'|]; [|done].
  intros H%IH. by apply lookup_delete_Some in H as [_ H].
Qed.

Lemma evict_small m : (size m <= MAX_TOTAL_SKIPPED_KEYS)%nat -> evict_excess_skipped_keys m = m.
Proof.
  intros Hs. unfold evict_excess_skipped_keys. destruct (size m) as [|n] eqn:Hm; [done|]. cbn [evict].
  rewrite decide_False by lia. done.
Qed.
End Spec.

Section Receive.
Context {RP : RatchetPrims} {RL : RatchetLaws}.

(** [m] carries [pt] as message [i] of the epoch with ratchet key [pub] and
    initial chain key [ck]. *)
Record sealed (ad pub ck : bytes) (i : nat) (pt : bytes) (m : RatchetMessage) : Prop := {
  sl_public : hd_dh_public (rm_header m) = pub;
  sl_number : hd_message_number (rm_header m) = Z.of_nat i;
  sl_cipher : aead_encrypt (msg_key ck i) pt (ad ++ header_to_bytes (rm_header m)) = Ok (rm_ciphertext m)
}.

(** A receiver in the epoch of [pub] and [ck] that expects message [n] next and
    has received exactly the messages [del]: the others below [n] are stored. *)
Record tracks (R : DoubleRatchet) (pub ck : bytes) (n : nat) (del : list nat) : Prop := {
  tr_remote : remote_dh_public R = Some pub;
  tr_chain : receiving_chain R = Some (chain_at ck n);
  tr_count : recv_count R = Z.of_nat n;
  tr_keys i : match skipped_keys R !! (pub, Z.of_nat i) with
              | Some (key, _) => key = msg_key ck i /\ (i < n)%nat /\ i ∉ del
              | None => (n <= i)%nat \/ i ∈ del
              end
}.

(** The keys after storing a chain's keys [m .. m + n - 1]. *)
Lemma store_chain_keys pub ck m n seq keys i :
  match (store_skipped (chain_keys pub ck m n) seq keys).1 !! (pub, Z.of_nat i) with
  | Some (key, _) => (key = msg_key ck i /\ (m <= i < m + n)%nat) \/
      (~ (m <= i < m + n)%nat /\ exists s, keys !! (pub, Z.of_nat i) = Some (key, s))
  | None => ~ (m <= i < m + n)%nat /\ keys !! (pub, Z.of_nat i) = None
  end.
Proof.
  assert (Hfst : forall j, (pub, Z.of_nat j) ∈ (chain_keys pub ck m n).*1 <-> (m <= j < m + n)%nat).
  { intros j. rewrite list_elem_of_fmap. split.
    - intros ([k key] & Heq & (i' & Hi & -> & _)%elem_of_chain_keys). cbn in Heq. simplify_eq. lia.
    - intros Hj. exists ((pub, Z.of_nat j), msg_key ck j). split; [done|].
      apply elem_of_chain_keys. eauto. }
  pose proof (store_skipped_spec (chain_keys pub ck m n) seq keys (pub, Z.of_nat i)) as Hs.
  destruct ((store_skipped _ _ _).1 !! _) as [[key s]|]; rewrite Hfst in Hs; [|done].
  destruct Hs as [(i' & Hi & Heq & ->)%elem_of_chain_keys|Hs]; [left|right; done].
  assert (i' = i) as -> by (injection Heq; lia). done.
Qed.

Lemma chain_keys_length pub ck m n : length (chain_keys pub ck m n) = n.
Proof. unfold chain_keys. by rewrite length_map, length_seq. Qed.

(** Receiving a message that was skipped. *)
Lemma receive_stored fresh R pub ck n del i pt m :
  tracks R pub ck n del -> sealed (associated_data R) pub ck i pt m -> (i < n)%nat -> i ∉ del ->
  decrypt fresh m R = (set_skipped (delete (pub, Z.of_nat i) (skipped_keys R)) R, Ok pt) /\
  tracks (set_skipped (delete (pub, Z.of_nat i) (skipped_keys R)) R) pub ck n (i :: del).
Proof.
  intros [Hr Hc Hn Hk] [Hp Hi Hct] Hlt Hnot. split.
  - unfold decrypt. rewrite Hp, Hi. pose proof (Hk i) as Hki.
    destruct (skipped_keys R !! _) as [[key s]|]; [|naive_solver lia].
    destruct Hki as [-> _]. unfold aead_ad. by rewrite (aead_open _ _ _ _ Hct).
  - split; cbn; [done..|]. intros j. destruct (decide (j = i)) as [->|Hne].
    + rewrite lookup_delete_eq. right. by left.
    + rewrite lookup_delete_ne by (intros [= ?]; lia). specialize (Hk j).
      destruct (skipped_keys R !! _) as [[key s]|]; set_solver.
Qed.

Lemma set_skipped_same R : set_skipped (skipped_keys R) R = R.
Proof. by destruct R. Qed.

(** The state after receiving message [i] of the current epoch. *)
Definition advanced (R : DoubleRatchet) (pub ck : bytes) (n i : nat) : DoubleRatchet :=
  let '(keys, seq) := store_skipped (chain_keys pub ck n (i - n)) (skipped_key_seq R) (skipped_keys R) in
  mkRatchet (dh_secret R) (dh_public R) (remote_dh_public R) (root_key R) (sending_chain R)
    (Some (chain_at ck (S i))) (send_count R) (Z.of_nat (S i)) (previous_chain_length R)
    keys seq (associated_data R).

Lemma receive_ahead fresh R pub ck n del i pt m :
  tracks R pub ck n del -> sealed (associated_data R) pub ck i pt m -> (n <= i)%nat -> i ∉ del ->
  Z.of_nat i < U32_MAX -> Z.of_nat i - Z.of_nat n <= MAX_SKIP ->
  (size (skipped_keys R) + (i - n) <= MAX_TOTAL_SKIPPED_KEYS)%nat -> (forall j, j ∈ del -> (j < n)%nat) ->
  decrypt fresh m R = (advanced R pub ck n i, Ok pt) /\ tracks (advanced R pub ck n i) pub ck (S i) (i :: del).
Proof.
  intros [Hr Hc Hn Hk] [Hp Hi Hct] Hle Hnot Hmax Hskip Hsize Hdel. unfold advanced.
  pose proof (store_skipped_size (chain_keys pub ck n (i - n)) (skipped_key_seq R) (skipped_keys R)) as Hsz.
  rewrite chain_keys_length in Hsz.
  pose proof (fun j => store_chain_keys pub ck n (i - n) (skipped_key_seq R) (skipped_keys R) j) as Hst.
  split.
  - unfold decrypt. rewrite Hp, Hi. pose proof (Hk i) as Hki.
    destruct (skipped_keys R !! (pub, Z.of_nat i)) as [[key s]|]; [lia|].
    unfold stage_receive. rewrite Hr, Hp, Hi, bool_decide_eq_false_2 by auto. cbn [bind_result].
    unfold stage_skip_opt. rewrite Hc, Hn, stage_skipped_chain by solve_int. cbn [bind_result ok_or].
    rewrite ratchet_at. cbn [bind_result pr_message_key app]. unfold aead_ad.
    rewrite (aead_open _ _ _ _ Hct). unfold commit_receive. cbn [pr_skipped pr_dh_step pr_receiving_chain pr_recv_count].
    destruct (store_skipped _ _ _) as [keys seq]. cbn [fst] in Hsz. rewrite evict_small by lia.
    unfold wrapping_add_u32. rewrite Z.mod_small by solve_int.
    replace (Z.of_nat (S i)) with (Z.of_nat i + 1) by lia. by rewrite Hr.
  - destruct (store_skipped _ _ _) as [keys seq]. cbn [fst] in *.
    split; cbn; [done..|]. intros j. specialize (Hst j). specialize (Hk j).
    destruct (keys !! _) as [[key s]|].
    + destruct Hst as [[-> Hj]|[Hj [s' Hs]]].
      * split_and!; [done|lia|]. intros [->|Hd%Hdel]%elem_of_cons; lia.
      * rewrite Hs in Hk. destruct Hk as (-> & Hlt & Hnd). split_and!; [done|lia|].
        intros [->|?]%elem_of_cons; [lia|done].
    + destruct Hst as [Hj Hs]. rewrite Hs in Hk. destruct (decide (j = i)) as [->|]; [right; by left|].
      destruct Hk as [Hk|Hk]; [left; lia|right; by right].
Qed.

(** The state after message [i] of a new epoch, which comes with a DH step. *)
Definition stepped (fresh : bytes) (R : DoubleRatchet) (pub ck root send : bytes) (i : nat) : DoubleRatchet :=
  let '(keys, seq) := store_skipped (chain_keys pub ck 0 i) (skipped_key_seq R) (skipped_keys R) in
  mkRatchet fresh (x25519_public fresh) (Some pub) root (Some send) (Some (chain_at ck (S i)))
    0 (Z.of_nat (S i)) (send_count R) keys seq (associated_data R).

Lemma stepped_tracks fresh R pub ck root send i : (forall j, skipped_keys R !! (pub, j) = None) ->
  tracks (stepped fresh R pub ck root send i) pub ck (S i) [i].
Proof.
  intros Hnone. unfold stepped.
  pose proof (fun j => store_chain_keys pub ck 0 i (skipped_key_seq R) (skipped_keys R) j) as Hst.
  destruct (store_skipped _ _ _) as [keys seq]. cbn [fst] in *. split; cbn; [done..|]. intros j.
  specialize (Hst j). rewrite Hnone in Hst. destruct (keys !! _) as [[key s]|].
  - destruct Hst as [[-> Hj]|[_ [s' Hs]]]; [|done]. split_and!; [done|lia|].
    intros ->%list_elem_of_singleton. lia.
  - destruct Hst as [Hj _]. destruct (decide (j = i)) as [->|]; [right; by left|left; lia].
Qed.

Lemma receive_new_epoch fresh R pub ck root root' send i pt m c0 r0 :
  (forall p, remote_dh_public R = Some p -> p <> pub) -> (forall j, skipped_keys R !! (pub, j) = None) ->
  kdf_rk (root_key R) (diffie_hellman (dh_secret R) pub) = Ok (root, ck) ->
  kdf_rk root (diffie_hellman fresh pub) = Ok (root', send) ->
  stage_skip_opt (receiving_chain R) (recv_count R) (hd_previous_chain_length (rm_header m))
    (remote_dh_public R) = Ok ([], c0, r0) ->
  sealed (associated_data R) pub ck i pt m -> Z.of_nat i <= MAX_SKIP ->
  (size (skipped_keys R) + i <= MAX_TOTAL_SKIPPED_KEYS)%nat ->
  decrypt fresh m R = (stepped fresh R pub ck root' send i, Ok pt).
Proof.
  intros Hnew Hnone Hk1 Hk2 Hprev [Hp Hi Hct] Hskip Hsize. unfold stepped.
  pose proof (store_skipped_size (chain_keys pub ck 0 i) (skipped_key_seq R) (skipped_keys R)) as Hsz.
  rewrite chain_keys_length in Hsz. unfold decrypt. rewrite Hp, Hi, Hnone. unfold stage_receive.
  assert ((match remote_dh_public R with
           | Some current => bool_decide (current <> hd_dh_public (rm_header m))
           | None => true end) = true) as ->.
  { destruct (remote_dh_public R) as [p|]; [|done]. apply bool_decide_eq_true_2. rewrite Hp. by apply Hnew. }
  rewrite Hprev, Hp, Hi. cbn [bind_result]. unfold stage_dh_ratchet. rewrite Hk1. cbn [bind_result].
  rewrite Hk2. cbn [bind_result stage_skip_opt]. pose proof (stage_skipped_chain pub ck 0 i) as Hst.
  cbn [chain_at] in Hst. change (Z.of_nat 0) with 0 in Hst. unfold MAX_SKIP in *.
  rewrite Hst by solve_int. cbn [bind_result ok_or]. rewrite ratchet_at. cbn [bind_result pr_message_key app].
  unfold aead_ad. rewrite (aead_open _ _ _ _ Hct). unfold commit_receive.
  cbn [pr_skipped pr_dh_step pr_receiving_chain pr_recv_count]. rewrite Nat.sub_0_r.
  destruct (store_skipped _ _ _) as [keys seq]. cbn [fst] in Hsz. rewrite evict_small by lia.
  unfold wrapping_add_u32. rewrite Z.mod_small by solve_int.
  by replace (Z.of_nat (S i)) with (Z.of_nat i + 1) by lia.
Qed.
End Receive.
