(* ===== verification/RatchetConvo.v ===== *)
(** * A conversation over two Double Ratchet sessions

    Both ends of a session send whenever they like; each direction delivers in
    order; either end may restart from its snapshot, and anyone may inject
    messages that do not authenticate.  Every DH step of one end is eventually
    answered by one of the other, so at any time one end *leads*: it has a
    ratchet key the other has not seen used.  [leads] is that invariant, and
    the theorem is that no delivered message is ever lost or altered. *)

From stdpp Require Import sorting.
From S2P Require Import Prelude DoubleRatchet RatchetConcrete RatchetSpec RatchetProps.

Section Convo.
Context {RP : RatchetPrims}.

(** ** The two ends and the wire *)

Inductive side := Initiator | Responder.

#[export] Instance side_eq_dec : EqDecision side.
Proof. solve_decision. Defined.

(** [cv_to_b] holds what the initiator sent and the responder has yet to
    receive, each message with its plaintext; [cv_log] pairs the plaintext of
    every delivered message with the receiver's result. *)
Record convo := mkConvo {
  cv_a : DoubleRatchet;
  cv_b : DoubleRatchet;
  cv_to_b : list (RatchetMessage * bytes);
  cv_to_a : list (RatchetMessage * bytes);
  cv_log : list (bytes * result RatchetError bytes)
}.

Definition end_of (w : side) (c : convo) : DoubleRatchet :=
  match w with Initiator => cv_a c | Responder => cv_b c end.
Definition set_end (w : side) (s : DoubleRatchet) (c : convo) : convo :=
  match w with
  | Initiator => mkConvo s (cv_b c) (cv_to_b c) (cv_to_a c) (cv_log c)
  | Responder => mkConvo (cv_a c) s (cv_to_b c) (cv_to_a c) (cv_log c)
  end.
(** What [w] has yet to receive. *)
Definition inbox (w : side) (c : convo) : list (RatchetMessage * bytes) :=
  match w with Initiator => cv_to_a c | Responder => cv_to_b c end.
Definition set_inbox (w : side) (q : list (RatchetMessage * bytes)) (c : convo) : convo :=
  match w with
  | Initiator => mkConvo (cv_a c) (cv_b c) (cv_to_b c) q (cv_log c)
  | Responder => mkConvo (cv_a c) (cv_b c) q (cv_to_a c) (cv_log c)
  end.
Definition other (w : side) : side := match w with Initiator => Responder | Responder => Initiator end.
Definition log_result (pt : bytes) (r : result RatchetError bytes) (c : convo) : convo :=
  mkConvo (cv_a c) (cv_b c) (cv_to_b c) (cv_to_a c) (cv_log c ++ [(pt, r)]).

Definition send (w : side) (pt : bytes) (c : convo) : convo :=
  match encrypt pt (end_of w c) with
  | (s, Ok m) => set_inbox (other w) (inbox (other w) c ++ [(m, pt)]) (set_end w s c)
  | (s, Err _) => set_end w s c
  end.

Definition deliver (w : side) (fresh : bytes) (c : convo) : convo :=
  match inbox w c with
  | [] => c
  | (m, pt) :: q =>
      let '(s, r) := decrypt fresh m (end_of w c) in
      log_result pt r (set_inbox w q (set_end w s c))
  end.

Definition inject (w : side) (fresh : bytes) (m : RatchetMessage) (c : convo) : convo :=
  set_end w (decrypt fresh m (end_of w c)).1 c.

Definition restart (w : side) (c : convo) : convo :=
  set_end w (from_state (export_state (end_of w c))) c.

(** A generated key differs from the one it replaces; an epoch has fewer than
    [2^32 - 1] messages; an injected message is one that fails to decrypt. *)
Inductive convo_step : convo -> convo -> Prop :=
| step_send w pt c : send_count (end_of w c) < U32_MAX -> convo_step c (send w pt c)
| step_deliver w fresh c : x25519_public fresh <> dh_public (end_of w c) -> convo_step c (deliver w fresh c)
| step_inject w fresh m e c : (decrypt fresh m (end_of w c)).2 = Err e -> convo_step c (inject w fresh m c)
| step_restart w c : convo_step c (restart w c).

(** ** The invariant *)

(** [q] is messages [n], [n + 1], ... of an epoch. *)
Definition in_order (ad pub ck : bytes) (n : nat) (q : list (RatchetMessage * bytes)) : Prop :=
  forall i m pt, q !! i = Some (m, pt) -> sealed ad pub ck (n + i) pt m.

(** [R] expects message [n] of the epoch of [pub] and [ck] next. *)
Record expects (R : DoubleRatchet) (pub ck : bytes) (n : nat) : Prop := {
  ex_remote : remote_dh_public R = Some pub;
  ex_chain : receiving_chain R = Some (chain_at ck n);
  ex_count : recv_count R = Z.of_nat n
}.

(** No skipped keys, and a key pair that belongs together. *)
Record tidy (ad : bytes) (R : DoubleRatchet) : Prop := {
  td_skipped : skipped_keys R = ∅;
  td_seq : skipped_key_seq R = 0;
  td_ad : associated_data R = ad;
  td_pair : dh_public R = x25519_public (dh_secret R)
}.

(** The leader [L] has started an epoch that the follower [F] has not entered;
    [to_f] and [to_l] are in flight. *)
Record leads (ad : bytes) (L F : DoubleRatchet) (to_f to_l : list (RatchetMessage * bytes)) : Prop := {
  ld_tidy_l : tidy ad L;
  ld_tidy_f : tidy ad F;
  ld_remote : remote_dh_public L = Some (dh_public F);
  ld_unseen p : remote_dh_public F = Some p -> p <> dh_public L;
  (** the new epoch: its root and chain are what [F] will derive *)
  ld_epoch : exists old new ck,
    to_f = old ++ new /\
    kdf_rk (root_key F) (diffie_hellman (dh_secret F) (dh_public L)) = Ok (root_key L, ck) /\
    sends L (dh_public L) ck (length new) /\
    in_order ad (dh_public L) ck 0 new /\
    (forall m pt, (m, pt) ∈ new -> hd_previous_chain_length (rm_header m) = previous_chain_length L) /\
    (** what is left of the epoch before *)
    ((receiving_chain F = None /\ old = []) \/
     exists pub cko n, expects F pub cko n /\ in_order ad pub cko n old /\
       previous_chain_length L = Z.of_nat (n + length old) /\ previous_chain_length L <= U32_MAX);
  (** the follower's own epoch, which the leader is in *)
  ld_reply : (sending_chain F = None /\ receiving_chain L = None /\ to_l = []) \/
    exists ckf n, sends F (dh_public F) ckf (n + length to_l) /\ expects L (dh_public F) ckf n /\
      in_order ad (dh_public F) ckf n to_l;
  ld_counts : send_count L <= U32_MAX /\ send_count F <= U32_MAX
}.
End Convo.

Section Proofs.
Context {RP : RatchetPrims} {RL : RatchetLaws}.

(** ** Queues *)

Lemma in_order_nil ad pub ck n : in_order ad pub ck n [].
Proof. by intros i m pt. Qed.

Lemma in_order_cons ad pub ck n m pt q :
  in_order ad pub ck n ((m, pt) :: q) <-> sealed ad pub ck n pt m /\ in_order ad pub ck (S n) q.
Proof.
  split.
  - intros Hq. split; [specialize (Hq 0%nat m pt eq_refl); by rewrite Nat.add_0_r in Hq|].
    intros i m' pt' Hi. specialize (Hq (S i) m' pt' Hi). by rewrite Nat.add_succ_r in Hq.
  - intros [Hm Hq] [|i] m' pt' Hi; cbn in Hi.
    + injection Hi as <- <-. by rewrite Nat.add_0_r.
    + rewrite Nat.add_succ_r. by apply (Hq i).
Qed.

Lemma in_order_app ad pub ck n q q' :
  in_order ad pub ck n (q ++ q') <-> in_order ad pub ck n q /\ in_order ad pub ck (n + length q) q'.
Proof.
  revert n. induction q as [|[m pt] q IH]; intros n; cbn [app length].
  - rewrite Nat.add_0_r. split; [intros Hq; split; [apply in_order_nil|done]|by intros [_ Hq]].
  - rewrite !in_order_cons, IH, Nat.add_succ_r. tauto.
Qed.

Lemma in_order_snoc ad pub ck n q m pt : in_order ad pub ck n q -> sealed ad pub ck (n + length q) pt m ->
  in_order ad pub ck n (q ++ [(m, pt)]).
Proof.
  intros Hq Hm. apply in_order_app. split; [done|]. apply in_order_cons. split; [done|apply in_order_nil].
Qed.

(** ** One end *)

Definition set_receiving (chain : bytes) (n : Z) (R : DoubleRatchet) : DoubleRatchet :=
  mkRatchet (dh_secret R) (dh_public R) (remote_dh_public R) (root_key R) (sending_chain R)
    (Some chain) (send_count R) n (previous_chain_length R) (skipped_keys R) (skipped_key_seq R)
    (associated_data R).

(** Receiving the next message in order. *)
Lemma receive_next ad fresh R pub ck n pt m :
  tidy ad R -> expects R pub ck n -> sealed ad pub ck n pt m -> Z.of_nat n < U32_MAX ->
  decrypt fresh m R = (set_receiving (chain_at ck (S n)) (Z.of_nat (S n)) R, Ok pt).
Proof.
  intros [Hs Hq Had Hp] [Hr Hc Hn] Hm Hmax.
  assert (Htr : tracks R pub ck n (seq 0 n)).
  { split; try done. intros i. rewrite Hs, lookup_empty. destruct (decide (n <= i)%nat); [by left|].
    right. apply elem_of_seq. lia. }
  destruct (receive_ahead fresh R pub ck n (seq 0 n) n pt m) as [Hd _]; try done.
  - by rewrite Had.
  - intros ?%elem_of_seq. lia.
  - unfold MAX_SKIP. lia.
  - rewrite Hs, map_size_empty. unfold MAX_TOTAL_SKIPPED_KEYS. lia.
  - intros j ?%elem_of_seq. lia.
  - rewrite Hd. unfold advanced. rewrite Nat.sub_diag. done.
Qed.

Lemma restart_tidy ad R : tidy ad R -> from_state (export_state R) = R.
Proof.
  intros [Hs Hq _ _]. destruct R. cbn in *. subst. unfold from_state, export_state. cbn.
  by rewrite map_to_list_empty.
Qed.

Lemma failed_decrypt fresh m R e : (decrypt fresh m R).2 = Err e -> (decrypt fresh m R).1 = R.
Proof.
  unfold decrypt. repeat (case_match; cbn [fst snd]; try done).
Qed.

Lemma encrypt_failed pt R R' e : encrypt pt R = (R', Err e) -> R' = R.
Proof. unfold encrypt. case_match; [by case_match|]. by intros [= <- _]. Qed.

Lemma encrypt_needs_chain pt R R' m : encrypt pt R = (R', Ok m) -> sending_chain R <> None.
Proof. unfold encrypt. by destruct (sending_chain R). Qed.

(** ** The moves of the two ends *)

Lemma leader_sends ad L F tf tl pt L' m : leads ad L F tf tl -> send_count L < U32_MAX ->
  encrypt pt L = (L', Ok m) -> leads ad L' F (tf ++ [(m, pt)]) tl.
Proof.
  intros [HL HF Hr Hu (old & new & ck & -> & Hk & Hs & Ho & Hprev & Hold) Hreply [Hc1 Hc2]] Hmax He.
  assert (Hn : Z.of_nat (length new) < U32_MAX) by (rewrite <- (sd_count _ _ _ _ Hs); done).
  apply (encrypt_sealed _ _ _ _ _ _ _ Hs Hn) in He as (Hm & Hpl & -> & Hs').
  destruct HL as [Hk0 Hq0 Had Hp0]. rewrite Had in Hm.
  split; cbn; try done.
  - exists old, (new ++ [(m, pt)]), ck. rewrite length_app. cbn [length]. rewrite Nat.add_1_r.
    split_and!; [by rewrite app_assoc|done|done|by apply in_order_snoc| |done].
    intros m' pt' [Hin|Hin%list_elem_of_singleton]%elem_of_app; [by eapply Hprev|]. by injection Hin as -> _.
  - destruct Hreply as [Hreply|(ckf & n & Hsf & [He1 He2 He3] & Hq)]; [by left|right].
    exists ckf, n. split_and!; try done.
  - split; [|done]. unfold U32_MAX in *. lia.
Qed.

Lemma follower_sends ad L F tf tl pt F' m : leads ad L F tf tl -> send_count F < U32_MAX ->
  encrypt pt F = (F', Ok m) -> leads ad L F' tf (tl ++ [(m, pt)]).
Proof.
  intros [HL HF Hr Hu (old & new & ck & -> & Hk & Hs & Ho & Hprev & Hold) Hreply [Hc1 Hc2]] Hmax He.
  destruct Hreply as [[Hn _]|(ckf & n & Hsf & Hex & Hq)]; [by apply encrypt_needs_chain in He|].
  assert (Hn : Z.of_nat (n + length tl) < U32_MAX) by (rewrite <- (sd_count _ _ _ _ Hsf); done).
  apply (encrypt_sealed _ _ _ _ _ _ _ Hsf Hn) in He as (Hm & _ & -> & Hs').
  destruct HF as [Hk0 Hq0 Had Hp0]. rewrite Had in Hm.
  split; cbn; try done.
  - exists old, new, ck. split_and!; try done.
    destruct Hold as [Hold|(pub & cko & no & [He1 He2 He3] & Hio & Hpc)]; [by left|right].
    exists pub, cko, no. split_and!; [by split|done|apply Hpc..].
  - right. exists ckf, n. rewrite length_app. cbn [length].
    replace (n + (length tl + 1))%nat with (S (n + length tl)) by lia.
    split_and!; [done|done|by apply in_order_snoc].
  - split; [done|]. unfold U32_MAX in *. lia.
Qed.

Lemma leader_receives ad L F tf tl pt m fresh : leads ad L F tf ((m, pt) :: tl) ->
  exists L', decrypt fresh m L = (L', Ok pt) /\ leads ad L' F tf tl.
Proof.
  intros [HL HF Hr Hu (old & new & ck & -> & Hk & Hs & Ho & Hprev & Hold) Hreply [Hc1 Hc2]].
  destruct Hreply as [(_ & _ & Hnil)|(ckf & n & Hsf & Hex & Hq)]; [done|].
  apply in_order_cons in Hq as [Hm Hq]. pose proof (sd_count _ _ _ _ Hsf) as Hcnt. cbn [length] in Hcnt.
  eexists. split; [apply (receive_next ad _ _ (dh_public F) ckf n); try done; lia|].
  destruct HL, Hex, Hs. split; cbn; try done.
  - exists old, new, ck. by split_and!.
  - right. exists ckf, (S n). split_and!; try done. by rewrite Nat.add_succ_l, <- Nat.add_succ_r.
Qed.

(** The follower catches up on the old epoch. *)
Lemma follower_receives_old ad L F pub cko n old m pt fresh new ck tl :
  leads ad L F (((m, pt) :: old) ++ new) tl ->
  kdf_rk (root_key F) (diffie_hellman (dh_secret F) (dh_public L)) = Ok (root_key L, ck) ->
  sends L (dh_public L) ck (length new) -> in_order ad (dh_public L) ck 0 new ->
  (forall m pt, (m, pt) ∈ new -> hd_previous_chain_length (rm_header m) = previous_chain_length L) ->
  expects F pub cko n -> in_order ad pub cko n ((m, pt) :: old) ->
  previous_chain_length L = Z.of_nat (n + S (length old)) -> previous_chain_length L <= U32_MAX ->
  exists F', decrypt fresh m F = (F', Ok pt) /\ leads ad L F' (old ++ new) tl.
Proof.
  intros [HL HF Hr Hu _ Hreply Hc] Hk Hs Ho Hprev Hex Hio Hpc Hpm.
  apply in_order_cons in Hio as [Hm Hio].
  eexists. split; [apply (receive_next ad _ _ pub cko n); try done; lia|].
  destruct HF, Hex. split; cbn; try done.
  - exists old, new, ck. split_and!; try done. right. exists pub, cko, (S n).
    split_and!; try done. rewrite Hpc. lia.
  - destruct Hreply as [Hreply|(ckf & n' & [Hs1 Hs2 Hs3] & Hexl & Hq)]; [by left|right].
    exists ckf, n'. by split_and!.
Qed.

(** Nothing is left to skip in the epoch the follower leaves. *)
Lemma no_skip_on_leave F L : (receiving_chain F = None) \/
  (exists pub cko n, expects F pub cko n /\ previous_chain_length L = Z.of_nat n /\
     previous_chain_length L <= U32_MAX) ->
  exists c r, stage_skip_opt (receiving_chain F) (recv_count F) (previous_chain_length L)
    (remote_dh_public F) = Ok ([], c, r).
Proof.
  intros [Hn|(pub & cko & n & [Hr Hc Hcnt] & Hpl & Hmax)]; unfold stage_skip_opt; [rewrite Hn; eauto|].
  rewrite Hc, Hr, Hcnt, Hpl, stage_skipped_chain by (unfold MAX_SKIP; solve_int).
  cbn [bind_result]. rewrite Nat.sub_diag. cbn. eauto.
Qed.

(** The follower enters the new epoch and takes the lead. *)
Lemma follower_takes_lead ad L F m pt new ck tl fresh :
  leads ad L F ((m, pt) :: new) tl -> x25519_public fresh <> dh_public F ->
  kdf_rk (root_key F) (diffie_hellman (dh_secret F) (dh_public L)) = Ok (root_key L, ck) ->
  sends L (dh_public L) ck (S (length new)) -> in_order ad (dh_public L) ck 0 ((m, pt) :: new) ->
  hd_previous_chain_length (rm_header m) = previous_chain_length L ->
  (receiving_chain F = None) \/ (exists pub cko n, expects F pub cko n /\
     previous_chain_length L = Z.of_nat n /\ previous_chain_length L <= U32_MAX) ->
  exists F', decrypt fresh m F = (F', Ok pt) /\ leads ad F' L tl new.
Proof.
  intros [HL HF Hr Hu _ Hreply [Hc1 Hc2]] Hfresh Hk Hs Ho Hpl Hleave.
  apply in_order_cons in Ho as [Hm Ho]. pose proof HF as [HF1 HF2 HF3 HF4]. pose proof HL as [HL1 HL2 HL3 HL4].
  destruct (kdf_rk_total (root_key L) (diffie_hellman fresh (dh_public L))) as (root' & snd' & Hk2).
  destruct (no_skip_on_leave F L Hleave) as (c0 & r0 & Hskip).
  exists (stepped fresh F (dh_public L) ck root' snd' 0). split.
  { apply (receive_new_epoch fresh F _ ck (root_key L) root' snd' 0 pt m c0 r0); try done.
    - intros j. by rewrite HF1.
    - by rewrite Hpl.
    - by rewrite HF3.
    - rewrite HF1, map_size_empty. unfold MAX_TOTAL_SKIPPED_KEYS. lia. }
  unfold stepped. cbn [store_skipped chain_keys map seq]. split; cbn; try done.
  - intros p Hp. rewrite Hr in Hp. injection Hp as <-. intros Heq. by apply Hfresh.
  - exists tl, [], snd'. rewrite app_nil_r.
    split_and!; [done| |by split|apply in_order_nil|by intros ? ? ?%elem_of_nil|].
    + rewrite HL4 in Hk2. by rewrite dh_agree.
    + destruct Hreply as [(_ & Hn & ->)|(ckf & n & Hsf & Hex & Hq)]; [by left|right].
      exists (dh_public F), ckf, n. pose proof (sd_count _ _ _ _ Hsf). split_and!; try done.
  - right. exists ck, 1%nat. split_and!; [done|by split|done].
Qed.

Lemma follower_receives ad L F tf tl m pt fresh : leads ad L F ((m, pt) :: tf) tl ->
  x25519_public fresh <> dh_public F ->
  exists F', decrypt fresh m F = (F', Ok pt) /\ (leads ad L F' tf tl \/ leads ad F' L tl tf).
Proof.
  intros Hl Hfresh. pose proof Hl as [_ _ _ _ (old & new & ck & Hq & Hk & Hs & Ho & Hprev & Hold) _ _].
  destruct old as [|[m0 pt0] old]; cbn in Hq; subst.
  - cbn [length] in Hs.
    destruct (follower_takes_lead ad L F m pt tf ck tl fresh) as (F' & Hd & Hl'); try done.
    + apply (Hprev m pt). by left.
    + destruct Hold as [[Hn _]|(pub & cko & n & Hex & _ & Hpc & Hpm)]; [by left|right].
      exists pub, cko, n. cbn in Hpc. rewrite Nat.add_0_r in Hpc. done.
    + exists F'. split; [done|by right].
  - injection Hq as <- <- ->.
    destruct Hold as [[_ Hnil]|(pub & cko & n & Hex & Hio & Hpc & Hpm)]; [done|].
    destruct (follower_receives_old ad L F pub cko n old m pt fresh new ck tl) as (F' & Hd & Hl'); try done.
    exists F'. split; [done|by left].
Qed.

(** ** The theorem *)

Definition convo_ok (ad : bytes) (c : convo) : Prop :=
  (leads ad (cv_a c) (cv_b c) (cv_to_b c) (cv_to_a c) \/
   leads ad (cv_b c) (cv_a c) (cv_to_a c) (cv_to_b c)) /\
  Forall (fun '(pt, r) => r = Ok pt) (cv_log c).

(** The invariant seen from one end. *)
Definition paired (ad : bytes) (me peer : DoubleRatchet) (to_me to_peer : list (RatchetMessage * bytes)) : Prop :=
  leads ad me peer to_peer to_me \/ leads ad peer me to_me to_peer.

Lemma paired_tidy ad me peer q q' : paired ad me peer q q' -> tidy ad me.
Proof. by intros [[]|[]]. Qed.

Lemma paired_sends ad me peer q q' pt me' m : paired ad me peer q q' -> send_count me < U32_MAX ->
  encrypt pt me = (me', Ok m) -> paired ad me' peer q (q' ++ [(m, pt)]).
Proof. intros [Hl|Hl] Hc He; [left; by eapply leader_sends|right; by eapply follower_sends]. Qed.

Lemma paired_receives ad me peer q q' m pt fresh : paired ad me peer ((m, pt) :: q) q' ->
  x25519_public fresh <> dh_public me ->
  exists me', decrypt fresh m me = (me', Ok pt) /\ paired ad me' peer q q'.
Proof.
  intros [Hl|Hl] Hf.
  - destruct (leader_receives ad me peer q' q pt m fresh Hl) as (me' & Hd & Hl'). exists me'. split; [done|by left].
  - destruct (follower_receives ad peer me q q' m pt fresh Hl Hf) as (me' & Hd & [Hl'|Hl']);
      exists me'; split; try done; [by right|by left].
Qed.

Lemma convo_ok_paired ad c w : convo_ok ad c <->
  paired ad (end_of w c) (end_of (other w) c) (inbox w c) (inbox (other w) c) /\
  Forall (fun '(pt, r) => r = Ok pt) (cv_log c).
Proof. unfold convo_ok, paired. destruct w; cbn; tauto. Qed.

Lemma set_end_same w c : set_end w (end_of w c) c = c.
Proof. by destruct w, c. Qed.

Lemma convo_step_ok ad c c' : convo_step c c' -> convo_ok ad c -> convo_ok ad c'.
Proof.
  intros [w pt c0 Hc|w fresh c0 Hf|w fresh m e c0 He|w c0] Hok; pose proof Hok as [Hp Hlog]%(convo_ok_paired _ _ w).
  - unfold send. destruct (encrypt pt (end_of w c0)) as [s [m|e]] eqn:He.
    + apply (paired_sends _ _ _ _ _ _ _ _ Hp Hc) in He. apply (convo_ok_paired _ _ w).
      split; destruct w; done.
    + apply encrypt_failed in He as ->. by rewrite set_end_same.
  - unfold deliver. destruct (inbox w c0) as [|[m pt] q]; [done|].
    destruct (paired_receives _ _ _ _ _ _ _ fresh Hp Hf) as (s & -> & Hp').
    apply (convo_ok_paired _ _ w). split; [by destruct w|].
    destruct w; cbn; apply Forall_app; (split; [done|by repeat constructor]).
  - unfold inject. by rewrite (failed_decrypt _ _ _ _ He), set_end_same.
  - unfold restart. by rewrite (restart_tidy ad _ (paired_tidy _ _ _ _ _ Hp)), set_end_same.
Qed.

Lemma init_leads fresh shared prekey ad A : init_sender fresh shared (x25519_public prekey) ad = Ok A ->
  leads ad A (init_receiver shared prekey (x25519_public prekey) ad) [] [].
Proof.
  intros (root & ck & Hk & ->)%init_sender_sends. split; cbn; try done.
  - exists [], [], ck. cbn.
    split_and!; [done|by rewrite dh_agree|by split|apply in_order_nil|by intros ? ? ?%elem_of_nil|by left].
  - by left.
Qed.

(** C11: a conversation never loses or alters a message.  Whatever the order in
    which the two ends send, receive, restart from their snapshots and reject
    injected messages, every message delivered so far decrypted to exactly the
    plaintext it was sent with, through any number of DH ratchet steps. *)
Theorem conversation_is_lossless fresh shared prekey ad A c :
  init_sender fresh shared (x25519_public prekey) ad = Ok A ->
  rtc convo_step (mkConvo A (init_receiver shared prekey (x25519_public prekey) ad) [] [] []) c ->
  Forall (fun '(pt, r) => r = Ok pt) (cv_log c).
Proof.
  intros Hi Hr. assert (Hok : convo_ok ad c); [|apply Hok].
  assert (H0 : convo_ok ad (mkConvo A (init_receiver shared prekey (x25519_public prekey) ad) [] [] [])).
  { split; [left; by eapply init_leads|constructor]. }
  induction Hr as [|c1 c2 c3 Hs Hr IH]; [done|]. by apply IH, (convo_step_ok ad c1 c2).
Qed.
End Proofs.

(** ** A run: greeting, answer, restart, a forgery, and another exchange *)

Definition toy_start : convo :=
  mkConvo toy_sender (init_receiver (key 9) (key 2) (x25519_public (key 2)) [7; 7]) [] [] [].

Definition forgery : RatchetMessage := mkRatchetMsg (mkHeader (key 77) 0 0) (key 0).

Definition toy_end : convo :=
  deliver Responder (key 6) (send Initiator [4]
    (inject Initiator (key 5) forgery (restart Responder
      (deliver Initiator (key 4) (send Responder [2; 3]
        (deliver Responder (key 3) (send Initiator [1] toy_start))))))).

Lemma toy_run : rtc convo_step toy_start toy_end.
Proof.
  unfold toy_end.
  eapply rtc_r; [|apply step_deliver; vm_compute; discriminate].
  eapply rtc_r; [|apply step_send; vm_compute; reflexivity].
  eapply rtc_r; [|eapply step_inject; vm_compute; reflexivity].
  eapply rtc_r; [|apply step_restart].
  eapply rtc_r; [|apply step_deliver; vm_compute; discriminate].
  eapply rtc_r; [|apply step_send; vm_compute; reflexivity].
  eapply rtc_r; [|apply step_deliver; vm_compute; discriminate].
  eapply rtc_r; [|apply step_send; vm_compute; reflexivity].
  apply rtc_refl.
Qed.

Lemma conversation_is_lossless_witness : Forall (fun '(pt, r) => r = Ok pt) (cv_log toy_end).
Proof.
  apply (conversation_is_lossless (key 1) (key 9) (key 2) [7; 7] toy_sender toy_end).
  - vm_compute. reflexivity.
  - apply toy_run.
Defined.
