(* ===== verification/RatchetRestart.v ===== *)
(** * Restarting a session is invisible

    [export_state] forgets the insertion numbers of stored keys and
    [from_state] hands out new ones; only their order matters, for eviction.
    Two sessions that agree up to that renumbering answer every further
    operation alike, so a node that restarts from its snapshot behaves exactly
    as if it had kept running. *)

From stdpp Require Import sorting.
From S2P Require Import Prelude DoubleRatchet RatchetConcrete RatchetSpec RatchetProps.

Abbreviation store := (gmap (bytes * Z) (bytes * Z)).

(** ** Key stores up to renumbering *)

(** Insertion numbers are below the counter and distinct. *)
Record numbered (m : store) (q : Z) : Prop := {
  nb_below k v a : m !! k = Some (v, a) -> a < q;
  nb_inj k k' v v' a : m !! k = Some (v, a) -> m !! k' = Some (v', a) -> k = k'
}.

(** The same keys, inserted in the same order. *)
Record matches (m1 : store) (q1 : Z) (m2 : store) (q2 : Z) : Prop := {
  mt_left : numbered m1 q1;
  mt_right : numbered m2 q2;
  mt_keys : fst <$> m1 = fst <$> m2;
  mt_order k k' v a v' a' w b w' b' :
    m1 !! k = Some (v, a) -> m1 !! k' = Some (v', a') -> m2 !! k = Some (w, b) -> m2 !! k' = Some (w', b') ->
    a < a' <-> b < b'
}.

Lemma matches_lookup m1 q1 m2 q2 k : matches m1 q1 m2 q2 -> fst <$> m1 !! k = fst <$> m2 !! k.
Proof. intros [_ _ Hk _]. by rewrite <- !lookup_fmap, Hk. Qed.

Lemma matches_some m1 q1 m2 q2 k v a : matches m1 q1 m2 q2 -> m1 !! k = Some (v, a) ->
  exists b, m2 !! k = Some (v, b).
Proof.
  intros Hm Hk. pose proof (matches_lookup _ _ _ _ k Hm) as H. rewrite Hk in H. cbn in H.
  destruct (m2 !! k) as [[w b]|]; [|done]. injection H as ->. eauto.
Qed.

Lemma matches_size m1 q1 m2 q2 : matches m1 q1 m2 q2 -> size m1 = size m2.
Proof. intros [_ _ Hk _]. by rewrite <- (map_size_fmap fst m1), Hk, map_size_fmap. Qed.

Lemma numbered_insert m q k v : numbered m q -> numbered (<[k := (v, q)]> m) (q + 1).
Proof.
  intros [Hb Hi]. split.
  - intros k' v' a [[_ [= _ <-]]|[_ Hk]]%lookup_insert_Some; [lia|]. apply Hb in Hk. lia.
  - intros k1 k2 v1 v2 a H1 H2. destruct (decide (k = k1)) as [<-|Hn1], (decide (k = k2)) as [<-|Hn2]; [done|..];
      rewrite ?lookup_insert_eq in *; rewrite ?lookup_insert_ne in * by done; simplify_eq.
    + apply Hb in H2. lia.
    + apply Hb in H1. lia.
    + by eapply Hi.
Qed.

Lemma matches_insert m1 q1 m2 q2 k v : matches m1 q1 m2 q2 ->
  matches (<[k := (v, q1)]> m1) (q1 + 1) (<[k := (v, q2)]> m2) (q2 + 1).
Proof.
  intros [H1 H2 Hk Ho]. split; [by apply numbered_insert|by apply numbered_insert|by rewrite !fmap_insert, Hk|].
  intros k1 k2 v1 a1 v2 a2 w1 b1 w2 b2 Hl1 Hl2 Hr1 Hr2.
  destruct (decide (k = k1)) as [<-|Hn1], (decide (k = k2)) as [<-|Hn2];
    rewrite ?lookup_insert_eq in *; rewrite ?lookup_insert_ne in * by done; simplify_eq.
  - lia.
  - apply (nb_below _ _ H1) in Hl2. apply (nb_below _ _ H2) in Hr2. lia.
  - apply (nb_below _ _ H1) in Hl1. apply (nb_below _ _ H2) in Hr1. lia.
  - by eapply Ho.
Qed.

Lemma numbered_delete m q k : numbered m q -> numbered (delete k m) q.
Proof.
  intros [Hb Hi]. split.
  - intros k' v' a [_ Hk]%lookup_delete_Some. by eapply Hb.
  - intros k1 k2 v1 v2 a [_ H1]%lookup_delete_Some [_ H2]%lookup_delete_Some. by eapply Hi.
Qed.

Lemma matches_delete m1 q1 m2 q2 k : matches m1 q1 m2 q2 -> matches (delete k m1) q1 (delete k m2) q2.
Proof.
  intros [H1 H2 Hk Ho]. split; [by apply numbered_delete|by apply numbered_delete|by rewrite !fmap_delete, Hk|].
  intros k1 k2 v1 a1 v2 a2 w1 b1 w2 b2 [_ ?]%lookup_delete_Some [_ ?]%lookup_delete_Some
    [_ ?]%lookup_delete_Some [_ ?]%lookup_delete_Some. by eapply Ho.
Qed.

Lemma matches_store keys m1 q1 m2 q2 : matches m1 q1 m2 q2 ->
  matches (store_skipped keys q1 m1).1 (store_skipped keys q1 m1).2
          (store_skipped keys q2 m2).1 (store_skipped keys q2 m2).2.
Proof.
  revert m1 q1 m2 q2. induction keys as [|[id key] keys IH]; intros m1 q1 m2 q2 Hm; [done|].
  cbn [store_skipped]. by apply IH, matches_insert.
Qed.

(** The oldest key is the same on both sides. *)
Lemma matches_oldest m1 q1 m2 q2 : matches m1 q1 m2 q2 -> oldest_key m1 = oldest_key m2.
Proof.
  intros Hm. destruct (oldest_key m1) as [k|] eqn:H1, (oldest_key m2) as [k'|] eqn:H2; [|exfalso..|done].
  - apply oldest_key_spec in H1 as (v & a & Hk & Hmin), H2 as (w & b & Hk' & Hmin').
    destruct (matches_some _ _ _ _ _ _ _ Hm Hk) as [b1 Hk2].
    assert (exists a', m1 !! k' = Some (w, a')) as [a' Hk1'].
    { pose proof (matches_lookup _ _ _ _ k' Hm) as H. rewrite Hk' in H.
      destruct (m1 !! k') as [[w' a']|]; [|done]. cbn in H. injection H as ->. eauto. }
    assert (a = a') as <-; [|f_equal; by eapply (nb_inj _ _ (mt_left _ _ _ _ Hm))].
    apply Hmin in Hk1' as Hle. apply Hmin' in Hk2 as Hle'. destruct (Z.eq_dec a a') as [|Hne]; [done|].
    pose proof (mt_order _ _ _ _ Hm _ _ _ _ _ _ _ _ _ _ Hk Hk1' Hk2 Hk'). lia.
  - apply oldest_key_none in H2 as ->. apply oldest_key_spec in H1 as (v & a & Hk & _).
    by apply (matches_some _ _ _ _ _ _ _ Hm) in Hk as [b Hk].
  - apply oldest_key_none in H1 as ->. apply oldest_key_spec in H2 as (v & a & Hk & _).
    pose proof (matches_lookup _ _ _ _ k' Hm) as H. by rewrite Hk in H.
Qed.

Lemma matches_evict fuel m1 q1 m2 q2 : matches m1 q1 m2 q2 -> matches (evict fuel m1) q1 (evict fuel m2) q2.
Proof.
  revert m1 m2. induction fuel as [|fuel IH]; intros m1 m2 Hm; [done|]. cbn [evict].
  rewrite (matches_size _ _ _ _ Hm), (matches_oldest _ _ _ _ Hm).
  destruct (decide _); [|done]. destruct (oldest_key m2); [|done]. by apply IH, matches_delete.
Qed.

(** ** Sessions up to renumbering *)

Section Sessions.
Context {RP : RatchetPrims}.

Definition same_session (s1 s2 : DoubleRatchet) : Prop :=
  s2 = mkRatchet (dh_secret s1) (dh_public s1) (remote_dh_public s1) (root_key s1) (sending_chain s1)
         (receiving_chain s1) (send_count s1) (recv_count s1) (previous_chain_length s1)
         (skipped_keys s2) (skipped_key_seq s2) (associated_data s1) /\
  matches (skipped_keys s1) (skipped_key_seq s1) (skipped_keys s2) (skipped_key_seq s2).

(** An operation on a session and what the caller sees of it. *)
Inductive ratchet_op : Type :=
| OpEncrypt (plaintext : bytes)
| OpDecrypt (fresh : bytes) (m : RatchetMessage).

Definition ratchet_out : Type := result RatchetError (RatchetMessage + bytes).

Definition run_ratchet_op (op : ratchet_op) (s : DoubleRatchet) : DoubleRatchet * ratchet_out :=
  match op with
  | OpEncrypt pt => let '(s', r) := encrypt pt s in (s', map_ok inl r)
  | OpDecrypt fresh m => let '(s', r) := decrypt fresh m s in (s', map_ok inr r)
  end.

Fixpoint run_ratchet_ops (ops : list ratchet_op) (s : DoubleRatchet) : DoubleRatchet * list ratchet_out :=
  match ops with
  | [] => (s, [])
  | op :: ops' =>
      let '(s', o) := run_ratchet_op op s in
      let '(s'', os) := run_ratchet_ops ops' s' in (s'', o :: os)
  end.

(** The parts of a session that staging a receive reads. *)
Lemma same_session_stage fresh s1 s2 h : same_session s1 s2 -> stage_receive fresh s1 h = stage_receive fresh s2 h.
Proof. intros [-> _]. reflexivity. Qed.

Lemma same_session_commit p s1 s2 : same_session s1 s2 -> same_session (commit_receive p s1) (commit_receive p s2).
Proof.
  intros [He Hm]. apply (matches_store (pr_skipped p)) in Hm. rewrite He. unfold commit_receive.
  cbn [skipped_keys skipped_key_seq]. revert Hm.
  destruct (store_skipped _ _ (skipped_keys s1)) as [m1 q1], (store_skipped _ _ (skipped_keys s2)) as [m2 q2].
  cbn [fst snd]. intros Hm. unfold evict_excess_skipped_keys. rewrite <- (matches_size _ _ _ _ Hm).
  apply (matches_evict (size m1)) in Hm. destruct (pr_dh_step p); split; done.
Qed.

Lemma same_session_op op s1 s2 : same_session s1 s2 ->
  (run_ratchet_op op s1).2 = (run_ratchet_op op s2).2 /\
  same_session (run_ratchet_op op s1).1 (run_ratchet_op op s2).1.
Proof.
  intros Hs. pose proof Hs as [He Hm]. destruct op as [pt|fresh m]; cbn [run_ratchet_op].
  - rewrite He. unfold encrypt. cbn [sending_chain dh_public previous_chain_length send_count].
    change (aead_ad (mkRatchet _ _ _ _ _ _ _ _ _ _ _ (associated_data s1))) with (aead_ad s1).
    destruct (bind_result _ _) as [[nx msg]|e]; cbn; split; done.
  - unfold decrypt. rewrite (same_session_stage fresh s1 s2 _ Hs).
    assert (aead_ad s2 (rm_header m) = aead_ad s1 (rm_header m)) as -> by (by rewrite He).
    pose proof (matches_lookup _ _ _ _ (hd_dh_public (rm_header m), hd_message_number (rm_header m)) Hm) as Hl.
    destruct (skipped_keys s1 !! _) as [[k1 a1]|], (skipped_keys s2 !! _) as [[k2 a2]|]; cbn in Hl; try done.
    + injection Hl as ->. destruct (aead_decrypt _ _ _); cbn; [|by split]. split; [done|].
      rewrite He. split; [done|]. by apply matches_delete.
    + destruct (stage_receive fresh s2 _) as [p|]; cbn; [|by split].
      destruct (aead_decrypt _ _ _); cbn; [|by split]. split; [done|]. by apply same_session_commit.
Qed.

Lemma same_session_ops ops s1 s2 : same_session s1 s2 ->
  (run_ratchet_ops ops s1).2 = (run_ratchet_ops ops s2).2.
Proof.
  revert s1 s2. induction ops as [|op ops IH]; intros s1 s2 Hs; [done|]. cbn [run_ratchet_ops].
  pose proof (same_session_op op s1 s2 Hs) as [Ho Hs'].
  destruct (run_ratchet_op op s1) as [s1' o1], (run_ratchet_op op s2) as [s2' o2]. cbn in Ho, Hs'.
  specialize (IH _ _ Hs'). destruct (run_ratchet_ops ops s1'), (run_ratchet_ops ops s2'). cbn in *. congruence.
Qed.

(** ** Snapshots *)

Definition entry_of (e : (bytes * Z) * (bytes * Z)) : SkippedKey :=
  let '((pub, n), (key, _)) := e in mkSkipped pub n key.

(** Importing a list without repeated keys numbers each entry by its position. *)
Lemma import_lookup l q m k : NoDup l.*1 ->
  import_skipped q (map entry_of l) m !! k =
    match list_find (fun e => e.1 = k) l with
    | Some (i, e) => Some (e.2.1, q + Z.of_nat i)
    | None => m !! k
    end.
Proof.
  revert q m. induction l as [|[[pub n] [key a]] l IH]; intros q m Hnd; [done|].
  cbn in Hnd. apply NoDup_cons in Hnd as [Hn Hnd]. cbn [map entry_of import_skipped]. rewrite IH by done.
  cbn [list_find fst]. cbn [sk_ratchet_public sk_message_number sk_message_key].
  destruct (decide _) as [<-|Hne].
  - destruct (list_find _ l) as [[i e]|] eqn:Hf.
    + apply list_find_Some in Hf as (He & Heq & _). exfalso. apply Hn.
      apply list_elem_of_fmap. exists e. split; [by rewrite Heq|]. by eapply list_elem_of_lookup_2.
    + rewrite lookup_insert_eq. cbn. do 2 f_equal. lia.
  - destruct (list_find _ l) as [[i e]|]; cbn; [do 2 f_equal; lia|]. by rewrite lookup_insert_ne.
Qed.

#[export] Instance seq_le_total : Total seq_le.
Proof. intros a b. unfold seq_le. lia. Qed.
#[export] Instance seq_le_trans : Transitive seq_le.
Proof. intros a b c. unfold seq_le. lia. Qed.

(** The position of a key in the exported list. *)
Lemma exported_position (m : store) k v a : m !! k = Some (v, a) ->
  let l := merge_sort seq_le (map_to_list m) in
  exists i e, list_find (fun e => e.1 = k) l = Some (i, e) /\ l !! i = Some (k, (v, a)) /\ e = (k, (v, a)).
Proof.
  intros Hk. cbv zeta.
  assert (Hp : merge_sort seq_le (map_to_list m) ≡ₚ map_to_list m) by apply merge_sort_Permutation.
  set (l := merge_sort seq_le (map_to_list m)) in *.
  assert (Hin : (k, (v, a)) ∈ l) by (rewrite Hp; by apply elem_of_map_to_list).
  destruct (list_find_elem_of (fun e => e.1 = k) l _ Hin eq_refl) as [[i e] Hf].
  exists i, e. pose proof Hf as (He & Heq & _)%list_find_Some.
  assert (e = (k, (v, a))) as ->; [|done].
  apply list_elem_of_lookup_2 in He. rewrite Hp in He. destruct e as [k' va]. cbn in Heq. subst k'.
  apply elem_of_map_to_list in He. rewrite Hk in He. by injection He as <-.
Qed.

Lemma exported_nodup (m : store) : NoDup (merge_sort seq_le (map_to_list m)).*1.
Proof.
  assert (Hp : merge_sort seq_le (map_to_list m) ≡ₚ map_to_list m) by apply merge_sort_Permutation.
  rewrite Hp. apply NoDup_fst_map_to_list.
Qed.

Lemma sorted_positions {A} (R : relation A) l i j x y : StronglySorted R l ->
  l !! i = Some x -> l !! j = Some y -> (i < j)%nat -> R x y.
Proof.
  intros Hs Hi Hj Hlt. rewrite <- (take_drop (S i) l) in Hs.
  eapply (StronglySorted_app_1_elem_of R _ _ x y Hs).
  - apply (list_elem_of_lookup_2 _ i). rewrite lookup_take_lt by lia. done.
  - apply (list_elem_of_lookup_2 _ (j - S i)). rewrite lookup_drop, <- Hj. f_equal. lia.
Qed.

Lemma exported_entry (m : store) i e : merge_sort seq_le (map_to_list m) !! i = Some e ->
  m !! e.1 = Some (e.2.1, e.2.2).
Proof.
  assert (Hp : merge_sort seq_le (map_to_list m) ≡ₚ map_to_list m) by apply merge_sort_Permutation.
  intros Hi%list_elem_of_lookup_2. rewrite Hp in Hi. destruct e as [k [v a]].
  by apply elem_of_map_to_list in Hi.
Qed.

(** The sorted list orders distinct numbers by position. *)
Lemma exported_order (m : store) q i j e e' : numbered m q ->
  merge_sort seq_le (map_to_list m) !! i = Some e -> merge_sort seq_le (map_to_list m) !! j = Some e' ->
  e.2.2 < e'.2.2 <-> (i < j)%nat.
Proof.
  intros Hn Hi Hj.
  assert (Hs : StronglySorted seq_le (merge_sort seq_le (map_to_list m)))
    by (apply Sorted_StronglySorted; [apply _|apply Sorted_merge_sort; apply _]).
  destruct (lt_eq_lt_dec i j) as [[Hlt| ->]|Hgt].
  - split; [done|intros _]. pose proof (sorted_positions _ _ _ _ _ _ Hs Hi Hj Hlt) as H. unfold seq_le in H.
    destruct (Z.eq_dec e.2.2 e'.2.2) as [Heq|]; [|lia]. exfalso.
    pose proof (exported_entry _ _ _ Hi) as H1. pose proof (exported_entry _ _ _ Hj) as H2. rewrite Heq in H1.
    pose proof (nb_inj _ _ Hn _ _ _ _ _ H1 H2) as Hk. pose proof (exported_nodup m) as Hnd.
    assert (i = j); [|lia]. eapply (NoDup_lookup _ i j e.1 Hnd); rewrite list_lookup_fmap;
      [by rewrite Hi|rewrite Hj; cbn; by rewrite Hk].
  - rewrite Hi in Hj. injection Hj as ->. lia.
  - pose proof (sorted_positions _ _ _ _ _ _ Hs Hj Hi Hgt) as H. unfold seq_le in H. lia.
Qed.

(** What a restarted session finds under a key. *)
Lemma restarted_lookup s k :
  skipped_keys (from_state (export_state s)) !! k =
    match skipped_keys s !! k with
    | Some (v, a) =>
        match list_find (fun e => e.1 = k) (merge_sort seq_le (map_to_list (skipped_keys s))) with
        | Some (i, _) => Some (v, Z.of_nat i)
        | None => None
        end
    | None => None
    end.
Proof.
  unfold from_state, export_state. cbn [skipped_keys rs_skipped_keys].
  change (fun '((pub, n), (key, _)) => mkSkipped pub n key) with entry_of.
  rewrite import_lookup by apply exported_nodup. destruct (skipped_keys s !! k) as [[v a]|] eqn:Hk.
  - destruct (exported_position _ _ _ _ Hk) as (i & e & -> & _ & ->). done.
  - destruct (list_find _ _) as [[i e]|] eqn:Hf; [|by rewrite lookup_empty].
    apply list_find_Some in Hf as (He & <- & _). apply exported_entry in He. by rewrite He in Hk.
Qed.

Lemma restarted_below s k v i : skipped_keys (from_state (export_state s)) !! k = Some (v, i) ->
  i < skipped_key_seq (from_state (export_state s)).
Proof.
  rewrite restarted_lookup. destruct (skipped_keys s !! k) as [[v' a]|]; [|done].
  destruct (list_find _ _) as [[j e]|] eqn:Hf; [|done]. intros [= <- <-].
  apply list_find_Some in Hf as (He & _ & _). apply lookup_lt_Some in He.
  cbn. rewrite length_map. lia.
Qed.

Lemma restart_matches s : numbered (skipped_keys s) (skipped_key_seq s) ->
  same_session s (from_state (export_state s)).
Proof.
  intros Hn. split; [done|].
  assert (Hpos : forall k v i, skipped_keys (from_state (export_state s)) !! k = Some (v, i) -> exists a p,
    skipped_keys s !! k = Some (v, a) /\ i = Z.of_nat p /\
    merge_sort seq_le (map_to_list (skipped_keys s)) !! p = Some (k, (v, a))).
  { intros k v i. rewrite restarted_lookup. destruct (skipped_keys s !! k) as [[v' a]|] eqn:Hk; [|done].
    destruct (exported_position _ _ _ _ Hk) as (p & e & -> & Hp & _). intros [= <- <-]. eauto. }
  split; [done|split| |].
  - apply restarted_below.
  - intros k k' v v' i (a & p & Hk & -> & Hp)%Hpos (a' & p' & Hk' & Heq & Hp')%Hpos.
    assert (p = p') as <- by lia. congruence.
  - apply map_eq. intros k. rewrite !lookup_fmap, restarted_lookup.
    destruct (skipped_keys s !! k) as [[v a]|] eqn:Hk; [|done].
    destruct (exported_position _ _ _ _ Hk) as (p & e & -> & _). done.
  - intros k k' v a v' a' w b w' b' Hk Hk' (a1 & p & Hk1 & -> & Hp)%Hpos (a2 & p' & Hk2 & -> & Hp')%Hpos.
    simplify_eq. pose proof (exported_order _ _ _ _ _ _ Hn Hp Hp') as Ho. cbn in Ho. lia.
Qed.

(** ** Reachable sessions *)

Lemma matches_refl (m : store) q : numbered m q -> matches m q m q.
Proof. intros Hn. split; try done. intros k k' v a v' a' w b w' b' H1 H2 H3 H4. by simplify_eq. Qed.

Record reachable_ok (s : DoubleRatchet) : Prop := {
  ro_numbered : numbered (skipped_keys s) (skipped_key_seq s);
  ro_bound : (size (skipped_keys s) <= MAX_TOTAL_SKIPPED_KEYS)%nat
}.

Lemma empty_ok s : skipped_keys s = ∅ -> reachable_ok s.
Proof.
  intros Hs. split; rewrite Hs; [split; intros k; intros; by rewrite lookup_empty in *|].
  rewrite map_size_empty. lia.
Qed.

Lemma run_op_numbered op s : numbered (skipped_keys s) (skipped_key_seq s) ->
  numbered (skipped_keys (run_ratchet_op op s).1) (skipped_key_seq (run_ratchet_op op s).1).
Proof.
  intros Hn. assert (Hs : same_session s s) by (split; [by destruct s|by apply matches_refl]).
  apply (same_session_op op) in Hs as [_ [_ Hm]]. apply Hm.
Qed.

Lemma commit_bound p s : (size (skipped_keys (commit_receive p s)) <= MAX_TOTAL_SKIPPED_KEYS)%nat.
Proof.
  unfold commit_receive. destruct (store_skipped _ _ _) as [m q].
  destruct (pr_dh_step p); apply evict_bound; done.
Qed.

Lemma run_op_bound op s : (size (skipped_keys s) <= MAX_TOTAL_SKIPPED_KEYS)%nat ->
  (size (skipped_keys (run_ratchet_op op s).1) <= MAX_TOTAL_SKIPPED_KEYS)%nat.
Proof.
  intros Hs. destruct op as [pt|fresh m]; cbn [run_ratchet_op].
  - unfold encrypt. by destruct (bind_result _ _) as [[nx msg]|e].
  - unfold decrypt. destruct (skipped_keys s !! _) as [[k a]|] eqn:Hk.
    + destruct (aead_decrypt _ _ _); [|done]. cbn [fst skipped_keys set_skipped].
      rewrite map_size_delete, Hk. cbn. lia.
    + destruct (stage_receive _ _ _) as [p|]; [|done].
      destruct (aead_decrypt _ _ _); [|done]. cbn [fst]. apply commit_bound.
Qed.

Lemma run_ratchet_ops_ok ops s : reachable_ok s -> reachable_ok (run_ratchet_ops ops s).1.
Proof.
  revert s. induction ops as [|op ops IH]; intros s [Hn Hb]; [done|]. cbn [run_ratchet_ops].
  pose proof (run_op_numbered op s Hn) as Hn'. pose proof (run_op_bound op s Hb) as Hb'.
  destruct (run_ratchet_op op s) as [s' o]. specialize (IH s' ltac:(by split)).
  by destruct (run_ratchet_ops ops s').
Qed.

(** C30: restarting is invisible.  After any operations on a new session,
    hostile messages and evictions included, the session restored from its
    snapshot answers every further sequence of operations exactly as the
    session that kept running, although the snapshot drops the insertion
    numbers of the stored keys. *)
Theorem restart_is_invisible s0 before after :
  skipped_keys s0 = ∅ ->
  let s := (run_ratchet_ops before s0).1 in
  (run_ratchet_ops after (from_state (export_state s))).2 = (run_ratchet_ops after s).2.
Proof.
  intros Hs s. symmetry. apply same_session_ops, restart_matches.
  apply ro_numbered, run_ratchet_ops_ok, empty_ok, Hs.
Qed.

(** The eviction loop ends, and the key store is bounded: whatever
    messages a peer sends, a session never holds more than 2000 skipped keys,
    and running the loop longer than once per stored key changes nothing. *)
Theorem skipped_keys_bounded s0 ops extra :
  skipped_keys s0 = ∅ ->
  let s := (run_ratchet_ops ops s0).1 in
  (size (skipped_keys s) <= MAX_TOTAL_SKIPPED_KEYS)%nat /\
  forall m, evict (size m + extra) m = evict_excess_skipped_keys m.
Proof.
  intros Hs s. split; [apply ro_bound, run_ratchet_ops_ok, empty_ok, Hs|].
  intros m. unfold evict_excess_skipped_keys. remember (size m) as n eqn:Hn.
  assert (size m <= n)%nat as Hle by lia. clear Hn. revert m Hle. induction n as [|n IH]; intros m Hle; cbn [evict plus].
  - destruct extra; cbn [evict]; [done|]. rewrite decide_False by lia. done.
  - destruct (decide _); [|done]. destruct (oldest_key m) as [k|] eqn:Hk; [|done]. apply IH.
    destruct (oldest_key_spec m k Hk) as (v & a & Hv & _). rewrite map_size_delete, Hv. cbn. lia.
Qed.

(** A message that cannot be sent or received leaves the session exactly
    as it was: no counter, chain or stored key moves. *)
Theorem failed_operation_changes_nothing op s s' e : run_ratchet_op op s = (s', Err e) -> s' = s.
Proof.
  destruct op as [pt|fresh m]; cbn [run_ratchet_op].
  - unfold encrypt. by destruct (bind_result _ _) as [[nx msg]|e']; intros [= <- _].
  - unfold decrypt. destruct (skipped_keys s !! _) as [[k a]|].
    + destruct (aead_decrypt _ _ _); by intros [= <- _].
    + destruct (stage_receive _ _ _); [destruct (aead_decrypt _ _ _)|]; by intros [= <- _].
Qed.
End Sessions.

(** ** Headers *)

(** A message header survives its 40-byte encoding. *)
Theorem header_roundtrip h : length (hd_dh_public h) = 32%nat ->
  is_u32 (hd_previous_chain_length h) -> is_u32 (hd_message_number h) ->
  header_from_bytes (header_to_bytes h) = h /\ length (header_to_bytes h) = 40%nat.
Proof.
  intros Hl Hp Hn. destruct h as [pub prev n]. cbn in Hl, Hp, Hn. unfold header_from_bytes, header_to_bytes.
  cbn [hd_dh_public hd_previous_chain_length hd_message_number].
  rewrite take_app_length', drop_app_length' by done.
  replace (drop 36 (pub ++ to_be_bytes 4 prev ++ to_be_bytes 4 n)) with (to_be_bytes 4 n).
  2: { rewrite app_assoc, drop_app_length'; [done|]. by rewrite length_app, length_to_be_bytes, Hl. }
  rewrite take_app_length' by (by rewrite length_to_be_bytes).
  rewrite (take_ge (to_be_bytes 4 n)) by (by rewrite length_to_be_bytes).
  rewrite !from_to_be_bytes by solve_int. by rewrite !length_app, !length_to_be_bytes, Hl.
Qed.

(** ** Runs *)

Definition toy_receiver : DoubleRatchet := init_receiver (key 9) (key 2) (x25519_public (key 2)) [7; 7].

(** The third message, then a restart, then the two skipped ones. *)
Lemma restart_is_invisible_witness :
  let s := (run_ratchet_ops (map (OpDecrypt (key 3)) (drop 2 toy_messages)) toy_receiver).1 in
  (run_ratchet_ops (map (OpDecrypt (key 3)) toy_messages) (from_state (export_state s))).2 =
  (run_ratchet_ops (map (OpDecrypt (key 3)) toy_messages) s).2.
Proof. apply restart_is_invisible. reflexivity. Defined.

Lemma skipped_keys_bounded_witness :
  let s := (run_ratchet_ops (map (OpDecrypt (key 3)) toy_messages) toy_receiver).1 in
  (size (skipped_keys s) <= MAX_TOTAL_SKIPPED_KEYS)%nat /\
  forall m, evict (size m + 5) m = evict_excess_skipped_keys m.
Proof. apply skipped_keys_bounded. reflexivity. Defined.

Lemma failed_operation_changes_nothing_witness :
  (run_ratchet_op (OpDecrypt (key 3) (mkRatchetMsg (mkHeader (key 1) 0 5000) [])) toy_receiver).1 = toy_receiver.
Proof.
  apply (failed_operation_changes_nothing (OpDecrypt (key 3) (mkRatchetMsg (mkHeader (key 1) 0 5000) []))
    toy_receiver _ (TooManySkipped 5000 1000)).
  apply run_result. vm_compute. reflexivity.
Defined.

Lemma header_roundtrip_witness :
  header_from_bytes (header_to_bytes (mkHeader (key 1) 7 300)) = mkHeader (key 1) 7 300 /\
  length (header_to_bytes (mkHeader (key 1) 7 300)) = 40%nat.
Proof. apply header_roundtrip; [reflexivity|vm_compute; split; discriminate..]. Defined.
