(* ===== verification/SenderKeys.v ===== *)
(** * Group sessions with sender keys

    [konsensus-crypto/src/sender_keys.rs]: every member of a group encrypts
    with a hash chain of its own, hands the chain key and a signing key to the
    other members, and walks along the chains it was handed.

    HMAC, HKDF and AES-GCM are those of [RatchetPrims], Ed25519 is [Prims] with
    the two operations of [GroupPrims]; generated keys are arguments of the
    operation that generates them.  An [expect] that fails is the outcome
    [Panicked]; counters wrap as [u32] does in a release build. *)

From S2P Require Import Prelude Text Types DoubleRatchet.

(** The public half of a signing key, and [Verifier::verify]. *)
Class GroupPrims `{Prims} := {
  ed_public : SigningKey -> bytes;
  ed_verify : VerifyingKey -> bytes -> bytes -> result string unit
}.

(** Documented behaviour: a public key parses, and verifies what its secret
    half signed. *)
Class GroupLaws `{GroupPrims} : Prop := {
  ed_correct sk : exists vk, vk_from_bytes (ed_public sk) = Ok vk /\
    forall msg, ed_verify vk msg (ed_sign sk msg) = Ok tt
}.

Inductive SenderKeyError : Type :=
| UnknownSender (node : string)
| GroupDecryptionFailed (s : string)
| EncryptionFailed (s : string)
| InvalidGroupSignature (s : string)
| TooManySkippedMessages (n max : Z)
| InvalidDistribution (s : string).

(** How a call that returns a [Result] and may panic ends otherwise. *)
Inductive group_fault : Type :=
| Raised (e : SenderKeyError)
| Panicked (msg : string).

Definition MAX_SKIP : Z := 256.
Definition SENDER_KEY_AEAD_VERSION : Z := 2.
Definition SENDER_KEY_AAD_DOMAIN : bytes := bytes_of_string "konsensus-v2-sender-key-aead".
Definition SENDER_KEY_NONCE_INFO : string := "konsensus-v2-sender-key-nonce-v2".

(** [expect]. *)
Definition expect {A} (r : result string A) (msg : string) : result group_fault A :=
  map_err (fun _ => Panicked msg) r.

Record SenderKeyDistribution := mkDist {
  ds_group_id : bytes;
  ds_sender : NodeId;
  ds_chain_key : bytes;
  ds_signing_key : bytes;
  ds_generation : Z
}.

Record GroupCiphertext := mkGroupCt {
  gc_generation : Z;
  gc_message_number : Z;
  gc_ciphertext : bytes;
  gc_signature : bytes
}.

Definition build_aad (group_id : bytes) (sender : NodeId) (generation message_number : Z) : bytes :=
  SENDER_KEY_AAD_DOMAIN ++ [SENDER_KEY_AEAD_VERSION] ++ group_id ++ sender ++
  to_be_bytes 4 generation ++ to_be_bytes 4 message_number.

Definition build_sig_payload (generation message_number : Z) (ciphertext : bytes) : bytes :=
  to_be_bytes 4 generation ++ to_be_bytes 4 message_number ++ ciphertext.

Section Chains.
Context {RP : RatchetPrims}.

Definition ratchet_chain_key (chain_key : bytes) : result group_fault (bytes * bytes) :=
  let? message_key := expect (hmac_digest chain_key [1]) "HMAC key length always valid" in
  let? next_chain := expect (hmac_digest chain_key [2]) "HMAC key length always valid" in
  Ok (next_chain, message_key).

Definition derive_nonce (message_key aad : bytes) : result group_fault bytes :=
  expect (hkdf_expand message_key aad SENDER_KEY_NONCE_INFO 12) "12 bytes is a valid HKDF output length".

Definition aead_encrypt (key plaintext aad : bytes) : result group_fault bytes :=
  let? nonce := derive_nonce key aad in
  map_err (fun e => Raised (EncryptionFailed e)) (aes_gcm_encrypt key nonce plaintext aad).

Definition aead_decrypt (key ciphertext aad : bytes) : result group_fault bytes :=
  let? nonce := derive_nonce key aad in
  map_err (fun e => Raised (GroupDecryptionFailed e)) (aes_gcm_decrypt key nonce ciphertext aad).

(** The loop over [chain_index..message_number]: the staged keys and the chain
    key after them. *)
Fixpoint stage_chain (n : nat) (chain_key : bytes) (i : Z) :
    result group_fault (list (Z * bytes) * bytes) :=
  match n with
  | O => Ok ([], chain_key)
  | S n' =>
      let? (next_chain, msg_key) := ratchet_chain_key chain_key in
      let? (skipped, last) := stage_chain n' next_chain (i + 1) in
      Ok ((i, msg_key) :: skipped, last)
  end.
End Chains.

(** ** Our own sender key *)

Section Group.
Context {PR : Prims} {GP : GroupPrims} {RP : RatchetPrims}.

Record SenderKeyState := mkSender {
  ss_chain_key : bytes;
  ss_message_count : Z;
  ss_signing_key : SigningKey;
  ss_generation : Z
}.

Definition generate (chain_key : bytes) (signing_key : SigningKey) : SenderKeyState :=
  mkSender chain_key 0 signing_key 0.

Definition distribution (s : SenderKeyState) (group_id : bytes) (sender : NodeId) : SenderKeyDistribution :=
  mkDist group_id sender (ss_chain_key s) (ed_public (ss_signing_key s)) (ss_generation s).

Definition rotate (chain_key : bytes) (signing_key : SigningKey) (s : SenderKeyState) : SenderKeyState :=
  mkSender chain_key 0 signing_key (wrapping_add_u32 (ss_generation s) 1).

(** The chain advances before the encryption that may fail. *)
Definition sender_encrypt (group_id : bytes) (sender : NodeId) (plaintext : bytes) :
    comp SenderKeyState group_fault GroupCiphertext := fun s =>
  match ratchet_chain_key (ss_chain_key s) with
  | Err e => (s, Err e)
  | Ok (next_chain, message_key) =>
      let msg_num := ss_message_count s in
      let generation := ss_generation s in
      let s' := mkSender next_chain (wrapping_add_u32 msg_num 1) (ss_signing_key s) generation in
      let aad := build_aad group_id sender generation msg_num in
      (s', let? ciphertext := aead_encrypt message_key plaintext aad in
           let sig_payload := build_sig_payload generation msg_num ciphertext in
           Ok (mkGroupCt generation msg_num ciphertext (ed_sign (ss_signing_key s) sig_payload)))
  end.

(** ** The keys of the other members, and the session *)

Record ReceiverSenderKey := mkReceiver {
  rk_chain_key : bytes;
  rk_chain_index : Z;
  rk_signing_key : VerifyingKey;
  rk_generation : Z;
  rk_skipped_keys : gmap Z bytes
}.

Record GroupSession := mkGroup {
  gs_group_id : bytes;
  gs_our_node_id : NodeId;
  gs_our_sender_key : SenderKeyState;
  gs_member_keys : gmap NodeId ReceiverSenderKey
}.

Definition group_new (chain_key : bytes) (signing_key : SigningKey) (group_id : bytes)
    (our_node_id : NodeId) : GroupSession :=
  mkGroup group_id our_node_id (generate chain_key signing_key) ∅.

Definition set_members (m : gmap NodeId ReceiverSenderKey) (s : GroupSession) : GroupSession :=
  mkGroup (gs_group_id s) (gs_our_node_id s) (gs_our_sender_key s) m.

Definition set_sender_key (k : SenderKeyState) (s : GroupSession) : GroupSession :=
  mkGroup (gs_group_id s) (gs_our_node_id s) k (gs_member_keys s).

Definition our_distribution (s : GroupSession) : SenderKeyDistribution :=
  distribution (gs_our_sender_key s) (gs_group_id s) (gs_our_node_id s).

Definition process_distribution (dist : SenderKeyDistribution) : comp GroupSession group_fault unit := fun s =>
  if negb (bool_decide (ds_group_id dist = gs_group_id s))
  then (s, Err (Raised (InvalidDistribution "group ID mismatch")))
  else
    match vk_from_bytes (ds_signing_key dist) with
    | Err e => (s, Err (Raised (InvalidDistribution ("bad signing key: " +:+ e))))
    | Ok verifying_key =>
        let entry := default (mkReceiver (replicate 32 0) 0 verifying_key 0 ∅)
                       (gs_member_keys s !! ds_sender dist) in
        let entry' :=
          if rk_generation entry <=? ds_generation dist
          then mkReceiver (ds_chain_key dist) 0 verifying_key (ds_generation dist) ∅
          else entry in
        (set_members (<[ds_sender dist := entry']> (gs_member_keys s)) s, Ok tt)
    end.

Definition encrypt (plaintext : bytes) : comp GroupSession group_fault GroupCiphertext := fun s =>
  let '(k, r) := sender_encrypt (gs_group_id s) (gs_our_node_id s) plaintext (gs_our_sender_key s) in
  (set_sender_key k s, r).

(** Reading a message with the entry of its sender: the entry it leaves. *)
Definition decrypt_entry (group_id : bytes) (sender : NodeId) (m : GroupCiphertext)
    (entry : ReceiverSenderKey) : result group_fault (ReceiverSenderKey * bytes) :=
  let number := gc_message_number m in
  check gc_generation m =? rk_generation entry
    else Raised (GroupDecryptionFailed ("generation mismatch: expected " +:+
           show_uint (rk_generation entry) +:+ ", got " +:+ show_uint (gc_generation m))) ;;
  let? _ := map_err (fun e => Raised (InvalidGroupSignature e))
    (ed_verify (rk_signing_key entry)
       (build_sig_payload (gc_generation m) number (gc_ciphertext m)) (gc_signature m)) in
  let aad := build_aad group_id sender (gc_generation m) number in
  match rk_skipped_keys entry !! number with
  | Some message_key =>
      let? plaintext := aead_decrypt message_key (gc_ciphertext m) aad in
      Ok (mkReceiver (rk_chain_key entry) (rk_chain_index entry) (rk_signing_key entry)
            (rk_generation entry) (delete number (rk_skipped_keys entry)), plaintext)
  | None =>
      check rk_chain_index entry <=? number
        else Raised (GroupDecryptionFailed "message number behind chain index with no skipped key") ;;
      let skip_count := number - rk_chain_index entry in
      check skip_count <=? MAX_SKIP else Raised (TooManySkippedMessages skip_count MAX_SKIP) ;;
      let? (skipped, chain_key) :=
        stage_chain (Z.to_nat skip_count) (rk_chain_key entry) (rk_chain_index entry) in
      let? (next_chain, message_key) := ratchet_chain_key chain_key in
      let? plaintext := aead_decrypt message_key (gc_ciphertext m) aad in
      Ok (mkReceiver next_chain (wrapping_add_u32 number 1) (rk_signing_key entry) (rk_generation entry)
            (fold_left (fun keys '(i, key) => <[i := key]> keys) skipped (rk_skipped_keys entry)),
          plaintext)
  end.

Definition decrypt (sender : NodeId) (m : GroupCiphertext) : comp GroupSession group_fault bytes := fun s =>
  match gs_member_keys s !! sender with
  | None => (s, Err (Raised (UnknownSender (NodeId_to_hex sender))))
  | Some entry =>
      match decrypt_entry (gs_group_id s) sender m entry with
      | Err e => (s, Err e)
      | Ok (entry', plaintext) => (set_members (<[sender := entry']> (gs_member_keys s)) s, Ok plaintext)
      end
  end.

(** [chain_key] and [signing_key] are the generated keys of the rotation. *)
Definition remove_member (chain_key : bytes) (signing_key : SigningKey) (node_id : NodeId)
    (s : GroupSession) : GroupSession * SenderKeyDistribution :=
  let s' := mkGroup (gs_group_id s) (gs_our_node_id s)
              (rotate chain_key signing_key (gs_our_sender_key s)) (delete node_id (gs_member_keys s)) in
  (s', our_distribution s').

Definition members (s : GroupSession) : gset NodeId := dom (gs_member_keys s).

Definition has_member (node_id : NodeId) (s : GroupSession) : bool :=
  bool_decide (is_Some (gs_member_keys s !! node_id)).
End Group.
