(* ===== verification/SenderKeysProps.v ===== *)
(** * What a group session guarantees

    Two ends of a group: one member sends, another receives in any order while
    it also talks to the rest of the group and is fed forgeries.  Everything the
    sender produced is readable once, rotations included; no message number is
    ever accepted twice; and what happens to a member that is handed the chain
    after it has moved on. *)

From S2P Require Import Prelude Text Types Concrete DoubleRatchet RatchetConcrete RatchetSpec SenderKeys.

(** ** The chain of a generation *)

Section Chain.
Context {RP : RatchetPrims} {RL : RatchetLaws}.

Lemma ratchet_chain_at ck n : ratchet_chain_key (chain_at ck n) = Ok (chain_at ck (S n), msg_key ck n).
Proof.
  pose proof (ratchet_at ck n) as Hr. unfold ratchet, hmac_sha256 in Hr. unfold ratchet_chain_key, expect.
  destruct (hmac_digest _ [1]) as [mk|]; [|done]. cbn in *.
  destruct (hmac_digest _ [2]) as [nx|]; [|done]. cbn in *. congruence.
Qed.

Lemma chain_at_add ck n m : chain_at (chain_at ck n) m = chain_at ck (n + m).
Proof.
  induction m as [|m IH]; [by rewrite Nat.add_0_r|]. rewrite Nat.add_succ_r. cbn [chain_at]. by rewrite IH.
Qed.

Lemma msg_key_add ck n m : msg_key (chain_at ck n) m = msg_key ck (n + m).
Proof. unfold msg_key. by rewrite chain_at_add. Qed.

Definition staged_keys (ck : bytes) (m n : nat) : list (Z * bytes) :=
  map (fun i => (Z.of_nat i, msg_key ck i)) (seq m n).

Lemma stage_chain_at ck n m :
  stage_chain n (chain_at ck m) (Z.of_nat m) = Ok (staged_keys ck m n, chain_at ck (m + n)).
Proof.
  revert m. induction n as [|n IH]; intros m; cbn [stage_chain].
  { by rewrite Nat.add_0_r. }
  rewrite ratchet_chain_at. cbn [bind_result]. replace (Z.of_nat m + 1) with (Z.of_nat (S m)) by lia.
  rewrite IH. cbn [bind_result]. by rewrite Nat.add_succ_r.
Qed.

Lemma group_open key pt aad ct : SenderKeys.aead_encrypt key pt aad = Ok ct -> SenderKeys.aead_decrypt key ct aad = Ok pt.
Proof.
  unfold SenderKeys.aead_encrypt, SenderKeys.aead_decrypt.
  destruct (SenderKeys.derive_nonce key aad) as [nonce|]; [|done]. cbn.
  destruct (aes_gcm_encrypt key nonce pt aad) as [c|] eqn:Hc; [|done]. intros [= <-].
  by rewrite (aes_gcm_open _ _ _ _ _ Hc).
Qed.

Definition stored (keys : gmap Z bytes) (staged : list (Z * bytes)) : gmap Z bytes :=
  fold_left (fun keys '(i, key) => <[i := key]> keys) staged keys.

Lemma stored_lookup ck n m keys z :
  stored keys (staged_keys ck m n) !! z =
  if decide (Z.of_nat m <= z < Z.of_nat (m + n)) then Some (msg_key ck (Z.to_nat z)) else keys !! z.
Proof.
  revert m keys. induction n as [|n IH]; intros m keys; cbn [staged_keys seq map stored fold_left].
  { rewrite decide_False by lia. done. }
  change (fold_left _ _ ?k) with (stored k (staged_keys ck (S m) n)). rewrite IH.
  destruct (decide (z = Z.of_nat m)) as [->|Hne].
  - rewrite decide_False, decide_True, lookup_insert_eq, Nat2Z.id by lia. done.
  - rewrite lookup_insert_ne by done.
    destruct (decide (Z.of_nat (S m) <= z < _)); [rewrite decide_True by lia|rewrite decide_False by lia]; done.
Qed.
End Chain.

(** ** Reading along a chain *)

Section Receive.
Context {PR : Prims} {GP : GroupPrims} {GL : GroupLaws} {RP : RatchetPrims} {RL : RatchetLaws}.

(** The entry of a receiver that follows generation [g] of the chain [ck] up to
    number [c] and has read the numbers [got]. *)
Record follows (ck : bytes) (vk : VerifyingKey) (g : Z) (c : nat) (got : list nat)
    (e : ReceiverSenderKey) : Prop := {
  fo_chain : rk_chain_key e = chain_at ck c;
  fo_index : rk_chain_index e = Z.of_nat c;
  fo_vk : rk_signing_key e = vk;
  fo_gen : rk_generation e = g;
  fo_keys : forall z, rk_skipped_keys e !! z =
    if decide (0 <= z < Z.of_nat c /\ Z.to_nat z ∉ got) then Some (msg_key ck (Z.to_nat z)) else None;
  fo_got : forall i, i ∈ got -> (i < c)%nat
}.

(** Message [i] of generation [g], as its sender makes it. *)
Record group_sealed (group : bytes) (a : NodeId) (ck : bytes) (sk : SigningKey) (g : Z) (i : nat)
    (pt : bytes) (m : GroupCiphertext) : Prop := {
  gse_gen : gc_generation m = g;
  gse_num : gc_message_number m = Z.of_nat i;
  gse_ct : SenderKeys.aead_encrypt (msg_key ck i) pt (build_aad group a g (Z.of_nat i)) = Ok (gc_ciphertext m);
  gse_sig : gc_signature m = ed_sign sk (build_sig_payload g (Z.of_nat i) (gc_ciphertext m))
}.

Definition verifies (vk : VerifyingKey) (sk : SigningKey) : Prop :=
  forall msg, ed_verify vk msg (ed_sign sk msg) = Ok tt.

Lemma read_new group a ck sk vk g c got e i pt m :
  follows ck vk g c got e -> verifies vk sk -> group_sealed group a ck sk g i pt m ->
  i ∉ got -> (i <= c + 256)%nat -> Z.of_nat i < U32_MAX ->
  exists e', decrypt_entry group a m e = Ok (e', pt) /\ follows ck vk g (Nat.max c (S i)) (i :: got) e'.
Proof.
  intros [Hc Hi Hv Hg Hk Hgot] Hvk [Mg Mn Mc Ms] Hnew Hwin Hmax. unfold decrypt_entry.
  rewrite Mg, Mn, Ms, Hg, Hv, Z.eqb_refl, Hvk, Hk, Hi. cbn [map_err bind_result].
  destruct (decide (i < c)%nat) as [Hlt|Hge].
  - rewrite decide_True by (rewrite Nat2Z.id; split; [lia|done]). rewrite Nat2Z.id, (group_open _ _ _ _ Mc).
    cbn [bind_result]. eexists. split; [done|]. rewrite Nat.max_l by lia.
    split; cbn [rk_chain_key rk_chain_index rk_signing_key rk_generation rk_skipped_keys]; try done.
    + intros z. destruct (decide (z = Z.of_nat i)) as [->|Hz].
      * rewrite lookup_delete_eq, decide_False; [done|]. rewrite Nat2Z.id. set_solver.
      * rewrite lookup_delete_ne, Hk by done.
        apply decide_ext. rewrite not_elem_of_cons. split; [|tauto]. intros [? ?]. split; [done|]. split; [lia|done].
    + intros j [->|Hj%Hgot]%elem_of_cons; lia.
  - rewrite decide_False by (intros [? _]; lia). rewrite (proj2 (Z.leb_le _ _)) by lia.
    rewrite (proj2 (Z.leb_le _ MAX_SKIP)) by (unfold MAX_SKIP; lia).
    replace (Z.to_nat (Z.of_nat i - Z.of_nat c)) with (i - c)%nat by lia.
    rewrite Hc, stage_chain_at. cbn [bind_result]. replace (c + (i - c))%nat with i by lia.
    rewrite ratchet_chain_at. cbn [bind_result]. rewrite (group_open _ _ _ _ Mc). cbn [bind_result].
    eexists. split; [done|]. rewrite Nat.max_r by lia.
    split; cbn [rk_chain_key rk_chain_index rk_signing_key rk_generation rk_skipped_keys]; try done.
    + unfold wrapping_add_u32. rewrite Z.mod_small by solve_int. lia.
    + intros z. change (fold_left _ ?l ?k) with (stored k l). rewrite stored_lookup, Hk.
      assert (Hgz : Z.of_nat c <= z -> Z.to_nat z ∉ got) by (intros ? ?%Hgot; lia).
      destruct (decide (z < Z.of_nat c)); [|destruct (decide (z < Z.of_nat i))].
      * rewrite decide_False by lia. apply decide_ext. rewrite not_elem_of_cons.
        split; [intros [? ?]; split_and!; [lia..|done]|tauto || naive_solver lia].
      * rewrite !decide_True by (rewrite ?not_elem_of_cons; split_and?; first [lia|auto with lia]). done.
      * rewrite !decide_False by (rewrite ?not_elem_of_cons; intros ?; destruct_and?; lia). done.
    + intros j [->|Hj%Hgot]%elem_of_cons; lia.
Qed.

Lemma read_again group a ck sk vk g c got e i pt m :
  follows ck vk g c got e -> verifies vk sk -> group_sealed group a ck sk g i pt m -> i ∈ got ->
  exists err, decrypt_entry group a m e = Err err.
Proof.
  intros [Hc Hi Hv Hg Hk Hgot] Hvk [Mg Mn Mc Ms] Hin. unfold decrypt_entry.
  rewrite Mg, Mn, Ms, Hg, Hv, Z.eqb_refl, Hvk, Hk, Hi. cbn [map_err bind_result].
  rewrite decide_False by (rewrite Nat2Z.id; tauto).
  rewrite (proj2 (Z.leb_gt _ _)); [by eexists|]. apply Hgot in Hin. lia.
Qed.

Lemma read_far group a ck sk vk g c got e i pt m :
  follows ck vk g c got e -> verifies vk sk -> group_sealed group a ck sk g i pt m -> (c + 256 < i)%nat ->
  exists err, decrypt_entry group a m e = Err err.
Proof.
  intros [Hc Hi Hv Hg Hk Hgot] Hvk [Mg Mn Mc Ms] Hfar. unfold decrypt_entry.
  rewrite Mg, Mn, Ms, Hg, Hv, Z.eqb_refl, Hvk, Hk, Hi. cbn [map_err bind_result].
  rewrite decide_False by lia. rewrite (proj2 (Z.leb_le _ _)) by lia.
  rewrite (proj2 (Z.leb_gt _ MAX_SKIP)) by (unfold MAX_SKIP; lia). by eexists.
Qed.

(** A sender that has made [n] messages of generation [g]. *)
Record leads_group (ck : bytes) (sk : SigningKey) (g : Z) (n : nat) (k : SenderKeyState) : Prop := {
  ld_chain : ss_chain_key k = chain_at ck n;
  ld_count : ss_message_count k = Z.of_nat n;
  ld_key : ss_signing_key k = sk;
  ld_gen : ss_generation k = g
}.

Lemma sender_encrypt_leads group a ck sk g n k pt : leads_group ck sk g n k -> Z.of_nat n < U32_MAX ->
  let '(k', r) := sender_encrypt group a pt k in
  leads_group ck sk g (S n) k' /\ (forall m, r = Ok m -> group_sealed group a ck sk g n pt m).
Proof.
  intros [Hc Hn Hk Hg] Hmax. unfold sender_encrypt. rewrite Hc, ratchet_chain_at.
  assert (Hw : wrapping_add_u32 (ss_message_count k) 1 = Z.of_nat (S n)).
  { unfold wrapping_add_u32. rewrite Hn, Z.mod_small by solve_int. lia. }
  split; [split; cbn [ss_chain_key ss_message_count ss_signing_key ss_generation]; done|].
  intros m. rewrite Hn, Hg, Hk.
  destruct (SenderKeys.aead_encrypt _ _ _) as [ct|] eqn:Hct; [|done]. cbn [bind_result].
  intros [= <-]. split; done.
Qed.
End Receive.

(** ** Runs of a sending and a receiving member *)

Section Runs.
Context {PR : Prims} {GP : GroupPrims} {GL : GroupLaws} {RP : RatchetPrims} {RL : RatchetLaws}.

(** [gr_sent] lists what the current generation made, number by number; an
    encryption that failed used up its number ([None]). *)
Record group_run := mkRun {
  gr_sender : GroupSession;
  gr_receiver : GroupSession;
  gr_sent : list (option (GroupCiphertext * bytes));
  gr_got : list nat
}.

Definition group_start (ck : bytes) (sk : SigningKey) (group : bytes) (a : NodeId) (rcv : GroupSession) :
    group_run :=
  let snd := group_new ck sk group a in
  mkRun snd (process_distribution (our_distribution snd) rcv).1 [] [].

(** What the receiver does for the rest of the group: operations that do not
    concern [a]. *)
Inductive elsewhere (a : NodeId) : GroupSession -> GroupSession -> Prop :=
| ew_distribution d s : ds_sender d <> a -> elsewhere a s (process_distribution d s).1
| ew_decrypt b m s : b <> a -> elsewhere a s (SenderKeys.decrypt b m s).1
| ew_encrypt pt s : elsewhere a s (SenderKeys.encrypt pt s).1
| ew_remove ck sk b s : b <> a -> elsewhere a s (remove_member ck sk b s).1.

Inductive group_step (a : NodeId) : group_run -> group_run -> Prop :=
| gs_send pt snd rcv sent got :
    Z.of_nat (length sent) < U32_MAX ->
    group_step a (mkRun snd rcv sent got)
      (mkRun (SenderKeys.encrypt pt snd).1 rcv
         (sent ++ [match (SenderKeys.encrypt pt snd).2 with Ok m => Some (m, pt) | Err _ => None end]) got)
| gs_deliver snd rcv sent got i m pt read :
    sent !! i = Some (Some (m, pt)) -> (SenderKeys.decrypt a m rcv).2 = Ok read ->
    group_step a (mkRun snd rcv sent got) (mkRun snd (SenderKeys.decrypt a m rcv).1 sent (i :: got))
| gs_reject snd rcv sent got m e :
    (SenderKeys.decrypt a m rcv).2 = Err e ->
    group_step a (mkRun snd rcv sent got) (mkRun snd (SenderKeys.decrypt a m rcv).1 sent got)
| gs_receiver snd rcv rcv' sent got :
    elsewhere a rcv rcv' -> group_step a (mkRun snd rcv sent got) (mkRun snd rcv' sent got)
| gs_sender_reads snd rcv sent got b m :
    group_step a (mkRun snd rcv sent got) (mkRun (SenderKeys.decrypt b m snd).1 rcv sent got)
| gs_sender_learns snd rcv sent got d :
    group_step a (mkRun snd rcv sent got) (mkRun (process_distribution d snd).1 rcv sent got)
| gs_rotate snd rcv sent got ck sk b :
    ss_generation (gs_our_sender_key snd) < U32_MAX ->
    group_step a (mkRun snd rcv sent got)
      (mkRun (remove_member ck sk b snd).1
         (process_distribution (remove_member ck sk b snd).2 rcv).1 [] []).

(** The two ends share a generation, and everything in [gr_sent] was sealed
    along its chain. *)
Record linked (a : NodeId) (ck : bytes) (sk : SigningKey) (vk : VerifyingKey) (g : Z) (c : nat)
    (r : group_run) : Prop := {
  lk_group : gs_group_id (gr_sender r) = gs_group_id (gr_receiver r);
  lk_sender : gs_our_node_id (gr_sender r) = a;
  lk_gen : 0 <= g;
  lk_vk : verifies vk sk;
  lk_leads : leads_group ck sk g (length (gr_sent r)) (gs_our_sender_key (gr_sender r));
  lk_count : Z.of_nat (length (gr_sent r)) <= U32_MAX;
  lk_entry : exists e, gs_member_keys (gr_receiver r) !! a = Some e /\ follows ck vk g c (gr_got r) e;
  lk_sent : forall i m pt, gr_sent r !! i = Some (Some (m, pt)) ->
    group_sealed (gs_group_id (gr_receiver r)) a ck sk g i pt m
}.

Lemma elsewhere_keeps a s s' : elsewhere a s s' ->
  gs_group_id s' = gs_group_id s /\ gs_member_keys s' !! a = gs_member_keys s !! a.
Proof.
  intros [d s0 Hd|b m s0 Hb|pt s0|ck sk b s0 Hb].
  - unfold process_distribution. destruct (negb _); [done|]. destruct (vk_from_bytes _); [|done].
    cbn. by rewrite lookup_insert_ne.
  - unfold SenderKeys.decrypt. destruct (gs_member_keys s0 !! b); [|done].
    destruct (decrypt_entry _ _ _ _) as [[e' pt]|]; [|done]. cbn. by rewrite lookup_insert_ne.
  - unfold SenderKeys.encrypt. by destruct (sender_encrypt _ _ _ _).
  - cbn. by rewrite lookup_delete_ne.
Qed.

(** Operations that do not touch the own sender key. *)
Lemma process_keeps_sender d s :
  gs_group_id (process_distribution d s).1 = gs_group_id s /\
  gs_our_node_id (process_distribution d s).1 = gs_our_node_id s /\
  gs_our_sender_key (process_distribution d s).1 = gs_our_sender_key s.
Proof. unfold process_distribution. destruct (negb _); [done|]. by destruct (vk_from_bytes _). Qed.

Lemma decrypt_keeps_sender b m s :
  gs_group_id (SenderKeys.decrypt b m s).1 = gs_group_id s /\
  gs_our_node_id (SenderKeys.decrypt b m s).1 = gs_our_node_id s /\
  gs_our_sender_key (SenderKeys.decrypt b m s).1 = gs_our_sender_key s.
Proof.
  unfold SenderKeys.decrypt. destruct (gs_member_keys s !! b); [|done].
  by destruct (decrypt_entry _ _ _ _) as [[e' pt]|].
Qed.

Lemma failed_group_decrypt b m s e : (SenderKeys.decrypt b m s).2 = Err e -> (SenderKeys.decrypt b m s).1 = s.
Proof.
  unfold SenderKeys.decrypt. destruct (gs_member_keys s !! b); [|done].
  by destruct (decrypt_entry _ _ _ _) as [[e' pt]|].
Qed.

(** A distribution for a generation at least as new starts its chain. *)
Lemma process_starts d s vk e : ds_group_id d = gs_group_id s -> vk_from_bytes (ds_signing_key d) = Ok vk ->
  gs_member_keys s !! ds_sender d = e -> (forall e0, e = Some e0 -> rk_generation e0 <= ds_generation d) ->
  0 <= ds_generation d ->
  exists e', gs_member_keys (process_distribution d s).1 !! ds_sender d = Some e' /\
    follows (ds_chain_key d) vk (ds_generation d) 0 [] e'.
Proof.
  intros Hg Hvk He Hgen H0. unfold process_distribution. rewrite (bool_decide_eq_true_2 _ Hg), Hvk, He.
  cbn [negb fst set_members gs_member_keys]. rewrite lookup_insert_eq. eexists. split; [done|].
  rewrite (proj2 (Z.leb_le _ _)) by (destruct e; cbn; [by apply Hgen|lia]).
  split; cbn; try done; [|set_solver]. intros z. rewrite decide_False by lia. done.
Qed.

Definition linked_run (a : NodeId) (r : group_run) : Prop := exists ck sk vk g c, linked a ck sk vk g c r.

(** What reading message [i] gives, decided by what was read before. *)
Lemma linked_read a ck sk vk g c r i m pt : linked a ck sk vk g c r -> gr_sent r !! i = Some (Some (m, pt)) ->
  if decide ((i ∉ gr_got r) /\ (i <= c + 256)%nat)
  then (SenderKeys.decrypt a m (gr_receiver r)).2 = Ok pt /\
       exists e', gs_member_keys (SenderKeys.decrypt a m (gr_receiver r)).1 !! a = Some e' /\
         follows ck vk g (Nat.max c (S i)) (i :: gr_got r) e'
  else exists e, (SenderKeys.decrypt a m (gr_receiver r)).2 = Err e.
Proof.
  intros [Hgr Ha Hg0 Hvk Hl Hc (e & He & Hf) Hs] Hi. pose proof (Hs i m pt Hi) as Hm.
  assert (Hlt : Z.of_nat i < U32_MAX) by (apply lookup_lt_Some in Hi; lia).
  unfold SenderKeys.decrypt. rewrite He. case_decide as Hd; [|destruct (decide (i ∈ gr_got r))].
  - destruct Hd as [Hn Hw]. destruct (read_new _ _ _ _ _ _ _ _ _ _ _ _ Hf Hvk Hm Hn Hw Hlt) as (e' & -> & Hf').
    split; [done|]. exists e'. split; [|done]. cbn. by rewrite lookup_insert_eq.
  - edestruct read_again as [err ->]; [done..|]. by eexists.
  - edestruct read_far as [err ->]; [done..| |by eexists].
    destruct (decide (i <= c + 256)%nat); [tauto|lia].
Qed.

Lemma linked_send a ck sk vk g c snd rcv sent got pt : linked a ck sk vk g c (mkRun snd rcv sent got) ->
  Z.of_nat (length sent) < U32_MAX ->
  linked a ck sk vk g c (mkRun (SenderKeys.encrypt pt snd).1 rcv
    (sent ++ [match (SenderKeys.encrypt pt snd).2 with Ok m => Some (m, pt) | Err _ => None end]) got).
Proof.
  intros [Hgr Ha Hg0 Hvk Hl Hc He Hs] Hmax. cbn in *. unfold SenderKeys.encrypt.
  pose proof (sender_encrypt_leads (gs_group_id snd) (gs_our_node_id snd) _ _ _ _ _ pt Hl Hmax) as Hse.
  destruct (sender_encrypt _ _ _ _) as [k' r]. destruct Hse as [Hl' Hr]. split; cbn; try done.
  - by rewrite length_app, Nat.add_1_r.
  - rewrite length_app. cbn. lia.
  - intros i m pt' Hi. apply lookup_app_Some in Hi as [Hi|[Hle Hi]]; [by apply Hs|].
    destruct (i - length sent)%nat eqn:Hz; [|done]. cbn in Hi. destruct r as [m0|]; [|done].
    replace i with (length sent) by lia. simplify_eq. rewrite <- Hgr. by apply Hr.
Qed.

Lemma linked_deliver a ck sk vk g c snd rcv sent got i m pt read :
  linked a ck sk vk g c (mkRun snd rcv sent got) -> sent !! i = Some (Some (m, pt)) ->
  (SenderKeys.decrypt a m rcv).2 = Ok read ->
  linked a ck sk vk g (Nat.max c (S i)) (mkRun snd (SenderKeys.decrypt a m rcv).1 sent (i :: got)).
Proof.
  intros Hlk Hi Hr. pose proof (linked_read _ _ _ _ _ _ _ _ _ _ Hlk Hi) as Hread. cbn in Hread.
  destruct Hlk as [Hgr Ha Hg0 Hvk Hl Hc He Hs]. cbn in *.
  case_decide; [|destruct Hread as [e Hread]; congruence]. destruct Hread as [_ He'].
  destruct (decrypt_keeps_sender a m rcv) as [Hk _]. split; cbn; rewrite ?Hk; done.
Qed.

Lemma linked_rotate a ck0 sk0 vk g c snd rcv sent got ck sk b :
  linked a ck0 sk0 vk g c (mkRun snd rcv sent got) -> ss_generation (gs_our_sender_key snd) < U32_MAX ->
  exists vk', linked a ck sk vk' (g + 1) 0 (mkRun (remove_member ck sk b snd).1
    (process_distribution (remove_member ck sk b snd).2 rcv).1 [] []).
Proof.
  intros [Hgr Ha Hg0 Hvk [_ _ _ Hgen] Hc (e & He & Hf) Hs] Hmax. cbn in *.
  destruct (ed_correct sk) as (vk' & Hparse & Hver). exists vk'.
  assert (Hw : wrapping_add_u32 (ss_generation (gs_our_sender_key snd)) 1 = g + 1).
  { unfold wrapping_add_u32. rewrite Z.mod_small by solve_int. lia. }
  set (d := our_distribution (mkGroup (gs_group_id snd) (gs_our_node_id snd)
    (rotate ck sk (gs_our_sender_key snd)) (delete b (gs_member_keys snd)))).
  assert (Hdg : ds_generation d = g + 1) by done. assert (Hda : ds_sender d = a) by done.
  destruct (process_starts d rcv vk' (Some e)) as (e' & He' & Hf'); try done.
  { by rewrite Hda. }
  { intros e0 [= <-]. rewrite (fo_gen _ _ _ _ _ _ Hf). lia. }
  { lia. }
  destruct (process_keeps_sender d rcv) as [Hk _].
  split; cbn; rewrite ?Hk; try done; [lia|]. exists e'. by rewrite <- Hdg, <- Hda.
Qed.

Lemma linked_step a r r' : group_step a r r' -> linked_run a r -> linked_run a r'.
Proof.
  intros Hstep (ck & sk & vk & g & c & Hlk). destruct Hstep.
  - exists ck, sk, vk, g, c. by apply linked_send.
  - eexists ck, sk, vk, g, _. by eapply linked_deliver.
  - exists ck, sk, vk, g, c. by rewrite (failed_group_decrypt _ _ _ _ H).
  - exists ck, sk, vk, g, c. destruct (elsewhere_keeps _ _ _ H) as [Hg He].
    destruct Hlk as [Hgr ? ? ? ? ? ? ?]. cbn in *. split; cbn; rewrite ?Hg, ?He; done.
  - exists ck, sk, vk, g, c. destruct (decrypt_keeps_sender b m snd) as (Hg & Ha & Hk).
    destruct Hlk as [Hgr ? ? ? ? ? ? ?]. cbn in *. split; cbn; rewrite ?Hg, ?Ha, ?Hk; done.
  - exists ck, sk, vk, g, c. destruct (process_keeps_sender d snd) as (Hg & Ha & Hk).
    destruct Hlk as [Hgr ? ? ? ? ? ? ?]. cbn in *. split; cbn; rewrite ?Hg, ?Ha, ?Hk; done.
  - destruct (linked_rotate _ _ _ _ _ _ _ _ _ _ ck0 sk0 b Hlk) as [vk' ?]; [done|].
    by exists ck0, sk0, vk', (g + 1), 0%nat.
Qed.

Lemma linked_start a ck sk group rcv : gs_group_id rcv = group -> gs_member_keys rcv !! a = None ->
  linked_run a (group_start ck sk group a rcv).
Proof.
  intros Hg Hn. destruct (ed_correct sk) as (vk & Hparse & Hver).
  set (d := our_distribution (group_new ck sk group a)).
  destruct (process_starts d rcv vk None) as (e' & He' & Hf'); try done.
  destruct (process_keeps_sender d rcv) as [Hk _].
  exists ck, sk, vk, 0, 0%nat. unfold group_start. fold d.
  split; cbn [gr_sender gr_receiver gr_sent gr_got]; rewrite ?Hk; try done. by exists e'.
Qed.
End Runs.

(** ** Message numbers *)

Section Numbers.
Context {PR : Prims} {GP : GroupPrims} {RP : RatchetPrims}.

Inductive group_op : Type :=
| OpDecrypt (sender : NodeId) (m : GroupCiphertext)
| OpEncrypt (plaintext : bytes)
| OpDistribution (d : SenderKeyDistribution)
| OpRemove (chain_key : bytes) (signing_key : SigningKey) (node : NodeId).

Definition run_group_op (op : group_op) (s : GroupSession) : GroupSession :=
  match op with
  | OpDecrypt b m => (SenderKeys.decrypt b m s).1
  | OpEncrypt pt => (SenderKeys.encrypt pt s).1
  | OpDistribution d => (process_distribution d s).1
  | OpRemove ck sk b => (remove_member ck sk b s).1
  end.

(** The message numbers of [a] that a run of operations reads, in order. *)
Fixpoint numbers_read (a : NodeId) (ops : list group_op) (s : GroupSession) : list Z :=
  match ops with
  | [] => []
  | op :: ops' =>
      match op with
      | OpDecrypt b m =>
          if bool_decide (b = a) && is_ok (SenderKeys.decrypt b m s).2 then [gc_message_number m] else []
      | _ => []
      end ++ numbers_read a ops' (run_group_op op s)
  end.

(** Operations that leave the chain of [a] alone; [u32::MAX] is the number
    after which the chain index wraps. *)
Definition keeps_chain (a : NodeId) (op : group_op) : Prop :=
  match op with
  | OpDecrypt b m => b = a -> 0 <= gc_message_number m < U32_MAX
  | OpEncrypt _ => True
  | OpDistribution d => ds_sender d <> a
  | OpRemove _ _ b => b <> a
  end.

(** Number [k] lies behind the chain and has no stored key. *)
Definition entry_spent (k : Z) (e : ReceiverSenderKey) : Prop :=
  k < rk_chain_index e /\ rk_skipped_keys e !! k = None.

Definition spent (a : NodeId) (k : Z) (s : GroupSession) : Prop :=
  exists e, gs_member_keys s !! a = Some e /\ entry_spent k e.

Lemma fold_insert_lookup (l : list (Z * bytes)) (keys : gmap Z bytes) k :
  keys !! k = None -> k ∉ l.*1 -> fold_left (fun keys '(i, key) => <[i := key]> keys) l keys !! k = None.
Proof.
  revert keys. induction l as [|[i key] l IH]; intros keys Hk Hl; [done|]. cbn in *.
  apply not_elem_of_cons in Hl as [Hne Hl]. apply IH; [|done]. by rewrite lookup_insert_ne.
Qed.

Lemma stage_chain_numbers n ck i skipped last : stage_chain n ck i = Ok (skipped, last) ->
  forall k, k ∈ skipped.*1 -> i <= k < i + Z.of_nat n.
Proof.
  revert ck i skipped last. induction n as [|n IH]; intros ck i skipped last; cbn [stage_chain].
  { intros [= <- _] k Hk. by apply elem_of_nil in Hk. }
  destruct (ratchet_chain_key ck) as [[nx mk]|]; [|done]. cbn [bind_result].
  destruct (stage_chain n nx (i + 1)) as [[sk' l']|] eqn:Hs; [|done]. cbn [bind_result].
  intros [= <- <-] k [->|Hk]%elem_of_cons; [cbn; lia|]. apply (IH _ _ _ _ Hs) in Hk. lia.
Qed.

(** Every stored key belongs to a number behind the chain. *)
Definition entry_ok (e : ReceiverSenderKey) : Prop :=
  forall k, is_Some (rk_skipped_keys e !! k) -> k < rk_chain_index e.

Definition group_ok (a : NodeId) (s : GroupSession) : Prop :=
  forall e, gs_member_keys s !! a = Some e -> entry_ok e.

(** A read spends its number and keeps the spent ones. *)
Lemma decrypt_entry_spends group a m e e' pt : 0 <= gc_message_number m < U32_MAX -> entry_ok e ->
  decrypt_entry group a m e = Ok (e', pt) ->
  ~ entry_spent (gc_message_number m) e /\ entry_spent (gc_message_number m) e' /\ entry_ok e' /\
  forall k, entry_spent k e -> entry_spent k e'.
Proof.
  intros Hr Hok. unfold decrypt_entry, entry_spent. destruct (gc_generation m =? _); [|done].
  destruct (ed_verify _ _ _); [|done]. cbn [map_err bind_result].
  destruct (rk_skipped_keys e !! gc_message_number m) as [mk|] eqn:Hk.
  - destruct (SenderKeys.aead_decrypt _ _ _); [|done]. cbn [bind_result]. intros [= <- _].
    cbn [rk_chain_index rk_skipped_keys]. split; [intros [_ ?]; done|].
    split; [split; [apply Hok; by rewrite Hk|apply lookup_delete_eq]|]. split.
    + intros k [x Hx]. cbn in *. apply lookup_delete_Some in Hx as [_ Hx]. apply Hok. by rewrite Hx.
    + intros k [Hlt Hno]. split; [done|]. rewrite lookup_delete_ne; [done|]. intros <-. congruence.
  - destruct (_ <=? gc_message_number m) eqn:Hle; [|done]. apply Z.leb_le in Hle.
    destruct (_ <=? MAX_SKIP); [|done].
    destruct (stage_chain _ _ _) as [[skipped last]|] eqn:Hst; [|done]. cbn [bind_result].
    destruct (ratchet_chain_key last) as [[nx key]|]; [|done]. cbn [bind_result].
    destruct (SenderKeys.aead_decrypt _ _ _); [|done]. cbn [bind_result]. intros [= <- _].
    assert (Hw : wrapping_add_u32 (gc_message_number m) 1 = gc_message_number m + 1).
    { unfold wrapping_add_u32. apply Z.mod_small. solve_int. }
    pose proof (stage_chain_numbers _ _ _ _ _ Hst) as Hn. cbn [rk_chain_index rk_skipped_keys].
    unfold entry_ok. cbn [rk_chain_index rk_skipped_keys]. rewrite Hw.
    split; [intros [? _]; lia|]. split_and!.
    + lia.
    + apply fold_insert_lookup; [done|]. intros ?%Hn. lia.
    + intros k Hsome. destruct (decide (k < gc_message_number m + 1)); [done|exfalso].
      rewrite fold_insert_lookup in Hsome; [by destruct Hsome| |intros ?%Hn; lia].
      destruct (rk_skipped_keys e !! k) eqn:Hx; [|done]. specialize (Hok k ltac:(by rewrite Hx)). lia.
    + intros k [Hlt Hno]. split; [lia|]. apply fold_insert_lookup; [done|]. intros ?%Hn. lia.
Qed.

(** What an operation does to the entry of [a]. *)
Lemma run_group_op_entry a op s : keeps_chain a op ->
  gs_member_keys (run_group_op op s) !! a = gs_member_keys s !! a \/
  exists m e e' pt, op = OpDecrypt a m /\ gs_member_keys s !! a = Some e /\
    decrypt_entry (gs_group_id s) a m e = Ok (e', pt) /\
    gs_member_keys (run_group_op op s) !! a = Some e'.
Proof.
  intros Hop. destruct op as [b m|pt|d|ck sk b]; cbn [keeps_chain run_group_op] in *.
  - destruct (decide (b = a)) as [->|Hne];
      [|left; by apply (elsewhere_keeps a s); constructor].
    unfold SenderKeys.decrypt. destruct (gs_member_keys s !! a) as [e|] eqn:He; [|by left].
    destruct (decrypt_entry _ _ _ _) as [[e' pt]|] eqn:Hd; [|by left].
    right. exists m, e, e', pt. cbn. by rewrite lookup_insert_eq.
  - left. by apply (elsewhere_keeps a s); constructor.
  - left. by apply (elsewhere_keeps a s); constructor.
  - left. by apply (elsewhere_keeps a s); constructor.
Qed.

Lemma run_group_op_spent a op s : keeps_chain a op -> group_ok a s ->
  group_ok a (run_group_op op s) /\ forall k, spent a k s -> spent a k (run_group_op op s).
Proof.
  intros Hop Hok. destruct (run_group_op_entry a op s Hop) as [Hsame|(m & e & e' & pt & -> & He & Hd & He')].
  - unfold group_ok, spent. by rewrite Hsame.
  - destruct (decrypt_entry_spends _ _ _ _ _ _ (Hop eq_refl) (Hok e He) Hd) as (_ & _ & Hok' & Hsp).
    split; [intros e0; rewrite He'; by intros [= <-]|]. intros k (e0 & He0 & Hk).
    exists e'. split; [done|]. apply Hsp. by rewrite He in He0; simplify_eq.
Qed.

Lemma numbers_read_fresh a ops s k : Forall (keeps_chain a) ops -> group_ok a s -> spent a k s ->
  k ∉ numbers_read a ops s.
Proof.
  revert s. induction ops as [|op ops IH]; intros s Hops Hok Hsp; [apply not_elem_of_nil|].
  apply Forall_cons in Hops as [Hop Hops]. cbn [numbers_read].
  destruct (run_group_op_spent a op s Hop Hok) as [Hok' Hsp'].
  apply not_elem_of_app. split; [|apply IH; auto].
  destruct op as [b m| | |]; try apply not_elem_of_nil.
  destruct (bool_decide_reflect (b = a)) as [->|]; [|apply not_elem_of_nil]. cbn [andb].
  unfold SenderKeys.decrypt. destruct Hsp as (e & He & Hk). rewrite He.
  destruct (decrypt_entry _ _ _ _) as [[e' pt]|] eqn:Hd; [|apply not_elem_of_nil]. cbn.
  destruct (decrypt_entry_spends _ _ _ _ _ _ (Hop eq_refl) (Hok e He) Hd) as (Hnot & _).
  intros ->%list_elem_of_singleton. done.
Qed.

(** No replay within a distribution.  Whatever operations a session goes
    through and whoever made the messages, the sender's own key included, a
    message number of a member is read at most once until a distribution of that
    member is processed or the member is removed.  [u32::MAX], where the chain
    index wraps to 0, is excluded. *)
Theorem number_read_once a ops s :
  Forall (keeps_chain a) ops -> group_ok a s -> NoDup (numbers_read a ops s).
Proof.
  revert s. induction ops as [|op ops IH]; intros s Hops Hok; [constructor|].
  apply Forall_cons in Hops as [Hop Hops]. cbn [numbers_read].
  destruct (run_group_op_spent a op s Hop Hok) as [Hok' _].
  destruct op as [b m| | |]; try by apply IH.
  destruct (bool_decide_reflect (b = a)) as [->|]; [|by apply IH]. cbn [andb].
  destruct (run_group_op_entry a _ s Hop) as [Hsame|(m' & e & e' & pt & [= <-] & He & Hd & He')].
  - destruct (is_ok _) eqn:Hk; [|by apply IH]. exfalso. revert Hsame Hk. cbn [run_group_op].
    unfold SenderKeys.decrypt. destruct (gs_member_keys s !! a) as [e|] eqn:He; [|done].
    destruct (decrypt_entry _ _ _ _) as [[e' pt]|] eqn:Hd; [|done]. cbn. rewrite lookup_insert_eq.
    intros [= ->] _.
    by destruct (decrypt_entry_spends _ _ _ _ _ _ (Hop eq_refl) (Hok e He) Hd) as (? & ? & _).
  - destruct (is_ok _); [|by apply IH]. cbn [app]. constructor; [|by apply IH].
    apply numbers_read_fresh; [done..|]. exists e'. split; [done|].
    by destruct (decrypt_entry_spends _ _ _ _ _ _ (Hop eq_refl) (Hok e He) Hd) as (_ & ? & _).
Qed.
End Numbers.

(** ** Theorems about chains *)

Section Delivery.
Context {PR : Prims} {GP : GroupPrims} {GL : GroupLaws} {RP : RatchetPrims} {RL : RatchetLaws}.

Lemma linked_reachable a r r' : rtc (group_step a) r r' -> linked_run a r -> linked_run a r'.
Proof. induction 1 as [|x y z Hs _ IH]; [done|]. intros Hr. by apply IH, (linked_step a x). Qed.

(** C31: group delivery.  After any run of sends, deliveries in any order,
    rejected forgeries, traffic with the rest of the group and rotations, a
    message the sender made in the current generation reads as exactly what was
    sent if it was not read before and is at most [MAX_SKIP] ahead of the
    receiver; otherwise it is rejected. *)
Theorem group_messages_delivered ck sk group a rcv r i m pt :
  gs_group_id rcv = group -> gs_member_keys rcv !! a = None ->
  rtc (group_step a) (group_start ck sk group a rcv) r ->
  gr_sent r !! i = Some (Some (m, pt)) ->
  exists e, gs_member_keys (gr_receiver r) !! a = Some e /\
    if decide ((i ∉ gr_got r) /\ Z.of_nat i <= rk_chain_index e + MAX_SKIP)
    then (SenderKeys.decrypt a m (gr_receiver r)).2 = Ok pt
    else exists err, (SenderKeys.decrypt a m (gr_receiver r)).2 = Err err.
Proof.
  intros Hg Hn Hr Hi.
  destruct (linked_reachable _ _ _ Hr (linked_start a ck sk group rcv Hg Hn)) as (ck' & sk' & vk & g & c & Hlk).
  pose proof (linked_read _ _ _ _ _ _ _ _ _ _ Hlk Hi) as Hread.
  destruct (lk_entry _ _ _ _ _ _ _ Hlk) as (e & He & Hf). exists e. split; [done|].
  rewrite (fo_index _ _ _ _ _ _ Hf). unfold MAX_SKIP.
  case_decide as Hd; case_decide as Hd'; try tauto; exfalso; destruct_and?; apply Hd' || apply Hd; split; first [done|lia].
Qed.

Fixpoint encrypt_group (pts : list bytes) (s : GroupSession) : GroupSession :=
  match pts with
  | [] => s
  | pt :: pts' => encrypt_group pts' (SenderKeys.encrypt pt s).1
  end.

Lemma encrypt_group_leads ck sk g pts n s : leads_group ck sk g n (gs_our_sender_key s) ->
  Z.of_nat (n + length pts) <= U32_MAX ->
  let s' := encrypt_group pts s in
  leads_group ck sk g (n + length pts) (gs_our_sender_key s') /\
  gs_group_id s' = gs_group_id s /\ gs_our_node_id s' = gs_our_node_id s.
Proof.
  revert n s. induction pts as [|pt pts IH]; intros n s Hl Hmax; cbn [encrypt_group length] in *.
  { by rewrite Nat.add_0_r. }
  pose proof (sender_encrypt_leads (gs_group_id s) (gs_our_node_id s) _ _ _ _ _ pt Hl ltac:(lia)) as Hse.
  unfold SenderKeys.encrypt. destruct (sender_encrypt _ _ _ _) as [k r]. destruct Hse as [Hl' _].
  rewrite <- Nat.add_succ_comm in *. by apply (IH (S n) (set_sender_key k s)).
Qed.

(** C40: a member that joins late.  In the first generation of a sender's chain, a
    distribution made after [n] messages to a member without a key of the sender
    hands out the chain at position [n], but the receiver counts it from 0.  The next
    message is sealed with key [n] of the chain; when [n] is at most [MAX_SKIP], the
    receiver tries key [2 n] on it, and when [n] is more, it refuses the message as too far ahead and tries no key. *)
Theorem late_member_tries_wrong_key ck sk group a rcv pts pt snd' m :
  gs_group_id rcv = group -> gs_member_keys rcv !! a = None -> Z.of_nat (length pts) < U32_MAX ->
  let snd := encrypt_group pts (group_new ck sk group a) in
  SenderKeys.encrypt pt snd = (snd', Ok m) ->
  let n := length pts in
  let aad := build_aad group a 0 (Z.of_nat n) in
  SenderKeys.aead_encrypt (msg_key ck n) pt aad = Ok (gc_ciphertext m) /\
  (SenderKeys.decrypt a m (process_distribution (our_distribution snd) rcv).1).2 =
    if Z.of_nat n <=? MAX_SKIP then SenderKeys.aead_decrypt (msg_key ck (n + n)) (gc_ciphertext m) aad
    else Err (Raised (TooManySkippedMessages (Z.of_nat n) MAX_SKIP)).
Proof.
  intros Hg Hn Hlen snd He n aad.
  destruct (encrypt_group_leads ck sk 0 pts 0 (group_new ck sk group a)) as (Hl & Hgs & Has); [done|solve_int|].
  fold snd n in Hl, Hgs, Has. cbn [Nat.add group_new gs_group_id gs_our_node_id] in *.
  pose proof (sender_encrypt_leads group a _ _ _ _ _ pt Hl ltac:(unfold n; solve_int)) as Hse.
  unfold SenderKeys.encrypt in He. rewrite Hgs, Has in He.
  destruct (sender_encrypt _ _ _ _) as [k r]. destruct Hse as [_ Hm]. injection He as _ ->.
  destruct (Hm m eq_refl) as [Mg Mn Mc Ms]. split; [exact Mc|].
  destruct (ed_correct sk) as (vk & Hparse & Hver). destruct Hl as [Lc Ln Lk Lg].
  assert (Hd : our_distribution snd = mkDist group a (chain_at ck n) (ed_public sk) 0).
  { unfold our_distribution, distribution. by rewrite Hgs, Has, Lc, Lk, Lg. }
  destruct (process_starts (our_distribution snd) rcv vk None) as (e & Hent & Hf); rewrite ?Hd; try done.
  rewrite Hd in Hent, Hf. cbn [ds_sender ds_chain_key ds_generation] in *.
  unfold SenderKeys.decrypt. rewrite Hent.
  destruct (process_keeps_sender (mkDist group a (chain_at ck n) (ed_public sk) 0) rcv) as [-> _].
  destruct Hf as [Fc Fi Fv Fg Fk _]. unfold decrypt_entry.
  rewrite Mg, Mn, Ms, Fg, Fv, Z.eqb_refl, Hver, Fk, Fi. cbn [map_err bind_result].
  rewrite decide_False by lia. rewrite (proj2 (Z.leb_le _ _)) by lia.
  rewrite Z.sub_0_r. destruct (Z.of_nat n <=? MAX_SKIP) eqn:Hskip; [|done].
  rewrite Fc, Nat2Z.id, (stage_chain_at (chain_at ck n) n 0). cbn [bind_result].
  rewrite Nat.add_0_l, ratchet_chain_at. cbn [bind_result]. rewrite msg_key_add.
  rewrite Hg. unfold aad. by destruct (SenderKeys.aead_decrypt _ _ _).
Qed.
End Delivery.

(** ** Concrete runs *)

Definition toy_verify (vk msg sig : bytes) : result string unit :=
  if bool_decide (drop 32 sig = fold32 9 msg) then Ok tt else Err "signature error".

#[export] Instance toy_group : @GroupPrims toy_prims := Build_GroupPrims toy_prims (fold32 8) toy_verify.

#[export] Instance toy_group_laws : @GroupLaws toy_prims toy_group.
Proof.
  split. intros sk. exists (fold32 8 sk). split.
  - cbn [vk_from_bytes toy_prims ed_public toy_group]. by rewrite length_fold32.
  - intros msg. cbn [ed_verify ed_sign toy_prims toy_group].
    unfold toy_verify. rewrite bool_decide_eq_true_2; [done|]. unfold toy_sign.
    rewrite take_ge by (rewrite length_app, !length_fold32; lia).
    apply drop_app_length'. symmetry. apply length_fold32.
Qed.

Definition node (b : Z) : NodeId := replicate 32 b.
Definition toy_alice : GroupSession (PR := toy_prims) := group_new (PR := toy_prims) (node 1) (node 2) (node 9) (node 65).
Definition toy_bob : GroupSession (PR := toy_prims) := group_new (PR := toy_prims) (node 3) (node 4) (node 9) (node 66).

Definition toy_send (pt : bytes) (r : group_run (PR := toy_prims)) : group_run :=
  mkRun (SenderKeys.encrypt pt (gr_sender r)).1 (gr_receiver r)
    (gr_sent r ++ [match (SenderKeys.encrypt pt (gr_sender r)).2 with Ok m => Some (m, pt) | Err _ => None end])
    (gr_got r).

Definition toy_sent (r : group_run (PR := toy_prims)) (i : nat) : GroupCiphertext :=
  match gr_sent r !! i with
  | Some (Some (m, _)) => m
  | _ => mkGroupCt 0 0 [] []
  end.

Definition toy_deliver (i : nat) (r : group_run (PR := toy_prims)) : group_run :=
  mkRun (gr_sender r) (SenderKeys.decrypt (node 65) (toy_sent r i) (gr_receiver r)).1 (gr_sent r) (i :: gr_got r).

(** Three messages leave and the third arrives first. *)
Definition toy_group_start : group_run :=
  group_start (PR := toy_prims) (node 1) (node 2) (node 9) (node 65) toy_bob.
Definition toy_group_end : group_run :=
  toy_deliver 2 (toy_send [4] (toy_send [2; 3] (toy_send [1] toy_group_start))).

Lemma toy_group_run : rtc (group_step (node 65)) toy_group_start toy_group_end.
Proof.
  unfold toy_group_end, toy_deliver.
  eapply rtc_r; [|apply gs_deliver with (pt := [4]) (read := [4]); vm_compute; reflexivity].
  eapply rtc_r; [|apply gs_send; vm_compute; reflexivity].
  eapply rtc_r; [|apply gs_send; vm_compute; reflexivity].
  eapply rtc_r; [|apply gs_send; vm_compute; reflexivity].
  apply rtc_refl.
Qed.

Lemma group_messages_delivered_witness :
  exists e, gs_member_keys (gr_receiver toy_group_end) !! node 65 = Some e /\
    if decide ((0%nat ∉ gr_got toy_group_end) /\ Z.of_nat 0 <= rk_chain_index e + MAX_SKIP)
    then (SenderKeys.decrypt (node 65) (toy_sent toy_group_end 0) (gr_receiver toy_group_end)).2 = Ok [1]
    else exists err,
      (SenderKeys.decrypt (node 65) (toy_sent toy_group_end 0) (gr_receiver toy_group_end)).2 = Err err.
Proof.
  apply (group_messages_delivered (PR := toy_prims) (node 1) (node 2) (node 9) (node 65) toy_bob toy_group_end 0).
  - reflexivity.
  - apply lookup_empty.
  - apply toy_group_run.
  - vm_compute. reflexivity.
Defined.

(** Bob reads the third message, twice; the second time it is refused. *)
Definition toy_number_ops : list (group_op (PR := toy_prims)) :=
  [OpDecrypt (node 65) (toy_sent toy_group_end 0); OpEncrypt [7];
   OpDecrypt (node 65) (toy_sent toy_group_end 0); OpDecrypt (node 65) (toy_sent toy_group_end 1)].

Lemma number_read_once_witness :
  numbers_read (node 65) toy_number_ops (gr_receiver toy_group_start) = [0; 1] /\
  NoDup (numbers_read (node 65) toy_number_ops (gr_receiver toy_group_start)).
Proof.
  split; [vm_compute; reflexivity|].
  apply (number_read_once (PR := toy_prims) (node 65) toy_number_ops (gr_receiver toy_group_start)).
  - unfold toy_number_ops. repeat (apply Forall_cons_2; [cbn [keeps_chain];
      first [exact I|intros _; apply (bool_decide_unpack _); vm_compute; exact I]|]). apply Forall_nil_2.
  - intros e. cbn [toy_group_start gr_receiver group_start]. unfold process_distribution.
    rewrite bool_decide_eq_true_2 by reflexivity. cbn [negb]. destruct (vk_from_bytes _) as [vk|];
      [|cbn [fst]; unfold toy_bob, group_new; cbn [gs_member_keys]; by rewrite lookup_empty].
    cbn [fst set_members gs_member_keys]. rewrite lookup_insert_eq. intros [= <-] k.
    cbn. rewrite lookup_empty. by intros [].
Defined.

Lemma late_member_tries_wrong_key_witness :
  (SenderKeys.decrypt (PR := toy_prims) (node 65) (toy_sent toy_group_end 2)
     (process_distribution (our_distribution (encrypt_group [[1]; [2; 3]] toy_alice)) toy_bob).1).2 =
  if Z.of_nat 2 <=? MAX_SKIP
  then SenderKeys.aead_decrypt (msg_key (node 1) 4) (gc_ciphertext (toy_sent toy_group_end 2))
    (build_aad (node 9) (node 65) 0 (Z.of_nat 2))
  else Err (Raised (TooManySkippedMessages (Z.of_nat 2) MAX_SKIP)).
Proof.
  apply (late_member_tries_wrong_key (PR := toy_prims) (node 1) (node 2) (node 9) (node 65) toy_bob
    [[1]; [2; 3]] [4] (encrypt_group [[1]; [2; 3]; [4]] toy_alice)).
  - reflexivity.
  - apply lookup_empty.
  - reflexivity.
  - apply injective_projections; [reflexivity|vm_compute; reflexivity].
Defined.
