(* ===== verification/BTree.v ===== *)
(** * Ordered maps and text of the spend ledger

    A [BTreeMap<String, A>] is a [gmap string A]; where the source iterates it
    in key order, [entries] lists it in that order.  [str::trim] and
    [to_ascii_lowercase] work on the UTF-8 bytes of a string. *)

From Stdlib Require Import Ascii.
From stdpp Require Import sorting.
From S2P Require Import Prelude Text.

(** [String]'s order is that of its bytes. *)
Definition key_le {A} (x y : string * A) : Prop := String.leb x.1 y.1 = true.
#[export] Instance key_le_dec {A} (x y : string * A) : Decision (key_le x y).
Proof. unfold key_le. apply _. Defined.

Definition entries {A} (m : gmap string A) : list (string * A) := merge_sort key_le (map_to_list m).

Lemma entries_perm {A} (m : gmap string A) : entries m ≡ₚ map_to_list m.
Proof. apply merge_sort_Permutation. Qed.

(** A [BTreeSet<String>] in order. *)
Definition str_le (a b : string) : Prop := String.leb a b = true.
#[export] Instance str_le_dec a b : Decision (str_le a b).
Proof. unfold str_le. apply _. Defined.

Definition in_order (s : gset string) : list string := merge_sort str_le (elements s).

Lemma in_order_perm s : in_order s ≡ₚ elements s.
Proof. apply merge_sort_Permutation. Qed.

Lemma elem_of_entries {A} (m : gmap string A) k x : (k, x) ∈ entries m <-> m !! k = Some x.
Proof. by rewrite entries_perm, elem_of_map_to_list. Qed.

(** Sums over maps. *)
Definition map_sum (m : gmap string Z) : Z := map_fold (fun _ x acc => x + acc) 0 m.

Lemma map_sum_empty : map_sum ∅ = 0.
Proof. apply map_fold_empty. Qed.

Lemma map_sum_insert m k x : m !! k = None -> map_sum (<[k := x]> m) = x + map_sum m.
Proof. intros Hk. unfold map_sum. rewrite map_fold_insert_L; [done|intros; lia|done]. Qed.

Lemma map_sum_delete m k x : m !! k = Some x -> map_sum m = x + map_sum (delete k m).
Proof. intros Hk. unfold map_sum. rewrite (map_fold_delete_L _ _ k x); [done|intros; lia|done]. Qed.

Lemma map_sum_update m k x y : m !! k = Some x -> map_sum (<[k := y]> m) = map_sum m - x + y.
Proof.
  intros Hk. rewrite <- insert_delete_eq, map_sum_insert, (map_sum_delete m k x) by (done || apply lookup_delete_eq).
  lia.
Qed.

Lemma map_sum_nonneg m : map_Forall (fun _ x => 0 <= x) m -> 0 <= map_sum m.
Proof.
  induction m as [|k x m Hk IH] using map_ind; [by rewrite map_sum_empty|].
  rewrite map_Forall_insert, map_sum_insert by done. intros [? ?%IH]. lia.
Qed.

(** ** Text *)

(** The characters of Unicode's White_Space property, in UTF-8. *)
Definition white_space : list (list nat) :=
  [[9]; [10]; [11]; [12]; [13]; [32]; [194; 133]; [194; 160]; [225; 154; 128]]%nat ++
  map (fun i => [226; 128; 128 + i]%nat) (seq 0 11) ++
  [[226; 128; 168]; [226; 128; 169]; [226; 128; 175]; [226; 129; 159]; [227; 128; 128]]%nat.

Fixpoint strip_codes (p : list nat) (l : list ascii) : option (list ascii) :=
  match p, l with
  | [], _ => Some l
  | c :: p', a :: l' => if (nat_of_ascii a =? c)%nat then strip_codes p' l' else None
  | _, _ => None
  end.

Fixpoint strip_one (ps : list (list nat)) (l : list ascii) : option (list ascii) :=
  match ps with
  | [] => None
  | p :: ps' => match strip_codes p l with Some l' => Some l' | None => strip_one ps' l end
  end.

(** Every round removes a character, so the length is fuel enough. *)
Fixpoint trim_front (fuel : nat) (ps : list (list nat)) (l : list ascii) : list ascii :=
  match fuel with
  | O => l
  | S f => match strip_one ps l with Some l' => trim_front f ps l' | None => l end
  end.

Definition trim (s : string) : string :=
  let l := String.list_ascii_of_string s in
  let l := trim_front (length l) white_space l in
  String.string_of_list_ascii (rev (trim_front (length l) (map (@rev nat) white_space) (rev l))).

Definition ascii_to_lowercase (c : ascii) : ascii :=
  let n := nat_of_ascii c in
  if ((65 <=? n) && (n <=? 90))%nat then ascii_of_nat (n + 32) else c.

Definition to_ascii_lowercase (s : string) : string :=
  String.string_of_list_ascii (map ascii_to_lowercase (String.list_ascii_of_string s)).

Definition is_ascii_hexdigit (c : ascii) : bool :=
  let n := nat_of_ascii c in
  ((48 <=? n) && (n <=? 57) || (65 <=? n) && (n <=? 70) || (97 <=? n) && (n <=? 102))%nat.

(** ** Integers *)

Definition I64_MIN : Z := - 2 ^ 63.

(** [saturating_sub] of [i64]. *)
Definition i64_saturating_sub (a b : Z) : Z := Z.max I64_MIN (Z.min I64_MAX (a - b)).

(** [checked_add] and [checked_mul] of [u64]. *)
Definition checked_add (a b : Z) : option Z := if a + b <=? U64_MAX then Some (a + b) else None.
Definition checked_mul (a b : Z) : option Z := if a * b <=? U64_MAX then Some (a * b) else None.

(** Two's complement wrap-around of [u64] addition. *)
Definition wrapping_add_u64 (a b : Z) : Z := (a + b) mod 2 ^ 64.

(** Display of a signed integer. *)
Definition show_int (n : Z) : string := if n <? 0 then "-" +:+ show_uint (- n) else show_uint n.
