(* ===== verification/SpendBudget.v ===== *)
(** * Spend grants: the meter

    [konsensus-api/src/spend_budget.rs] and the data of its submodule
    [calls.rs]: owner-approved terms, the meter a grant carries, reservations
    against it, rolling circuit breakers, and resolution of a reservation to
    what was really paid.

    Amounts are [u64] millisatoshis, times [i64] seconds; the clock is an
    argument.  Error strings that render their argument with [{:?}] are
    constructors.  The field [ignored_owner_per_payment], which is read and
    dropped, is left out. *)

From S2P Require Import Prelude Text Kind BTree.

Definition FIRST_CONTACT_APPROVAL_WINDOW_SECS : Z := 5 * 60.
Definition FIRST_CONTACT_GRANT_TTL_SECS : Z := FIRST_CONTACT_APPROVAL_WINDOW_SECS.
Definition FIRST_CONTACT_MAX_MSAT : Z := 100000.
Definition MESSAGING_PER_CALL_MAX_MSAT : Z := 6000.
Definition MAX_SPEND_GRANT_TTL_SECS : Z := 24 * 3600.
Definition MIN_SPEND_GRANT_TTL_SECS : Z := 60.
Definition MAX_GRANT_BUDGET_MSAT : Z := 100000000000.
Definition MAX_RECIPIENT_BUDGETS : nat := 256.

Record BreakerLimits := mkLimits {
  max_payments_per_minute : Z;
  max_payments_per_hour : Z;
  max_consecutive_failures : Z;
  max_msat_per_10_minutes : Z
}.

#[export] Instance BreakerLimits_eq_dec : EqDecision BreakerLimits.
Proof. solve_decision. Defined.

Definition BreakerLimits_default : BreakerLimits := mkLimits 10 60 5 1000000.
Definition legacy : BreakerLimits := mkLimits U64_MAX U64_MAX U64_MAX U64_MAX.

Definition valid (l : BreakerLimits) : bool :=
  (0 <? max_payments_per_minute l) && (0 <? max_payments_per_hour l) &&
  (0 <? max_consecutive_failures l) && (0 <? max_msat_per_10_minutes l).

Record BreakerBucket := mkBucket { bk_payments : Z; bk_msat : Z }.
#[export] Instance BreakerBucket_eq_dec : EqDecision BreakerBucket.
Proof. solve_decision. Defined.

Record BreakerState := mkBreaker {
  bs_buckets : gmap Z BreakerBucket;
  bs_last_at : option Z;
  bs_consecutive_failures : Z;
  bs_paused : bool;
  bs_last_refusal : option (string * Z)
}.

#[export] Instance BreakerState_eq_dec : EqDecision BreakerState.
Proof. solve_decision. Defined.

Definition BreakerState_default : BreakerState := mkBreaker ∅ None 0 false None.

Record BreakerStatus := mkBreakerStatus {
  st_limits : BreakerLimits;
  st_payments_last_minute : Z;
  st_payments_last_hour : Z;
  st_reserved_msat_last_10_minutes : Z;
  st_consecutive_failures : Z;
  st_unresolved_payments : Z;
  st_paused : bool
}.

(** ** Terms *)

Record GrantTerms := mkTerms {
  gt_breakers : BreakerLimits;
  gt_payee_allowlist : option (gset string);
  gt_allow_liquidity_fees : bool;
  gt_budget_msat : Z;
  gt_per_call_max_msat : Z;
  gt_per_recipient_msat : gmap string Z;
  gt_ttl_secs : Z
}.

Definition GrantTerms_new (budget_msat : Z) : GrantTerms :=
  mkTerms BreakerLimits_default None false budget_msat budget_msat ∅ MAX_SPEND_GRANT_TTL_SECS.

Definition canonical_recipient (key : string) : option string :=
  let key := to_ascii_lowercase (trim key) in
  if ((String.length key =? 64) || (String.length key =? 66))%nat &&
     forallb is_ascii_hexdigit (String.list_ascii_of_string key)
  then Some key else None.

Inductive TermsError : Type :=
| BreakerLimitZero
| BudgetZero
| BudgetAboveCeiling
| TtlOutOfRange
| PerCallOutOfRange
| TooManyRecipients
| TooManyPayees
| BadPayee (key : string)
| BadRecipient (key : string)
| RecipientBudgetOutOfRange (key : string)
| RecipientListedTwice (key : string).

(** [map(..).collect::<Result<BTreeSet<_>, _>>()]: the first bad key refuses. *)
Fixpoint canonical_payees (keys : list string) : result TermsError (gset string) :=
  match keys with
  | [] => Ok ∅
  | key :: keys' =>
      let? k := ok_or (canonical_recipient key) (BadPayee key) in
      let? ks := canonical_payees keys' in
      Ok ({[k]} ∪ ks)
  end.

Fixpoint canonical_budgets (budget_msat : Z) (acc : gmap string Z) (l : list (string * Z)) :
    result TermsError (gmap string Z) :=
  match l with
  | [] => Ok acc
  | (key, cap) :: l' =>
      let? k := ok_or (canonical_recipient key) (BadRecipient key) in
      check negb ((cap =? 0) || (budget_msat <? cap)) else RecipientBudgetOutOfRange k ;;
      check bool_decide (acc !! k = None) else RecipientListedTwice k ;;
      canonical_budgets budget_msat (<[k := cap]> acc) l'
  end.

Definition normalized (t : GrantTerms) : result TermsError GrantTerms :=
  check valid (gt_breakers t) else BreakerLimitZero ;;
  check negb (gt_budget_msat t =? 0) else BudgetZero ;;
  check gt_budget_msat t <=? MAX_GRANT_BUDGET_MSAT else BudgetAboveCeiling ;;
  check (MIN_SPEND_GRANT_TTL_SECS <=? gt_ttl_secs t) && (gt_ttl_secs t <=? MAX_SPEND_GRANT_TTL_SECS)
    else TtlOutOfRange ;;
  check negb ((gt_per_call_max_msat t =? 0) || (gt_budget_msat t <? gt_per_call_max_msat t))
    else PerCallOutOfRange ;;
  check (size (gt_per_recipient_msat t) <=? MAX_RECIPIENT_BUDGETS)%nat else TooManyRecipients ;;
  let? payees :=
    match gt_payee_allowlist t with
    | None => Ok None
    | Some payees =>
        check (size payees <=? MAX_RECIPIENT_BUDGETS)%nat else TooManyPayees ;;
        let? ks := canonical_payees (in_order payees) in Ok (Some ks)
    end in
  let? budgets := canonical_budgets (gt_budget_msat t) ∅ (entries (gt_per_recipient_msat t)) in
  Ok (mkTerms (gt_breakers t) payees (gt_allow_liquidity_fees t) (gt_budget_msat t)
        (gt_per_call_max_msat t) budgets (gt_ttl_secs t)).

(** ** Charges, refusals *)

Record Charge := mkCharge { ch_recipient : string; ch_amount_msat : Z }.

Record Reservation := mkReservation {
  rv_id : string;
  rv_client_id : string;
  rv_op_id : string;
  rv_charges : list Charge
}.

(** [sum()] of [u64]s, which wraps in a release build. *)
Definition reserved_for (r : Reservation) (recipient : string) : Z :=
  fold_left (fun n c => if bool_decide (ch_recipient c = recipient)
                        then wrapping_add_u64 n (ch_amount_msat c) else n) (rv_charges r) 0.

Record OperationReservationLink := mkLink {
  ol_operation_id : string;
  ol_execution_id : string;
  ol_readmission : bool
}.

#[export] Instance OperationReservationLink_eq_dec : EqDecision OperationReservationLink.
Proof. solve_decision. Defined.

Inductive BudgetRefusal : Type :=
| CallLiquidity (required_msat available_msat : Z)
| CallPriceChanged
| CallClosingAboveLimit (closing_msat max_msat : Z)
| GrantPaused
| FailuresPending
| RateLimitMinute
| RateLimitHour
| VelocityLimit
| DuplicatePayment
| PayeeNotAllowed (recipient : string)
| MessagingGrant
| NoGrant
| PerCall (max_msat : Z)
| TotalBudget (remaining_msat : Z)
| RecipientBudget (recipient : string) (remaining_msat : Z)
| Unpriced (s : string)
| Ledger (s : string)
| FirstContact (s : string).

Definition reason (r : BudgetRefusal) : string :=
  match r with
  | CallLiquidity _ _ => "call_liquidity_insufficient"
  | CallPriceChanged => "call_price_changed"
  | CallClosingAboveLimit _ _ => "call_closing_above_limit"
  | GrantPaused => "grant_paused"
  | FailuresPending => "failure_limit_pending"
  | RateLimitMinute => "rate_limit_minute"
  | RateLimitHour => "rate_limit_hour"
  | VelocityLimit => "velocity_limit"
  | DuplicatePayment => "duplicate_payment"
  | PayeeNotAllowed _ => "payee_not_allowed"
  | MessagingGrant => "messaging_grant"
  | NoGrant => "no_grant"
  | PerCall _ => "per_call"
  | TotalBudget _ => "total"
  | RecipientBudget _ _ => "recipient"
  | Unpriced _ => "unpriced"
  | Ledger _ => "ledger"
  | FirstContact _ => "first_contact"
  end.

(** ** Call holds: the data *)

Inductive CallPayment : Type := Media | Signal.

Definition of_kind (kind : Z) : option CallPayment :=
  if bool_decide (kind = KIND_CALL_INVITE \/ kind = KIND_CALL_BLOCK) then Some Media
  else if bool_decide (kind = KIND_CALL_ANSWER \/ kind = KIND_ICE_CANDIDATE \/ kind = KIND_CALL_HANGUP)
  then Some Signal
  else None.

Definition CALL_CLOSING_MSAT : Z := 1000.

Record CallSpendTerms := mkCallTerms {
  ct_peer : string;
  ct_call_id : string;
  ct_per_block_msat : Z;
  ct_per_block_fee_msat : Z;
  ct_max_call_minutes : Z;
  ct_reserved_msat : Z;
  ct_closing_fee_msat : Z;
  ct_direct : bool
}.
#[export] Instance CallSpendTerms_eq_dec : EqDecision CallSpendTerms.
Proof. solve_decision. Defined.

Definition with_closing_signal (t : CallSpendTerms) (price fee : Z) : result BudgetRefusal CallSpendTerms :=
  let? sum := ok_or (checked_add price fee) (Unpriced "call reservation overflow") in
  let closing := Z.max sum CALL_CLOSING_MSAT in
  let? reserved := ok_or (checked_add (ct_reserved_msat t) closing) (Unpriced "call reservation overflow") in
  Ok (mkCallTerms (ct_peer t) (ct_call_id t) (ct_per_block_msat t) (ct_per_block_fee_msat t)
        (ct_max_call_minutes t) reserved fee (ct_direct t)).

Definition closing_allowance_msat (t : CallSpendTerms) : Z :=
  let minutes := saturating_mul U64_MAX (saturating_add U64_MAX (ct_per_block_msat t) (ct_per_block_fee_msat t))
                   (ct_max_call_minutes t) in
  saturating_sub (ct_reserved_msat t) minutes.

Definition CallSpendTerms_new (peer call_id : string) (price fee max_call_minutes : Z) :
    result BudgetRefusal CallSpendTerms :=
  check (1 <=? max_call_minutes) && (max_call_minutes <=? 240)
    else Unpriced "call duration must be between 1 and 240 minutes" ;;
  let? reserved := ok_or (match checked_add price fee with
                          | Some amount => checked_mul amount max_call_minutes
                          | None => None
                          end) (Unpriced "call reservation overflow") in
  Ok (mkCallTerms peer call_id price fee max_call_minutes reserved 0 false).

Definition over_direct_channel (t : CallSpendTerms) (direct : bool) : CallSpendTerms :=
  mkCallTerms (ct_peer t) (ct_call_id t) (ct_per_block_msat t) (ct_per_block_fee_msat t)
    (ct_max_call_minutes t) (ct_reserved_msat t) (ct_closing_fee_msat t) direct.

Record CallSpend := mkCall {
  cs_terms : CallSpendTerms;
  cs_spent_msat : Z;
  cs_released_msat : Z;
  cs_closed : bool;
  cs_outcome_recorded : bool;
  cs_payment_failed : bool;
  cs_finished_at : option Z;
  cs_draws : gmap string Z;
  cs_paid_sequences : gset Z
}.

#[export] Instance CallSpend_eq_dec : EqDecision CallSpend.
Proof. solve_decision. Defined.

Definition CallSpend_new (terms : CallSpendTerms) : CallSpend :=
  mkCall terms 0 0 false false false None ∅ ∅.

(** ** The meter *)

Record DeviceBreakerReset := mkReset {
  dr_at : Z;
  dr_approver_key_id : string;
  dr_approval_op_id : string
}.
#[export] Instance DeviceBreakerReset_eq_dec : EqDecision DeviceBreakerReset.
Proof. solve_decision. Defined.

Record GrantBudget := mkBudget {
  gb_breakers : BreakerLimits;
  gb_breaker_state : BreakerState;
  gb_device_breaker_resets : list DeviceBreakerReset;
  gb_breaker_reset_generation : Z;
  gb_payment_ids : gset string;
  gb_payee_allowlist : option (gset string);
  gb_allow_liquidity_fees : bool;
  gb_budget_msat : Z;
  gb_per_call_max_msat : Z;
  gb_per_recipient_msat : gmap string Z;
  gb_used_msat : Z;
  gb_used_by_recipient : gmap string Z;
  gb_pending : gmap string (gmap string Z);
  gb_operation_links : gmap string OperationReservationLink;
  gb_call_reservations : gmap string CallSpend;
  gb_recipients_only : bool;
  gb_per_act_max_by_recipient : gmap string Z;
  gb_recipient_expires_at : gmap string Z;
  gb_envelope_id_by_recipient : gmap string string
}.
#[export] Instance GrantBudget_eq_dec : EqDecision GrantBudget.
Proof. solve_decision. Defined.

Definition set_used (used : Z) (by_recipient : gmap string Z) (b : GrantBudget) : GrantBudget :=
  mkBudget (gb_breakers b) (gb_breaker_state b) (gb_device_breaker_resets b)
    (gb_breaker_reset_generation b) (gb_payment_ids b) (gb_payee_allowlist b)
    (gb_allow_liquidity_fees b) (gb_budget_msat b) (gb_per_call_max_msat b)
    (gb_per_recipient_msat b) used by_recipient (gb_pending b) (gb_operation_links b)
    (gb_call_reservations b) (gb_recipients_only b) (gb_per_act_max_by_recipient b)
    (gb_recipient_expires_at b) (gb_envelope_id_by_recipient b).

Definition set_breaker (s : BreakerState) (b : GrantBudget) : GrantBudget :=
  mkBudget (gb_breakers b) s (gb_device_breaker_resets b) (gb_breaker_reset_generation b)
    (gb_payment_ids b) (gb_payee_allowlist b) (gb_allow_liquidity_fees b) (gb_budget_msat b)
    (gb_per_call_max_msat b) (gb_per_recipient_msat b) (gb_used_msat b) (gb_used_by_recipient b)
    (gb_pending b) (gb_operation_links b) (gb_call_reservations b) (gb_recipients_only b)
    (gb_per_act_max_by_recipient b) (gb_recipient_expires_at b) (gb_envelope_id_by_recipient b).

Definition set_pending (p : gmap string (gmap string Z)) (b : GrantBudget) : GrantBudget :=
  mkBudget (gb_breakers b) (gb_breaker_state b) (gb_device_breaker_resets b)
    (gb_breaker_reset_generation b) (gb_payment_ids b) (gb_payee_allowlist b)
    (gb_allow_liquidity_fees b) (gb_budget_msat b) (gb_per_call_max_msat b)
    (gb_per_recipient_msat b) (gb_used_msat b) (gb_used_by_recipient b) p (gb_operation_links b)
    (gb_call_reservations b) (gb_recipients_only b) (gb_per_act_max_by_recipient b)
    (gb_recipient_expires_at b) (gb_envelope_id_by_recipient b).

Definition set_links (l : gmap string OperationReservationLink) (b : GrantBudget) : GrantBudget :=
  mkBudget (gb_breakers b) (gb_breaker_state b) (gb_device_breaker_resets b)
    (gb_breaker_reset_generation b) (gb_payment_ids b) (gb_payee_allowlist b)
    (gb_allow_liquidity_fees b) (gb_budget_msat b) (gb_per_call_max_msat b)
    (gb_per_recipient_msat b) (gb_used_msat b) (gb_used_by_recipient b) (gb_pending b) l
    (gb_call_reservations b) (gb_recipients_only b) (gb_per_act_max_by_recipient b)
    (gb_recipient_expires_at b) (gb_envelope_id_by_recipient b).

Definition set_calls (c : gmap string CallSpend) (b : GrantBudget) : GrantBudget :=
  mkBudget (gb_breakers b) (gb_breaker_state b) (gb_device_breaker_resets b)
    (gb_breaker_reset_generation b) (gb_payment_ids b) (gb_payee_allowlist b)
    (gb_allow_liquidity_fees b) (gb_budget_msat b) (gb_per_call_max_msat b)
    (gb_per_recipient_msat b) (gb_used_msat b) (gb_used_by_recipient b) (gb_pending b)
    (gb_operation_links b) c (gb_recipients_only b) (gb_per_act_max_by_recipient b)
    (gb_recipient_expires_at b) (gb_envelope_id_by_recipient b).

Definition set_payment_ids (ids : gset string) (b : GrantBudget) : GrantBudget :=
  mkBudget (gb_breakers b) (gb_breaker_state b) (gb_device_breaker_resets b)
    (gb_breaker_reset_generation b) ids (gb_payee_allowlist b) (gb_allow_liquidity_fees b)
    (gb_budget_msat b) (gb_per_call_max_msat b) (gb_per_recipient_msat b) (gb_used_msat b)
    (gb_used_by_recipient b) (gb_pending b) (gb_operation_links b) (gb_call_reservations b)
    (gb_recipients_only b) (gb_per_act_max_by_recipient b) (gb_recipient_expires_at b)
    (gb_envelope_id_by_recipient b).

Definition from_terms (t : GrantTerms) : GrantBudget :=
  mkBudget (gt_breakers t) BreakerState_default [] 0 ∅ (gt_payee_allowlist t)
    (gt_allow_liquidity_fees t) (gt_budget_msat t) (gt_per_call_max_msat t) (gt_per_recipient_msat t)
    0 ∅ ∅ ∅ ∅ false ∅ ∅ ∅.

Definition relations : GrantBudget :=
  let b := from_terms (GrantTerms_new 0) in
  mkBudget (gb_breakers b) (gb_breaker_state b) (gb_device_breaker_resets b) (gb_breaker_reset_generation b)
    (gb_payment_ids b) (gb_payee_allowlist b) (gb_allow_liquidity_fees b)
    (gb_budget_msat b) (gb_per_call_max_msat b) (gb_per_recipient_msat b) (gb_used_msat b)
    (gb_used_by_recipient b) (gb_pending b) (gb_operation_links b)
    (gb_call_reservations b) true (gb_per_act_max_by_recipient b) (gb_recipient_expires_at b) (gb_envelope_id_by_recipient b).

(** [envelope_id] is the generated identity. *)
Definition open_envelope (envelope_id recipient : string) (budget_msat per_act_max_msat expires_at : Z)
    (b : GrantBudget) : GrantBudget :=
  let used := default 0 (gb_used_by_recipient b !! recipient) in
  let old_left := default 0 ((fun cap => saturating_sub cap used) <$> gb_per_recipient_msat b !! recipient) in
  let budget := saturating_add U64_MAX (saturating_sub (gb_budget_msat b) old_left) budget_msat in
  mkBudget (gb_breakers b) (gb_breaker_state b) (gb_device_breaker_resets b)
    (gb_breaker_reset_generation b) (gb_payment_ids b) (gb_payee_allowlist b)
    (gb_allow_liquidity_fees b) budget (Z.min budget MESSAGING_PER_CALL_MAX_MSAT)
    (<[recipient := saturating_add U64_MAX used budget_msat]> (gb_per_recipient_msat b))
    (gb_used_msat b) (gb_used_by_recipient b) (gb_pending b) (gb_operation_links b)
    (gb_call_reservations b) (gb_recipients_only b)
    (<[recipient := per_act_max_msat]> (gb_per_act_max_by_recipient b))
    (<[recipient := expires_at]> (gb_recipient_expires_at b))
    (<[recipient := envelope_id]> (gb_envelope_id_by_recipient b)).

Definition check_envelope (b : GrantBudget) (now : Z) (recipient : string) (amount : Z) :
    result BudgetRefusal unit :=
  let live := match gb_recipient_expires_at b !! recipient with Some expires => now <? expires | None => false end in
  check live else RecipientBudget recipient 0 ;;
  let per_act := default 0 (gb_per_act_max_by_recipient b !! recipient) in
  check amount <=? per_act else PerCall per_act ;; Ok tt.

(** A loop over entries in key order that stops at the first refusal. *)
Fixpoint for_each {A} (f : string -> A -> result BudgetRefusal unit) (l : list (string * A)) :
    result BudgetRefusal unit :=
  match l with
  | [] => Ok tt
  | (k, x) :: l' => let? _ := f k x in for_each f l'
  end.

Definition check_envelopes (b : GrantBudget) (per_recipient : gmap string Z) (now : Z) :
    result BudgetRefusal unit :=
  if negb (gb_recipients_only b) then Ok tt
  else for_each (check_envelope b now) (entries per_recipient).

Definition envelopes_live (b : GrantBudget) (recipients : list string) (now : Z) : bool :=
  negb (gb_recipients_only b) ||
  forallb (fun r => match gb_recipient_expires_at b !! r with Some at_ => now <? at_ | None => false end) recipients.

Definition call_per_payment_max_msat (b : GrantBudget) : option Z :=
  if negb (gb_recipients_only b) then Some (gb_per_call_max_msat b) else None.

Definition keep_refusal_observation (other : GrantBudget) (b : GrantBudget) : GrantBudget :=
  let s := gb_breaker_state b in
  set_breaker (mkBreaker (bs_buckets s) (bs_last_at s) (bs_consecutive_failures s) (bs_paused s)
                 (bs_last_refusal (gb_breaker_state other))) b.

Definition check_call_payment (b : GrantBudget) (per_payment_msat : Z) : result BudgetRefusal unit :=
  match call_per_payment_max_msat b with
  | Some max_msat => if max_msat <? per_payment_msat then Err (PerCall max_msat) else Ok tt
  | None => Ok tt
  end.

Definition is_paused (b : GrantBudget) : bool := bs_paused (gb_breaker_state b).

(** [last_at.map_or(now, |last| now.max(last))]. *)
Definition breaker_now (s : BreakerState) (now : Z) : Z :=
  match bs_last_at s with Some last => Z.max now last | None => now end.

(** Whether a pending reservation is a call hold or a draw from one. *)
Definition belongs_to_call (b : GrantBudget) (id : string) : bool :=
  bool_decide (is_Some (gb_call_reservations b !! id)) ||
  existsb (fun '(_, call) => bool_decide (is_Some (cs_draws call !! id))) (entries (gb_call_reservations b)).

Definition unresolved_payments (b : GrantBudget) : Z :=
  Z.of_nat (length (filter (fun v => 0 < v)
    (concat (map (fun '(_, r) => (entries r).*2)
      (filter (fun '(id, _) => belongs_to_call b id = false) (entries (gb_pending b))))))) +
  Z.of_nat (length (filter (fun '(_, call) =>
    cs_outcome_recorded call = false /\ 0 < ct_reserved_msat (cs_terms call)) (entries (gb_call_reservations b)))).

(** The sum over the buckets later than [now - window]. *)
Definition window_sum (f : BreakerBucket -> Z) (window now : Z) (buckets : gmap Z BreakerBucket) : Z :=
  map_fold (fun at_ bucket acc =>
    if i64_saturating_sub now window <? at_ then saturating_add U64_MAX acc (f bucket) else acc) 0 buckets.

Definition breaker_status (b : GrantBudget) (now : Z) : BreakerStatus :=
  let s := gb_breaker_state b in
  let now := breaker_now s now in
  mkBreakerStatus (gb_breakers b)
    (window_sum bk_payments 60 now (bs_buckets s))
    (window_sum bk_payments 3600 now (bs_buckets s))
    (window_sum bk_msat 600 now (bs_buckets s))
    (bs_consecutive_failures s) (unresolved_payments b) (bs_paused s).

(** Drop what left the hour and add to the bucket of [now]. *)
Definition add_to_bucket (s : BreakerState) (now payments msat : Z) : BreakerState :=
  let buckets := filter (fun '(at_, _) => i64_saturating_sub now 3600 < at_) (bs_buckets s) in
  let bucket := default (mkBucket 0 0) (buckets !! now) in
  mkBreaker (<[now := mkBucket (saturating_add U64_MAX (bk_payments bucket) payments)
                        (saturating_add U64_MAX (bk_msat bucket) msat)]> buckets)
    (Some now) (bs_consecutive_failures s) (bs_paused s) (bs_last_refusal s).

Definition record_outcome (reserved actual now : Z) (b : GrantBudget) : GrantBudget :=
  if (reserved =? 0) && (actual =? 0) then b
  else
    let s := gb_breaker_state b in
    let failures := if actual =? 0 then saturating_add U64_MAX (bs_consecutive_failures s) 1 else 0 in
    let paused := if actual =? 0
      then bs_paused s || (max_consecutive_failures (gb_breakers b) <=? failures) else bs_paused s in
    let s := mkBreaker (bs_buckets s) (bs_last_at s) failures paused (bs_last_refusal s) in
    set_breaker (if reserved <? actual
                 then add_to_bucket s (breaker_now s now) (if reserved =? 0 then 1 else 0) (actual - reserved)
                 else s) b.

Definition record_breaker_refusal (refusal : BudgetRefusal) (now : Z) (b : GrantBudget) : GrantBudget * bool :=
  let window :=
    match refusal with
    | RateLimitMinute => Some 60
    | RateLimitHour => Some 3600
    | VelocityLimit => Some 600
    | _ => None
    end in
  match window with
  | None => (b, false)
  | Some window =>
      let s := gb_breaker_state b in
      let now := breaker_now s now in
      let seen := match bs_last_refusal s with
                  | Some (r, at_) => bool_decide (r = reason refusal) && (i64_saturating_sub now window <? at_)
                  | None => false
                  end in
      if seen then (b, false)
      else (set_breaker (mkBreaker (bs_buckets s) (bs_last_at s) (bs_consecutive_failures s) (bs_paused s)
                           (Some (reason refusal, now))) b, true)
  end.

Definition reset_reasons (b : GrantBudget) (now : Z) : list string :=
  let status := breaker_status b now in
  let refused r window :=
    match bs_last_refusal (gb_breaker_state b) with
    | Some (r', at_) => bool_decide (r' = r) && (i64_saturating_sub now window <? at_)
    | None => false
    end in
  (if st_paused status then ["grant_paused"] else []) ++
  map fst (filter (fun '(r, (saturated, window)) => saturated || refused r window = true)
    [("rate_limit_minute", (max_payments_per_minute (gb_breakers b) <=? st_payments_last_minute status, 60));
     ("rate_limit_hour", (max_payments_per_hour (gb_breakers b) <=? st_payments_last_hour status, 3600));
     ("velocity_limit", (max_msat_per_10_minutes (gb_breakers b) <=? st_reserved_msat_last_10_minutes status, 600))]).

Definition messaging_per_call_max_msat (b : GrantBudget) : Z :=
  Z.min (gb_per_call_max_msat b) MESSAGING_PER_CALL_MAX_MSAT.

Definition remaining_msat (b : GrantBudget) : Z := saturating_sub (gb_budget_msat b) (gb_used_msat b).

(** The loop over the charges: the total and the totals per recipient. *)
Fixpoint tally (b : GrantBudget) (total : Z) (per_recipient : gmap string Z) (charges : list Charge) :
    result BudgetRefusal (Z * gmap string Z) :=
  match charges with
  | [] => Ok (total, per_recipient)
  | c :: charges' =>
      check match gb_payee_allowlist b with Some payees => bool_decide (ch_recipient c ∈ payees) | None => true end
        else PayeeNotAllowed (ch_recipient c) ;;
      let? total := ok_or (checked_add total (ch_amount_msat c)) (PerCall (gb_per_call_max_msat b)) in
      let? entry := ok_or (checked_add (default 0 (per_recipient !! ch_recipient c)) (ch_amount_msat c))
                      (PerCall (gb_per_call_max_msat b)) in
      tally b total (<[ch_recipient c := entry]> per_recipient) charges'
  end.

Definition check_recipient_budget (b : GrantBudget) (recipient : string) (amount : Z) : result BudgetRefusal unit :=
  match gb_per_recipient_msat b !! recipient with
  | None => Ok tt
  | Some cap =>
      let used := default 0 (gb_used_by_recipient b !! recipient) in
      let left := saturating_sub cap used in
      if left <? amount then Err (RecipientBudget recipient left) else Ok tt
  end.

(** Adding what was reserved to the tallies per recipient. *)
Definition add_used (per_recipient used : gmap string Z) : gmap string Z :=
  map_fold (fun r amount used =>
    if 0 <? amount then <[r := wrapping_add_u64 (default 0 (used !! r)) amount]> used else used)
    used per_recipient.

Definition reserve_within (charges : list Charge) (per_call_bound : bool) (b : GrantBudget) :
    result BudgetRefusal GrantBudget :=
  let? (call_total, per_recipient) := tally b 0 ∅ charges in
  check negb (per_call_bound && (gb_per_call_max_msat b <? call_total)) else PerCall (gb_per_call_max_msat b) ;;
  check call_total <=? remaining_msat b else TotalBudget (remaining_msat b) ;;
  let? _ := for_each (check_recipient_budget b) (entries per_recipient) in
  Ok (set_used (wrapping_add_u64 (gb_used_msat b) call_total) (add_used per_recipient (gb_used_by_recipient b)) b).

Definition reserve (charges : list Charge) (b : GrantBudget) := reserve_within charges true b.

(** What each recipient is asked to carry in one payment. *)
Definition per_payment (charges : list Charge) (per_payment_msat : option Z) : gmap string Z :=
  fold_left (fun m c =>
    let entry := default 0 (m !! ch_recipient c) in
    <[ch_recipient c := default (saturating_add U64_MAX entry (ch_amount_msat c)) per_payment_msat]> m) charges ∅.

Definition charge_count (charges : list Charge) : Z :=
  Z.of_nat (length (filter (fun c => 0 < ch_amount_msat c) charges)).

Definition charge_total (charges : list Charge) : option Z :=
  fold_left (fun n c => match n with Some n => checked_add n (ch_amount_msat c) | None => None end) charges (Some 0).

Definition check_breakers (b : GrantBudget) (status : BreakerStatus) (count total : Z) : result BudgetRefusal unit :=
  let l := gb_breakers b in
  check valid l else Ledger "invalid circuit breaker limits" ;;
  check negb (st_paused status) else GrantPaused ;;
  check count <=? saturating_sub (max_consecutive_failures l)
                    (saturating_add U64_MAX (st_consecutive_failures status) (st_unresolved_payments status))
    else FailuresPending ;;
  check count <=? saturating_sub (max_payments_per_minute l) (st_payments_last_minute status)
    else RateLimitMinute ;;
  check count <=? saturating_sub (max_payments_per_hour l) (st_payments_last_hour status)
    else RateLimitHour ;;
  check total <=? saturating_sub (max_msat_per_10_minutes l) (st_reserved_msat_last_10_minutes status)
    else VelocityLimit ;;
  Ok tt.

Definition reserve_bounded (charges : list Charge) (per_payment_msat : option Z) (now : Z) (b : GrantBudget) :
    result BudgetRefusal GrantBudget :=
  let? _ := match per_payment_msat with Some largest => check_call_payment b largest | None => Ok tt end in
  let? _ := check_envelopes b (per_payment charges per_payment_msat) now in
  let now := breaker_now (gb_breaker_state b) now in
  let count := charge_count charges in
  let? total := ok_or (charge_total charges) VelocityLimit in
  let? _ := check_breakers b (breaker_status b now) count total in
  let? b := match per_payment_msat with
            | None => reserve charges b
            | Some _ => reserve_within charges false b
            end in
  Ok (if 0 <? count then set_breaker (add_to_bucket (gb_breaker_state b) now count total) b else b).

Definition reserve_at (charges : list Charge) (now : Z) (b : GrantBudget) := reserve_bounded charges None now b.

Definition reserve_call_at (charges : list Charge) (per_payment_msat now : Z) (b : GrantBudget) :=
  reserve_bounded charges (Some per_payment_msat) now b.

Definition resolve (recipient : string) (reserved_msat actual_msat : Z) (b : GrantBudget) : GrantBudget :=
  if actual_msat =? reserved_msat then b
  else
    let used := default 0 (gb_used_by_recipient b !! recipient) in
    let '(total, used) :=
      if actual_msat <? reserved_msat then
        let released := reserved_msat - actual_msat in
        (saturating_sub (gb_used_msat b) released, saturating_sub used released)
      else
        let extra := actual_msat - reserved_msat in
        (saturating_add U64_MAX (gb_used_msat b) extra, saturating_add U64_MAX used extra) in
    set_used total (if used =? 0 then delete recipient (gb_used_by_recipient b)
                    else <[recipient := used]> (gb_used_by_recipient b)) b.

Definition reset_breakers (b : GrantBudget) : GrantBudget :=
  mkBudget (gb_breakers b) BreakerState_default (gb_device_breaker_resets b)
    (saturating_add U64_MAX (gb_breaker_reset_generation b) 1) (gb_payment_ids b)
    (gb_payee_allowlist b) (gb_allow_liquidity_fees b) (gb_budget_msat b) (gb_per_call_max_msat b)
    (gb_per_recipient_msat b) (gb_used_msat b) (gb_used_by_recipient b) (gb_pending b)
    (gb_operation_links b) (gb_call_reservations b) (gb_recipients_only b)
    (gb_per_act_max_by_recipient b) (gb_recipient_expires_at b) (gb_envelope_id_by_recipient b).
