(* ===== verification/CallSpend.v ===== *)
(** * Call holds

    [konsensus-api/src/spend_budget/calls.rs]: a call reserves the most it may
    cost in one hold; its blocks are drawn from the hold one by one, each a
    reservation of its own, and closing the call gives back what was not drawn.

    The clock readings of one operation are one argument. *)

From stdpp Require Import sorting.
From S2P Require Import Prelude Text Kind BTree SpendBudget.

Record CallSpendStatus := mkCallStatus {
  ct_st_max_call_minutes : Z;
  ct_st_reserved_msat : Z;
  ct_st_spent_msat : Z;
  ct_st_remaining_msat : Z;
  ct_st_per_block_msat : Z;
  ct_st_per_block_fee_msat : Z;
  ct_st_released_msat : Z;
  ct_st_closed : bool;
  ct_st_direct : bool
}.

Definition call_status (c : CallSpend) : CallSpendStatus :=
  let t := cs_terms c in
  mkCallStatus (ct_max_call_minutes t) (ct_reserved_msat t) (cs_spent_msat c)
    (saturating_sub (saturating_sub (ct_reserved_msat t) (cs_spent_msat c)) (cs_released_msat c))
    (ct_per_block_msat t) (ct_per_block_fee_msat t) (cs_released_msat c) (cs_closed c) (ct_direct t).

(** ** Limits *)

Definition call_payment_limit (b : GrantBudget) (peer : string) : Z :=
  if gb_recipients_only b then default 0 (gb_per_act_max_by_recipient b !! peer)
  else gb_per_call_max_msat b.

(** The pinned price and fee of a block. *)
Definition ceiling (t : CallSpendTerms) : Z :=
  saturating_add U64_MAX (ct_per_block_msat t) (ct_per_block_fee_msat t).

Definition check_call_hold (b : GrantBudget) (t : CallSpendTerms) : result BudgetRefusal unit :=
  let max_msat := call_payment_limit b (ct_peer t) in
  if max_msat <? ceiling t then Err (PerCall max_msat) else Ok tt.

Definition call_debit_limit (b : GrantBudget) (peer : string) (purpose : CallPayment) : Z :=
  match purpose with
  | Media => call_payment_limit b peer
  | Signal => Z.min (call_payment_limit b peer) (messaging_per_call_max_msat b)
  end.

Definition check_call_closing (b : GrantBudget) (t : CallSpendTerms) : result BudgetRefusal unit :=
  let closing_msat := closing_allowance_msat t in
  let max_msat := call_debit_limit b (ct_peer t) Signal in
  if max_msat <? closing_msat then Err (CallClosingAboveLimit closing_msat max_msat) else Ok tt.

Fixpoint check_call_debit (b : GrantBudget) (charges : list Charge) (purpose : CallPayment) :
    result BudgetRefusal unit :=
  match charges with
  | [] => Ok tt
  | c :: charges' =>
      let max_msat := call_debit_limit b (ch_recipient c) purpose in
      if max_msat <? ch_amount_msat c then Err (PerCall max_msat) else check_call_debit b charges' purpose
  end.

(** ** Finished calls *)

Definition finished (call : CallSpend) : bool :=
  cs_closed call && bool_decide (cs_draws call = ∅) && cs_outcome_recorded call.

Definition compact (now : Z) (call : CallSpend) : CallSpend :=
  if finished call
  then mkCall (cs_terms call) (cs_spent_msat call) (cs_released_msat call) (cs_closed call)
         (cs_outcome_recorded call) (cs_payment_failed call)
         (Some (default now (cs_finished_at call))) (cs_draws call) ∅
  else call.

(** [sort()] of pairs of a time and an identity. *)
Definition receipt_le (x y : Z * string) : Prop := x.1 < y.1 \/ (x.1 = y.1 /\ str_le x.2 y.2).
#[export] Instance receipt_le_dec x y : Decision (receipt_le x y).
Proof. unfold receipt_le. apply _. Defined.

Definition finished_receipts (calls : gmap string CallSpend) : list (Z * string) :=
  merge_sort receipt_le
    (omap (fun '(id, call) => if finished call then Some (default 0 (cs_finished_at call), id) else None)
       (entries calls)).

Definition RETAIN_SECS : Z := 24 * 60 * 60.
Definition MAX_TOMBSTONES : nat := 256.

Definition prune_call_tombstones (now : Z) (b : GrantBudget) : GrantBudget :=
  let calls := compact now <$> gb_call_reservations b in
  let receipts := finished_receipts calls in
  let excess := (length receipts - MAX_TOMBSTONES)%nat in
  let removed := omap (fun '(index, (at_, id)) =>
    if (index <? excess)%nat || (RETAIN_SECS <=? i64_saturating_sub now at_) then Some id else None)
    (imap pair receipts) in
  set_calls (fold_left (fun m id => delete id m) removed calls) b.

(** ** Closing and resolving *)

Definition set_call (id : string) (call : CallSpend) (b : GrantBudget) : GrantBudget :=
  set_calls (<[id := call]> (gb_call_reservations b)) b.

(** The [expect] on a located call always holds where this is called. *)
Definition record_call_outcome (id : string) (now : Z) (b : GrantBudget) : GrantBudget :=
  match gb_call_reservations b !! id with
  | None => b
  | Some call =>
      if cs_closed call && bool_decide (cs_draws call = ∅) && negb (cs_outcome_recorded call) then
        let b := set_call id (mkCall (cs_terms call) (cs_spent_msat call) (cs_released_msat call)
                                (cs_closed call) true (cs_payment_failed call) (Some now) (cs_draws call) ∅) b in
        let b := if (0 <? cs_spent_msat call) || cs_payment_failed call
                 then record_outcome (ct_reserved_msat (cs_terms call)) (cs_spent_msat call) now b else b in
        prune_call_tombstones now b
      else b
  end.

Definition close_call (id : string) (now : Z) (b : GrantBudget) : GrantBudget :=
  match gb_call_reservations b !! id with
  | None => b
  | Some call =>
      if cs_closed call then b
      else
        let peer := ct_peer (cs_terms call) in
        let unused := default 0 (match gb_pending b !! id with Some r => r !! peer | None => None end) in
        let call := mkCall (cs_terms call) (cs_spent_msat call)
          (saturating_add U64_MAX (cs_released_msat call) unused) true (cs_outcome_recorded call)
          (cs_payment_failed call) (cs_finished_at call) (cs_draws call) (cs_paid_sequences call) in
        let b := set_call id call (set_pending (delete id (gb_pending b)) b) in
        record_call_outcome id now (resolve peer unused 0 b)
  end.

Definition call_is (only : option (string * string)) (call : CallSpend) : bool :=
  match only with
  | None => true
  | Some (peer, id) => bool_decide (ct_peer (cs_terms call) = peer /\ ct_call_id (cs_terms call) = id)
  end.

Definition close_holds_over_limit (only : option (string * string)) (now : Z) (b : GrantBudget) :
    GrantBudget * option BudgetRefusal :=
  let over := omap (fun '(id, call) =>
    if negb (cs_closed call) && call_is only call
    then match check_call_hold b (cs_terms call) with Err refusal => Some (id, refusal) | Ok _ => None end
    else None) (entries (gb_call_reservations b)) in
  fold_left (fun '(b, _) '(id, refusal) => (close_call id now b, Some refusal)) over (b, None).

(** The hold a draw belongs to. *)
Definition draw_parent (b : GrantBudget) (id peer : string) : option (string * CallSpend) :=
  list_find (fun '(_, call) => ct_peer (cs_terms call) = peer /\ is_Some (cs_draws call !! id))
    (entries (gb_call_reservations b)) ≫= fun '(_, found) => Some found.

(** Giving back to the pending entry of an open hold, if it is there. *)
Definition give_back (parent peer : string) (unused : Z) (p : gmap string (gmap string Z)) :
    gmap string (gmap string Z) :=
  match p !! parent with
  | Some r => match r !! peer with
              | Some remaining => <[parent := <[peer := saturating_add U64_MAX remaining unused]> r]> p
              | None => p
              end
  | None => p
  end.

Definition resolve_call_draw (id peer : string) (reserved actual : Z) (payment_failed : bool) (now : Z)
    (b : GrantBudget) : GrantBudget * bool :=
  match draw_parent b id peer with
  | None => (b, false)
  | Some (parent, call) =>
      let seq := default 0 (cs_draws call !! id) in
      let unused := saturating_sub reserved actual in
      let call := mkCall (cs_terms call) (saturating_add U64_MAX (cs_spent_msat call) actual)
        (if cs_closed call then saturating_add U64_MAX (cs_released_msat call) unused else cs_released_msat call)
        (cs_closed call) (cs_outcome_recorded call)
        (cs_payment_failed call || (payment_failed && (actual =? 0))) (cs_finished_at call)
        (delete id (cs_draws call))
        (if 0 <? actual then {[seq]} ∪ cs_paid_sequences call else cs_paid_sequences call) in
      let b := set_call parent call b in
      let b := if cs_closed call then resolve peer reserved actual b
               else
                 let b := set_pending (give_back parent peer unused (gb_pending b)) b in
                 if reserved <? actual then resolve peer 0 (actual - reserved) b else b in
      (record_call_outcome parent now b, true)
  end.
