(* ===== verification/PairingStore.v ===== *)
(** * The pairing file

    The durable record of [konsensus-api/src/pairing.rs]: the paired clients,
    their grants, what waits for the owner, and the loop that replaces the file on
    disk atomically.  The in-memory parts of a pending device key (its short
    authentication string) are left out. *)

From S2P Require Import Prelude Text Kind BTree SpendBudget CallSpend.

(** ** Records *)

Inductive Scope : Type := Read | Receive | Spend | Admin | Identity | Credential | FrontDoor.
#[export] Instance Scope_eq_dec : EqDecision Scope.
Proof. solve_decision. Defined.

Record PairedClient := mkClient {
  pc_client_id : string;
  pc_name : string;
  pc_client_pubkey : string;
  pc_remote_transport_pubkey : option string;
  pc_scopes : list Scope;
  pc_epoch : Z;
  pc_identity_fingerprint : string;
  pc_created_at : Z;
  pc_last_seen : option Z
}.

Record SpendGrant := mkGrant {
  sg_op_id : string;
  sg_client_id : string;
  sg_scopes : list Scope;
  sg_granted_at : Z;
  sg_expires_at : Z;
  sg_identity_fingerprint : string;
  sg_epoch : Z;
  sg_granted_by : string;
  sg_budget : option GrantBudget;
  sg_owner_approval : option bytes
}.

Definition set_budget (b : option GrantBudget) (g : SpendGrant) : SpendGrant :=
  mkGrant (sg_op_id g) (sg_client_id g) (sg_scopes g) (sg_granted_at g) (sg_expires_at g)
    (sg_identity_fingerprint g) (sg_epoch g) (sg_granted_by g) b (sg_owner_approval g).

Definition is_messaging (g : SpendGrant) : bool :=
  bool_decide (is_Some (sg_owner_approval g)) ||
  match sg_budget g with Some b => gb_recipients_only b | None => false end.

(** The subtraction wraps in a release build. *)
Definition wrapping_sub_i64 (a b : Z) : Z := (a - b - I64_MIN) mod 2 ^ 64 + I64_MIN.

Definition is_live (now : Z) (g : SpendGrant) : bool :=
  bool_decide (is_Some (sg_budget g)) && (now <? sg_expires_at g) &&
  (wrapping_sub_i64 (sg_expires_at g) (sg_granted_at g) <=? MAX_SPEND_GRANT_TTL_SECS).

Record FrontDoorGrant := mkFrontDoor {
  fd_op_id : string;
  fd_client_id : string;
  fd_granted_at : Z;
  fd_expires_at : Z;
  fd_identity_fingerprint : string;
  fd_epoch : Z;
  fd_granted_by : string;
  fd_revoked : bool
}.

Definition front_door_is_live (now : Z) (g : FrontDoorGrant) : bool :=
  negb (fd_revoked g) && (now <? fd_expires_at g) &&
  (wrapping_sub_i64 (fd_expires_at g) (fd_granted_at g) <=? MAX_SPEND_GRANT_TTL_SECS).

Definition set_revoked (g : FrontDoorGrant) : FrontDoorGrant :=
  mkFrontDoor (fd_op_id g) (fd_client_id g) (fd_granted_at g) (fd_expires_at g) (fd_identity_fingerprint g)
    (fd_epoch g) (fd_granted_by g) true.

Record PendingElevation := mkElevation {
  pe_op_id : string;
  pe_client_id : string;
  pe_client_name : string;
  pe_scopes : list Scope;
  pe_created_at : Z;
  pe_expires_at : Z;
  pe_proposed_terms : option GrantTerms
}.

Record ReplacementApproval := mkReplacement {
  ra_op_id : string;
  ra_client_id : string;
  ra_current_identity_fingerprint : string;
  ra_replacement_identity_fingerprint : string;
  ra_expires_at : Z;
  ra_approved : bool;
  ra_client_name : string
}.

Record DeviceKey := mkDeviceKey {
  dk_key_id : string;
  dk_client_id : string;
  dk_public_key : string;
  dk_name : string;
  dk_registered_at : Z;
  dk_epoch : Z;
  dk_client_pubkey : string;
  dk_owner_approval : string;
  dk_enrolled_by : string
}.

Record PendingDeviceKey := mkPendingDevice {
  pd_op_id : string;
  pd_client_id : string;
  pd_client_name : string;
  pd_epoch : Z;
  pd_client_pubkey : string;
  pd_key_id : string;
  pd_public_key : string;
  pd_name : string;
  pd_expires_at : Z;
  pd_created_at : Z;
  pd_delegation_nonce : string;
  pd_sas_version : option Z
}.

Record PairingFile := mkFile {
  pf_version : Z;
  pf_clients : list PairedClient;
  pf_grants : list SpendGrant;
  pf_call_spend_grants : gmap string string;
  pf_front_door_grants : list FrontDoorGrant;
  pf_pending_elevations : list PendingElevation;
  pf_replacement_approvals : list ReplacementApproval;
  pf_last_epoch : gmap string Z;
  pf_device_keys : list DeviceKey;
  pf_pending_device_keys : list PendingDeviceKey;
  pf_registered_ops : gmap string string;
  pf_intent_nonces : gmap string (string * Z)
}.

Definition set_version (x : Z) (f : PairingFile) : PairingFile :=
  mkFile x (pf_clients f) (pf_grants f) (pf_call_spend_grants f) (pf_front_door_grants f)
    (pf_pending_elevations f) (pf_replacement_approvals f) (pf_last_epoch f) (pf_device_keys f)
    (pf_pending_device_keys f) (pf_registered_ops f) (pf_intent_nonces f).

Definition set_clients (x : list PairedClient) (f : PairingFile) : PairingFile :=
  mkFile (pf_version f) x (pf_grants f) (pf_call_spend_grants f) (pf_front_door_grants f)
    (pf_pending_elevations f) (pf_replacement_approvals f) (pf_last_epoch f) (pf_device_keys f)
    (pf_pending_device_keys f) (pf_registered_ops f) (pf_intent_nonces f).

Definition set_grants (x : list SpendGrant) (f : PairingFile) : PairingFile :=
  mkFile (pf_version f) (pf_clients f) x (pf_call_spend_grants f) (pf_front_door_grants f)
    (pf_pending_elevations f) (pf_replacement_approvals f) (pf_last_epoch f) (pf_device_keys f)
    (pf_pending_device_keys f) (pf_registered_ops f) (pf_intent_nonces f).

Definition set_call_grants (x : gmap string string) (f : PairingFile) : PairingFile :=
  mkFile (pf_version f) (pf_clients f) (pf_grants f) x (pf_front_door_grants f) (pf_pending_elevations f)
    (pf_replacement_approvals f) (pf_last_epoch f) (pf_device_keys f) (pf_pending_device_keys f)
    (pf_registered_ops f) (pf_intent_nonces f).

Definition set_front_door_grants (x : list FrontDoorGrant) (f : PairingFile) : PairingFile :=
  mkFile (pf_version f) (pf_clients f) (pf_grants f) (pf_call_spend_grants f) x (pf_pending_elevations f)
    (pf_replacement_approvals f) (pf_last_epoch f) (pf_device_keys f) (pf_pending_device_keys f)
    (pf_registered_ops f) (pf_intent_nonces f).

Definition set_pending_elevations (x : list PendingElevation) (f : PairingFile) : PairingFile :=
  mkFile (pf_version f) (pf_clients f) (pf_grants f) (pf_call_spend_grants f) (pf_front_door_grants f) x
    (pf_replacement_approvals f) (pf_last_epoch f) (pf_device_keys f) (pf_pending_device_keys f)
    (pf_registered_ops f) (pf_intent_nonces f).

Definition set_replacement_approvals (x : list ReplacementApproval) (f : PairingFile) : PairingFile :=
  mkFile (pf_version f) (pf_clients f) (pf_grants f) (pf_call_spend_grants f) (pf_front_door_grants f)
    (pf_pending_elevations f) x (pf_last_epoch f) (pf_device_keys f) (pf_pending_device_keys f)
    (pf_registered_ops f) (pf_intent_nonces f).

Definition set_last_epoch (x : gmap string Z) (f : PairingFile) : PairingFile :=
  mkFile (pf_version f) (pf_clients f) (pf_grants f) (pf_call_spend_grants f) (pf_front_door_grants f)
    (pf_pending_elevations f) (pf_replacement_approvals f) x (pf_device_keys f) (pf_pending_device_keys f)
    (pf_registered_ops f) (pf_intent_nonces f).

Definition set_device_keys (x : list DeviceKey) (f : PairingFile) : PairingFile :=
  mkFile (pf_version f) (pf_clients f) (pf_grants f) (pf_call_spend_grants f) (pf_front_door_grants f)
    (pf_pending_elevations f) (pf_replacement_approvals f) (pf_last_epoch f) x (pf_pending_device_keys f)
    (pf_registered_ops f) (pf_intent_nonces f).

Definition set_pending_device_keys (x : list PendingDeviceKey) (f : PairingFile) : PairingFile :=
  mkFile (pf_version f) (pf_clients f) (pf_grants f) (pf_call_spend_grants f) (pf_front_door_grants f)
    (pf_pending_elevations f) (pf_replacement_approvals f) (pf_last_epoch f) (pf_device_keys f) x
    (pf_registered_ops f) (pf_intent_nonces f).

Definition set_registered_ops (x : gmap string string) (f : PairingFile) : PairingFile :=
  mkFile (pf_version f) (pf_clients f) (pf_grants f) (pf_call_spend_grants f) (pf_front_door_grants f)
    (pf_pending_elevations f) (pf_replacement_approvals f) (pf_last_epoch f) (pf_device_keys f)
    (pf_pending_device_keys f) x (pf_intent_nonces f).

Definition PAIRING_FILE_VERSION : Z := 8.

(** ** Operations on the file *)

Definition file_revoke_grants (client_id : option string) (f : PairingFile) : PairingFile * nat :=
  let hit id := match client_id with Some c => bool_decide (id = c) | None => true end in
  (set_front_door_grants (map (fun g => if hit (fd_client_id g) then set_revoked g else g) (pf_front_door_grants f))
     (set_grants (map (fun g => if hit (sg_client_id g) then set_budget None g else g) (pf_grants f)) f),
   (length (filter (fun g => hit (sg_client_id g) = true) (pf_grants f)) +
    length (filter (fun g => hit (fd_client_id g) = true) (pf_front_door_grants f)))%nat).

Definition has_dead_grant (now : Z) (f : PairingFile) : bool :=
  existsb (fun g => negb (is_live now g)) (pf_grants f) ||
  existsb (fun g => negb (front_door_is_live now g)) (pf_front_door_grants f).

Definition retain_live_grants (now : Z) (f : PairingFile) : PairingFile :=
  set_front_door_grants (filter (fun g => front_door_is_live now g = true) (pf_front_door_grants f))
    (set_grants (filter (fun g => is_live now g = true) (pf_grants f)) f).

(** ** Errors *)

Definition SEED_NOT_ENCRYPTED : string := "seed_not_encrypted".
Definition SEED_PASSWORD_NOT_TYPED : string := "seed_password_not_typed".

Definition device_approvals_off_message (reason : string) : string :=
  if String.eqb reason SEED_NOT_ENCRYPTED
  then "Touch ID approvals are off on this node: its recovery phrase is not encrypted. Encrypt your recovery phrase to enable Touch ID approvals (`konsensus seed encrypt`, then restart the node)."
  else if String.eqb reason SEED_PASSWORD_NOT_TYPED
  then "Touch ID approvals are off on this node: it was started with the recovery-phrase password from a flag or file. Restart it and type the password at start to enable Touch ID approvals."
  else "Touch ID approvals are off on this node: it has no owner-approval key.".

Inductive PairingError : Type :=
| Closed
| TooManyPending
| UnknownPending
| BadProof
| Malformed (s : string)
| UnknownClient
| PairingInvalid (s : string)
| NotGrantable (s : string)
| UnknownOperation
| ConfirmationMismatch
| WrongOwnerCode (attempts_left : Z)
| ConfirmationLost
| DeviceApprovalsDisabled (reason : string)
| ShortCodesOff
| Expired
| NotApproved
| BindingMismatch
| OwnerChannelUnavailable
| OwnerApprovalUnavailable
| Io (s : string).

(** [to_string]. *)
Definition PairingError_to_string (e : PairingError) : string :=
  match e with
  | Closed => "pairing is closed: a client is already paired and no pairing window is open"
  | TooManyPending => "too many pending pairing requests"
  | UnknownPending => "pairing request is unknown, already used, or expired"
  | BadProof => "pairing proof did not verify"
  | Malformed s => "malformed input: " +:+ s
  | UnknownClient => "no such paired client"
  | PairingInvalid s => "pairing is no longer valid: " +:+ s
  | NotGrantable s => "scope is not grantable to a pairing: " +:+ s
  | UnknownOperation => "no such pending operation"
  | ConfirmationMismatch => "confirmation phrase did not match the pending operation"
  | WrongOwnerCode n => "that is not the code the node showed for this request; " +:+ show_uint n +:+ " attempt(s) left before the request is cancelled"
  | ConfirmationLost => "this request can no longer be approved: the node restarted after it was made, or too many wrong codes were typed. Nothing was granted. Ask again from the app; it shows a new command"
  | DeviceApprovalsDisabled reason => device_approvals_off_message reason
  | ShortCodesOff => "short approval codes are off until the node restarts (too many wrong codes were typed). Type the full GRANT ... CODE line from the node's terminal instead"
  | Expired => "operation expired"
  | NotApproved => "operation has not been approved by the owner"
  | BindingMismatch => "approval binding mismatch"
  | OwnerChannelUnavailable => "elevation is unavailable: this node was not started in owner-run mode, so no owner control socket exists. A packaged sidecar app is a read+receive client by design — run the node yourself and grant over <data_dir>/control.sock to obtain spend or front_door."
  | OwnerApprovalUnavailable => "owner_approval_unavailable: start with --owner-control and provide an owner terminal or a writable owner-only pairing directory (identity replacement requires an owner terminal)"
  | Io s => "pairing store error: " +:+ s
  end.

(** ** Persistence *)

(** What the file system does in one round: the temporary file cannot be
    written, it cannot be renamed, the directory cannot be synchronised after the
    rename, or all is well. *)
Inductive io_round : Type :=
| WriteFails (e : string)
| RenameFails (e : string)
| FsyncFails (e : string)
| Written.

(** Three clock readings per round. *)
Record PersistEnv := mkPersistEnv { pe_clock : nat -> Z; pe_io : nat -> io_round }.

Fixpoint persist_rounds (fuel round : nat) (env : PersistEnv) (candidate disk : PairingFile) :
    option (PairingFile * result string PairingFile) :=
  match fuel with
  | O => None
  | S f =>
      let candidate := retain_live_grants (pe_clock env (3 * round)) candidate in
      match pe_io env round with
      | WriteFails e => Some (disk, Err e)
      | io =>
          if has_dead_grant (pe_clock env (3 * round + 1)) candidate
          then persist_rounds f (S round) env candidate disk
          else
            match io with
            | FsyncFails e => Some (candidate, Err e)
            | Written =>
                if has_dead_grant (pe_clock env (3 * round + 2)) candidate
                then persist_rounds f (S round) env candidate candidate
                else Some (candidate, Ok candidate)
            | RenameFails e | WriteFails e => Some (disk, Err e)
            end
      end
  end.

(** Each further round has dropped a grant, so one round more than there are
    grants is enough when the clock does not run backwards. *)
Definition persist_fuel (f : PairingFile) : nat :=
  S (length (pf_grants f) + length (pf_front_door_grants f)).

Record LedgerState := mkLedger {
  ls_file : PairingFile;
  ls_disk : PairingFile;
  ls_identity_fingerprint : string
}.

Definition set_file (f : PairingFile) (s : LedgerState) : LedgerState :=
  mkLedger f (ls_disk s) (ls_identity_fingerprint s).

(** The loop of the source has no bound; a run out of fuel leaves the file as
    it is and reports an error. *)
Definition persist (env : PersistEnv) : comp LedgerState PairingError unit := fun s =>
  match persist_rounds (persist_fuel (ls_file s)) 0 env (set_version PAIRING_FILE_VERSION (ls_file s)) (ls_disk s) with
  | Some (disk, Ok file) => (mkLedger file disk (ls_identity_fingerprint s), Ok tt)
  | Some (disk, Err e) => (mkLedger (ls_file s) disk (ls_identity_fingerprint s), Err (Io e))
  | None => (s, Err (Io "clock runs backwards"))
  end.
