(* ===== verification/SpendLedger.v ===== *)
(** * The spend ledger

    The part of [konsensus-api/src/pairing.rs] and
    [konsensus-api/src/pairing/call_spend.rs] that debits, draws, resolves and
    closes against the grants of the pairing file, under one lock, with the file
    replaced atomically on disk before an operation reports success.

    The in-memory file and the file on disk are both in the state.  What the
    clock and the file system do during an operation is its [Env].  The check of a
    signed approval receipt ([approval.rs]) is the argument [receipt_verifies]. *)

From S2P Require Import Prelude Text Kind BTree SpendBudget CallSpend PairingStore.

(** ** What an operation does to one meter *)

Record ReservationAuthority := mkAuthority {
  au_payment_ids : list string;
  au_payment : bool;
  au_expected_op_id : option string;
  au_liquidity : bool;
  au_before_persist : option (Reservation -> result BudgetRefusal unit);
  au_operation : option OperationReservationLink;
  au_call : option CallSpendTerms;
  au_call_offer : option (string * option Z);
  au_in_memory : bool
}.

Definition authority_default : ReservationAuthority :=
  mkAuthority [] false None false None None None None false.

(** The limit of an offer paid under an open hold of this grant. *)
Definition offer_limit (b : GrantBudget) (a : ReservationAuthority) (charges : list Charge) : option Z :=
  match au_call a, au_call_offer a with
  | None, Some (call_id, cap) =>
      list_find (fun '(_, c) => cs_closed c = false /\ ct_call_id (cs_terms c) = call_id /\
          Forall (fun charge => ch_recipient charge = ct_peer (cs_terms c)) charges)
        (entries (gb_call_reservations b)) ≫= fun '(_, (_, c)) => Some (default (ceiling (cs_terms c)) cap)
  | _, _ => None
  end.

Fixpoint total_within (max_msat total : Z) (charges : list Charge) : result BudgetRefusal unit :=
  match charges with
  | [] => Ok tt
  | c :: charges' =>
      match checked_add total (ch_amount_msat c) with
      | Some total => if total <=? max_msat then total_within max_msat total charges' else Err (PerCall max_msat)
      | None => Err (PerCall max_msat)
      end
  end.

Definition purpose_limit (b : GrantBudget) (a : ReservationAuthority) (charges : list Charge) :
    result BudgetRefusal unit :=
  match au_call a with
  | Some terms => check_call_closing b terms
  | None =>
      if au_payment a then Ok tt
      else total_within (default (messaging_per_call_max_msat b) (offer_limit b a charges)) 0 charges
  end.

Definition reserve_for (b : GrantBudget) (a : ReservationAuthority) (charges : list Charge) (now : Z) :
    result BudgetRefusal GrantBudget :=
  let? _ := purpose_limit b a charges in
  let offer_msat := fold_left (fun total c => saturating_add U64_MAX total (ch_amount_msat c)) charges 0 in
  match ceiling <$> au_call a, offer_limit b a charges with
  | Some ceiling, _ => reserve_call_at charges ceiling now b
  | None, Some _ => reserve_call_at charges offer_msat now b
  | None, None => reserve_at charges now b
  end.

(** The charges of a reservation, per recipient. *)
Definition recipients_of (charges : list Charge) : gmap string Z :=
  fold_left (fun m c => <[ch_recipient c :=
    wrapping_add_u64 (default 0 (m !! ch_recipient c)) (ch_amount_msat c)]> m) charges ∅.

(** What a granted reservation leaves in the meter. *)
Definition enter (id : string) (a : ReservationAuthority) (charges : list Charge) (b : GrantBudget) : GrantBudget :=
  let b := set_payment_ids (gb_payment_ids b ∪ list_to_set (au_payment_ids a)) b in
  let recipients := recipients_of charges in
  if decide (recipients = ∅) then b
  else
    let b := set_pending (<[id := recipients]> (gb_pending b)) b in
    let b := match au_call a with Some terms => set_call id (CallSpend_new terms) b | None => b end in
    match au_operation a with
    | Some link => set_links (<[id := link]> (gb_operation_links b)) b
    | None => b
    end.

(** The meter after a reservation was tried.  A refusal comes with whether it
    changed the meter's refusal observation. *)
Definition reserve_budget (id : string) (a : ReservationAuthority) (charges : list Charge) (now : Z)
    (b : GrantBudget) : GrantBudget * result (BudgetRefusal * bool) unit :=
  if bool_decide (Exists (fun id => id ∈ gb_payment_ids b) (au_payment_ids a))
  then (b, Err (DuplicatePayment, false))
  else if (4096 <? size (gb_payment_ids b) + length (au_payment_ids a))%nat
  then (b, Err (Ledger "payment deduplication ledger is full; ask the owner for a new grant", false))
  else if (1024 <=? size (gb_pending b))%nat
  then (b, Err (Ledger "too many unresolved reservations", false))
  else
    match reserve_for b a charges now with
    | Err refusal =>
        let '(b', observed) := record_breaker_refusal refusal now b in (b', Err (refusal, observed))
    | Ok b => (enter id a charges b, Ok tt)
    end.

(** [id] is the generated identity of the draw; [closing] says whether the
    draw is the closing signal. *)
Definition draw_budget (id peer call_id : string) (seq price fee : Z) (link : OperationReservationLink)
    (closing : bool) (now : Z) (b : GrantBudget) : result BudgetRefusal (GrantBudget * Z) :=
  check envelopes_live b [peer] now else NoGrant ;;
  let closing_limit := call_debit_limit b peer Signal in
  check negb (closing && (closing_limit <? price)) else PerCall closing_limit ;;
  let? (parent, call) := ok_or (list_find (fun '(_, call) =>
      ct_peer (cs_terms call) = peer /\ ct_call_id (cs_terms call) = call_id)
      (entries (gb_call_reservations b)) ≫= fun '(_, found) => Some found)
    (Unpriced "call has no spend reservation") in
  let t := cs_terms call in
  check negb (cs_closed call || (negb closing && (ct_max_call_minutes t <=? seq)))
    else Unpriced "call reservation is closed or duration cap reached" ;;
  check negb (negb closing && ((ct_per_block_msat t <? price) || (ct_per_block_fee_msat t <? fee)))
    else CallPriceChanged ;;
  check negb (bool_decide (seq ∈ cs_paid_sequences call) ||
              existsb (fun '(_, s) => s =? seq) (entries (cs_draws call))) else DuplicatePayment ;;
  let? amount := ok_or (checked_add price fee) CallPriceChanged in
  check negb (closing && (closing_allowance_msat t <? amount)) else CallPriceChanged ;;
  let? remaining := ok_or (gb_pending b !! parent ≫= fun r => r !! peer)
    (Unpriced "call reservation is not available") in
  check amount <=? remaining else TotalBudget remaining ;;
  let held := default ∅ (gb_pending b !! parent) in
  let b := set_call parent (mkCall t (cs_spent_msat call) (cs_released_msat call) (cs_closed call)
             (cs_outcome_recorded call) (cs_payment_failed call) (cs_finished_at call)
             (<[id := seq]> (cs_draws call)) (cs_paid_sequences call)) b in
  let b := set_pending (<[id := {[peer := amount]}]> (<[parent := <[peer := remaining - amount]> held]>
             (gb_pending b))) b in
  Ok (set_links (<[id := link]> (gb_operation_links b)) b, amount).

(** Resolving one recipient of a reservation; [None] when there is nothing
    to resolve. *)
Definition resolve_budget (id recipient : string) (actual : Z) (payment_failed : bool) (now : Z)
    (b : GrantBudget) : option GrantBudget :=
  match gb_pending b !! id with
  | None => None
  | Some recipients =>
      match recipients !! recipient with
      | None => None
      | Some reserved =>
          let rest := delete recipient recipients in
          let b := if decide (rest = ∅)
                   then set_links (delete id (gb_operation_links b)) (set_pending (delete id (gb_pending b)) b)
                   else set_pending (<[id := rest]> (gb_pending b)) b in
          let '(b', drawn) := resolve_call_draw id recipient reserved actual payment_failed now b in
          Some (if drawn then b' else record_outcome reserved actual now (resolve recipient reserved actual b'))
      end
  end.

(** ** The service *)

(** The clock and the file system during one operation: a cleanup when the
    lock is taken, the reading the operation decides by, its own write, and the
    reading after the write. *)
Record Env := mkEnv {
  en_lock_now : Z;
  en_lock : PersistEnv;
  en_now : Z;
  en_persist : PersistEnv;
  en_after : Z
}.

Definition prune_expired_locked (now : Z) (env : PersistEnv) : comp LedgerState PairingError unit := fun s =>
  if has_dead_grant now (ls_file s) then persist env s else (s, Ok tt).

(** A failed cleanup is logged and retried later. *)
Definition lock (env : Env) (s : LedgerState) : LedgerState :=
  (prune_expired_locked (en_lock_now env) (en_lock env) s).1.

Section Service.

Record ServiceConfig := mkService {
  sv_owner_control_enabled : bool;
  sv_local_owner_device : bool;
  sv_device_authority_off : option string;
  sv_has_owner_approval_key : bool
}.

Context (receipt_verifies : bytes -> SpendGrant -> bool) (cfg : ServiceConfig).

Definition permits_spend_grant (g : SpendGrant) : bool :=
  match sg_owner_approval g with
  | Some receipt =>
      (sv_owner_control_enabled cfg || sv_local_owner_device cfg) &&
      bool_decide (sv_device_authority_off cfg = None) && receipt_verifies receipt g
  | None =>
      sv_owner_control_enabled cfg ||
      (sv_local_owner_device cfg && sv_has_owner_approval_key cfg &&
       bool_decide (is_Some (strip_prefix "device:" (sg_granted_by g))) &&
       match sg_budget g with Some b => gb_recipients_only b | None => false end)
  end.

(** Replacing the meter of the grant at an index. *)
Definition put_budget (idx : nat) (b : option GrantBudget) (f : PairingFile) : PairingFile :=
  set_grants (alter (set_budget b) idx (pf_grants f)) f.

(** Rolling the meter of the grant with an operation id back. *)
Definition restore_budget (op_id : string) (b : option GrantBudget) (f : PairingFile) : PairingFile :=
  match list_find (fun g => sg_op_id g = op_id) (pf_grants f) with
  | Some (idx, _) => put_budget idx b f
  | None => f
  end.

Definition spendable (client_id : string) (epoch : Z) (expected : option string) (now : Z) (s : LedgerState)
    (g : SpendGrant) : bool :=
  match expected with Some op => bool_decide (sg_op_id g = op) | None => true end &&
  permits_spend_grant g && bool_decide (sg_client_id g = client_id) && (sg_epoch g =? epoch) &&
  bool_decide (sg_identity_fingerprint g = ls_identity_fingerprint s) && is_live now g.

Definition current_epoch (client_id : string) (f : PairingFile) : option Z :=
  list_find (fun c => pc_client_id c = client_id) (pf_clients f) ≫= fun '(_, c) => Some (pc_epoch c).

(** [format!("{}:{}", terms.peer, terms.call_id)]. *)
Definition call_key (t : CallSpendTerms) : string := ct_peer t +:+ ":" +:+ ct_call_id t.

Definition undo_binding (binding : option (string * option string)) (f : PairingFile) : PairingFile :=
  match binding with
  | None => f
  | Some (key, Some previous) => set_call_grants (<[key := previous]> (pf_call_spend_grants f)) f
  | Some (key, None) => set_call_grants (delete key (pf_call_spend_grants f)) f
  end.

Definition reserve_spend_locked (id client_id : string) (epoch : Z) (charges : list Charge)
    (a : ReservationAuthority) (env : Env) : comp LedgerState BudgetRefusal Reservation := fun s =>
  let f := ls_file s in
  if negb (bool_decide (current_epoch client_id f = Some epoch)) then (s, Err NoGrant)
  else
    match list_find (fun g => spendable client_id epoch (au_expected_op_id a) (en_now env) s g = true)
            (pf_grants f) with
    | None => (s, Err NoGrant)
    | Some (idx, g) =>
        if au_payment a && is_messaging g then (s, Err MessagingGrant)
        else if au_liquidity a && negb (match sg_budget g with Some b => gb_allow_liquidity_fees b | None => false end)
        then (s, Err (Unpriced "grant does not authorize liquidity fees"))
        else
          match sg_budget g with
          | None => (s, Err NoGrant)
          | Some before =>
              match reserve_budget id a charges (en_now env) before with
              | (b, Err (refusal, observed)) =>
                  let s' := set_file (put_budget idx (Some b) f) s in
                  if observed && negb (au_in_memory a) then
                    match persist (en_persist env) s' with
                    | (s'', Ok _) => (s'', Err refusal)
                    | (s'', Err e) =>
                        (set_file (restore_budget (sg_op_id g) (Some before) (ls_file s'')) s'', Err (Ledger (PairingError_to_string e)))
                    end
                  else (s', Err refusal)
              | (b, Ok _) =>
                  let reservation := mkReservation id client_id (sg_op_id g) charges in
                  match (match au_before_persist a with Some save => save reservation | None => Ok tt end) with
                  | Err e => (s, Err e)
                  | Ok _ =>
                      let f' := put_budget idx (Some b) f in
                      let binding := (fun t => (call_key t, pf_call_spend_grants f !! call_key t)) <$> au_call a in
                      let f' := match au_call a with
                                | Some t => set_call_grants (<[call_key t := sg_op_id g]> (pf_call_spend_grants f')) f'
                                | None => f'
                                end in
                      let s' := set_file f' s in
                      if au_in_memory a then (s', Ok reservation)
                      else
                        match persist (en_persist env) s' with
                        | (s'', Err e) =>
                            (set_file (restore_budget (sg_op_id g) (Some before)
                               (undo_binding binding (ls_file s''))) s'', Err (Ledger (PairingError_to_string e)))
                        | (s'', Ok _) =>
                            if existsb (fun g' => bool_decide (sg_op_id g' = sg_op_id g) && is_live (en_after env) g')
                                 (pf_grants (ls_file s''))
                            then (s'', Ok reservation) else (s'', Err NoGrant)
                        end
                  end
              end
          end
    end.

(** ** Ordinary reservations *)

Definition reserve_spend (id client_id : string) (epoch : Z) (charges : list Charge) (env : Env) :
    comp LedgerState BudgetRefusal Reservation := fun s =>
  reserve_spend_locked id client_id epoch charges authority_default env (lock env s).

Definition reserve_liquidity_fee (id client_id : string) (epoch : Z) (charges : list Charge) (env : Env) :
    comp LedgerState BudgetRefusal Reservation := fun s =>
  reserve_spend_locked id client_id epoch charges
    (mkAuthority [] false None true None None None None false) env (lock env s).

Definition reserve_operation_spend (id client_id : string) (epoch : Z) (charges : list Charge)
    (link : OperationReservationLink) (env : Env) : comp LedgerState BudgetRefusal Reservation := fun s =>
  reserve_spend_locked id client_id epoch charges
    (mkAuthority [] false None false None (Some link) None None false) env (lock env s).

Definition reserve_spend_linked (id client_id : string) (epoch : Z) (charges : list Charge)
    (before_persist : Reservation -> result BudgetRefusal unit) (env : Env) :
    comp LedgerState BudgetRefusal Reservation := fun s =>
  reserve_spend_locked id client_id epoch charges
    (mkAuthority [] false None false (Some before_persist) None None None false) env (lock env s).

Definition reserve_payment (id client_id : string) (epoch : Z) (charges : list Charge)
    (payment_ids : list string) (env : Env) : comp LedgerState BudgetRefusal Reservation := fun s =>
  reserve_spend_locked id client_id epoch charges
    (mkAuthority payment_ids true None false None None None None false) env (lock env s).

(** The reservations that still wait for their outcome. *)
Definition pending_operation_reservations (s : LedgerState) : list (OperationReservationLink * Reservation) :=
  concat (map (fun g =>
    match sg_budget g with
    | None => []
    | Some b =>
        omap (fun '(id, link) =>
          (fun r => (link, mkReservation id (sg_client_id g) (sg_op_id g)
                       (map (fun '(recipient, amount) => mkCharge recipient amount) (entries r))))
          <$> gb_pending b !! id) (entries (gb_operation_links b))
    end) (pf_grants (ls_file s))).

(** ** Resolution and reset *)

Definition try_resolve_spend_outcome (r : Reservation) (recipient : string) (actual_msat : Z)
    (payment_failed : bool) (env : Env) : comp LedgerState PairingError unit := fun s0 =>
  let s := lock env s0 in
  let f := ls_file s in
  match list_find (fun g => sg_op_id g = rv_op_id r /\ sg_client_id g = rv_client_id r) (pf_grants f) with
  | None => (s, Ok tt)
  | Some (idx, g) =>
      match sg_budget g with
      | None => (s, Ok tt)
      | Some before =>
          if bool_decide (is_Some (gb_call_reservations before !! rv_id r))
          then (s, Err (Malformed "a call hold must be closed, not resolved as a payment"))
          else
            match resolve_budget (rv_id r) recipient actual_msat payment_failed (en_now env) before with
            | None => (s, Ok tt)
            | Some b =>
                match persist (en_persist env) (set_file (put_budget idx (Some b) f) s) with
                | (s', Ok _) => (s', Ok tt)
                | (s', Err e) =>
                    (set_file (restore_budget (rv_op_id r) (Some before) (ls_file s')) s', Err e)
                end
            end
      end
  end.

Definition try_resolve_spend (r : Reservation) (recipient : string) (actual_msat : Z) (env : Env) :=
  try_resolve_spend_outcome r recipient actual_msat false env.

(** A failure is logged; the reservation is retained. *)
Definition resolve_spend (r : Reservation) (recipient : string) (actual_msat : Z) (env : Env) (s : LedgerState) :
    LedgerState := (try_resolve_spend r recipient actual_msat env s).1.

Definition reset_grant_breakers (client_id op_id : string) (env : Env) : comp LedgerState PairingError unit := fun s0 =>
  if negb (sv_owner_control_enabled cfg) then (s0, Err OwnerChannelUnavailable)
  else
    let s := lock env s0 in
    let f := ls_file s in
    match list_find (fun g => sg_client_id g = client_id /\ sg_op_id g = op_id /\ is_live (en_now env) g = true)
            (pf_grants f) with
    | None => (s, Err UnknownOperation)
    | Some (idx, g) =>
        match sg_budget g with
        | None => (s, Err UnknownOperation)
        | Some before =>
            match persist (en_persist env) (set_file (put_budget idx (Some (reset_breakers before)) f) s) with
            | (s', Ok _) => (s', Ok tt)
            | (s', Err e) => (set_file (restore_budget op_id (Some before) (ls_file s')) s', Err e)
            end
        end
    end.

Definition revoke_grants (client_id : option string) (env : Env) : comp LedgerState PairingError nat := fun s0 =>
  let s := lock env s0 in
  let '(f, removed) := file_revoke_grants client_id (ls_file s) in
  match persist (en_persist env) (set_file f s) with
  | (s', Ok _) => (s', Ok removed)
  | (s', Err e) => (s', Err e)
  end.

(** ** Calls *)

(** Mapping over the meters of a file. *)
Definition map_budgets (h : GrantBudget -> GrantBudget) (f : PairingFile) : PairingFile :=
  set_grants (map (fun g => set_budget (h <$> sg_budget g) g) (pf_grants f)) f.

Definition prune_call_spend (now : Z) (env : Env) : comp LedgerState PairingError unit := fun s0 =>
  let s := lock env s0 in
  let before := ls_file s in
  let f := map_budgets (fun b => prune_call_tombstones now (close_holds_over_limit None now b).1) before in
  if bool_decide (map sg_budget (pf_grants f) = map sg_budget (pf_grants before)) then (set_file f s, Ok tt)
  else
    match persist (en_persist env) (set_file f s) with
    | (s', Ok _) => (s', Ok tt)
    | (s', Err e) => (set_file before s', Err e)
    end.

(** The loop over the grants, and the refusal of the last hold closed. *)
Fixpoint close_over (only : option (string * string)) (now : Z) (gs : list SpendGrant) :
    list SpendGrant * option BudgetRefusal :=
  match gs with
  | [] => ([], None)
  | g :: gs' =>
      let '(gs', later) := close_over only now gs' in
      match sg_budget g with
      | None => (g :: gs', later)
      | Some b =>
          let '(b, refused) := close_holds_over_limit only now b in
          (set_budget (Some b) g :: gs', match later with Some r => Some r | None => refused end)
      end
  end.

Definition enforce_call_hold_limit (peer call_id : string) (env : Env) : comp LedgerState BudgetRefusal unit := fun s0 =>
  let s := lock env s0 in
  let before := ls_file s in
  let '(gs, refused) := close_over (Some (peer, call_id)) (en_now env) (pf_grants before) in
  let s' := set_file (set_grants gs before) s in
  match refused with
  | None => (s', Ok tt)
  | Some refusal =>
      match persist (en_persist env) s' with
      | (s'', Ok _) => (s'', Err refusal)
      | (s'', Err e) => (set_file before s'', Err (Ledger (PairingError_to_string e)))
      end
  end.

Definition call_grant_index (s : LedgerState) (client : string) (epoch now : Z) : result BudgetRefusal nat :=
  check existsb (fun c => bool_decide (pc_client_id c = client) && (pc_epoch c =? epoch) &&
            bool_decide (pc_identity_fingerprint c = ls_identity_fingerprint s)) (pf_clients (ls_file s))
    else NoGrant ;;
  ok_or (list_find (fun g => sg_client_id g = client /\ sg_epoch g = epoch /\
      sg_identity_fingerprint g = ls_identity_fingerprint s /\ is_live now g = true /\ Spend ∈ sg_scopes g /\
      permits_spend_grant g = true) (pf_grants (ls_file s)) ≫= fun '(idx, _) => Some idx) NoGrant.

Definition call_reference (g : SpendGrant) (id : string) (t : CallSpendTerms) : Reservation :=
  mkReservation id (sg_client_id g) (sg_op_id g) [mkCharge (ct_peer t) (ct_reserved_msat t)].

(** Every hold of every grant, in order, with the index of its grant. *)
Definition all_holds (f : PairingFile) : list (nat * SpendGrant * (string * CallSpend)) :=
  concat (imap (fun idx g =>
    match sg_budget g with
    | Some b => map (fun '(id, call) => (idx, g, (id, call))) (entries (gb_call_reservations b))
    | None => []
    end) (pf_grants f)).

Definition held_msat (f : PairingFile) : Z :=
  fold_left (fun sum '(_, _, (_, call)) => saturating_add U64_MAX sum (ct_st_remaining_msat (call_status call)))
    (all_holds f) 0.

(** The checks before a new hold; an identical open hold is returned. *)
Definition ledger_check_call_hold (s : LedgerState) (client : string) (epoch : Z) (terms : CallSpendTerms)
    (capacity_msat now : Z) : result BudgetRefusal (option Reservation) :=
  let f := ls_file s in
  let? idx := call_grant_index s client epoch now in
  let op_id := default "" (sg_op_id <$> pf_grants f !! idx) in
  let key := call_key terms in
  check match pf_call_spend_grants f !! key with Some g => bool_decide (g = op_id) | None => true end
    else NoGrant ;;
  check negb (bool_decide (pf_call_spend_grants f !! key = None) && (4096 <=? size (pf_call_spend_grants f))%nat)
    else Ledger "call funding ledger is full; wait for call cleanup" ;;
  match list_find (fun '(_, _, (_, call)) => ct_peer (cs_terms call) = ct_peer terms /\
          ct_call_id (cs_terms call) = ct_call_id terms) (all_holds f) with
  | Some (_, (grant_idx, g, (id, call))) =>
      if negb (grant_idx =? idx)%nat || cs_closed call || bool_decide (cs_terms call <> terms)
      then Err (Unpriced "call already reserved with different authority or terms")
      else Ok (Some (call_reference g id (cs_terms call)))
  | None =>
      let available_msat := saturating_sub capacity_msat (held_msat f) in
      check ct_reserved_msat terms <=? available_msat
        else CallLiquidity (ct_reserved_msat terms) available_msat ;;
      check match pf_grants f !! idx ≫= sg_budget with
            | Some b => (length (filter (fun '(_, c) => cs_closed c = false \/ cs_draws c <> ∅)
                           (entries (gb_call_reservations b))) <? 1024)%nat
            | None => true
            end else Ledger "call reservation ledger is full; ask the owner for a new grant" ;;
      Ok None
  end.

Definition hold_charges (t : CallSpendTerms) : list Charge := [mkCharge (ct_peer t) (ct_reserved_msat t)].

(** [prune] is what happens while the finished calls are pruned first. *)
Definition reserve_call_spend (id client : string) (epoch : Z) (terms : CallSpendTerms) (capacity_msat : Z)
    (prune env : Env) : comp LedgerState BudgetRefusal Reservation := fun s0 =>
  match prune_call_spend (en_now prune) prune s0 with
  | (s1, Err e) => (s1, Err (Ledger (PairingError_to_string e)))
  | (s1, Ok _) =>
      let s := lock env s1 in
      match ledger_check_call_hold s client epoch terms capacity_msat (en_now env) with
      | Err e => (s, Err e)
      | Ok (Some existing) => (s, Ok existing)
      | Ok None =>
          reserve_spend_locked id client epoch (hold_charges terms)
            (mkAuthority [] false None false None None (Some terms) None false) env s
      end
  end.

Definition reserve_call_offer_spend (id client : string) (epoch : Z) (charges : list Charge) (call_id : string)
    (cap : option Z) (link : OperationReservationLink) (env : Env) :
    comp LedgerState BudgetRefusal Reservation := fun s =>
  reserve_spend_locked id client epoch charges
    (mkAuthority [] false None false None (Some link) None (Some (call_id, cap)) false) env (lock env s).

(** Undoing a hold and its offer: only the refusal observations stay. *)
Definition keep_observations (before refused : PairingFile) : PairingFile :=
  set_grants (zip_with (fun g seen =>
    match sg_budget g, sg_budget seen with
    | Some b, Some b' => set_budget (Some (keep_refusal_observation b' b)) g
    | _, _ => g
    end) (pf_grants before) (pf_grants refused) ++ drop (length (pf_grants refused)) (pf_grants before)) before.

(** A hold and its offer, kept together or not at all. *)
Definition reserve_call_with_offer (hold_id offer_id client : string) (epoch : Z) (terms : CallSpendTerms)
    (capacity_msat : Z) (offer : list Charge) (offer_cap : option Z) (link : OperationReservationLink)
    (prune env : Env) : comp LedgerState BudgetRefusal Reservation := fun s0 =>
  match prune_call_spend (en_now prune) prune s0 with
  | (s1, Err e) => (s1, Err (Ledger (PairingError_to_string e)))
  | (s1, Ok _) =>
      let s := lock env s1 in
      match ledger_check_call_hold s client epoch terms capacity_msat (en_now env) with
      | Err e => (s, Err e)
      | Ok (Some _) => (s, Err (Unpriced "call already reserved; send its offer again"))
      | Ok None =>
          let before := ls_file s in
          let '(s2, reserved) :=
            (let! _ := reserve_spend_locked hold_id client epoch (hold_charges terms)
                         (mkAuthority [] false None false None None (Some terms) None true) env in
             reserve_spend_locked offer_id client epoch offer
               (mkAuthority [] false None false None (Some link) None (Some (ct_call_id terms, offer_cap)) true) env) s in
          match reserved with
          | Err refusal =>
              let f := keep_observations before (ls_file s2) in
              let s3 := set_file f s2 in
              if bool_decide (map sg_budget (pf_grants f) = map sg_budget (pf_grants before)) then (s3, Err refusal)
              else match persist (en_persist env) s3 with
                   | (s4, Ok _) => (s4, Err refusal)
                   | (s4, Err e) => (s4, Err (Ledger (PairingError_to_string e)))
                   end
          | Ok reservation =>
              match persist (en_persist env) s2 with
              | (s3, Err e) => (set_file before s3, Err (Ledger (PairingError_to_string e)))
              | (s3, Ok _) =>
                  if existsb (fun g => bool_decide (sg_op_id g = rv_op_id reservation) && is_live (en_after env) g)
                       (pf_grants (ls_file s3))
                  then (s3, Ok reservation) else (s3, Err NoGrant)
              end
          end
      end
  end.

(** A part of a hold becomes a reservation of its own. *)
Definition draw_call_spend_for_grant (id client : string) (epoch : Z) (peer call_id : string)
    (seq price fee : Z) (link : OperationReservationLink) (closing_grant : option string) (env : Env) :
    comp LedgerState BudgetRefusal Reservation := fun s0 =>
  let s := lock env s0 in
  let before := ls_file s in
  match call_grant_index s client epoch (en_now env) with
  | Err e => (s, Err e)
  | Ok idx =>
      match pf_grants before !! idx with
      | None => (s, Err NoGrant)
      | Some g =>
          if match closing_grant with Some op => bool_decide (sg_op_id g <> op) | None => false end
          then (s, Err NoGrant)
          else
            match sg_budget g with
            | None => (s, Err NoGrant)
            | Some b =>
                if is_paused b then (s, Err GrantPaused)
                else
                  match close_holds_over_limit (Some (peer, call_id)) (en_now env) b with
                  | (b', Some refusal) =>
                      match persist (en_persist env) (set_file (put_budget idx (Some b') before) s) with
                      | (s', Ok _) => (s', Err refusal)
                      | (s', Err e) => (set_file before s', Err (Ledger (PairingError_to_string e)))
                      end
                  | (_, None) =>
                      match draw_budget id peer call_id seq price fee link (bool_decide (is_Some closing_grant))
                              (en_now env) b with
                      | Err e => (s, Err e)
                      | Ok (b', amount) =>
                          match persist (en_persist env) (set_file (put_budget idx (Some b') before) s) with
                          | (s', Err e) => (set_file before s', Err (Ledger (PairingError_to_string e)))
                          | (s', Ok _) =>
                              (s', Ok (mkReservation id client (sg_op_id g) [mkCharge peer amount]))
                          end
                      end
                  end
            end
      end
  end.

Definition draw_call_spend (id client : string) (epoch : Z) (peer call_id : string) (seq price fee : Z)
    (link : OperationReservationLink) (env : Env) :=
  draw_call_spend_for_grant id client epoch peer call_id seq price fee link None env.

(** [env] is read twice: once for the grant, once by the draw. *)
Definition reserve_call_closing_spend (id grant_op_id peer call_id : string) (charges : list Charge)
    (link : OperationReservationLink) (first env : Env) : comp LedgerState BudgetRefusal Reservation := fun s0 =>
  let s := lock first s0 in
  match list_find (fun g => sg_op_id g = grant_op_id) (pf_grants (ls_file s)) with
  | None => (s, Err NoGrant)
  | Some (_, g) =>
      match charges with
      | [charge] =>
          if bool_decide (ch_recipient charge <> peer) then (s, Err NoGrant)
          else draw_call_spend_for_grant id (sg_client_id g) (sg_epoch g) peer call_id U32_MAX
                 (ch_amount_msat charge) 0 link (Some grant_op_id) env s
      | _ => (s, Err NoGrant)
      end
  end.

Definition close_call_spend (r : Reservation) (env : Env) : comp LedgerState PairingError unit := fun s0 =>
  let s := lock env s0 in
  let before := ls_file s in
  match list_find (fun g => sg_op_id g = rv_op_id r /\ sg_client_id g = rv_client_id r) (pf_grants before) with
  | None => (s, Ok tt)
  | Some (idx, g) =>
      match sg_budget g with
      | None => (s, Ok tt)
      | Some b =>
          if match gb_call_reservations b !! rv_id r with Some call => cs_closed call | None => true end
          then (s, Ok tt)
          else
            match persist (en_persist env)
                    (set_file (put_budget idx (Some (close_call (rv_id r) (en_now env) b)) before) s) with
            | (s', Ok _) => (s', Ok tt)
            | (s', Err e) => (set_file before s', Err e)
            end
      end
  end.

(** ** Dispatch *)

(** Whether a grant lets a reservation be paid now. *)
Definition authorises (s : LedgerState) (r : Reservation) (call : option (string * string))
    (purpose : option CallPayment) (now : Z) (g : SpendGrant) : bool :=
  permits_spend_grant g && bool_decide (sg_op_id g = rv_op_id r) &&
  match sg_budget g with
  | None => false
  | Some b =>
      match gb_pending b !! rv_id r with
      | Some recipients => envelopes_live b (entries recipients).*1 now
      | None => false
      end &&
      match call with
      | None => true
      | Some (peer, id) =>
          existsb (fun '(_, hold) => bool_decide (ct_peer (cs_terms hold) = peer) &&
            bool_decide (ct_call_id (cs_terms hold) = id) && negb (cs_closed hold) &&
            is_ok (check_call_hold b (cs_terms hold))) (entries (gb_call_reservations b))
      end &&
      match purpose with None => true | Some p => is_ok (check_call_debit b (rv_charges r) p) end
  end &&
  bool_decide (sg_client_id g = rv_client_id r) &&
  bool_decide (sg_identity_fingerprint g = ls_identity_fingerprint s) &&
  bool_decide (Spend ∈ sg_scopes g) && is_live now g &&
  existsb (fun c => bool_decide (pc_client_id c = sg_client_id g) && (pc_epoch c =? sg_epoch g) &&
    bool_decide (pc_identity_fingerprint c = ls_identity_fingerprint s)) (pf_clients (ls_file s)).

(** [Ok] is the run of the action. *)
Definition with_call_spend_authority_at (r : Reservation) (call : option (string * string))
    (purpose : option CallPayment) (env : Env) : comp LedgerState BudgetRefusal unit := fun s0 =>
  let purpose := match purpose with Some p => Some p | None => (fun _ => Media) <$> call end in
  let s := lock env s0 in
  if negb (existsb (authorises s r call purpose (en_now env)) (pf_grants (ls_file s))) then (s, Err NoGrant)
  else if existsb (fun g => bool_decide (sg_op_id g = rv_op_id r) && bool_decide (sg_client_id g = rv_client_id r) &&
            match sg_budget g with Some b => is_paused b | None => false end) (pf_grants (ls_file s))
  then (s, Err GrantPaused)
  else (s, Ok tt).
End Service.
