(* ===== verification/SpendSpec.v ===== *)
(** * Conservation in the spend ledger

    The lemmas behind [SpendProps]: what each operation on a meter does to its
    tally and to the sum of what is still pending. *)

From stdpp Require Import sorting.
From S2P Require Import Prelude Text Kind BTree SpendBudget CallSpend PairingStore SpendLedger.

(** ** The sum of what is pending *)

Definition pending_total (p : gmap string (gmap string Z)) : Z :=
  map_fold (fun _ m acc => map_sum m + acc) 0 p.

Lemma pending_total_empty : pending_total ∅ = 0.
Proof. apply map_fold_empty. Qed.

Lemma pending_total_insert p id m : p !! id = None -> pending_total (<[id := m]> p) = map_sum m + pending_total p.
Proof. intros Hk. unfold pending_total. rewrite map_fold_insert_L; [done|intros; lia|done]. Qed.

Lemma pending_total_delete p id m : p !! id = Some m -> pending_total p = map_sum m + pending_total (delete id p).
Proof. intros Hk. unfold pending_total. rewrite (map_fold_delete_L _ _ id m); [done|intros; lia|done]. Qed.

Lemma pending_total_update p id m m' : p !! id = Some m ->
  pending_total (<[id := m']> p) = pending_total p - map_sum m + map_sum m'.
Proof.
  intros Hk. rewrite <- insert_delete_eq, pending_total_insert, (pending_total_delete p id m)
    by (done || apply lookup_delete_eq). lia.
Qed.

Definition amounts_ok (p : gmap string (gmap string Z)) : Prop :=
  map_Forall (fun _ m => map_Forall (fun _ x => 0 <= x) m) p.

Lemma pending_total_nonneg p : amounts_ok p -> 0 <= pending_total p.
Proof.
  unfold amounts_ok. induction p as [|id m p Hk IH] using map_ind; [by rewrite pending_total_empty|].
  rewrite map_Forall_insert, pending_total_insert by done. intros [?%map_sum_nonneg ?%IH]. lia.
Qed.

(** A pending amount is part of the sum. *)
Lemma pending_part p id m r x : amounts_ok p -> p !! id = Some m -> m !! r = Some x ->
  0 <= x <= pending_total p.
Proof.
  intros Hok Hm Hx. pose proof (Hok id m Hm) as Hmo. cbn in Hmo. split; [by apply (Hmo r)|].
  rewrite (pending_total_delete p id m Hm), (map_sum_delete m r x Hx).
  pose proof (pending_total_nonneg (delete id p) ltac:(by apply map_Forall_delete)).
  pose proof (map_sum_nonneg (delete r m) ltac:(by apply map_Forall_delete)). lia.
Qed.

Lemma amounts_ok_insert p id m : amounts_ok p -> map_Forall (fun _ x => 0 <= x) m -> amounts_ok (<[id := m]> p).
Proof. intros. by apply map_Forall_insert_2. Qed.

Lemma amounts_ok_delete p id : amounts_ok p -> amounts_ok (delete id p).
Proof. intros. by apply map_Forall_delete. Qed.

Lemma map_sum_singleton k x : map_sum {[k := x]} = x.
Proof. rewrite <- insert_empty, map_sum_insert, map_sum_empty by apply lookup_empty. lia. Qed.

(** ** Charges *)

Fixpoint amounts_total (charges : list Charge) : Z :=
  match charges with [] => 0 | c :: charges' => ch_amount_msat c + amounts_total charges' end.

Definition charges_ok (charges : list Charge) : Prop := Forall (fun c => 0 <= ch_amount_msat c) charges.

Lemma amounts_total_nonneg charges : charges_ok charges -> 0 <= amounts_total charges.
Proof. induction 1; cbn; lia. Qed.

(** Adding to an entry of a map of totals. *)
Lemma map_sum_add m k x : map_sum (<[k := default 0 (m !! k) + x]> m) = map_sum m + x.
Proof.
  destruct (m !! k) as [y|] eqn:Hk; cbn; [rewrite (map_sum_update m k y)|rewrite map_sum_insert]; by lia || done.
Qed.

Lemma tally_total b charges total per total' per' : charges_ok charges ->
  tally b total per charges = Ok (total', per') -> total' = total + amounts_total charges.
Proof.
  intros Hc. revert total per. induction Hc as [|c charges Hpos _ IH]; intros total per; cbn [tally amounts_total].
  { intros [= <- _]. lia. }
  destruct (match gb_payee_allowlist b with Some _ => _ | None => _ end); [|done].
  unfold checked_add. destruct (_ <=? U64_MAX); [|done]. cbn [ok_or bind_result].
  destruct (_ <=? U64_MAX); [|done]. cbn [ok_or bind_result].
  intros Ht%IH. lia.
Qed.

Lemma recipients_sum charges m : charges_ok charges -> map_Forall (fun _ x => 0 <= x) m ->
  map_sum m + amounts_total charges <= U64_MAX ->
  let m' := fold_left (fun m c => <[ch_recipient c :=
    wrapping_add_u64 (default 0 (m !! ch_recipient c)) (ch_amount_msat c)]> m) charges m in
  map_sum m' = map_sum m + amounts_total charges /\ map_Forall (fun _ x => 0 <= x) m'.
Proof.
  intros Hc. revert m. induction Hc as [|c charges Hpos Hcs IH]; intros m Hm Hmax; cbn in *; [split; [lia|done]|].
  pose proof (amounts_total_nonneg charges Hcs).
  assert (Hentry : 0 <= default 0 (m !! ch_recipient c) <= map_sum m).
  { destruct (m !! ch_recipient c) as [y|] eqn:Hy; cbn; [|split; [lia|by apply map_sum_nonneg]].
    split; [by apply (Hm (ch_recipient c))|]. rewrite (map_sum_delete m _ y Hy).
    pose proof (map_sum_nonneg (delete (ch_recipient c) m) ltac:(by apply map_Forall_delete)). lia. }
  assert (wrapping_add_u64 (default 0 (m !! ch_recipient c)) (ch_amount_msat c) =
    default 0 (m !! ch_recipient c) + ch_amount_msat c) as -> by (apply Z.mod_small; solve_int).
  destruct (IH (<[ch_recipient c := default 0 (m !! ch_recipient c) + ch_amount_msat c]> m)) as [Hs Hf].
  - apply map_Forall_insert_2; [lia|done].
  - rewrite map_sum_add. lia.
  - split; [|done]. rewrite Hs, map_sum_add. lia.
Qed.

(** ** The books of a meter *)

(** [settled] is what resolutions reported as paid, [overpaid] by how much they
    exceeded what was reserved for them. *)
Record accounts (b : GrantBudget) (settled overpaid : Z) : Prop := {
  ac_sum : gb_used_msat b = settled + pending_total (gb_pending b);
  ac_amounts : amounts_ok (gb_pending b);
  ac_open : forall id call, gb_call_reservations b !! id = Some call -> cs_closed call = false ->
    exists x, gb_pending b !! id = Some {[ct_peer (cs_terms call) := x]};
  ac_closed : forall id call, gb_call_reservations b !! id = Some call -> cs_closed call = true ->
    gb_pending b !! id = None;
  ac_settled : 0 <= settled;
  ac_used : gb_used_msat b <= U64_MAX;
  ac_budget : 0 <= gb_budget_msat b <= U64_MAX /\ 0 <= overpaid /\ gb_used_msat b <= gb_budget_msat b + overpaid
}.

Lemma accounts_used_nonneg b settled overpaid : accounts b settled overpaid ->
  0 <= pending_total (gb_pending b) <= gb_used_msat b.
Proof. intros [Hs Ha _ _ H0 _ _]. pose proof (pending_total_nonneg _ Ha). lia. Qed.

(** The same calls, or fewer. *)
Definition calls_from (c' c : gmap string CallSpend) : Prop := forall id call',
  c' !! id = Some call' -> exists call, c !! id = Some call /\ cs_closed call' = cs_closed call /\
    ct_peer (cs_terms call') = ct_peer (cs_terms call).

#[export] Instance calls_from_preorder : PreOrder calls_from.
Proof.
  split; [intros c id call ?; by exists call|]. intros c1 c2 c3 H12 H23 id call Hc.
  destruct (H12 id call Hc) as (call2 & Hc2 & Hcl & Hp). destruct (H23 id call2 Hc2) as (call3 & Hc3 & Hcl' & Hp').
  exists call3. split_and!; [done|congruence..].
Qed.

(** Changes that leave tally, pending sums and budget alone. *)
Record keeps_books (b b' : GrantBudget) : Prop := {
  kb_used : gb_used_msat b' = gb_used_msat b;
  kb_pending : gb_pending b' = gb_pending b;
  kb_budget : gb_budget_msat b' = gb_budget_msat b;
  kb_calls : calls_from (gb_call_reservations b') (gb_call_reservations b)
}.

#[export] Instance keeps_books_preorder : PreOrder keeps_books.
Proof.
  split; [by split|]. intros b1 b2 b3 [] []. split; [congruence..|by etransitivity].
Qed.

Lemma accounts_keeps b b' settled overpaid : keeps_books b b' -> accounts b settled overpaid ->
  accounts b' settled overpaid.
Proof.
  intros [Hu Hp Hb Hc] [Hs Ha Ho Hcl H0 Hm Hbu]. split; rewrite ?Hu, ?Hp, ?Hb; try done.
  - intros id call Hi Hop. destruct (Hc id call Hi) as (call0 & Hi0 & Hc0 & Hpe). rewrite Hpe.
    apply (Ho id call0); congruence.
  - intros id call Hi Hop. destruct (Hc id call Hi) as (call0 & Hi0 & Hc0 & Hpe). apply (Hcl id call0); congruence.
Qed.

Lemma set_breaker_keeps s b : keeps_books b (set_breaker s b).
Proof. by split. Qed.

Lemma record_outcome_keeps reserved actual now b : keeps_books b (record_outcome reserved actual now b).
Proof. unfold record_outcome. destruct (_ && _); [done|apply set_breaker_keeps]. Qed.

Lemma record_breaker_refusal_keeps r now b : keeps_books b (record_breaker_refusal r now b).1.
Proof. unfold record_breaker_refusal. destruct r; repeat case_match; first [done|by split]. Qed.

Lemma calls_from_delete ids c : calls_from (fold_left (fun m id => delete id m) ids c) c.
Proof.
  revert c. induction ids as [|id ids IH]; intros c; cbn; [done|]. etransitivity; [apply IH|].
  intros id' call Hc%lookup_delete_Some. exists call. by destruct Hc.
Qed.

Lemma prune_keeps now b : keeps_books b (prune_call_tombstones now b).
Proof.
  split; try done. unfold prune_call_tombstones. cbn. etransitivity; [apply calls_from_delete|].
  intros id call Hc. rewrite lookup_fmap in Hc. destruct (gb_call_reservations b !! id) as [call0|]; [|done].
  cbn in Hc. injection Hc as <-. exists call0. split; [done|]. unfold compact. by destruct (finished call0).
Qed.

Lemma calls_from_insert id call0 call c : c !! id = Some call0 -> cs_closed call = cs_closed call0 ->
  ct_peer (cs_terms call) = ct_peer (cs_terms call0) -> calls_from (<[id := call]> c) c.
Proof.
  intros Hc Hcl Hp id' call' [[<- <-]|[Hne Hc']]%lookup_insert_Some; [by exists call0|by exists call'].
Qed.

Lemma record_call_outcome_keeps id now b : keeps_books b (record_call_outcome id now b).
Proof.
  unfold record_call_outcome. destruct (gb_call_reservations b !! id) as [call|] eqn:Hc; [|done].
  destruct (_ && negb _) eqn:Hb; [|done]. etransitivity; [|apply prune_keeps].
  set (b1 := set_call _ _ b). transitivity b1.
  - split; try done. by eapply calls_from_insert.
  - destruct (_ || _); [apply record_outcome_keeps|done].
Qed.

(** What resolving does to the tally. *)
Lemma resolve_books r reserved actual b :
  0 <= gb_used_msat b + actual - reserved <= U64_MAX ->
  let b' := resolve r reserved actual b in
  gb_used_msat b' = gb_used_msat b + actual - reserved /\ gb_pending b' = gb_pending b /\
  gb_budget_msat b' = gb_budget_msat b /\ gb_call_reservations b' = gb_call_reservations b.
Proof.
  intros Hr. unfold resolve. destruct (Z.eqb_spec actual reserved); [split_and!; [lia|done..]|].
  destruct (Z.ltb_spec actual reserved); cbn; split_and!; try done; solve_int.
Qed.

(** ** Reserving *)

Lemma reserve_within_books charges bound b b' : charges_ok charges ->
  0 <= gb_used_msat b <= U64_MAX -> gb_budget_msat b <= U64_MAX -> reserve_within charges bound b = Ok b' ->
  gb_used_msat b' = gb_used_msat b + amounts_total charges /\ gb_pending b' = gb_pending b /\
  gb_budget_msat b' = gb_budget_msat b /\ gb_call_reservations b' = gb_call_reservations b /\
  (gb_used_msat b' <= gb_budget_msat b \/ amounts_total charges = 0).
Proof.
  intros Hc H0 Hmax. unfold reserve_within.
  destruct (tally b 0 ∅ charges) as [[total per]|] eqn:Ht; [|done]. cbn [bind_result].
  apply tally_total in Ht; [|done]. pose proof (amounts_total_nonneg charges Hc).
  destruct (negb _); [|done]. destruct (Z.leb_spec total (remaining_msat b)) as [Hle|]; [|done].
  destruct (for_each _ _); [|done]. cbn [bind_result]. intros [= <-]. cbn.
  unfold remaining_msat in Hle.
  assert (total = 0 \/ gb_used_msat b + total <= gb_budget_msat b) as Hcase by solve_int.
  unfold wrapping_add_u64. rewrite Z.mod_small by solve_int. split_and!; try done; lia.
Qed.

Lemma reserve_bounded_books charges cap now b b' : charges_ok charges ->
  0 <= gb_used_msat b <= U64_MAX -> gb_budget_msat b <= U64_MAX -> reserve_bounded charges cap now b = Ok b' ->
  gb_used_msat b' = gb_used_msat b + amounts_total charges /\ gb_pending b' = gb_pending b /\
  gb_budget_msat b' = gb_budget_msat b /\ gb_call_reservations b' = gb_call_reservations b /\
  (gb_used_msat b' <= gb_budget_msat b \/ amounts_total charges = 0).
Proof.
  intros Hc H0 Hmax. unfold reserve_bounded.
  destruct (match cap with Some _ => _ | None => _ end) as [?|]; [|done]. cbn [bind_result].
  destruct (check_envelopes _ _ _); [|done]. cbn [bind_result].
  destruct (ok_or _ _) as [total|]; [|done]. cbn [bind_result].
  destruct (check_breakers _ _ _ _); [|done]. cbn [bind_result].
  destruct (match cap with Some _ => _ | None => _ end) as [b1|] eqn:Hr; [|done]. cbn [bind_result].
  assert (exists bound, reserve_within charges bound b = Ok b1) as [bound Hw] by (destruct cap; eauto).
  apply reserve_within_books in Hw as (Hu & Hp & Hb & Hcl & Hle); try done.
  intros [= <-]. destruct (0 <? _); cbn; done.
Qed.

Lemma reserve_for_books a charges now b b' : charges_ok charges ->
  0 <= gb_used_msat b <= U64_MAX -> gb_budget_msat b <= U64_MAX -> reserve_for b a charges now = Ok b' ->
  gb_used_msat b' = gb_used_msat b + amounts_total charges /\ gb_pending b' = gb_pending b /\
  gb_budget_msat b' = gb_budget_msat b /\ gb_call_reservations b' = gb_call_reservations b /\
  (gb_used_msat b' <= gb_budget_msat b \/ amounts_total charges = 0).
Proof.
  intros Hc H0 Hmax. unfold reserve_for. destruct (purpose_limit _ _ _); [|done]. cbn [bind_result].
  destruct (_ <$> _); [|destruct (offer_limit _ _ _)]; by apply reserve_bounded_books.
Qed.

(** A reservation is entered with an identity that is not in use; a hold has
    the one charge its callers make for it. *)
Definition fresh_id (id : string) (b : GrantBudget) : Prop :=
  gb_pending b !! id = None /\ gb_call_reservations b !! id = None.

Definition hold_is_charged (a : ReservationAuthority) (charges : list Charge) : Prop :=
  forall terms, au_call a = Some terms -> charges = hold_charges terms.

Lemma recipients_of_sum charges : charges_ok charges -> amounts_total charges <= U64_MAX ->
  map_sum (recipients_of charges) = amounts_total charges /\
  map_Forall (fun _ x => 0 <= x) (recipients_of charges).
Proof.
  intros Hc Hmax. pose proof (recipients_sum charges ∅ Hc (map_Forall_empty _)) as Hr.
  rewrite map_sum_empty in Hr. by apply Hr.
Qed.

Lemma recipients_of_hold t : recipients_of (hold_charges t) =
  {[ct_peer t := wrapping_add_u64 0 (ct_reserved_msat t)]}.
Proof. unfold recipients_of, hold_charges. cbn. by rewrite lookup_empty, insert_empty. Qed.

Lemma recipients_of_empty charges : recipients_of charges = ∅ -> charges = [].
Proof.
  unfold recipients_of. destruct charges as [|c charges _] using rev_ind; [done|].
  rewrite fold_left_app. cbn. intros H. by apply insert_non_empty in H.
Qed.

(** The maps of a meter after a reservation was entered. *)
Lemma enter_maps id a charges b : charges <> [] ->
  let b' := enter id a charges b in
  gb_used_msat b' = gb_used_msat b /\ gb_budget_msat b' = gb_budget_msat b /\
  gb_pending b' = <[id := recipients_of charges]> (gb_pending b) /\
  gb_call_reservations b' = match au_call a with
                            | Some t => <[id := CallSpend_new t]> (gb_call_reservations b)
                            | None => gb_call_reservations b
                            end.
Proof.
  intros Hne. unfold enter. destruct (decide _) as [He|_]; [by apply recipients_of_empty in He|].
  destruct (au_call a), (au_operation a); done.
Qed.

Lemma enter_accounts id a charges b b1 settled overpaid : charges_ok charges -> hold_is_charged a charges ->
  fresh_id id b -> accounts b settled overpaid ->
  gb_used_msat b1 = gb_used_msat b + amounts_total charges -> gb_pending b1 = gb_pending b ->
  gb_budget_msat b1 = gb_budget_msat b -> gb_call_reservations b1 = gb_call_reservations b ->
  (gb_used_msat b1 <= gb_budget_msat b \/ amounts_total charges = 0) ->
  accounts (enter id a charges b1) settled overpaid.
Proof.
  intros Hc Hh [Hfp Hfc] Hac Hu Hp Hb Hcl Hle. pose proof (accounts_used_nonneg _ _ _ Hac) as Hn.
  destruct Hac as [Hs Ha Ho Hcd H0 Hm (Hbm & Hov & Hbu)]. pose proof (amounts_total_nonneg charges Hc).
  destruct (decide (charges = [])) as [->|Hne].
  { unfold enter. rewrite decide_True by done. cbn in *. split; cbn; rewrite ?Hu, ?Hp, ?Hb, ?Hcl; try done; lia. }
  assert (Hmax : gb_used_msat b1 <= U64_MAX) by lia.
  destruct (recipients_of_sum charges Hc) as [Hsum Hpos]; [lia|].
  destruct (enter_maps id a charges b1 Hne) as (Eu & Eb & Ep & Ec).
  split; rewrite ?Eu, ?Eb, ?Ep, ?Ec, ?Hp, ?Hb, ?Hcl.
  - rewrite pending_total_insert by done. lia.
  - by apply amounts_ok_insert.
  - intros i call Hi Hop. destruct (au_call a) as [t|] eqn:Hcall.
    + apply lookup_insert_Some in Hi as [[<- <-]|[Hni Hi]].
      * rewrite lookup_insert_eq, (Hh t Hcall), recipients_of_hold. by eexists.
      * rewrite lookup_insert_ne by done. by apply Ho.
    + rewrite lookup_insert_ne by congruence. by apply Ho.
  - intros i call Hi Hop. destruct (au_call a) as [t|] eqn:Hcall.
    + apply lookup_insert_Some in Hi as [[<- <-]|[Hni Hi]]; [done|].
      rewrite lookup_insert_ne by done. by eapply Hcd.
    + rewrite lookup_insert_ne by congruence. by eapply Hcd.
  - done.
  - lia.
  - lia.
Qed.

Lemma reserve_budget_accounts id a charges now b settled overpaid : charges_ok charges ->
  hold_is_charged a charges -> fresh_id id b -> accounts b settled overpaid ->
  accounts (reserve_budget id a charges now b).1 settled overpaid.
Proof.
  intros Hc Hh Hf Hac. unfold reserve_budget. destruct (bool_decide _); [done|].
  destruct (4096 <? _)%nat; [done|]. destruct (1024 <=? _)%nat; [done|].
  pose proof (accounts_used_nonneg _ _ _ Hac) as Hn.
  destruct (reserve_for b a charges now) as [b1|refusal] eqn:Hr.
  - apply reserve_for_books in Hr as (Hu & Hp & Hb & Hcl & Hle);
      [|done|split; [lia|apply Hac]|apply Hac]. by eapply enter_accounts.
  - pose proof (record_breaker_refusal_keeps refusal now b) as Hk.
    destruct (record_breaker_refusal refusal now b). by eapply accounts_keeps.
Qed.

(** ** Closing *)

Lemma close_call_accounts id now b settled overpaid : accounts b settled overpaid ->
  accounts (close_call id now b) settled overpaid.
Proof.
  intros Hac. unfold close_call. destruct (gb_call_reservations b !! id) as [call|] eqn:Hc; [|done].
  destruct (cs_closed call) eqn:Hcl; [done|]. eapply accounts_keeps; [apply record_call_outcome_keeps|].
  pose proof (accounts_used_nonneg _ _ _ Hac) as Hn. destruct Hac as [Hs Ha Ho Hcd H0 Hm (Hbm & Hov & Hbu)].
  destruct (Ho id call Hc Hcl) as [x Hx]. rewrite Hx, lookup_singleton_eq. change (default 0 (Some x)) with x.
  pose proof (pending_part _ _ _ _ _ Ha Hx (lookup_singleton_eq _ _)) as Hxr.
  pose proof (pending_total_delete _ _ _ Hx) as Hd. rewrite map_sum_singleton in Hd.
  set (call' := mkCall _ _ _ true _ _ _ _ _).
  set (b1 := set_call id call' _).
  destruct (resolve_books (ct_peer (cs_terms call)) x 0 b1) as (Eu & Ep & Eb & Ec); [cbn; lia|].
  cbn [b1 set_call set_calls set_pending gb_used_msat gb_pending gb_budget_msat gb_call_reservations] in *.
  split; rewrite ?Eu, ?Ep, ?Eb, ?Ec; try lia.
  - by apply amounts_ok_delete.
  - intros i c Hi Hop. apply lookup_insert_Some in Hi as [[<- <-]|[Hni Hi]]; [done|].
    rewrite lookup_delete_ne by done. by apply Ho.
  - intros i c Hi Hop. apply lookup_insert_Some in Hi as [[<- <-]|[Hni Hi]]; [apply lookup_delete_eq|].
    rewrite lookup_delete_ne by done. by eapply Hcd.
Qed.

Lemma close_over_accounts only now b settled overpaid : accounts b settled overpaid ->
  accounts (close_holds_over_limit only now b).1 settled overpaid.
Proof.
  unfold close_holds_over_limit. generalize (@None BudgetRefusal).
  generalize (omap (fun '(id, call) => if negb (cs_closed call) && call_is only call
    then match check_call_hold b (cs_terms call) with Err refusal => Some (id, refusal) | Ok _ => None end
    else None) (entries (gb_call_reservations b))).
  intros over. revert b. induction over as [|[id r] over IH]; intros b seen Hac; [done|].
  cbn. by apply IH, close_call_accounts.
Qed.

(** ** Resolving *)

(** Taking one recipient out of a pending reservation. *)
Lemma take_pending id recipient reserved recipients (b : GrantBudget) :
  amounts_ok (gb_pending b) -> gb_pending b !! id = Some recipients -> recipients !! recipient = Some reserved ->
  let b' := if decide (delete recipient recipients = ∅)
            then set_links (delete id (gb_operation_links b)) (set_pending (delete id (gb_pending b)) b)
            else set_pending (<[id := delete recipient recipients]> (gb_pending b)) b in
  pending_total (gb_pending b') = pending_total (gb_pending b) - reserved /\ amounts_ok (gb_pending b') /\
  (forall i, i <> id -> gb_pending b' !! i = gb_pending b !! i) /\
  gb_used_msat b' = gb_used_msat b /\ gb_budget_msat b' = gb_budget_msat b /\
  gb_call_reservations b' = gb_call_reservations b.
Proof.
  intros Ha Hid Hr. pose proof (map_sum_delete _ _ _ Hr) as Hsum.
  pose proof (Ha id recipients Hid) as Hrec. cbn in Hrec.
  cbn. destruct (decide _) as [He|He]; cbn; split_and!; try done.
  - rewrite (pending_total_delete _ _ _ Hid), Hsum, He, map_sum_empty. lia.
  - by apply amounts_ok_delete.
  - intros i Hi. by rewrite lookup_delete_ne.
  - rewrite (pending_total_update _ _ _ _ Hid). lia.
  - apply amounts_ok_insert; [done|]. by apply map_Forall_delete.
  - intros i Hi. by rewrite lookup_insert_ne.
Qed.

Lemma draw_parent_some b id peer parent call : draw_parent b id peer = Some (parent, call) ->
  gb_call_reservations b !! parent = Some call /\ ct_peer (cs_terms call) = peer.
Proof.
  unfold draw_parent. destruct (list_find _ _) as [[i [k c]]|] eqn:Hf; [|done]. cbn. intros [= -> ->].
  apply list_find_Some in Hf as (Hk & [Hp _] & _). split; [|done].
  apply elem_of_entries. by eapply list_elem_of_lookup_2.
Qed.

(** The books between taking a recipient out and booking what was paid. *)
Record taken (b : GrantBudget) (reserved settled overpaid : Z) : Prop := {
  tk_sum : gb_used_msat b = settled + pending_total (gb_pending b) + reserved;
  tk_amounts : amounts_ok (gb_pending b);
  tk_reserved : 0 <= reserved;
  tk_open : forall id call, gb_call_reservations b !! id = Some call -> cs_closed call = false ->
    exists x, gb_pending b !! id = Some {[ct_peer (cs_terms call) := x]};
  tk_closed : forall id call, gb_call_reservations b !! id = Some call -> cs_closed call = true ->
    gb_pending b !! id = None;
  tk_settled : 0 <= settled;
  tk_used : gb_used_msat b <= U64_MAX;
  tk_budget : 0 <= gb_budget_msat b <= U64_MAX /\ 0 <= overpaid /\ gb_used_msat b <= gb_budget_msat b + overpaid
}.

(** Booking by moving the tally. *)
Lemma taken_resolve r reserved actual b settled overpaid : taken b reserved settled overpaid -> 0 <= actual ->
  gb_used_msat b + actual - reserved <= U64_MAX ->
  accounts (resolve r reserved actual b) (settled + actual) (overpaid + Z.max 0 (actual - reserved)).
Proof.
  intros [Hs Ha Hr Ho Hc H0 Hm (Hb & Hov & Hbu)] Hact Hmax. pose proof (pending_total_nonneg _ Ha).
  destruct (resolve_books r reserved actual b) as (Eu & Ep & Eb & Ec); [lia|].
  split; rewrite ?Eu, ?Ep, ?Eb, ?Ec; try done; lia.
Qed.

Lemma taken_set_call id call0 call b reserved settled overpaid : taken b reserved settled overpaid ->
  gb_call_reservations b !! id = Some call0 -> cs_closed call = cs_closed call0 ->
  ct_peer (cs_terms call) = ct_peer (cs_terms call0) -> taken (set_call id call b) reserved settled overpaid.
Proof.
  intros [Hs Ha Hr Ho Hc H0 Hm Hb] Hi Hcl Hp. split; cbn; try done.
  - intros i c [[<- <-]|[Hne Hi']]%lookup_insert_Some Hop; [|by apply Ho]. rewrite Hp. apply Ho; congruence.
  - intros i c [[<- <-]|[Hne Hi']]%lookup_insert_Some Hop; [|by eapply Hc]. apply (Hc _ call0); congruence.
Qed.

(** Booking a draw of an open hold: the unused part goes back to the hold. *)
Lemma taken_give_back parent call b reserved actual settled overpaid : taken b reserved settled overpaid ->
  gb_call_reservations b !! parent = Some call -> cs_closed call = false -> 0 <= actual ->
  gb_used_msat b + actual - reserved <= U64_MAX ->
  let b1 := set_pending (give_back parent (ct_peer (cs_terms call)) (saturating_sub reserved actual) (gb_pending b)) b in
  accounts (if reserved <? actual then resolve (ct_peer (cs_terms call)) 0 (actual - reserved) b1 else b1)
    (settled + actual) (overpaid + Z.max 0 (actual - reserved)).
Proof.
  intros [Hs Ha Hr Ho Hc H0 Hm (Hb & Hov & Hbu)] Hi Hcl Hact Hmax b1.
  pose proof (pending_total_nonneg _ Ha). destruct (Ho parent call Hi Hcl) as [x Hx].
  pose proof (pending_part _ _ _ _ _ Ha Hx (lookup_singleton_eq _ _)) as Hxr.
  set (unused := saturating_sub reserved actual) in *.
  assert (Hun : unused = Z.max 0 (reserved - actual)) by done.
  assert (Hp1 : gb_pending b1 = <[parent := {[ct_peer (cs_terms call) := x + unused]}]> (gb_pending b)).
  { cbn. unfold give_back. rewrite Hx, lookup_singleton_eq, insert_singleton_eq. do 3 f_equal. solve_int. }
  assert (Ht1 : pending_total (gb_pending b1) = pending_total (gb_pending b) + unused).
  { rewrite Hp1, (pending_total_update _ _ _ _ Hx), !map_sum_singleton. lia. }
  assert (Ha1 : amounts_ok (gb_pending b1)).
  { rewrite Hp1. apply amounts_ok_insert; [done|]. apply map_Forall_singleton. lia. }
  assert (Ho1 : forall id c, gb_call_reservations b !! id = Some c -> cs_closed c = false ->
    exists y, gb_pending b1 !! id = Some {[ct_peer (cs_terms c) := y]}).
  { intros id c Hid Hop. rewrite Hp1. destruct (decide (id = parent)) as [->|Hne].
    - rewrite lookup_insert_eq. simplify_eq. by eexists.
    - rewrite lookup_insert_ne by done. by apply Ho. }
  assert (Hc1 : forall id c, gb_call_reservations b !! id = Some c -> cs_closed c = true -> gb_pending b1 !! id = None).
  { intros id c Hid Hop. rewrite Hp1, lookup_insert_ne; [by eapply Hc|]. intros <-. congruence. }
  assert (Hu1 : gb_used_msat b1 = gb_used_msat b) by done.
  destruct (Z.ltb_spec reserved actual).
  - destruct (resolve_books (ct_peer (cs_terms call)) 0 (actual - reserved) b1) as (Eu & Ep & Eb & Ec); [lia|].
    split; rewrite ?Eu, ?Ep, ?Eb, ?Ec; try done; cbn [b1 set_pending gb_budget_msat]; lia.
  - split; try done; cbn [b1 set_pending gb_budget_msat]; lia.
Qed.

Lemma resolve_call_draw_accounts id peer reserved actual failed now b settled overpaid :
  taken b reserved settled overpaid -> 0 <= actual -> gb_used_msat b + actual - reserved <= U64_MAX ->
  let '(b', drawn) := resolve_call_draw id peer reserved actual failed now b in
  if drawn then accounts b' (settled + actual) (overpaid + Z.max 0 (actual - reserved)) else b' = b.
Proof.
  intros Htk Hact Hmax. unfold resolve_call_draw.
  destruct (draw_parent b id peer) as [[parent call]|] eqn:Hd; [|done].
  apply draw_parent_some in Hd as [Hc <-].
  eapply accounts_keeps; [apply record_call_outcome_keeps|].
  destruct (cs_closed call) eqn:Hcl; cbn [cs_closed].
  - apply taken_resolve; [|done|done]. by eapply taken_set_call.
  - set (call' := mkCall _ _ _ false _ _ _ _ _).
    apply (taken_give_back parent call' (set_call parent call' b)); try done; cbn.
    + by eapply taken_set_call.
    + by rewrite lookup_insert_eq.
Qed.

Lemma resolve_budget_accounts id recipient actual failed now b b' settled overpaid reserved recipients :
  accounts b settled overpaid -> gb_call_reservations b !! id = None -> 0 <= actual ->
  gb_pending b !! id = Some recipients -> recipients !! recipient = Some reserved ->
  gb_used_msat b + actual - reserved <= U64_MAX ->
  resolve_budget id recipient actual failed now b = Some b' ->
  accounts b' (settled + actual) (overpaid + Z.max 0 (actual - reserved)).
Proof.
  intros Hac Hnc Hact Hid Hr Hmax. unfold resolve_budget. rewrite Hid, Hr.
  destruct (take_pending _ _ _ _ _ (ac_amounts _ _ _ Hac) Hid Hr) as (Ht & Ha & Hsame & Hu & Hb & Hc).
  set (b0 := if decide _ then _ else _) in *.
  pose proof (pending_part _ _ _ _ _ (ac_amounts _ _ _ Hac) Hid Hr) as Hrange.
  assert (Htk : taken b0 reserved settled overpaid).
  { destruct Hac as [Hs _ Ho Hcl H0 Hm Hbu]. split; rewrite ?Ht, ?Hu, ?Hb, ?Hc; try done; try lia.
    - intros i c Hi Hop. rewrite Hsame by congruence. by apply Ho.
    - intros i c Hi Hop. rewrite Hsame by congruence. by eapply Hcl. }
  pose proof (resolve_call_draw_accounts id recipient reserved actual failed now b0 settled overpaid Htk Hact
    ltac:(by rewrite Hu)) as Hdraw.
  destruct (resolve_call_draw _ _ _ _ _ _ b0) as [b1 drawn]. intros [= <-]. destruct drawn; [done|]. subst b1.
  eapply accounts_keeps; [apply record_outcome_keeps|]. apply taken_resolve; [done..|by rewrite Hu].
Qed.

(** ** Drawing *)

Lemma draw_budget_accounts id peer call_id seq price fee link closing now b b' amount settled overpaid :
  accounts b settled overpaid -> fresh_id id b -> 0 <= price -> 0 <= fee ->
  draw_budget id peer call_id seq price fee link closing now b = Ok (b', amount) ->
  accounts b' settled overpaid.
Proof.
  intros Hac [Hfp Hfc] Hp0 Hf0. unfold draw_budget.
  destruct (envelopes_live _ _ _); [|done]. destruct (negb (closing && _)); [|done].
  destruct (list_find _ _) as [[i [parent call]]|] eqn:Hf; [|done]. cbn [mbind option_bind ok_or bind_result].
  apply list_find_Some in Hf as (Hlk & [Hpe _] & _).
  assert (Hc : gb_call_reservations b !! parent = Some call) by (apply elem_of_entries; by eapply list_elem_of_lookup_2).
  destruct (negb (cs_closed call || _)) eqn:Hcl; [|done]. apply negb_true_iff, orb_false_iff in Hcl as [Hcl _].
  destruct (negb (negb closing && _)); [|done]. destruct (negb (_ || _)); [|done].
  unfold checked_add. destruct (_ <=? U64_MAX); [|done]. cbn [ok_or bind_result].
  destruct (negb (closing && _)); [|done].
  destruct Hac as [Hs Ha Ho Hcd H0 Hm Hbu]. destruct (Ho parent call Hc Hcl) as [x Hx]. rewrite Hpe in Hx.
  rewrite Hx. cbn [mbind option_bind]. rewrite lookup_singleton_eq. cbn [ok_or bind_result].
  destruct (Z.leb_spec (price + fee) x) as [Hle|]; [|done]. intros [= <- <-].
  assert (Hne : parent <> id) by congruence. change (default ∅ (Some ?m)) with m.
  split; cbn; try done.
  - rewrite insert_singleton_eq, pending_total_insert, (pending_total_update _ _ _ _ Hx), !map_sum_singleton
      by (by rewrite lookup_insert_ne). lia.
  - rewrite insert_singleton_eq. repeat apply amounts_ok_insert; [done|apply map_Forall_singleton; lia..].
  - intros j c Hj Hop. apply lookup_insert_Some in Hj as [[<- <-]|[Hnj Hj]]; cbn.
    + rewrite lookup_insert_ne, lookup_insert_eq, Hpe, insert_singleton_eq by done. by eexists.
    + rewrite lookup_insert_ne, lookup_insert_ne by congruence. by apply Ho.
  - intros j c Hj Hop. apply lookup_insert_Some in Hj as [[<- <-]|[Hnj Hj]]; cbn in *; [congruence|].
    rewrite lookup_insert_ne, lookup_insert_ne by congruence. by eapply Hcd.
Qed.
