(* ===== verification/SpendProps.v ===== *)
(** * What the spend ledger guarantees

    Runs of ledger operations with any clock and any failing writes: nothing is
    spent beyond a grant's budget, and what is paid or may still be paid is always
    counted. *)

From stdpp Require Import sorting.
From S2P Require Import Prelude Text Kind BTree SpendBudget CallSpend PairingStore SpendLedger SpendSpec.

(** ** Files *)

Definition op_ids (f : PairingFile) : list string := map sg_op_id (pf_grants f).

(** What every meter of a file satisfies. *)
Definition meters (P : string -> GrantBudget -> Prop) (f : PairingFile) : Prop :=
  forall g b, g ∈ pf_grants f -> sg_budget g = Some b -> P (sg_op_id g) b.

Record file_ok (P : string -> GrantBudget -> Prop) (f : PairingFile) : Prop := {
  fk_nodup : NoDup (op_ids f);
  fk_meters : meters P f
}.

Lemma file_ok_mono (P Q : string -> GrantBudget -> Prop) f : (forall op b, P op b -> Q op b) ->
  file_ok P f -> file_ok Q f.
Proof. intros HPQ [Hn Hm]. split; [done|]. intros g b Hg Hb. by apply HPQ, Hm. Qed.

Lemma file_ok_sublist P f f' : pf_grants f' `sublist_of` pf_grants f -> file_ok P f -> file_ok P f'.
Proof.
  intros Hs [Hn Hm]. split.
  - unfold op_ids in *. eapply sublist_NoDup; [done|]. by apply (fmap_sublist sg_op_id).
  - intros g b Hg. apply Hm. by eapply elem_of_sublist.
Qed.

Lemma retain_sublist now f : pf_grants (retain_live_grants now f) `sublist_of` pf_grants f.
Proof. apply sublist_filter. Qed.

Lemma persist_rounds_sublist fuel round env candidate disk disk' file :
  persist_rounds fuel round env candidate disk = Some (disk', Ok file) ->
  pf_grants file `sublist_of` pf_grants candidate /\ disk' = file.
Proof.
  revert round candidate disk. induction fuel as [|fuel IH]; intros round candidate disk; [done|].
  cbn [persist_rounds]. set (c := retain_live_grants _ candidate).
  assert (Hc : pf_grants c `sublist_of` pf_grants candidate) by apply retain_sublist.
  destruct (pe_io env round); [done| | |]; destruct (has_dead_grant _ c); try done;
    try (intros [Hs ->]%IH; split; [by etransitivity|done]).
  destruct (has_dead_grant _ c); [intros [Hs ->]%IH; split; [by etransitivity|done]|].
  intros [= <- <-]. done.
Qed.

Lemma persist_file env s :
  match persist env s with
  | (s', Ok _) => pf_grants (ls_file s') `sublist_of` pf_grants (ls_file s) /\ ls_disk s' = ls_file s'
  | (s', Err _) => ls_file s' = ls_file s
  end /\ ls_identity_fingerprint (persist env s).1 = ls_identity_fingerprint s.
Proof.
  unfold persist. destruct (persist_rounds _ _ _ _ _) as [[disk [file|e]]|] eqn:Hp; cbn; try done.
  by apply persist_rounds_sublist in Hp as [Hs ->].
Qed.

Lemma lock_file env s : pf_grants (ls_file (lock env s)) `sublist_of` pf_grants (ls_file s).
Proof.
  unfold lock, prune_expired_locked. destruct (has_dead_grant _ _); [|done].
  pose proof (persist_file (en_lock env) s) as [Hp _]. destruct (persist _ s) as [s' [u|e]]; cbn; [apply Hp|by rewrite Hp].
Qed.

(** Replacing one meter. *)
Lemma put_budget_ok (P Q : string -> GrantBudget -> Prop) idx g b f : file_ok P f -> pf_grants f !! idx = Some g ->
  Q (sg_op_id g) b -> (forall op b', op <> sg_op_id g -> P op b' -> Q op b') ->
  file_ok Q (put_budget idx (Some b) f).
Proof.
  intros [Hn Hm] Hg HQ HPQ. split.
  - unfold op_ids, put_budget, set_grants in *. cbn.
    change (NoDup (sg_op_id <$> alter (set_budget (Some b)) idx (pf_grants f))).
    rewrite (list_fmap_alter _ _ id) by by apply Forall_forall. by rewrite list_alter_id.
  - intros g' b' Hg' Hb'. unfold put_budget, set_grants in Hg'. cbn in Hg'.
    apply list_elem_of_lookup in Hg' as [i Hi]. destruct (decide (i = idx)) as [->|Hne].
    + rewrite list_lookup_alter_eq, Hg in Hi. cbn in Hi. simplify_eq. by cbn in Hb'; simplify_eq.
    + rewrite list_lookup_alter_ne in Hi by done. apply HPQ.
      * intros Heq. apply Hne. apply (NoDup_lookup (op_ids f) i idx (sg_op_id g)); [done|..]; unfold op_ids.
        -- change (sg_op_id <$> pf_grants f) with (map sg_op_id (pf_grants f)). rewrite list_lookup_fmap, Hi.
           cbn. by rewrite Heq.
        -- by rewrite list_lookup_fmap, Hg.
      * apply Hm; [by eapply list_elem_of_lookup_2|done].
Qed.

Lemma file_ok_grants P f f' : pf_grants f' = pf_grants f -> file_ok P f -> file_ok P f'.
Proof. intros Hg. apply file_ok_sublist. by rewrite Hg. Qed.

Lemma store_persist_ok P env s : file_ok P (ls_file s) -> file_ok P (ls_file (persist env s).1).
Proof.
  intros Hf. destruct (persist_file env s) as [Hp _]. destruct (persist env s) as [s' [u|e]]; cbn.
  - eapply file_ok_sublist; [apply Hp|done].
  - by rewrite Hp.
Qed.

Lemma lock_ok P env s : file_ok P (ls_file s) -> file_ok P (ls_file (lock env s)).
Proof. apply file_ok_sublist, lock_file. Qed.

Lemma restore_budget_ok P op b f : file_ok P f -> P op b -> file_ok P (restore_budget op (Some b) f).
Proof.
  intros Hf Hb. unfold restore_budget. destruct (list_find _ _) as [[idx g]|] eqn:Hl; [|done].
  apply list_find_Some in Hl as (Hg & <- & _). by eapply put_budget_ok.
Qed.

(** Taking back what was just put gives the old meters. *)
Lemma restore_after_put P idx g b b' f : file_ok P f -> pf_grants f !! idx = Some g -> sg_budget g = Some b ->
  file_ok P (restore_budget (sg_op_id g) (Some b) (put_budget idx (Some b') f)).
Proof.
  intros Hf Hg Hb. pose proof (fk_meters _ _ Hf g b (list_elem_of_lookup_2 _ _ _ Hg) Hb) as HP.
  assert (Hput : file_ok (fun op b0 => op <> sg_op_id g -> P op b0) (put_budget idx (Some b') f)).
  { eapply (put_budget_ok P); [done|done|done|auto]. }
  unfold restore_budget. destruct (list_find _ _) as [[i g']|] eqn:Hl.
  - apply list_find_Some in Hl as (Hg' & Ho & _). eapply put_budget_ok; [exact Hput|done|by rewrite Ho|].
    intros op b0 Hne. rewrite Ho in Hne. auto.
  - exfalso. apply list_find_None in Hl. rewrite Forall_forall in Hl.
    apply (Hl (set_budget (Some b') g)); [|done]. eapply list_elem_of_lookup_2.
    unfold put_budget, set_grants. cbn. rewrite list_lookup_alter_eq. by rewrite Hg.
Qed.

Lemma undo_binding_ok P binding f : file_ok P f -> file_ok P (undo_binding binding f).
Proof. intros Hf. destruct binding as [[key [prev|]]|]; by apply (file_ok_grants P f). Qed.

Create HintDb ledger.
#[export] Hint Resolve store_persist_ok lock_ok restore_budget_ok undo_binding_ok : ledger.

(** ** The books of a ledger *)

(** What was settled and overpaid, by grant. *)
Definition books := string -> Z * Z.

Definition booked (bk : books) (op : string) (b : GrantBudget) : Prop := accounts b (bk op).1 (bk op).2.

Section Ledger.
Context (receipt_verifies : bytes -> SpendGrant -> bool) (cfg : ServiceConfig).

(** A reservation changes at most one meter, by [reserve_budget]. *)
Lemma reserve_spend_locked_ok (P Q : string -> GrantBudget -> Prop) id client epoch charges a env s :
  (forall op b, P op b -> Q op b) -> (forall op b, P op b -> Q op (reserve_budget id a charges (en_now env) b).1) ->
  file_ok P (ls_file s) ->
  file_ok Q (ls_file (reserve_spend_locked receipt_verifies cfg id client epoch charges a env s).1).
Proof.
  intros HPQ Hop HP. pose proof (file_ok_mono P Q _ HPQ HP) as HQ. unfold reserve_spend_locked.
  destruct (negb _); [done|].
  destruct (list_find _ _) as [[idx g]|] eqn:Hl; [|done]. apply list_find_Some in Hl as (Hg & _ & _).
  destruct (au_payment a && _); [done|]. destruct (au_liquidity a && _); [done|].
  destruct (sg_budget g) as [before|] eqn:Hb; [|done].
  assert (Hin : g ∈ pf_grants (ls_file s)) by (by eapply list_elem_of_lookup_2).
  pose proof (fk_meters _ _ HP g before Hin Hb) as Hbefore. pose proof (HPQ _ _ Hbefore) as HQb.
  pose proof (Hop _ _ Hbefore) as Hacc. destruct (reserve_budget _ _ _ _ before) as [b r]. cbn in Hacc.
  assert (Hput : file_ok Q (put_budget idx (Some b) (ls_file s))) by (by eapply put_budget_ok).
  destruct r as [[]|[refusal observed]].
  - destruct (match au_before_persist a with Some _ => _ | None => _ end); [|done].
    set (f' := match au_call a with Some _ => _ | None => _ end).
    assert (Hf' : file_ok Q f') by (unfold f'; destruct (au_call a); [|done];
      by apply (file_ok_grants _ (put_budget idx (Some b) (ls_file s)))).
    destruct (au_in_memory a); [done|].
    pose proof (store_persist_ok Q (en_persist env) (set_file f' s) Hf') as Hp.
    destruct (persist _ _) as [s' [[]|e]]; cbn in *; [by case_match|auto with ledger].
  - destruct (observed && _); [|done].
    pose proof (store_persist_ok Q (en_persist env) (set_file (put_budget idx (Some b) (ls_file s)) s) Hput) as Hp.
    destruct (persist _ _) as [s' [[]|e]]; cbn in *; auto with ledger.
Qed.

(** Writing one changed meter and taking the old file back if that fails. *)
Lemma write_meter_ok (P Q : string -> GrantBudget -> Prop) idx g b env s : file_ok P (ls_file s) ->
  file_ok Q (ls_file s) -> pf_grants (ls_file s) !! idx = Some g -> Q (sg_op_id g) b ->
  file_ok Q (ls_file (persist env (set_file (put_budget idx (Some b) (ls_file s)) s)).1).
Proof.
  intros HP HQ Hg Hb. apply store_persist_ok. cbn. by eapply put_budget_ok.
Qed.

Lemma draw_call_spend_ok (P Q : string -> GrantBudget -> Prop) id client epoch peer call_id seq price fee link closing env s :
  (forall op b, P op b -> Q op b) ->
  (forall op b, P op b -> Q op (close_holds_over_limit (Some (peer, call_id)) (en_now env) b).1) ->
  (forall op b b' amount, P op b -> draw_budget id peer call_id seq price fee link (bool_decide (is_Some closing))
     (en_now env) b = Ok (b', amount) -> Q op b') ->
  file_ok P (ls_file s) ->
  file_ok Q (ls_file (draw_call_spend_for_grant receipt_verifies cfg id client epoch peer call_id seq price fee link
    closing env s).1).
Proof.
  intros HPQ Hclose Hdraw HP0. unfold draw_call_spend_for_grant.
  pose proof (lock_ok P env s HP0) as HP. set (s1 := lock env s) in *. clearbody s1.
  pose proof (file_ok_mono P Q _ HPQ HP) as HQ.
  destruct (call_grant_index _ _ _ _ _ _) as [idx|]; [|done].
  destruct (pf_grants (ls_file s1) !! idx) as [g|] eqn:Hg; [|done].
  destruct (match closing with Some _ => _ | None => _ end); [done|].
  destruct (sg_budget g) as [b|] eqn:Hb; [|done]. destruct (is_paused b); [done|].
  pose proof (fk_meters _ _ HP g b (list_elem_of_lookup_2 _ _ _ Hg) Hb) as Hbk.
  specialize (Hclose _ _ Hbk).
  destruct (close_holds_over_limit _ _ b) as [b' [refusal|]]; cbn [fst] in Hclose.
  - pose proof (write_meter_ok P Q idx g b' (en_persist env) s1 HP HQ Hg Hclose) as Hp.
    destruct (persist _ _) as [s' [[]|e]]; cbn in *; done.
  - destruct (draw_budget _ _ _ _ _ _ _ _ _ b) as [[b'' amount]|] eqn:Hd; [|done].
    pose proof (write_meter_ok P Q idx g b'' (en_persist env) s1 HP HQ Hg (Hdraw _ _ _ _ Hbk Hd)) as Hp.
    destruct (persist _ _) as [s' [[]|e]]; cbn in *; done.
Qed.

Lemma close_call_spend_ok (P Q : string -> GrantBudget -> Prop) r env s :
  (forall op b, P op b -> Q op b) -> (forall op b, P op b -> Q op (close_call (rv_id r) (en_now env) b)) ->
  file_ok P (ls_file s) -> file_ok Q (ls_file (close_call_spend r env s).1).
Proof.
  intros HPQ Hclose HP0. unfold close_call_spend.
  pose proof (lock_ok P env s HP0) as HP. set (s1 := lock env s) in *. clearbody s1.
  pose proof (file_ok_mono P Q _ HPQ HP) as HQ.
  destruct (list_find _ _) as [[idx g]|] eqn:Hl; [|done]. apply list_find_Some in Hl as (Hg & _ & _).
  destruct (sg_budget g) as [b|] eqn:Hb; [|done].
  destruct (match gb_call_reservations b !! rv_id r with Some _ => _ | None => _ end); [done|].
  pose proof (fk_meters _ _ HP g b (list_elem_of_lookup_2 _ _ _ Hg) Hb) as Hbk.
  pose proof (write_meter_ok P Q idx g _ (en_persist env) s1 HP HQ Hg (Hclose _ _ Hbk)) as Hp.
  destruct (persist _ _) as [s' [[]|e]]; cbn in *; done.
Qed.

Lemma map_budgets_ok (P Q : string -> GrantBudget -> Prop) h f : (forall op b, P op b -> Q op (h b)) -> file_ok P f ->
  file_ok Q (map_budgets h f).
Proof.
  intros Hh [Hn Hm]. split.
  - unfold op_ids, map_budgets in *. cbn. by rewrite map_map.
  - intros g b Hg Hb. cbn in Hg. apply list_elem_of_fmap in Hg as (g0 & -> & Hg0). cbn in *.
    destruct (sg_budget g0) as [b0|] eqn:Hb0; [|done]. cbn in Hb. simplify_eq. by apply Hh, Hm.
Qed.

Lemma prune_call_spend_ok (P : string -> GrantBudget -> Prop) now env s :
  (forall op b, P op b -> P op (prune_call_tombstones now (close_holds_over_limit None now b).1)) ->
  file_ok P (ls_file s) -> file_ok P (ls_file (prune_call_spend now env s).1).
Proof.
  intros Hh HP0. unfold prune_call_spend.
  pose proof (lock_ok P env s HP0) as HP. set (s1 := lock env s) in *. clearbody s1.
  set (f := map_budgets _ _). assert (Hf : file_ok P f) by (by eapply map_budgets_ok).
  case_bool_decide; [done|]. pose proof (store_persist_ok P (en_persist env) (set_file f s1) Hf) as Hp.
  destruct (persist _ _) as [s' [[]|e]]; cbn in *; done.
Qed.

Lemma close_over_map only now gs : (close_over only now gs).1 =
  map (fun g => set_budget ((fun b => (close_holds_over_limit only now b).1) <$> sg_budget g) g) gs.
Proof.
  induction gs as [|g gs IH]; [done|]. cbn. rewrite <- IH. destruct (close_over only now gs) as [gs' later].
  destruct g as [op c sc ga ex fp ep gb [b|] oa]; cbn; [|done].
  by destruct (close_holds_over_limit only now b).
Qed.

Lemma enforce_call_hold_limit_ok (P : string -> GrantBudget -> Prop) peer call_id env s :
  (forall op b, P op b -> P op (close_holds_over_limit (Some (peer, call_id)) (en_now env) b).1) ->
  file_ok P (ls_file s) -> file_ok P (ls_file (enforce_call_hold_limit peer call_id env s).1).
Proof.
  intros Hh HP0. unfold enforce_call_hold_limit.
  pose proof (lock_ok P env s HP0) as HP. set (s1 := lock env s) in *. clearbody s1.
  pose proof (close_over_map (Some (peer, call_id)) (en_now env) (pf_grants (ls_file s1))) as Hmap.
  destruct (close_over _ _ _) as [gs refused]. cbn in Hmap.
  assert (Hf : file_ok P (set_grants gs (ls_file s1))) by (rewrite Hmap; by apply (map_budgets_ok P P _ (ls_file s1))).
  destruct refused; [|done]. pose proof (store_persist_ok P (en_persist env) (set_file _ s1) Hf) as Hp.
  destruct (persist _ _) as [s' [[]|e]]; cbn in *; done.
Qed.

Lemma reset_grant_breakers_ok (P : string -> GrantBudget -> Prop) client op env s :
  (forall o b, P o b -> P o (reset_breakers b)) -> file_ok P (ls_file s) ->
  file_ok P (ls_file (reset_grant_breakers cfg client op env s).1).
Proof.
  intros Hh HP0. unfold reset_grant_breakers. destruct (negb _); [done|].
  pose proof (lock_ok P env s HP0) as HP. set (s1 := lock env s) in *. clearbody s1.
  destruct (list_find _ _) as [[idx g]|] eqn:Hl; [|done]. apply list_find_Some in Hl as (Hg & (_ & Ho & _) & _).
  destruct (sg_budget g) as [b|] eqn:Hb; [|done].
  pose proof (fk_meters _ _ HP g b (list_elem_of_lookup_2 _ _ _ Hg) Hb) as Hbk.
  pose proof (write_meter_ok P P idx g _ (en_persist env) s1 HP HP Hg (Hh _ _ Hbk)) as Hp.
  destruct (persist _ _) as [s' [[]|e]]; cbn in *; [done|]. apply restore_budget_ok; [done|by rewrite <- Ho].
Qed.

Lemma revoke_grants_ok (P : string -> GrantBudget -> Prop) client env s : file_ok P (ls_file s) ->
  file_ok P (ls_file (revoke_grants client env s).1).
Proof.
  intros HP0. unfold revoke_grants. pose proof (lock_ok P env s HP0) as [Hn Hm].
  set (s1 := lock env s) in *. clearbody s1. unfold file_revoke_grants.
  set (f := set_front_door_grants _ _). assert (Hf : file_ok P f).
  { split.
    - unfold op_ids in *. cbn. rewrite map_map. erewrite map_ext; [exact Hn|]. intros g. cbn. by repeat case_match.
    - intros g b Hg Hb. cbn in Hg. apply list_elem_of_fmap in Hg as (g0 & -> & Hg0).
      cbn in Hb. by repeat case_match; first [done|apply Hm]. }
  pose proof (store_persist_ok P (en_persist env) (set_file f s1) Hf) as Hp.
  destruct (persist _ _) as [s' [[]|e]]; cbn in *; done.
Qed.

(** What is reserved for a recipient in a reservation that can be resolved. *)
Definition reserved_in (s : LedgerState) (r : Reservation) (recipient : string) : option Z :=
  match list_find (fun g => sg_op_id g = rv_op_id r /\ sg_client_id g = rv_client_id r) (pf_grants (ls_file s)) with
  | Some (_, g) =>
      match sg_budget g with
      | Some b => if bool_decide (is_Some (gb_call_reservations b !! rv_id r)) then None
                  else gb_pending b !! rv_id r ≫= fun m => m !! recipient
      | None => None
      end
  | None => None
  end.

(** The books after a resolution was reported done. *)
Definition book (r : Reservation) (recipient : string) (actual : Z) (env : Env) (done : bool) (s : LedgerState)
    (bk : books) : books := fun op =>
  match reserved_in (lock env s) r recipient with
  | Some reserved =>
      if done && bool_decide (op = rv_op_id r)
      then ((bk op).1 + actual, (bk op).2 + Z.max 0 (actual - reserved)) else bk op
  | None => bk op
  end.

Lemma try_resolve_ok bk r recipient actual failed env s : 0 <= actual ->
  (forall reserved, reserved_in (lock env s) r recipient = Some reserved ->
    meters (fun _ b => gb_used_msat b + actual - reserved <= U64_MAX) (ls_file s)) ->
  file_ok (booked bk) (ls_file s) ->
  file_ok (booked (book r recipient actual env
      (is_ok (try_resolve_spend_outcome r recipient actual failed env s).2) s bk))
    (ls_file (try_resolve_spend_outcome r recipient actual failed env s).1).
Proof.
  intros Hact Hmax HP0. unfold book, try_resolve_spend_outcome.
  pose proof (lock_ok (booked bk) env s HP0) as HP. pose proof (lock_file env s) as Hsub.
  set (s1 := lock env s) in *. clearbody s1. unfold reserved_in in *.
  destruct (list_find _ _) as [[idx g]|] eqn:Hl; [|done].
  apply list_find_Some in Hl as (Hg & (Ho & _) & _).
  destruct (sg_budget g) as [b|] eqn:Hb; [|done].
  destruct (bool_decide_reflect (is_Some (gb_call_reservations b !! rv_id r))) as [|Hnc]; [done|].
  pose proof (fk_meters _ _ HP g b (list_elem_of_lookup_2 _ _ _ Hg) Hb) as Hbk.
  destruct (resolve_budget _ _ _ _ _ b) as [b'|] eqn:Hres; cycle 1.
  { unfold resolve_budget in Hres. destruct (gb_pending b !! rv_id r) as [m|]; [|done]. cbn.
    destruct (m !! recipient); [by destruct (resolve_call_draw _ _ _ _ _ _ _)|done]. }
  destruct (gb_pending b !! rv_id r) as [m|] eqn:Hm; [|unfold resolve_budget in Hres; by rewrite Hm in Hres].
  cbn [mbind option_bind] in *.
  destruct (m !! recipient) as [reserved|] eqn:Hrec; [|unfold resolve_budget in Hres; by rewrite Hm, Hrec in Hres].
  assert (Hacc : accounts b' ((bk (sg_op_id g)).1 + actual) ((bk (sg_op_id g)).2 + Z.max 0 (actual - reserved))).
  { eapply resolve_budget_accounts; try done; [by apply eq_None_not_Some|].
    apply (Hmax reserved eq_refl g b); [|done]. eapply elem_of_sublist; [by eapply list_elem_of_lookup_2|done]. }
  pose proof (persist_file (en_persist env) (set_file (put_budget idx (Some b') (ls_file s1)) s1)) as [Hp _].
  destruct (persist _ _) as [s' [[]|e]]; cbn [fst snd is_ok andb].
  - eapply file_ok_sublist; [apply Hp|]. eapply put_budget_ok; [exact HP|done|..].
    + unfold booked. by rewrite bool_decide_eq_true_2.
    + intros op b0 Hop Hb0. unfold booked in *. rewrite bool_decide_eq_false_2; [done|congruence].
  - cbn in Hp. rewrite Hp, <- Ho. cbn [ls_file set_file]. by eapply restore_after_put.
Qed.

(** ** Holds and offers *)

(** The meter before a reservation [id]: booked, and [ids] not in use. *)
Definition booked_fresh (bk : books) (ids : list string) (op : string) (b : GrantBudget) : Prop :=
  booked bk op b /\ Forall (fun id => fresh_id id b) ids.

Lemma fresh_keeps id b b' : gb_pending b' = gb_pending b -> calls_from (gb_call_reservations b') (gb_call_reservations b) ->
  fresh_id id b -> fresh_id id b'.
Proof.
  intros Hp Hc [Hf1 Hf2]. split; [by rewrite Hp|]. apply eq_None_not_Some. intros [call Hcall].
  destruct (Hc id call Hcall) as (c0 & Hc0 & _). congruence.
Qed.

Lemma reserve_budget_fresh id id' a charges now b : id' <> id -> charges_ok charges ->
  0 <= gb_used_msat b <= U64_MAX -> gb_budget_msat b <= U64_MAX -> fresh_id id' b ->
  fresh_id id' (reserve_budget id a charges now b).1.
Proof.
  intros Hne Hc H0 Hm Hf. unfold reserve_budget. destruct (bool_decide _); [done|].
  destruct (4096 <? _)%nat; [done|]. destruct (1024 <=? _)%nat; [done|].
  destruct (reserve_for b a charges now) as [b1|refusal] eqn:Hr.
  - apply reserve_for_books in Hr as (_ & Hp & _ & Hcl & _); try done.
    assert (Hf1 : fresh_id id' b1) by (split; [rewrite Hp|rewrite Hcl]; apply Hf). destruct Hf1 as [Hf1 Hf2].
    destruct (decide (charges = [])) as [->|Hcs]; [unfold enter; by rewrite decide_True|].
    destruct (enter_maps id a charges b1 Hcs) as (_ & _ & Ep & Ec). cbn [fst].
    split; rewrite ?Ep, ?Ec; [by rewrite lookup_insert_ne|].
    destruct (au_call a); [by rewrite lookup_insert_ne|done].
  - pose proof (record_breaker_refusal_keeps refusal now b) as [_ Hp _ Hcl].
    destruct (record_breaker_refusal refusal now b) as [b' obs]. by eapply fresh_keeps.
Qed.

Lemma reserve_booked bk id ids a charges env op b : charges_ok charges -> hold_is_charged a charges -> id ∉ ids ->
  booked_fresh bk (id :: ids) op b -> booked_fresh bk ids op (reserve_budget id a charges (en_now env) b).1.
Proof.
  intros Hc Hh Hni [Hb Hf]. apply Forall_cons in Hf as [Hid Hids].
  split; [by apply reserve_budget_accounts|]. pose proof (accounts_used_nonneg _ _ _ Hb).
  rewrite Forall_forall in *. intros i Hi. apply reserve_budget_fresh; [set_solver|done|split; [lia|apply Hb]|apply Hb|auto].
Qed.

(** The invariant of a file before [ids] are used. *)
Abbreviation ledger_fresh bk ids s := (file_ok (booked_fresh bk ids) (ls_file s)).

Lemma ledger_fresh_drop bk ids ids' f : ids' ⊆ ids -> file_ok (booked_fresh bk ids) f -> file_ok (booked_fresh bk ids') f.
Proof.
  intros Hsub. apply file_ok_mono. intros op b [Hb Hf]. split; [done|].
  rewrite Forall_forall in *. auto.
Qed.

Lemma reserve_locked_booked bk id ids client epoch charges a env s : charges_ok charges ->
  hold_is_charged a charges -> id ∉ ids -> ledger_fresh bk (id :: ids) s ->
  ledger_fresh bk ids (reserve_spend_locked receipt_verifies cfg id client epoch charges a env s).1.
Proof.
  intros Hc Hh Hni. apply reserve_spend_locked_ok.
  - intros op b [Hb Hf]. split; [done|]. by apply Forall_cons in Hf as [_ ?].
  - intros op b. by apply reserve_booked.
Qed.

Lemma keeps_fresh i b b' : keeps_books b b' -> fresh_id i b -> fresh_id i b'.
Proof. intros [_ Hp _ Hc]. by apply fresh_keeps. Qed.

Lemma resolve_maps r reserved actual b : gb_pending (resolve r reserved actual b) = gb_pending b /\
  gb_call_reservations (resolve r reserved actual b) = gb_call_reservations b.
Proof. unfold resolve. destruct (_ =? _); [done|]. by destruct (_ <? _). Qed.

Lemma close_call_fresh i id now b : fresh_id i b -> fresh_id i (close_call id now b).
Proof.
  intros [Hp Hc]. unfold close_call. destruct (gb_call_reservations b !! id) as [call|] eqn:Hid; [|done].
  destruct (cs_closed call); [done|]. eapply keeps_fresh; [apply record_call_outcome_keeps|].
  assert (Hne : id <> i) by congruence.
  split; rewrite ?(proj1 (resolve_maps _ _ _ _)), ?(proj2 (resolve_maps _ _ _ _)); cbn.
  - by rewrite lookup_delete_ne.
  - by rewrite lookup_insert_ne.
Qed.

Lemma close_over_fresh i only now b : fresh_id i b -> fresh_id i (close_holds_over_limit only now b).1.
Proof.
  unfold close_holds_over_limit. generalize (@None BudgetRefusal). generalize (omap (fun '(id, call) =>
    if negb (cs_closed call) && call_is only call
    then match check_call_hold b (cs_terms call) with Err refusal => Some (id, refusal) | Ok _ => None end
    else None) (entries (gb_call_reservations b))).
  intros over. revert b. induction over as [|[id r] over IH]; intros b seen Hf; [done|].
  cbn. by apply IH, close_call_fresh.
Qed.

Lemma close_over_booked bk ids only now op b : booked_fresh bk ids op b ->
  booked_fresh bk ids op (close_holds_over_limit only now b).1.
Proof.
  intros [Hb Hf]. split; [by apply close_over_accounts|]. eapply Forall_impl; [done|]. intros i. apply close_over_fresh.
Qed.

Lemma prune_booked bk ids now op b : booked_fresh bk ids op b ->
  booked_fresh bk ids op (prune_call_tombstones now (close_holds_over_limit None now b).1).
Proof.
  intros Hb. destruct (close_over_booked _ _ None now _ _ Hb) as [Hb' Hf]. split.
  - eapply accounts_keeps; [apply prune_keeps|done].
  - eapply Forall_impl; [done|]. intros i. apply keeps_fresh, prune_keeps.
Qed.

Lemma hold_charges_ok t : 0 <= ct_reserved_msat t -> charges_ok (hold_charges t).
Proof. intros. by repeat constructor. Qed.

Lemma reserve_call_spend_booked bk id client epoch terms capacity prune env s : 0 <= ct_reserved_msat terms ->
  ledger_fresh bk [id] s ->
  ledger_fresh bk [] (reserve_call_spend receipt_verifies cfg id client epoch terms capacity prune env s).1.
Proof.
  intros Ht Hs. unfold reserve_call_spend.
  pose proof (prune_call_spend_ok _ (en_now prune) prune s (prune_booked bk [id] (en_now prune)) Hs) as Hp.
  assert (Hdrop : forall f, file_ok (booked_fresh bk [id]) f -> file_ok (booked_fresh bk []) f)
    by (intros f; apply ledger_fresh_drop; set_solver).
  destruct (prune_call_spend _ _ _) as [s1 [[]|e]]; cbn [fst] in *; [|auto].
  pose proof (lock_ok _ env s1 Hp) as Hl.
  destruct (ledger_check_call_hold _ _ _ _ _ _ _ _) as [[ex|]|e]; cbn [fst]; [auto| |auto].
  apply reserve_locked_booked; [by apply hold_charges_ok|by intros ? [= <-]|set_solver|done].
Qed.

Lemma keep_observations_ok (P : string -> GrantBudget -> Prop) before refused :
  (forall op b b', P op b -> P op (keep_refusal_observation b' b)) -> file_ok P before ->
  file_ok P (keep_observations before refused).
Proof.
  intros HP [Hn Hm]. unfold keep_observations. set (h := fun g seen => _).
  assert (Hh : forall g seen, sg_op_id (h g seen) = sg_op_id g) by (intros g seen; unfold h; by repeat case_match).
  assert (Hids : forall l l', map sg_op_id (zip_with h l l' ++ drop (length l') l) = map sg_op_id l).
  { induction l as [|g l IH]; intros [|g' l']; cbn; try done. by rewrite Hh, IH. }
  split; [unfold op_ids in *; cbn; by rewrite Hids|]. intros g b Hg Hb. cbn in Hg.
  apply elem_of_app in Hg as [Hg|Hg].
  - apply elem_of_zip_with in Hg as (g0 & seen & -> & Hg0 & _). rewrite Hh. unfold h in Hb.
    destruct (sg_budget g0) as [b0|] eqn:Hb0; [|congruence].
    destruct (sg_budget seen); cbn in Hb; simplify_eq; [apply HP|]; by apply Hm.
  - apply Hm; [|done]. eapply elem_of_sublist; [done|apply sublist_drop].
Qed.

Lemma keep_booked bk op b b' : booked_fresh bk [] op b -> booked_fresh bk [] op (keep_refusal_observation b' b).
Proof. intros [Hb _]. split; [|done]. eapply accounts_keeps; [apply set_breaker_keeps|done]. Qed.

Lemma reserve_call_with_offer_booked bk hold_id offer_id client epoch terms capacity offer cap link prune env s :
  0 <= ct_reserved_msat terms -> charges_ok offer -> hold_id <> offer_id ->
  ledger_fresh bk [hold_id; offer_id] s ->
  ledger_fresh bk [] (reserve_call_with_offer receipt_verifies cfg hold_id offer_id client epoch terms capacity
    offer cap link prune env s).1.
Proof.
  intros Ht Ho Hne Hs. unfold reserve_call_with_offer.
  pose proof (prune_call_spend_ok _ (en_now prune) prune s (prune_booked bk _ (en_now prune)) Hs) as Hp.
  assert (Hdrop : forall ids f, file_ok (booked_fresh bk ids) f -> file_ok (booked_fresh bk []) f)
    by (intros ids f; apply ledger_fresh_drop; set_solver).
  destruct (prune_call_spend _ _ _) as [s1 [[]|e]]; cbn [fst] in *; [|eauto].
  pose proof (lock_ok _ env s1 Hp) as Hl. set (s2 := lock env s1) in *. clearbody s2.
  destruct (ledger_check_call_hold _ _ _ _ _ _ _ _) as [[ex|]|e]; cbn [fst]; [eauto| |eauto].
  unfold cbind.
  set (ha := mkAuthority [] false None false None None (Some terms) None true).
  set (oa := mkAuthority [] false None false None (Some link) None _ true).
  assert (Hh : ledger_fresh bk [offer_id]
    (reserve_spend_locked receipt_verifies cfg hold_id client epoch (hold_charges terms) ha env s2).1).
  { apply reserve_locked_booked; [by apply hold_charges_ok|by intros ? [= <-]|set_solver|done]. }
  destruct (reserve_spend_locked _ _ hold_id _ _ _ _ _ _) as [s3 [hold|refusal]]; cbn [fst] in Hh.
  - assert (Hof : ledger_fresh bk [] (reserve_spend_locked receipt_verifies cfg offer_id client epoch offer oa env s3).1).
    { apply reserve_locked_booked; [done|done|set_solver|done]. }
    destruct (reserve_spend_locked _ _ offer_id _ _ _ _ _ _) as [s4 [reservation|refusal]]; cbn [fst] in Hof.
    + pose proof (store_persist_ok _ (en_persist env) s4 Hof) as Hpe. destruct (persist _ _) as [s5 [[]|e]]; cbn in *;
        [by case_match|eauto].
    + set (f := keep_observations _ _).
      assert (Hf : file_ok (booked_fresh bk []) f) by (apply keep_observations_ok; [apply keep_booked|eauto]).
      case_bool_decide; [done|]. pose proof (store_persist_ok _ (en_persist env) (set_file f s4) Hf) as Hpe.
      destruct (persist _ _) as [s5 [[]|e]]; cbn in *; done.
  - set (f := keep_observations _ _).
    assert (Hf : file_ok (booked_fresh bk []) f) by (apply keep_observations_ok; [apply keep_booked|eauto]).
    case_bool_decide; [done|]. pose proof (store_persist_ok _ (en_persist env) (set_file f s3) Hf) as Hpe.
    destruct (persist _ _) as [s5 [[]|e]]; cbn in *; done.
Qed.

(** ** Runs *)

(** Generated identities are not in use anywhere in the file. *)
Definition unused (ids : list string) (s : LedgerState) : Prop :=
  meters (fun _ b => Forall (fun id => fresh_id id b) ids) (ls_file s).

Definition ledger := (LedgerState * books)%type.

(** Every operation of the ledger, with any clock, any file system and any
    outcome.  A resolution may report any amount that does not overflow the tally;
    it is booked when the operation reports success. *)
Inductive ledger_step : ledger -> ledger -> Prop :=
| ls_reserve id client epoch charges a env s bk :
    unused [id] s -> charges_ok charges -> au_call a = None ->
    ledger_step (s, bk) ((reserve_spend_locked receipt_verifies cfg id client epoch charges a env (lock env s)).1, bk)
| ls_hold id client epoch terms capacity prune env s bk :
    unused [id] s -> 0 <= ct_reserved_msat terms ->
    ledger_step (s, bk) ((reserve_call_spend receipt_verifies cfg id client epoch terms capacity prune env s).1, bk)
| ls_hold_and_offer hold_id offer_id client epoch terms capacity offer cap link prune env s bk :
    unused [hold_id; offer_id] s -> hold_id <> offer_id -> 0 <= ct_reserved_msat terms -> charges_ok offer ->
    ledger_step (s, bk) ((reserve_call_with_offer receipt_verifies cfg hold_id offer_id client epoch terms capacity
      offer cap link prune env s).1, bk)
| ls_draw id client epoch peer call_id seq price fee link closing env s bk :
    unused [id] s -> 0 <= price -> 0 <= fee ->
    ledger_step (s, bk) ((draw_call_spend_for_grant receipt_verifies cfg id client epoch peer call_id seq price fee
      link closing env s).1, bk)
| ls_resolve r recipient actual failed env s bk :
    0 <= actual ->
    (forall reserved, reserved_in (lock env s) r recipient = Some reserved ->
      meters (fun _ b => gb_used_msat b + actual - reserved <= U64_MAX) (ls_file s)) ->
    ledger_step (s, bk) ((try_resolve_spend_outcome r recipient actual failed env s).1,
      book r recipient actual env (is_ok (try_resolve_spend_outcome r recipient actual failed env s).2) s bk)
| ls_close r env s bk : ledger_step (s, bk) ((close_call_spend r env s).1, bk)
| ls_prune now env s bk : ledger_step (s, bk) ((prune_call_spend now env s).1, bk)
| ls_enforce peer call_id env s bk : ledger_step (s, bk) ((enforce_call_hold_limit peer call_id env s).1, bk)
| ls_reset client op env s bk : ledger_step (s, bk) ((reset_grant_breakers cfg client op env s).1, bk)
| ls_revoke client env s bk : ledger_step (s, bk) ((revoke_grants client env s).1, bk)
| ls_dispatch r call purpose env s bk :
    ledger_step (s, bk) ((with_call_spend_authority_at receipt_verifies cfg r call purpose env s).1, bk).

Lemma fresh_of_unused bk ids s : file_ok (booked bk) (ls_file s) -> unused ids s -> ledger_fresh bk ids s.
Proof. intros [Hn Hm] Hu. split; [done|]. intros g b Hg Hb. split; [by apply Hm|by apply (Hu g)]. Qed.

Lemma booked_of_fresh bk s : ledger_fresh bk [] s -> file_ok (booked bk) (ls_file s).
Proof. apply file_ok_mono. by intros op b [? _]. Qed.

Lemma ledger_step_ok l l' : ledger_step l l' -> file_ok (booked l.2) (ls_file l.1) ->
  file_ok (booked l'.2) (ls_file l'.1).
Proof.
  intros Hstep Hf. destruct Hstep; cbn [fst snd] in *.
  - apply booked_of_fresh, reserve_locked_booked; [done|intros ? ?; congruence|set_solver|].
    apply lock_ok. by apply fresh_of_unused.
  - apply booked_of_fresh, reserve_call_spend_booked; [done|by apply fresh_of_unused].
  - apply booked_of_fresh, reserve_call_with_offer_booked; [done..|by apply fresh_of_unused].
  - pose proof (fresh_of_unused _ _ _ Hf H) as Hfr. revert Hfr. apply draw_call_spend_ok.
    + by intros op b [? _].
    + intros op b [? _]. by apply close_over_accounts.
    + intros op b b' amount [Hb Hid] Hd. apply Forall_cons in Hid as [Hid _]. eapply draw_budget_accounts; [exact Hb|exact Hid|exact H0|exact H1|exact Hd].
  - by apply try_resolve_ok.
  - revert Hf. apply close_call_spend_ok; [done|]. intros op b. apply close_call_accounts.
  - revert Hf. apply prune_call_spend_ok. intros op b Hb.
    eapply accounts_keeps; [apply prune_keeps|]. by apply close_over_accounts.
  - revert Hf. apply enforce_call_hold_limit_ok. intros op b. apply close_over_accounts.
  - revert Hf. apply reset_grant_breakers_ok. intros o b. by apply accounts_keeps.
  - by apply revoke_grants_ok.
  - unfold with_call_spend_authority_at. pose proof (lock_ok _ env s Hf).
    destruct (negb _); [done|]. by destruct (existsb _ _).
Qed.

Lemma ledger_run_ok l l' : rtc ledger_step l l' -> file_ok (booked l.2) (ls_file l.1) ->
  file_ok (booked l'.2) (ls_file l'.1).
Proof. induction 1 as [|x y z Hs _ IH]; [done|]. intros Hx. by apply IH, (ledger_step_ok x). Qed.

(** A file of newly granted console budgets. *)
Definition newly_granted (f : PairingFile) : Prop :=
  NoDup (op_ids f) /\
  meters (fun _ b => exists t, b = from_terms t /\ 0 <= gt_budget_msat t <= U64_MAX) f.

Lemma newly_granted_ok f : newly_granted f -> file_ok (booked (fun _ => (0, 0))) f.
Proof.
  intros [Hn Hm]. split; [done|]. intros g b Hg Hb. destruct (Hm g b Hg Hb) as (t & -> & Ht).
  split; cbn; try done; try lia.
Qed.

(** C5: a grant never spends more than its budget.  Over any run of the
    ledger's operations, with any clock, any failing writes and any outcomes,
    the tally of every grant is exactly what was reported paid plus what is still
    pending, and that sum exceeds the owner's budget by at most what the wallet
    reported beyond its reservations. *)
Theorem spend_never_exceeds_budget s s' bk g b :
  newly_granted (ls_file s) -> rtc ledger_step (s, fun _ => (0, 0)) (s', bk) ->
  g ∈ pf_grants (ls_file s') -> sg_budget g = Some b ->
  gb_used_msat b = (bk (sg_op_id g)).1 + pending_total (gb_pending b) /\
  (bk (sg_op_id g)).1 + pending_total (gb_pending b) <= gb_budget_msat b + (bk (sg_op_id g)).2.
Proof.
  intros Hnew Hrun Hg Hb. pose proof (ledger_run_ok _ _ Hrun (newly_granted_ok _ Hnew)) as Hok.
  destruct (fk_meters _ _ Hok g b Hg Hb) as [Hs _ _ _ _ _ (_ & _ & Hle)]. cbn [snd] in *. split; lia.
Qed.
End Ledger.

(** ** An example ledger *)

Definition ex_client : PairedClient := mkClient "app" "App" "" None [Read; Receive] 1 "fp" 0 None.
Definition ex_grant : SpendGrant :=
  mkGrant "op" "app" [Spend] 0 1000 "fp" 1 "owner" (Some (from_terms (GrantTerms_new 100000))) None.
Definition ex_ledger : LedgerState :=
  let f := mkFile 8 [ex_client] [ex_grant] ∅ [] [] [] ∅ [] [] ∅ ∅ in mkLedger f f "fp".
Definition ex_rounds : PersistEnv := mkPersistEnv (fun _ => 10) (fun _ => Written).
Definition ex_env : Env := mkEnv 10 ex_rounds 10 ex_rounds 10.
Definition ex_cfg : ServiceConfig := mkService true false None false.
Definition ex_accepts (receipt : bytes) (g : SpendGrant) : bool := true.
Definition ex_charges : list Charge := [mkCharge "peer" 700].
Definition ex_reservation : Reservation := mkReservation "r" "app" "op" ex_charges.

Definition ex_reserved : LedgerState :=
  (reserve_spend_locked ex_accepts ex_cfg "r" "app" 1 ex_charges authority_default ex_env (lock ex_env ex_ledger)).1.
Definition ex_resolved : LedgerState := (try_resolve_spend_outcome ex_reservation "peer" 900 false ex_env ex_reserved).1.
Definition ex_books : books :=
  book ex_reservation "peer" 900 ex_env
    (is_ok (try_resolve_spend_outcome ex_reservation "peer" 900 false ex_env ex_reserved).2) ex_reserved (fun _ => (0, 0)).

Definition ex_meter (s : LedgerState) : GrantBudget :=
  default relations (head (pf_grants (ls_file s)) ≫= sg_budget).
Definition ex_granted (s : LedgerState) : SpendGrant := default ex_grant (head (pf_grants (ls_file s))).

Lemma spend_never_exceeds_budget_witness :
  gb_used_msat (ex_meter ex_resolved) = (ex_books "op").1 + pending_total (gb_pending (ex_meter ex_resolved)) /\
  (ex_books "op").1 + pending_total (gb_pending (ex_meter ex_resolved)) <=
    gb_budget_msat (ex_meter ex_resolved) + (ex_books "op").2.
Proof.
  apply (spend_never_exceeds_budget ex_accepts ex_cfg ex_ledger ex_resolved ex_books (ex_granted ex_resolved)).
  - split; [apply NoDup_singleton|]. intros g b ->%list_elem_of_singleton [= <-].
    exists (GrantTerms_new 100000). split; [done|]. cbn. unfold U64_MAX. lia.
  - eapply rtc_l; [|apply rtc_once].
    + apply (ls_reserve ex_accepts ex_cfg "r" "app" 1 ex_charges authority_default ex_env).
      * intros g b ->%list_elem_of_singleton [= <-]. repeat constructor.
      * repeat constructor; done.
      * done.
    + apply (ls_resolve ex_accepts ex_cfg ex_reservation "peer" 900 false ex_env ex_reserved); [lia|].
      intros reserved Hr g b Hg Hb. vm_compute in Hr. injection Hr as <-.
      assert (Heq : pf_grants (ls_file ex_reserved) = [ex_granted ex_reserved]) by (vm_compute; reflexivity).
      rewrite Heq in Hg. apply list_elem_of_singleton in Hg as ->. vm_compute in Hb. injection Hb as <-. vm_compute.
      discriminate.
  - vm_compute. left.
  - vm_compute. reflexivity.
Defined.
