(* ===== verification/SpendRates.v ===== *)
(** * Rolling limits of a spend grant

    The circuit breakers of [spend_budget.rs] keep one bucket per second for an
    hour.  Against the full history of what was reserved and of the owner's resets,
    kept here beside the meter, they bound the payments of every minute and every
    hour and the amount of every ten minutes, wherever the window lies; a reset
    inside a window allows its limit once more. *)

From S2P Require Import Prelude Text Kind BTree SpendBudget CallSpend PairingStore SpendLedger SpendSpec.

(** ** Sums over windows *)

(** A reservation: when, how many payments, how much. *)
Record event := mkEvent { ev_at : Z; ev_count : Z; ev_msat : Z }.

Fixpoint events_in (f : event -> Z) (lo hi : Z) (h : list event) : Z :=
  match h with
  | [] => 0
  | e :: h' => (if (lo <? ev_at e) && (ev_at e <=? hi) then f e else 0) + events_in f lo hi h'
  end.

Lemma events_in_app f lo hi h e :
  events_in f lo hi (h ++ [e]) = events_in f lo hi h + (if (lo <? ev_at e) && (ev_at e <=? hi) then f e else 0).
Proof. induction h as [|e' h IH]; cbn in *; lia. Qed.

Definition events_ok (f : event -> Z) (top : Z) (h : list event) : Prop :=
  Forall (fun e => 0 <= f e /\ ev_at e <= top) h.

Lemma events_in_mono f lo lo' hi hi' h : events_ok f hi' h -> lo' <= lo ->
  events_in f lo hi h <= events_in f lo' hi' h.
Proof.
  intros Hok Hlo. induction Hok as [|e h [Hf He] _ IH]; [done|]. cbn.
  destruct (Z.ltb_spec lo (ev_at e)), (Z.ltb_spec lo' (ev_at e)), (Z.leb_spec (ev_at e) hi),
    (Z.leb_spec (ev_at e) hi'); cbn; lia.
Qed.

Definition bucket_sum (f : BreakerBucket -> Z) (lo : Z) (buckets : gmap Z BreakerBucket) : Z :=
  map_fold (fun at_ bucket acc => (if lo <? at_ then f bucket else 0) + acc) 0 buckets.

Definition buckets_ok (buckets : gmap Z BreakerBucket) : Prop :=
  map_Forall (fun _ b => 0 <= bk_payments b /\ 0 <= bk_msat b) buckets.

Lemma bucket_sum_insert f lo m k b : m !! k = None ->
  bucket_sum f lo (<[k := b]> m) = (if lo <? k then f b else 0) + bucket_sum f lo m.
Proof. intros Hk. unfold bucket_sum. rewrite map_fold_insert_L; [done|intros; lia|done]. Qed.

Lemma bucket_sum_update f lo m k b0 b : m !! k = Some b0 ->
  bucket_sum f lo (<[k := b]> m) = bucket_sum f lo m + (if lo <? k then f b - f b0 else 0).
Proof.
  intros Hk. rewrite <- (insert_delete_id m k b0 Hk) at 2.
  rewrite <- insert_delete_eq, !bucket_sum_insert by apply lookup_delete_eq. destruct (lo <? k); lia.
Qed.

Lemma bucket_sum_nonneg f lo m : (forall b, 0 <= bk_payments b /\ 0 <= bk_msat b -> 0 <= f b) -> buckets_ok m ->
  0 <= bucket_sum f lo m.
Proof.
  intros Hf. unfold buckets_ok. induction m as [|k b m Hk IH] using map_ind.
  - intros _. unfold bucket_sum. by rewrite map_fold_empty.
  - rewrite map_Forall_insert, bucket_sum_insert by done. intros [?%Hf ?%IH]. destruct (lo <? k); lia.
Qed.

(** Dropping old buckets does not change the sum of later ones. *)
Lemma bucket_sum_retain f lo cut m : cut <= lo ->
  bucket_sum f lo (filter (fun '(at_, _) => cut < at_) m) = bucket_sum f lo m.
Proof.
  intros Hc. induction m as [|k b m Hk IH] using map_ind; [by rewrite map_filter_empty|].
  rewrite map_filter_insert. case_decide.
  - rewrite !bucket_sum_insert; [lia|done|]. by rewrite map_lookup_filter_None; left.
  - rewrite map_filter_delete, delete_id by (by rewrite map_lookup_filter_None; left).
    rewrite bucket_sum_insert by done. destruct (Z.ltb_spec lo k); lia.
Qed.

Lemma window_sum_saturates f w now m : (forall b, 0 <= bk_payments b /\ 0 <= bk_msat b -> 0 <= f b) ->
  buckets_ok m -> window_sum f w now m = Z.min U64_MAX (bucket_sum f (i64_saturating_sub now w) m).
Proof.
  intros Hf. unfold buckets_ok. induction m as [|k b m Hk IH] using map_ind.
  - intros _. unfold window_sum, bucket_sum. rewrite !map_fold_empty. solve_int.
  - intros Hall. pose proof Hall as Hall'. rewrite map_Forall_insert in Hall by done. destruct Hall as [Hb Hm].
    unfold window_sum. rewrite map_fold_insert_L; [|
      |done].
    + change (map_fold _ 0 m) with (window_sum f w now m). rewrite (IH Hm), bucket_sum_insert by done.
      pose proof (Hf b Hb). pose proof (bucket_sum_nonneg f (i64_saturating_sub now w) m Hf Hm).
      destruct (_ <? k); solve_int.
    + intros j1 j2 z1 z2 y _ Hz1 Hz2. pose proof (Hf _ (Hall' _ _ Hz1)). pose proof (Hf _ (Hall' _ _ Hz2)).
      destruct (_ <? j1), (_ <? j2); solve_int.
Qed.

(** ** The meter against its history *)

(** A quantity of reservations, as events and as buckets have it. *)
Record measure := mkMeasure {
  ms_event : event -> Z;
  ms_bucket : BreakerBucket -> Z;
  ms_ok : (forall b, 0 <= bk_payments b /\ 0 <= bk_msat b -> 0 <= ms_bucket b) /\
          (forall x y p q, ms_bucket (mkBucket (saturating_add U64_MAX x p) (saturating_add U64_MAX y q)) =
             saturating_add U64_MAX (ms_bucket (mkBucket x y)) (ms_event (mkEvent 0 p q))) /\
          (forall t p q, ms_event (mkEvent t p q) = ms_event (mkEvent 0 p q)) /\
          ms_event (mkEvent 0 0 0) = 0 /\ ms_bucket (mkBucket 0 0) = 0 /\
          (forall p q, 0 <= p -> 0 <= q -> 0 <= ms_event (mkEvent 0 p q))
}.

Definition payments_measure : measure.
Proof. refine (mkMeasure ev_count bk_payments _). split_and!; try done; tauto. Defined.
Definition msat_measure : measure.
Proof. refine (mkMeasure ev_msat bk_msat _). split_and!; try done; tauto. Defined.

Definition within_hour (s : BreakerState) (lo : Z) : Prop :=
  forall last, bs_last_at s = Some last -> last - 3600 <= lo.

Record covered (mu : measure) (s : BreakerState) (h : list event) : Prop := {
  cv_buckets : buckets_ok (bs_buckets s);
  cv_times : Forall (fun e => 0 <= ev_count e /\ 0 <= ev_msat e /\
    exists last, bs_last_at s = Some last /\ ev_at e <= last) h;
  cv_last : forall last, bs_last_at s = Some last -> 0 <= last <= I64_MAX;
  cv_sum : forall lo hi, within_hour s lo ->
    Z.min U64_MAX (events_in (ms_event mu) lo hi h) <= bucket_sum (ms_bucket mu) lo (bs_buckets s)
}.

Definition limited (mu : measure) (w limit : Z) (h : list event) : Prop :=
  forall t, events_in (ms_event mu) (t - w) t h <= limit.

Lemma breaker_now_range s now : (forall last, bs_last_at s = Some last -> 0 <= last <= I64_MAX) ->
  0 <= now <= I64_MAX -> let n := breaker_now s now in
  0 <= n <= I64_MAX /\ forall last, bs_last_at s = Some last -> last <= n.
Proof.
  intros Hl Hn. unfold breaker_now. destruct (bs_last_at s) as [last|]; cbn; [|split; [lia|done]].
  pose proof (Hl last eq_refl). split; [lia|]. intros l [= <-]. lia.
Qed.

(** Adding to a bucket covers what is added to the history. *)
Lemma add_covers mu s h now p q es : covered mu s h -> 0 <= now <= I64_MAX -> 0 <= p -> 0 <= q ->
  (es = [] \/ es = [mkEvent (breaker_now s now) p q]) ->
  covered mu (add_to_bucket s (breaker_now s now) p q) (h ++ es).
Proof.
  intros [Hb Ht Hl Hs] Hnow Hp Hq Hes.
  destruct (breaker_now_range s now Hl Hnow) as [Hn Hlast]. set (n := breaker_now s now) in *.
  destruct mu as [fe fb (Hpos & Hadd & Htime & Hz & Hzb & Hep)]. cbn [ms_event ms_bucket] in *.
  unfold add_to_bucket. set (kept := filter _ _).
  assert (Hcut : i64_saturating_sub n 3600 = n - 3600).
  { unfold i64_saturating_sub, I64_MIN, I64_MAX in *. lia. }
  assert (Hkept : buckets_ok kept) by (intros k b0 [? _]%map_lookup_filter_Some; by apply (Hb k)).
  split; cbn [bs_buckets bs_last_at].
  - apply map_Forall_insert_2; [|done]. cbn.
    assert (0 <= bk_payments (default (mkBucket 0 0) (kept !! n)) /\ 0 <= bk_msat (default (mkBucket 0 0) (kept !! n))).
    { destruct (kept !! n) as [b0|] eqn:Hb0; [by apply (Hkept n)|done]. } solve_int.
  - apply Forall_app. split.
    + eapply Forall_impl; [exact Ht|]. intros e (? & ? & last & Hla & He). split_and!; try done.
      exists n. split; [done|]. pose proof (Hlast last Hla). lia.
    + destruct Hes as [->| ->]; repeat constructor; try done. by exists n.
  - intros last [= <-]. done.
  - intros lo hi Hlo. specialize (Hlo n eq_refl). cbn [ms_event ms_bucket].
    assert (Hold : Z.min U64_MAX (events_in fe lo hi h) <= bucket_sum fb lo kept).
    { unfold kept. rewrite bucket_sum_retain by lia. apply Hs. intros last Hla. pose proof (Hlast last Hla). lia. }
    set (x := if lo <? n then fe (mkEvent 0 p q) else 0).
    assert (Hev : events_in fe lo hi (h ++ es) <= events_in fe lo hi h + x).
    { pose proof (Hep p q Hp Hq). unfold x.
      destruct Hes as [->| ->]; [rewrite app_nil_r; destruct (lo <? n); lia|].
      rewrite events_in_app. cbn [ev_at]. rewrite Htime. destruct (lo <? n), (n <=? hi); cbn; lia. }
    pose proof (Hep p q Hp Hq) as Hpq. pose proof (bucket_sum_nonneg fb lo kept Hpos Hkept) as Hkn.
    destruct (kept !! n) as [[x0 y0]|] eqn:Hb0.
    + rewrite (bucket_sum_update _ _ _ _ _ _ Hb0). change (default (mkBucket 0 0) (Some (mkBucket x0 y0))) with (mkBucket x0 y0).
      cbn [bk_payments bk_msat]. rewrite Hadd.
      pose proof (Hpos _ (Hkept n _ Hb0)) as Hb0pos.
      assert (Hpart : lo < n -> fb (mkBucket x0 y0) <= bucket_sum fb lo kept).
      { intros Hln. rewrite <- (insert_delete_id kept n _ Hb0), bucket_sum_insert by apply lookup_delete_eq.
        rewrite (proj2 (Z.ltb_lt lo n) Hln).
        pose proof (bucket_sum_nonneg fb lo (delete n kept) Hpos ltac:(by apply map_Forall_delete)). lia. }
      unfold x in *. destruct (Z.ltb_spec lo n); [|lia]. specialize (Hpart H). solve_int.
    + rewrite bucket_sum_insert by done. change (default (mkBucket 0 0) None) with (mkBucket 0 0).
      cbn [bk_payments bk_msat]. rewrite Hadd, Hzb. unfold x in *. destruct (lo <? n); solve_int.
Qed.

(** Passing a check keeps a limit. *)
Lemma reserve_limited mu w limit s h now p q : covered mu s h -> limited mu w limit h -> 0 <= now <= I64_MAX ->
  0 < w <= 3600 -> limit <= U64_MAX -> 0 <= p -> 0 <= q ->
  let n := breaker_now s now in
  ms_event mu (mkEvent 0 p q) <= saturating_sub limit (window_sum (ms_bucket mu) w n (bs_buckets s)) ->
  limited mu w limit (h ++ [mkEvent n p q]).
Proof.
  intros [Hb Ht Hl Hs] Hlim Hnow Hw Hlu Hp Hq n Hcheck t.
  destruct (breaker_now_range s now Hl Hnow) as [Hn Hlast]. fold n in Hn, Hlast.
  pose proof (Hlim t) as Ht0. rewrite events_in_app. cbn [ev_at].
  destruct mu as [fe fb (Hpos & Hadd & Htime & Hz & Hzb & Hep)]. cbn [ms_event ms_bucket] in *. rewrite Htime.
  destruct (Z.ltb_spec (t - w) n), (Z.leb_spec n t); cbn [andb]; try lia.
  pose proof (Hep p q Hp Hq) as He0.
  rewrite window_sum_saturates in Hcheck by done.
  assert (Hcut : i64_saturating_sub n w = n - w) by (unfold i64_saturating_sub, I64_MIN, I64_MAX in *; lia).
  rewrite Hcut in Hcheck.
  assert (Hev : events_in fe (t - w) t h <= events_in fe (n - w) n h).
  { apply events_in_mono; [|lia]. eapply Forall_impl; [exact Ht|]. intros [at_ c m] (Hc & Hm & last & Hla & Hle). cbn in *.
    rewrite Htime. split; [by apply Hep|]. pose proof (Hlast last Hla). lia. }
  pose proof (Hs (n - w) n ltac:(intros last Hla; pose proof (Hlast last Hla); lia)) as Hcov.
  solve_int.
Qed.

Record metered (b : GrantBudget) (h : list event) : Prop := {
  mt_payments : covered payments_measure (gb_breaker_state b) h;
  mt_msat : covered msat_measure (gb_breaker_state b) h;
  mt_minute : limited payments_measure 60 (max_payments_per_minute (gb_breakers b)) h;
  mt_hour : limited payments_measure 3600 (max_payments_per_hour (gb_breakers b)) h;
  mt_velocity : limited msat_measure 600 (max_msat_per_10_minutes (gb_breakers b)) h
}.

(** What the other operations do to the breaker state. *)
Inductive quiet : BreakerState -> BreakerState -> Prop :=
| quiet_same s s' : bs_buckets s' = bs_buckets s -> bs_last_at s' = bs_last_at s -> quiet s s'
| quiet_add s now p q : 0 <= now <= I64_MAX -> 0 <= p -> 0 <= q ->
    quiet s (add_to_bucket s (breaker_now s now) p q).

Lemma quiet_covered mu s s' h : quiet s s' -> covered mu s h -> covered mu s' h.
Proof.
  intros [s0 s1 Hb Hl|s0 now p q Hn Hp Hq] Hc.
  - destruct Hc as [? Ht ? ?]. split; unfold within_hour; rewrite ?Hb, ?Hl; done.
  - rewrite <- (app_nil_r h). apply add_covers; auto.
Qed.

Record hushed (b b' : GrantBudget) : Prop := {
  hu_limits : gb_breakers b' = gb_breakers b;
  hu_state : rtc quiet (gb_breaker_state b) (gb_breaker_state b')
}.

#[export] Instance hushed_preorder : PreOrder hushed.
Proof. split; [by split|]. intros b1 b2 b3 [] []. split; [congruence|by etransitivity]. Qed.

Lemma hushed_same b b' : gb_breakers b' = gb_breakers b -> gb_breaker_state b' = gb_breaker_state b -> hushed b b'.
Proof. intros H1 H2. split; [done|by rewrite H2]. Qed.

Lemma hushed_metered b b' h : hushed b b' -> metered b h -> metered b' h.
Proof.
  intros [Hl Hq] [Hp Hm H1 H2 H3]. split; rewrite ?Hl; try done.
  - clear -Hq Hp. induction Hq as [|x y z Hs _ IH]; [done|]. by apply IH, (quiet_covered _ x).
  - clear -Hq Hm. induction Hq as [|x y z Hs _ IH]; [done|]. by apply IH, (quiet_covered _ x).
Qed.

Lemma record_outcome_hushed reserved actual now b : 0 <= now <= I64_MAX -> hushed b (record_outcome reserved actual now b).
Proof.
  intros Hn. unfold record_outcome. destruct (_ && _); [done|]. split; [done|]. cbn [set_breaker gb_breaker_state].
  set (s1 := mkBreaker _ _ _ _ _). apply rtc_l with s1; [by apply quiet_same|].
  destruct (Z.ltb_spec reserved actual); [|done]. apply rtc_once, quiet_add; [done|destruct (reserved =? 0); lia|lia].
Qed.

Lemma resolve_hushed r reserved actual b : hushed b (resolve r reserved actual b).
Proof. unfold resolve. destruct (_ =? _); [done|]. destruct (_ <? _); by apply hushed_same. Qed.

Lemma prune_hushed now b : hushed b (prune_call_tombstones now b).
Proof. by apply hushed_same. Qed.

Lemma record_call_outcome_hushed id now b : 0 <= now <= I64_MAX -> hushed b (record_call_outcome id now b).
Proof.
  intros Hn. unfold record_call_outcome. destruct (_ !! id) as [call|]; [|done]. destruct (_ && negb _); [|done].
  etransitivity; [|apply prune_hushed]. destruct (_ || _); [|by apply hushed_same].
  etransitivity; [|by apply record_outcome_hushed]. by apply hushed_same.
Qed.

Lemma close_call_hushed id now b : 0 <= now <= I64_MAX -> hushed b (close_call id now b).
Proof.
  intros Hn. unfold close_call. destruct (_ !! id) as [call|]; [|done]. destruct (cs_closed call); [done|].
  etransitivity; [|by apply record_call_outcome_hushed]. etransitivity; [|apply resolve_hushed]. by apply hushed_same.
Qed.

Lemma close_over_hushed only now b : 0 <= now <= I64_MAX -> hushed b (close_holds_over_limit only now b).1.
Proof.
  intros Hn. unfold close_holds_over_limit. generalize (@None BudgetRefusal).
  generalize (omap (fun '(id, call) => if negb (cs_closed call) && call_is only call
    then match check_call_hold b (cs_terms call) with Err refusal => Some (id, refusal) | Ok _ => None end
    else None) (entries (gb_call_reservations b))).
  intros over. revert b. induction over as [|[id r] over IH]; intros b seen; [done|].
  cbn. etransitivity; [by apply close_call_hushed|apply IH].
Qed.

Lemma resolve_call_draw_hushed id peer reserved actual failed now b : 0 <= now <= I64_MAX ->
  hushed b (resolve_call_draw id peer reserved actual failed now b).1.
Proof.
  intros Hn. unfold resolve_call_draw. destruct (draw_parent b id peer) as [[parent call]|]; [|done]. cbn [fst].
  etransitivity; [|by apply record_call_outcome_hushed].
  destruct (cs_closed _); [etransitivity; [|apply resolve_hushed]; by apply hushed_same|].
  destruct (_ <? _); [etransitivity; [|apply resolve_hushed]|]; by apply hushed_same.
Qed.

Lemma resolve_budget_hushed id recipient actual failed now b b' : 0 <= now <= I64_MAX ->
  resolve_budget id recipient actual failed now b = Some b' -> hushed b b'.
Proof.
  intros Hn. unfold resolve_budget. destruct (gb_pending b !! id) as [m|]; [|done].
  destruct (m !! recipient) as [reserved|]; [|done]. set (b0 := if decide _ then _ else _).
  assert (H0 : hushed b b0) by (unfold b0; destruct (decide _); by apply hushed_same).
  pose proof (resolve_call_draw_hushed id recipient reserved actual failed now b0 Hn) as Hd.
  destruct (resolve_call_draw _ _ _ _ _ _ b0) as [b1 drawn]. cbn [fst] in Hd. intros [= <-].
  etransitivity; [exact H0|]. etransitivity; [exact Hd|]. destruct drawn; [done|].
  etransitivity; [apply resolve_hushed|by apply record_outcome_hushed].
Qed.

Lemma draw_budget_hushed id peer call_id seq price fee link closing now b b' amount :
  draw_budget id peer call_id seq price fee link closing now b = Ok (b', amount) -> hushed b b'.
Proof.
  unfold draw_budget, bind_result, ok_or. intros H. repeat case_match; try done; simplify_eq. by apply hushed_same.
Qed.

Lemma refusal_hushed r now b : hushed b (record_breaker_refusal r now b).1.
Proof.
  unfold record_breaker_refusal. destruct r; repeat case_match; try done; (split; [done|]);
    apply rtc_once; by apply quiet_same.
Qed.

(** ** Reservations and the history *)

Lemma charge_total_nonneg charges total : charges_ok charges -> charge_total charges = Some total -> 0 <= total.
Proof.
  unfold charge_total. intros Hc. assert (Hgen : forall n, (forall m, n = Some m -> 0 <= m) -> forall total,
    fold_left (fun n c => match n with Some n => checked_add n (ch_amount_msat c) | None => None end) charges n =
      Some total -> 0 <= total).
  { induction Hc as [|c charges Hpos _ IH]; intros n Hn t; cbn; [apply Hn|]. apply IH. intros m.
    destruct n as [x|]; [|done]. unfold checked_add. destruct (_ <=? _); [|done]. intros [= <-].
    pose proof (Hn x eq_refl). lia. }
  apply Hgen. by intros m [= <-].
Qed.

Lemma breaker_now_idem s now : breaker_now s (breaker_now s now) = breaker_now s now.
Proof. unfold breaker_now. destruct (bs_last_at s); lia. Qed.

Lemma reserve_within_breaker charges bound b b' : reserve_within charges bound b = Ok b' ->
  gb_breakers b' = gb_breakers b /\ gb_breaker_state b' = gb_breaker_state b.
Proof. unfold reserve_within, bind_result. intros H. by repeat case_match; simplify_eq. Qed.

(** What a granted reservation was checked against and what it adds. *)
Lemma reserve_bounded_breaker charges cap now b b' : reserve_bounded charges cap now b = Ok b' ->
  let s := gb_breaker_state b in
  let n := breaker_now s now in
  let l := gb_breakers b in
  exists total, charge_total charges = Some total /\ gb_breakers b' = l /\
    charge_count charges <= saturating_sub (max_payments_per_minute l) (window_sum bk_payments 60 n (bs_buckets s)) /\
    charge_count charges <= saturating_sub (max_payments_per_hour l) (window_sum bk_payments 3600 n (bs_buckets s)) /\
    total <= saturating_sub (max_msat_per_10_minutes l) (window_sum bk_msat 600 n (bs_buckets s)) /\
    gb_breaker_state b' = if 0 <? charge_count charges then add_to_bucket s n (charge_count charges) total else s.
Proof.
  unfold reserve_bounded. destruct (match cap with Some _ => _ | None => _ end) as [?|]; [|done]. cbn [bind_result].
  destruct (check_envelopes _ _ _); [|done]. cbn [bind_result].
  destruct (charge_total charges) as [total|]; [|done]. cbn [ok_or bind_result].
  destruct (check_breakers _ _ _ _) eqn:Hcb; [|done]. cbn [bind_result].
  destruct (match cap with Some _ => _ | None => _ end) as [b1|] eqn:Hr; [|done]. cbn [bind_result]. intros [= <-].
  assert (exists bound, reserve_within charges bound b = Ok b1) as [bound Hw] by (destruct cap; eauto).
  apply reserve_within_breaker in Hw as [Hl Hs]. exists total. split; [done|].
  unfold check_breakers, breaker_status in Hcb. rewrite breaker_now_idem in Hcb.
  cbn [st_paused st_payments_last_minute st_payments_last_hour st_reserved_msat_last_10_minutes
    st_consecutive_failures st_unresolved_payments] in Hcb.
  destruct (valid _); [|done]. destruct (negb _); [|done]. destruct (_ <=? _); [|done].
  destruct (Z.leb_spec (charge_count charges) (saturating_sub (max_payments_per_minute (gb_breakers b))
    (window_sum bk_payments 60 (breaker_now (gb_breaker_state b) now) (bs_buckets (gb_breaker_state b))))); [|done].
  destruct (Z.leb_spec (charge_count charges) (saturating_sub (max_payments_per_hour (gb_breakers b))
    (window_sum bk_payments 3600 (breaker_now (gb_breaker_state b) now) (bs_buckets (gb_breaker_state b))))); [|done].
  destruct (Z.leb_spec total (saturating_sub (max_msat_per_10_minutes (gb_breakers b))
    (window_sum bk_msat 600 (breaker_now (gb_breaker_state b) now) (bs_buckets (gb_breaker_state b))))); [|done].
  destruct (0 <? charge_count charges); cbn; rewrite ?Hl, ?Hs; split_and!; done.
Qed.

(** The event of a reservation, if it moves anything. *)
Definition event_of (charges : list Charge) (now : Z) (b : GrantBudget) : list event :=
  if 0 <? charge_count charges
  then [mkEvent (breaker_now (gb_breaker_state b) now) (charge_count charges) (default 0 (charge_total charges))]
  else [].

(** The limits are [u64]s. *)
Definition limits_ok (l : BreakerLimits) : Prop :=
  0 <= max_payments_per_minute l <= U64_MAX /\ 0 <= max_payments_per_hour l <= U64_MAX /\
  0 <= max_msat_per_10_minutes l <= U64_MAX.

Lemma reserve_bounded_metered charges cap now b b' h : charges_ok charges -> 0 <= now <= I64_MAX ->
  limits_ok (gb_breakers b) -> reserve_bounded charges cap now b = Ok b' -> metered b h ->
  metered b' (h ++ event_of charges now b).
Proof.
  intros Hc Hn (L1 & L2 & L3) Hr [Hp Hm H1 H2 H3].
  destruct (reserve_bounded_breaker _ _ _ _ _ Hr) as (total & Ht & Hl & C1 & C2 & C3 & Hs). cbv zeta in *.
  pose proof (charge_total_nonneg _ _ Hc Ht) as Ht0. unfold event_of. rewrite Ht.
  change (default 0 (Some total)) with total.
  assert (Hc0 : 0 <= charge_count charges) by (unfold charge_count; lia).
  destruct (Z.ltb_spec 0 (charge_count charges)).
  - split; rewrite ?Hs, ?Hl.
    + apply add_covers; auto.
    + apply add_covers; auto.
    + apply (reserve_limited payments_measure); auto; lia.
    + apply (reserve_limited payments_measure); auto; lia.
    + apply (reserve_limited msat_measure); auto; lia.
  - rewrite app_nil_r. split; rewrite ?Hs, ?Hl; done.
Qed.

Lemma reserve_for_bounded b a charges now b' : reserve_for b a charges now = Ok b' ->
  exists cap, reserve_bounded charges cap now b = Ok b'.
Proof.
  unfold reserve_for, bind_result, reserve_call_at, reserve_at. destruct (purpose_limit _ _ _); [|done].
  destruct (ceiling <$> _); [eauto|]. destruct (offer_limit _ _ _); eauto.
Qed.

Lemma enter_hushed id a charges b : hushed b (enter id a charges b).
Proof. unfold enter. repeat case_match; by apply hushed_same. Qed.

Lemma reserve_budget_metered id a charges now b h : charges_ok charges -> 0 <= now <= I64_MAX ->
  limits_ok (gb_breakers b) -> metered b h ->
  metered (reserve_budget id a charges now b).1
    (h ++ if is_ok (reserve_budget id a charges now b).2 then event_of charges now b else []).
Proof.
  intros Hc Hn Hl Hm. unfold reserve_budget.
  destruct (bool_decide _); [by rewrite app_nil_r|]. destruct (_ <? _)%nat; [by rewrite app_nil_r|].
  destruct (_ <=? _)%nat; [by rewrite app_nil_r|]. destruct (reserve_for b a charges now) as [b1|r] eqn:Hr.
  - cbn. destruct (reserve_for_bounded _ _ _ _ _ Hr) as [cap Hb]. eapply hushed_metered; [apply enter_hushed|].
    by eapply reserve_bounded_metered.
  - pose proof (refusal_hushed r now b) as Hh. destruct (record_breaker_refusal r now b) as [b' o]. cbn in *.
    rewrite app_nil_r. by eapply hushed_metered.
Qed.

(** ** Runs of a meter *)

(** The whole history of a meter: what was reserved, and the owner's resets of
    the breakers. *)
Inductive meter_entry := Reserved (e : event) | WasReset.

Definition reserved_in (h : list meter_entry) : list event :=
  omap (fun x => match x with Reserved e => Some e | WasReset => None end) h.
Fixpoint resets_in (h : list meter_entry) : Z :=
  match h with
  | [] => 0
  | Reserved _ :: h' => resets_in h'
  | WasReset :: h' => 1 + resets_in h'
  end.

(** The operations on a grant's meter beside its history.  [ms_top_up] raises a
    reservation that is already there, as a readmission does for its message:
    it reserves the difference and rewrites the pending entry. *)
Inductive meter_step : GrantBudget * list meter_entry -> GrantBudget * list meter_entry -> Prop :=
| ms_reserve id a charges now b h : charges_ok charges -> 0 <= now <= I64_MAX ->
    meter_step (b, h) ((reserve_budget id a charges now b).1,
      h ++ if is_ok (reserve_budget id a charges now b).2 then Reserved <$> event_of charges now b else [])
| ms_draw id peer call_id seq price fee link closing now b b' amount h :
    draw_budget id peer call_id seq price fee link closing now b = Ok (b', amount) -> meter_step (b, h) (b', h)
| ms_resolve id recipient actual failed now b b' h : 0 <= now <= I64_MAX ->
    resolve_budget id recipient actual failed now b = Some b' -> meter_step (b, h) (b', h)
| ms_close id now b h : 0 <= now <= I64_MAX -> meter_step (b, h) (close_call id now b, h)
| ms_close_over only now b h : 0 <= now <= I64_MAX -> meter_step (b, h) ((close_holds_over_limit only now b).1, h)
| ms_prune now b h : meter_step (b, h) (prune_call_tombstones now b, h)
| ms_refuse r now b h : meter_step (b, h) ((record_breaker_refusal r now b).1, h)
| ms_top_up charges now b b' pending h : charges_ok charges -> 0 <= now <= I64_MAX ->
    reserve_at charges now b = Ok b' ->
    meter_step (b, h) (set_pending pending b', h ++ (Reserved <$> event_of charges now b))
| ms_reset b h : meter_step (b, h) (reset_breakers b, h ++ [WasReset]).

Lemma fresh_metered l b : limits_ok l -> gb_breakers b = l -> gb_breaker_state b = BreakerState_default -> metered b [].
Proof.
  intros (L1 & L2 & L3) Hl Hs.
  assert (Hc : forall mu, covered mu BreakerState_default []).
  { intros mu. by split. }
  split; rewrite ?Hl, ?Hs; try apply Hc; intros t; cbn; lia.
Qed.

(** ** Stretches of the history between resets *)

Lemma events_in_app_list f lo hi h1 h2 : events_in f lo hi (h1 ++ h2) = events_in f lo hi h1 + events_in f lo hi h2.
Proof. induction h1 as [|e h1 IH]; cbn in *; lia. Qed.

Lemma events_in_suffix f lo hi h1 h2 : Forall (fun e => 0 <= f e) h1 ->
  events_in f lo hi h2 <= events_in f lo hi (h1 ++ h2).
Proof.
  intros Hf. rewrite events_in_app_list. enough (0 <= events_in f lo hi h1) by lia.
  induction Hf as [|e h1 He _ IH]; cbn; [done|]. destruct (_ && _); lia.
Qed.

(** What was reserved since the last reset. *)
Definition since_reset (h : list meter_entry) : list event :=
  fold_left (fun acc x => match x with Reserved e => acc ++ [e] | WasReset => [] end) h [].

Lemma since_reset_app h x : since_reset (h ++ [x]) =
  match x with Reserved e => since_reset h ++ [e] | WasReset => [] end.
Proof. unfold since_reset. by rewrite fold_left_app. Qed.

(** A stretch without a reset at the end of the history is at the end of it. *)
Lemma stretch_suffix h pre evs : h = pre ++ (Reserved <$> evs) -> exists l, since_reset h = l ++ evs.
Proof.
  revert h. induction evs as [|e evs IH] using rev_ind; intros h ->; [exists (since_reset pre); cbn; by rewrite !app_nil_r|].
  rewrite fmap_app, app_assoc. cbn [fmap list_fmap]. rewrite since_reset_app. destruct (IH _ eq_refl) as [l ->]. exists l. by rewrite app_assoc.
Qed.

(** Every stretch without a reset keeps a limit. *)
Definition stretches_limited (mu : measure) (w limit : Z) (h : list meter_entry) : Prop :=
  forall pre evs post, h = pre ++ (Reserved <$> evs) ++ post -> limited mu w limit evs.

Lemma stretches_grow mu w limit h x : 0 <= limit -> stretches_limited mu w limit h ->
  Forall (fun e => 0 <= ms_event mu e) (since_reset (h ++ [x])) ->
  limited mu w limit (since_reset (h ++ [x])) -> stretches_limited mu w limit (h ++ [x]).
Proof.
  intros Hlim Hh Hpos Hs pre evs post Heq. destruct post as [|y post _] using rev_ind.
  - rewrite app_nil_r in Heq. destruct (stretch_suffix _ _ _ Heq) as [l Hl]. rewrite Hl in Hs, Hpos.
    apply Forall_app in Hpos as [Hpos _]. intros t. etransitivity; [by apply events_in_suffix|apply Hs].
  - rewrite !app_assoc in Heq. apply app_inj_tail in Heq as [Heq _]. rewrite <- app_assoc in Heq. by eapply Hh.
Qed.

(** With [n] resets in a piece of the history, the limit holds [n + 1] times. *)
Lemma resets_multiply mu w limit h pre l post t : 0 <= limit -> stretches_limited mu w limit h ->
  h = pre ++ l ++ post -> events_in (ms_event mu) (t - w) t (reserved_in l) <= (1 + resets_in l) * limit.
Proof.
  intros Hlim Hh. revert pre.
  assert (Hsplit : forall l, (exists evs, l = Reserved <$> evs) \/
    exists evs l', l = (Reserved <$> evs) ++ WasReset :: l').
  { clear. induction l as [|[e|] l [[evs ->]|(evs & l' & ->)]]; [by left; exists []|..].
    - left. by exists (e :: evs).
    - right. by exists (e :: evs), l'.
    - right. by exists [], (Reserved <$> evs).
    - right. by eexists [], _. }
  assert (Hres : forall evs, reserved_in (Reserved <$> evs) = evs).
  { clear. induction evs as [|e evs IH]; cbn; [done|]. by f_equal. }
  assert (Hnone : forall evs l, resets_in ((Reserved <$> evs) ++ l) = resets_in l).
  { clear. intros evs l. by induction evs. }
  induction l as [l IH] using (induction_ltof1 _ length). unfold ltof in IH. intros pre Heq.
  destruct (Hsplit l) as [[evs ->]|(evs & l' & ->)].
  - rewrite Hres, <- (app_nil_r (Reserved <$> evs)), Hnone. cbn [resets_in]. specialize (Hh _ _ _ Heq t). lia.
  - unfold reserved_in. rewrite omap_app. cbn [omap list_omap]. fold (reserved_in (Reserved <$> evs)).
    fold (reserved_in l'). rewrite Hres, events_in_app_list.
    rewrite Hnone. cbn [resets_in].
    assert (H1 : limited mu w limit evs) by (apply (Hh pre evs (WasReset :: l' ++ post)); by rewrite Heq, <- app_assoc).
    assert (H2 : events_in (ms_event mu) (t - w) t (reserved_in l') <= (1 + resets_in l') * limit).
    { apply (IH l') with (pre := pre ++ (Reserved <$> evs) ++ [WasReset]); [rewrite length_app; cbn; lia|].
      rewrite Heq, <- !app_assoc. done. }
    specialize (H1 t). lia.
Qed.

Record metered_run (x : GrantBudget * list meter_entry) : Prop := {
  mr_limits : limits_ok (gb_breakers x.1);
  mr_metered : metered x.1 (since_reset x.2);
  mr_minute : stretches_limited payments_measure 60 (max_payments_per_minute (gb_breakers x.1)) x.2;
  mr_hour : stretches_limited payments_measure 3600 (max_payments_per_hour (gb_breakers x.1)) x.2;
  mr_ten : stretches_limited msat_measure 600 (max_msat_per_10_minutes (gb_breakers x.1)) x.2
}.

(** A new entry, after which the meter covers what is there since the last reset. *)
Lemma metered_grow b b' h x : gb_breakers b' = gb_breakers b -> metered_run (b, h) ->
  metered b' (since_reset (h ++ [x])) -> metered_run (b', h ++ [x]).
Proof.
  intros Hl [(L1 & L2 & L3) _ H1 H2 H3] Hm. cbn [fst snd] in *.
  assert (Hpos : forall f, f = ev_count \/ f = ev_msat -> Forall (fun e => 0 <= f e) (since_reset (h ++ [x]))).
  { intros f Hf. destruct Hm as [[_ Ht _ _] _ _ _ _]. eapply Forall_impl; [exact Ht|].
    intros e (? & ? & _). by destruct Hf as [-> | ->]. }
  pose proof Hm as [_ _ M1 M2 M3]. rewrite Hl in M1, M2, M3.
  split; cbn [fst snd]; rewrite ?Hl; [done|done|..]; apply stretches_grow; auto; try lia; apply Hpos; auto.
Qed.

Lemma hushed_run b b' h : hushed b b' -> metered_run (b, h) -> metered_run (b', h).
Proof.
  intros Hh [Hl Hm H1 H2 H3]. split; cbn [fst snd] in *; rewrite ?(hu_limits _ _ Hh); try done. by eapply hushed_metered.
Qed.

Lemma reserve_budget_limits id a charges now b : gb_breakers (reserve_budget id a charges now b).1 = gb_breakers b.
Proof.
  unfold reserve_budget. destruct (bool_decide _); [done|]. destruct (_ <? _)%nat; [done|].
  destruct (_ <=? _)%nat; [done|]. destruct (reserve_for b a charges now) as [b1|r] eqn:Hr.
  - cbn. destruct (reserve_for_bounded _ _ _ _ _ Hr) as [cap Hb]. rewrite (hu_limits _ _ (enter_hushed _ _ _ _)).
    by destruct (reserve_bounded_breaker _ _ _ _ _ Hb) as (? & ? & ? & _).
  - pose proof (refusal_hushed r now b) as Hh. destruct (record_breaker_refusal r now b). apply Hh.
Qed.

Lemma metered_nil b b' h : gb_breakers b' = gb_breakers b -> metered_run (b, h) -> metered b' (since_reset h) ->
  metered_run (b', h).
Proof. intros Hl [L _ H1 H2 H3] Hm. cbn [fst snd] in *. by split; cbn [fst snd]; rewrite ?Hl. Qed.

Lemma metered_events b b' charges now h : gb_breakers b' = gb_breakers b -> metered_run (b, h) ->
  metered b' (since_reset h ++ event_of charges now b) ->
  metered_run (b', h ++ (Reserved <$> event_of charges now b)).
Proof.
  intros Hl Hx. unfold event_of. destruct (0 <? charge_count charges); cbn [fmap list_fmap].
  - intros Hm. apply (metered_grow b); [done|done|]. by rewrite since_reset_app.
  - rewrite !app_nil_r. by apply (metered_nil b).
Qed.

Lemma reserve_at_limits charges now b b' pending : reserve_at charges now b = Ok b' ->
  gb_breakers (set_pending pending b') = gb_breakers b.
Proof. intros Hr. by destruct (reserve_bounded_breaker charges None now b b' Hr) as (? & _ & Hl & _). Qed.

Lemma meter_step_metered x y : meter_step x y -> metered_run x -> metered_run y.
Proof.
  intros Hstep Hx. destruct Hstep.
  2-7: revert Hx; apply hushed_run; eauto using draw_budget_hushed, resolve_budget_hushed, close_call_hushed,
    close_over_hushed, prune_hushed, refusal_hushed.
  - pose proof (reserve_budget_metered id a charges now b (since_reset h) H H0 (mr_limits _ Hx) (mr_metered _ Hx)) as Hm.
    pose proof (reserve_budget_limits id a charges now b) as Hl.
    destruct (is_ok _); [by apply (metered_events b)|]. rewrite app_nil_r in *. by apply (metered_nil b).
  - rename H1 into Hr. pose proof (reserve_at_limits _ _ _ _ pending Hr) as Hl.
    apply (hushed_run b'); [by apply hushed_same|]. apply (metered_events b); [done|done|].
    apply (reserve_bounded_metered charges None now b); [done|done|apply Hx|done|apply Hx].
  - apply (metered_grow b); [done|done|]. rewrite since_reset_app. eapply fresh_metered; [apply (mr_limits _ Hx)|done..].
Qed.

(** C24: the rolling limits of a grant hold over every window, not only over
    calendar minutes or hours.  Take any piece of the history of a grant's meter,
    with any clock readings, also ones that go back (the meter then keeps its last
    time).  While the owner resets no breaker, the payments reserved in any 60 and
    any 3600 consecutive seconds of it stay within the minute and hour limits and
    the amount reserved in any 600 seconds within the ten-minute limit, although
    the meter keeps only one saturating bucket per second and forgets those older
    than an hour; each reset in the piece allows each limit once more.  What a
    payment cost beyond its reservation is not part of these windows. *)
Theorem rolling_limits_hold terms b h pre l post t : limits_ok (gt_breakers terms) ->
  rtc meter_step (from_terms terms, []) (b, h) -> h = pre ++ l ++ post ->
  events_in ev_count (t - 60) t (reserved_in l) <= (1 + resets_in l) * max_payments_per_minute (gt_breakers terms) /\
  events_in ev_count (t - 3600) t (reserved_in l) <= (1 + resets_in l) * max_payments_per_hour (gt_breakers terms) /\
  events_in ev_msat (t - 600) t (reserved_in l) <= (1 + resets_in l) * max_msat_per_10_minutes (gt_breakers terms).
Proof.
  intros Hl Hrun Hh. remember (from_terms terms, []) as x eqn:Hx. remember (b, h) as y eqn:Hy.
  assert (Hgen : metered_run y /\ gb_breakers y.1 = gb_breakers x.1).
  { assert (Hm : metered_run x).
    { subst x. split; [done|by eapply fresh_metered|..]; intros [] [] post' Heq; try done; intros u; cbn; apply Hl. }
    clear Hx Hy. revert Hm.
    induction Hrun as [|x y z Hs _ IH]; [done|]. intros Hm.
    destruct (IH (meter_step_metered _ _ Hs Hm)) as [Hz Heq]. split; [done|]. rewrite Heq.
    destruct Hs; cbn [fst];
      eauto using hu_limits, draw_budget_hushed, resolve_budget_hushed, close_call_hushed, close_over_hushed,
        prune_hushed, refusal_hushed, reserve_budget_limits, reserve_at_limits. }
  destruct Hgen as [[(L1 & L2 & L3) _ H1 H2 H3] Heq]. subst x y. cbn [fst snd] in *. rewrite Heq in *.
  split_and!.
  - exact (resets_multiply payments_measure 60 _ h pre l post t (proj1 L1) H1 Hh).
  - exact (resets_multiply payments_measure 3600 _ h pre l post t (proj1 L2) H2 Hh).
  - exact (resets_multiply msat_measure 600 _ h pre l post t (proj1 L3) H3 Hh).
Qed.

(** Three payments fill a minute limit of three and the fourth is refused; the
    owner resets the breakers, and two more go through. *)
Definition ex_rate_terms : GrantTerms :=
  mkTerms (mkLimits 3 60 5 1000000) None false 100000 100000 ∅ MAX_SPEND_GRANT_TTL_SECS.
Definition ex_rate_step (x : GrantBudget * list meter_entry) (n : Z) : GrantBudget * list meter_entry :=
  let charges := [mkCharge "peer" 700] in
  let r := reserve_budget (show_uint n) authority_default charges (100 + n) x.1 in
  (r.1, x.2 ++ if is_ok r.2 then Reserved <$> event_of charges (100 + n) x.1 else []).
Definition ex_rate_start : GrantBudget * list meter_entry := (from_terms ex_rate_terms, []).
Definition ex_rate_full : GrantBudget * list meter_entry := fold_left ex_rate_step [0; 1; 2; 3] ex_rate_start.
Definition ex_rate_run : GrantBudget * list meter_entry :=
  fold_left ex_rate_step [4; 5] (reset_breakers ex_rate_full.1, ex_rate_full.2 ++ [WasReset]).

Lemma ex_rate_steps ns x : Forall (fun n => 0 <= n <= 100) ns -> rtc meter_step x (fold_left ex_rate_step ns x).
Proof.
  intros Hns. revert x. induction Hns as [|n ns Hn _ IH]; intros [b h]; [done|]. cbn [fold_left].
  eapply rtc_l; [|apply IH]. apply ms_reserve; [by repeat constructor|]. unfold I64_MAX. lia.
Qed.

Lemma ex_rate_reaches : rtc meter_step ex_rate_start ex_rate_run.
Proof.
  etransitivity; [|apply ex_rate_steps; repeat constructor; lia].
  etransitivity; [apply (ex_rate_steps [0; 1; 2; 3]); repeat constructor; lia|].
  fold ex_rate_full. destruct ex_rate_full as [b h]. apply rtc_once, ms_reset.
Qed.

Lemma rolling_limits_hold_witness :
  map ev_at (reserved_in ex_rate_run.2) = [100; 101; 102; 104; 105] /\
  resets_in (take 3 ex_rate_run.2) = 0 /\ resets_in ex_rate_run.2 = 1 /\
  events_in ev_count (110 - 60) 110 (reserved_in (take 3 ex_rate_run.2)) <=
    (1 + resets_in (take 3 ex_rate_run.2)) * max_payments_per_minute (gt_breakers ex_rate_terms) /\
  events_in ev_count (110 - 60) 110 (reserved_in ex_rate_run.2) <=
    (1 + resets_in ex_rate_run.2) * max_payments_per_minute (gt_breakers ex_rate_terms).
Proof.
  split; [vm_compute; reflexivity|]. split; [vm_compute; reflexivity|]. split; [vm_compute; reflexivity|].
  pose proof ex_rate_reaches as Hr. unfold ex_rate_start in Hr. destruct ex_rate_run as [b h]. cbn [snd].
  assert (Hl : limits_ok (gt_breakers ex_rate_terms)) by (unfold limits_ok, U64_MAX; cbn; lia).
  split.
  - exact (proj1 (rolling_limits_hold ex_rate_terms b h [] (take 3 h) (drop 3 h) 110 Hl Hr (eq_sym (take_drop 3 h)))).
  - exact (proj1 (rolling_limits_hold ex_rate_terms b h [] h [] 110 Hl Hr (eq_sym (app_nil_r h)))).
Defined.
