(* ===== verification/SpendDurable.v ===== *)
(** * Durability of the spend ledger

    The write loop of the pairing file ends; a reservation that is reported
    granted is on disk; one that is refused has moved no money of a live grant. *)

From S2P Require Import Prelude Text Kind BTree SpendBudget CallSpend PairingStore SpendLedger SpendSpec SpendProps.

(** ** The write loop *)

Lemma is_live_before now now' g : now <= now' -> is_live now' g = true -> is_live now g = true.
Proof. unfold is_live. rewrite !andb_true_iff, !Z.ltb_lt. intuition lia. Qed.

Lemma front_door_is_live_before now now' g : now <= now' ->
  front_door_is_live now' g = true -> front_door_is_live now g = true.
Proof. unfold front_door_is_live. rewrite !andb_true_iff, !Z.ltb_lt. intuition lia. Qed.

Definition grant_count (f : PairingFile) : nat := length (pf_grants f) + length (pf_front_door_grants f).

Lemma filter_drops {A} (p q : A -> bool) l : (forall x, q x = true -> p x = true) ->
  existsb (fun x => negb (p x)) l = true ->
  (length (filter (fun x => q x = true) l) < length l)%nat.
Proof.
  intros Hpq Hex. induction l as [|x l IH]; [done|]. cbn in Hex. apply orb_true_iff in Hex as [Hx|Hx].
  - rewrite filter_cons_False; [cbn|intros Hq%Hpq; by rewrite Hq in Hx].
    pose proof (length_filter (fun x => q x = true) l). lia.
  - specialize (IH Hx). rewrite filter_cons. destruct (decide _); cbn; lia.
Qed.

(** A file with a dead grant is shorter after the next, later, sweep. *)
Lemma retain_drops now now' f : now <= now' -> has_dead_grant now f = true ->
  (grant_count (retain_live_grants now' f) < grant_count f)%nat.
Proof.
  intros Hle. unfold has_dead_grant, grant_count, retain_live_grants. cbn [set_front_door_grants set_grants pf_grants pf_front_door_grants].
  pose proof (length_filter (fun g => is_live now' g = true) (pf_grants f)).
  pose proof (length_filter (fun g => front_door_is_live now' g = true) (pf_front_door_grants f)).
  intros [Hd|Hd]%orb_true_iff.
  - pose proof (filter_drops _ (is_live now') _ (fun g => is_live_before _ _ g Hle) Hd). lia.
  - pose proof (filter_drops _ (front_door_is_live now') _ (fun g => front_door_is_live_before _ _ g Hle) Hd). lia.
Qed.

Lemma retain_count now f : (grant_count (retain_live_grants now f) <= grant_count f)%nat.
Proof.
  unfold grant_count, retain_live_grants. cbn.
  pose proof (length_filter (fun g => is_live now g = true) (pf_grants f)).
  pose proof (length_filter (fun g => front_door_is_live now g = true) (pf_front_door_grants f)). lia.
Qed.

(** The clock of a loop does not run backwards. *)
Definition monotone_clock (env : PersistEnv) : Prop := forall i j, (i <= j)%nat -> pe_clock env i <= pe_clock env j.

Lemma persist_rounds_finishes fuel round env candidate disk : monotone_clock env ->
  (grant_count (retain_live_grants (pe_clock env (3 * round)) candidate) < fuel)%nat ->
  exists result, persist_rounds fuel round env candidate disk = Some result.
Proof.
  intros Hmono. revert round candidate disk. induction fuel as [|fuel IH]; intros round candidate disk Hf; [lia|].
  cbn [persist_rounds]. set (c := retain_live_grants _ candidate) in *.
  assert (Hnext : forall k disk', (k <= 2)%nat -> has_dead_grant (pe_clock env (3 * round + k)) c = true ->
    exists result, persist_rounds fuel (S round) env c disk' = Some result).
  { intros k disk' Hk Hd. apply IH.
    pose proof (retain_drops _ (pe_clock env (3 * S round)) c (Hmono (3 * round + k)%nat (3 * S round)%nat ltac:(lia)) Hd). lia. }
  destruct (pe_io env round); [eauto| | |]; destruct (has_dead_grant (pe_clock env (3 * round + 1)) c) eqn:H1;
    eauto; destruct (has_dead_grant (pe_clock env (3 * round + 2)) c) eqn:H2; eauto.
Qed.

(** What is reported written had no dead grant when it was. *)
Lemma persist_rounds_live fuel round env candidate disk disk' file :
  persist_rounds fuel round env candidate disk = Some (disk', Ok file) ->
  exists k, has_dead_grant (pe_clock env k) file = false.
Proof.
  revert round candidate disk. induction fuel as [|fuel IH]; intros round candidate disk; [done|].
  cbn [persist_rounds]. set (c := retain_live_grants _ candidate).
  destruct (pe_io env round); [done| | |]; destruct (has_dead_grant _ c); try done; try apply IH.
  destruct (has_dead_grant (pe_clock env (3 * round + 2)) c) eqn:Hd; [apply IH|]. intros [= _ <-]. eauto.
Qed.

(** The unbounded write loop of the pairing file ends.  It retries whenever a
    grant expires between its sweep and its write; with a clock that does not run
    backwards it returns within one round more than there are grants, whatever the
    file system does, and a file it reports written is on disk, holds a part of the
    grants it was given and no grant that was dead at its last reading. *)
Theorem persist_always_finishes env s : monotone_clock env ->
  exists disk outcome,
    persist_rounds (persist_fuel (ls_file s)) 0 env (set_version PAIRING_FILE_VERSION (ls_file s)) (ls_disk s) = Some (disk, outcome) /\
    match outcome with
    | Ok file => persist env s = (mkLedger file file (ls_identity_fingerprint s), Ok tt) /\
        pf_grants file `sublist_of` pf_grants (ls_file s) /\
        exists k, has_dead_grant (pe_clock env k) file = false
    | Err e => persist env s = (mkLedger (ls_file s) disk (ls_identity_fingerprint s), Err (Io e))
    end.
Proof.
  intros Hm. set (f := set_version PAIRING_FILE_VERSION (ls_file s)).
  destruct (persist_rounds_finishes (persist_fuel (ls_file s)) 0 env f (ls_disk s) Hm) as [[d o] Hp].
  { pose proof (retain_count (pe_clock env (3 * 0)) f). unfold persist_fuel, grant_count in *. cbn in *. lia. }
  exists d, o. split; [done|]. unfold persist. fold f. rewrite Hp. destruct o as [file|e]; [|done].
  pose proof (persist_rounds_sublist _ _ _ _ _ _ _ Hp) as [Hs ->]. split_and!; [done|done|].
  by eapply persist_rounds_live.
Qed.

(** ** What a reservation leaves behind *)

(** After one meter was replaced, its operation identity finds it again. *)
Lemma put_unique idx g b f g' : NoDup (op_ids f) -> pf_grants f !! idx = Some g ->
  g' ∈ pf_grants (put_budget idx (Some b) f) -> sg_op_id g' = sg_op_id g -> g' = set_budget (Some b) g.
Proof.
  intros Hn Hg Hin Hop. apply list_elem_of_lookup in Hin as [i Hi]. unfold put_budget, set_grants in Hi. cbn in Hi.
  assert (Hlk : forall j h, pf_grants f !! j = Some h -> op_ids f !! j = Some (sg_op_id h)).
  { intros j h Hj. unfold op_ids. change (map sg_op_id) with (fmap (M := list) sg_op_id). by rewrite list_lookup_fmap, Hj. }
  destruct (decide (i = idx)) as [->|Hne].
  - rewrite list_lookup_alter_eq, Hg in Hi. by simplify_eq/=.
  - rewrite list_lookup_alter_ne in Hi by done. exfalso. apply Hne.
    apply (NoDup_lookup (op_ids f) i idx (sg_op_id g)); [done|rewrite <- Hop|]; by apply Hlk.
Qed.

(** The parts of a meter that say what was spent and promised. *)
Definition same_money (b b0 : GrantBudget) : Prop :=
  gb_used_msat b = gb_used_msat b0 /\ gb_used_by_recipient b = gb_used_by_recipient b0 /\
  gb_pending b = gb_pending b0 /\ gb_payment_ids b = gb_payment_ids b0 /\
  gb_call_reservations b = gb_call_reservations b0 /\ gb_operation_links b = gb_operation_links b0.

Definition money_of (f : PairingFile) (op : string) (b : GrantBudget) : Prop :=
  exists g0 b0, g0 ∈ pf_grants f /\ sg_op_id g0 = op /\ sg_budget g0 = Some b0 /\ same_money b b0.

(** The same for a grant that is live in a later file. *)
Definition live_money (now : Z) (f f' : PairingFile) (op : string) (b : GrantBudget) : Prop :=
  (exists g, g ∈ pf_grants f' /\ sg_op_id g = op /\ is_live now g = true) -> money_of f op b.

Lemma money_of_self f : NoDup (op_ids f) -> file_ok (money_of f) f.
Proof. intros Hn. split; [done|]. intros g b Hg Hb. by exists g, b. Qed.

Lemma refused_same_money id a charges now b b' e : reserve_budget id a charges now b = (b', Err e) -> same_money b' b.
Proof.
  unfold reserve_budget. destruct (bool_decide _); [by intros [= <- _]|]. destruct (_ <? _)%nat; [by intros [= <- _]|].
  destruct (_ <=? _)%nat; [by intros [= <- _]|]. destruct (reserve_for b a charges now) as [|r]; [done|].
  destruct (record_breaker_refusal r now b) as [b1 o] eqn:Hr. intros [= <- _]. unfold record_breaker_refusal in Hr.
  destruct r; repeat case_match; by simplify_eq.
Qed.

Lemma restore_budget_grants op b f f' : pf_grants f = pf_grants f' ->
  pf_grants (restore_budget op b f) = pf_grants (restore_budget op b f').
Proof.
  intros Hf. unfold restore_budget. rewrite Hf. destruct (list_find _ _) as [[]|]; [|done]. cbn. by rewrite Hf.
Qed.

Lemma undo_binding_grants binding f : pf_grants (undo_binding binding f) = pf_grants f.
Proof. by destruct binding as [[? []]|]. Qed.

Lemma granted_budget_pending id a charges now b b' : recipients_of charges <> ∅ ->
  reserve_budget id a charges now b = (b', Ok tt) ->
  gb_pending b' !! id = Some (recipients_of charges) /\ Forall (.∈ gb_payment_ids b') (au_payment_ids a).
Proof.
  intros Hne. unfold reserve_budget. destruct (bool_decide _); [done|]. destruct (_ <? _)%nat; [done|].
  destruct (_ <=? _)%nat; [done|].
  destruct (reserve_for b a charges now) as [b1|]; [|destruct (record_breaker_refusal _ _ _); done].
  intros [= <-]. unfold enter. destruct (decide _); [done|].
  destruct (au_call a), (au_operation a); cbn; rewrite lookup_insert_eq; (split; [done|]);
    apply Forall_forall; set_solver.
Qed.

Section Durable.
Context (receipt_verifies : bytes -> SpendGrant -> bool) (cfg : ServiceConfig).

(** C25: a reservation reported granted is durable.  When the ledger answers
    [Ok], memory and disk hold the same file, and in it the grant named by the
    reservation is live, belongs to the client and carries the reservation in its
    pending table and the payment identities in its deduplication ledger, so a crash
    right after the answer cannot lose it. *)
Theorem reservation_is_durable id client epoch charges a env s s' r :
  NoDup (op_ids (ls_file s)) -> au_in_memory a = false -> recipients_of charges <> ∅ ->
  reserve_spend_locked receipt_verifies cfg id client epoch charges a env s = (s', Ok r) ->
  ls_disk s' = ls_file s' /\ rv_id r = id /\ rv_charges r = charges /\
  exists g b, g ∈ pf_grants (ls_disk s') /\ sg_op_id g = rv_op_id r /\ sg_client_id g = client /\
    is_live (en_after env) g = true /\ sg_budget g = Some b /\
    gb_pending b !! id = Some (recipients_of charges) /\ Forall (.∈ gb_payment_ids b) (au_payment_ids a).
Proof.
  intros Hn Hmem Hne. unfold reserve_spend_locked. rewrite Hmem. destruct (negb _); [done|].
  destruct (list_find _ _) as [[idx g]|] eqn:Hl; [|done]. apply list_find_Some in Hl as (Hg & Hsp & _).
  destruct (au_payment a && _); [done|]. destruct (au_liquidity a && _); [done|].
  destruct (sg_budget g) as [before|] eqn:Hb; [|done].
  destruct (reserve_budget _ _ _ _ before) as [b [[]|[refusal observed]]] eqn:Hr;
    [|destruct (observed && _); [destruct (persist _ _) as [? []]|]; done].
  destruct (match au_before_persist a with Some _ => _ | None => _ end); [|done].
  set (f' := match au_call a with Some _ => _ | None => _ end).
  pose proof (persist_file (en_persist env) (set_file f' s)) as [Hp _].
  destruct (persist _ _) as [s2 [[]|e]]; [|done]. destruct Hp as [Hsub Hdisk].
  destruct (existsb _ _) eqn:Hex; [|done]. intros [= <- <-]. cbn [rv_id rv_charges rv_op_id].
  apply existsb_exists in Hex as (g' & Hin & Hg'). apply andb_true_iff in Hg' as [Ho%bool_decide_eq_true Hlive].
  apply list_elem_of_In in Hin. rewrite Hdisk. split_and!; try done.
  assert (g' = set_budget (Some b) g) as ->.
  { apply (put_unique idx g b (ls_file s)); [done|done| |done]. pose proof (elem_of_sublist _ _ _ Hin Hsub) as Hf'.
    cbn in Hf'. unfold f' in Hf'. by destruct (au_call a). }
  exists (set_budget (Some b) g), b. unfold spendable in Hsp. rewrite !andb_true_iff in Hsp.
  destruct Hsp as (((((_ & _) & Hc%bool_decide_eq_true) & _) & _) & _).
  destruct (granted_budget_pending _ _ _ _ _ _ Hne Hr). done.
Qed.

(** C26: a refused reservation moves no money.  Whatever made the ledger refuse,
    a limit, a failed write or a grant that died meanwhile, every grant that is
    still live afterwards has the tallies, the pending reservations, the call holds
    and the payment identities it had before. *)
Theorem refusal_moves_no_money id client epoch charges a env s s' e g b :
  NoDup (op_ids (ls_file s)) ->
  reserve_spend_locked receipt_verifies cfg id client epoch charges a env s = (s', Err e) ->
  g ∈ pf_grants (ls_file s') -> sg_budget g = Some b -> is_live (en_after env) g = true ->
  money_of (ls_file s) (sg_op_id g) b.
Proof.
  intros Hn Hr Hin Hb Hlive. pose proof (money_of_self _ Hn) as Hself.
  cut (file_ok (live_money (en_after env) (ls_file s) (ls_file s')) (ls_file s')); [intros [_ H]; apply (H g b); eauto|].
  assert (Hweak : forall f, file_ok (money_of (ls_file s)) f ->
    file_ok (live_money (en_after env) (ls_file s) (ls_file s')) f)
    by (intros f; apply file_ok_mono; unfold live_money; auto). clear g b Hin Hb Hlive. revert Hr. unfold reserve_spend_locked.
  destruct (negb _); [intros [= <- _]; auto|].
  destruct (list_find _ _) as [[idx g]|] eqn:Hl; [|intros [= <- _]; auto]. apply list_find_Some in Hl as (Hg & _ & _).
  destruct (au_payment a && _); [intros [= <- _]; auto|]. destruct (au_liquidity a && _); [intros [= <- _]; auto|].
  destruct (sg_budget g) as [before|] eqn:Hb; [|intros [= <- _]; auto].
  pose proof (fk_meters _ _ Hself g before (list_elem_of_lookup_2 _ _ _ Hg) Hb) as Hm.
  destruct (reserve_budget _ _ _ _ before) as [b [[]|[refusal observed]]] eqn:Hr.
  - destruct (match au_before_persist a with Some _ => _ | None => _ end); [|intros [= <- _]; auto].
    set (f' := match au_call a with Some _ => _ | None => _ end). destruct (au_in_memory a); [done|].
    assert (Hf' : pf_grants f' = pf_grants (put_budget idx (Some b) (ls_file s))) by (unfold f'; by destruct (au_call a)).
    pose proof (persist_file (en_persist env) (set_file f' s)) as [Hp _].
    destruct (persist _ _) as [s2 [[]|pe]].
    + destruct (existsb _ _) eqn:Hex; [done|]. intros [= <- _].
      assert (Hput : file_ok (fun op b => op <> sg_op_id g -> money_of (ls_file s) op b)
        (put_budget idx (Some b) (ls_file s))) by (eapply (put_budget_ok (money_of (ls_file s))); [done|done|done|auto]).
      eapply file_ok_mono; [|eapply file_ok_sublist; [|exact Hput]; rewrite <- Hf'; apply Hp].
      intros op b0 H0 (g1 & Hg1 & <- & Hl1). apply H0. intros Heq.
      apply not_true_iff_false in Hex. apply Hex, existsb_exists. exists g1. split; [by apply list_elem_of_In|].
      by rewrite bool_decide_true.
    + intros [= <- _]. apply Hweak. cbn [set_file ls_file].
      eapply file_ok_grants; [|exact (restore_after_put _ idx g before b _ Hself Hg Hb)].
      apply restore_budget_grants. by rewrite undo_binding_grants, Hp.
  - assert (Hput : file_ok (money_of (ls_file s)) (put_budget idx (Some b) (ls_file s))).
    { eapply put_budget_ok; [done|done| |auto]. apply refused_same_money in Hr.
      exists g, before. split_and!; [by eapply list_elem_of_lookup_2|done..]. }
    destruct (observed && _); [|intros [= <- _]; auto].
    pose proof (store_persist_ok _ (en_persist env) (set_file (put_budget idx (Some b) (ls_file s)) s) Hput) as Hp.
    destruct (persist _ _) as [s2 [[]|pe]]; intros [= <- _]; apply Hweak; cbn in *; auto with ledger.
Qed.
End Durable.

Lemma persist_always_finishes_witness : exists disk outcome,
  persist_rounds (persist_fuel (ls_file ex_reserved)) 0 ex_rounds (set_version PAIRING_FILE_VERSION (ls_file ex_reserved)) (ls_disk ex_reserved) =
    Some (disk, outcome) /\
  match outcome with
  | Ok file => persist ex_rounds ex_reserved = (mkLedger file file (ls_identity_fingerprint ex_reserved), Ok tt) /\
      pf_grants file `sublist_of` pf_grants (ls_file ex_reserved) /\
      exists k, has_dead_grant (pe_clock ex_rounds k) file = false
  | Err e => persist ex_rounds ex_reserved =
      (mkLedger (ls_file ex_reserved) disk (ls_identity_fingerprint ex_reserved), Err (Io e))
  end.
Proof. apply (persist_always_finishes ex_rounds ex_reserved). intros i j _. apply Z.le_refl. Defined.

Lemma reservation_is_durable_witness :
  ls_disk ex_reserved = ls_file ex_reserved /\ rv_id ex_reservation = "r" /\ rv_charges ex_reservation = ex_charges /\
  exists g b, g ∈ pf_grants (ls_disk ex_reserved) /\ sg_op_id g = rv_op_id ex_reservation /\ sg_client_id g = "app" /\
    is_live (en_after ex_env) g = true /\ sg_budget g = Some b /\
    gb_pending b !! "r" = Some (recipients_of ex_charges) /\
    Forall (.∈ gb_payment_ids b) (au_payment_ids authority_default).
Proof.
  apply (reservation_is_durable ex_accepts ex_cfg "r" "app" 1 ex_charges authority_default ex_env (lock ex_env ex_ledger)
    ex_reserved ex_reservation).
  - vm_compute. apply NoDup_singleton.
  - reflexivity.
  - vm_compute. discriminate.
  - vm_compute. reflexivity.
Defined.

(** A charge beyond the budget of the example. *)
Definition ex_refused : LedgerState :=
  (reserve_spend_locked ex_accepts ex_cfg "r2" "app" 1 [mkCharge "peer" 200000] authority_default ex_env ex_reserved).1.

Lemma refusal_moves_no_money_witness :
  money_of (ls_file ex_reserved) (sg_op_id (ex_granted ex_refused)) (ex_meter ex_refused).
Proof.
  apply (refusal_moves_no_money ex_accepts ex_cfg "r2" "app" 1 [mkCharge "peer" 200000] authority_default ex_env
    ex_reserved ex_refused (PerCall 6000)).
  - vm_compute. apply NoDup_singleton.
  - vm_compute. reflexivity.
  - vm_compute. left.
  - vm_compute. reflexivity.
  - vm_compute. reflexivity.
Defined.
