(* ===== verification/Pairing.v ===== *)
(** * Paired clients

    The pairing service of [konsensus-api/src/pairing.rs]: the ceremony that pairs
    an app with a node, remote pairings, the challenges and short-lived tokens of a
    paired client, the check of a token on every request, and what revokes them.

    The state is the [Inner] behind the service's one mutex, with the file on disk
    beside the file in memory.  An operation gets what the clock and the file system
    do while it runs as [Tick]s, one per time it takes the lock, and the random values
    it draws as arguments.  Where the source iterates a hash map to find the oldest
    entry, ties go to the first in the model's order.  The counter that wakes remote
    tunnels, log lines and the challenge file are left out, and of [Inner] the fields
    of short authentication strings, owner tickets, device approvals, first contact
    and call media. *)

From Stdlib Require Import Ascii.
From S2P Require Import Prelude Text Types BTree SpendBudget CallSpend PairingStore SpendLedger.

(** ** Characters

    A string is its UTF-8 bytes; a character is a byte that does not continue
    another with the continuation bytes that follow it. *)

Definition is_continuation (c : ascii) : bool :=
  let n := nat_of_ascii c in ((128 <=? n) && (n <? 192))%nat.

Fixpoint chars_of (cs : list ascii) : list (list ascii) :=
  match cs with
  | [] => []
  | c :: cs' =>
      match chars_of cs' with
      | (d :: ds) :: rest => if is_continuation d then (c :: d :: ds) :: rest else [c] :: (d :: ds) :: rest
      | rest => [c] :: rest
      end
  end.

Definition string_of_chars (l : list (list ascii)) : string := String.string_of_list_ascii (concat l).

(** [char::is_control]: the general category Cc. *)
Definition is_control (c : list ascii) : bool :=
  match map nat_of_ascii c with
  | [n] => ((n <? 32) || (n =? 127))%nat
  | [m; n] => ((m =? 194) && (128 <=? n) && (n <? 160))%nat
  | _ => false
  end.

Definition is_whitespace (c : list ascii) : bool := bool_decide (map nat_of_ascii c ∈ white_space).

Definition ascii_to_uppercase (c : ascii) : ascii :=
  let n := nat_of_ascii c in
  if ((97 <=? n) && (n <=? 122))%nat then ascii_of_nat (n - 32) else c.

Definition sanitize_name (name : string) : string :=
  let cleaned := trim (string_of_chars (take 64 (filter (fun c => is_control c = false)
                   (chars_of (String.list_ascii_of_string name))))) in
  if bool_decide (cleaned = "") then "unnamed client" else cleaned.

Definition normalize_owner_code (typed : string) : string :=
  string_of_chars (map (map ascii_to_uppercase) (filter (fun c => is_whitespace c = false /\ c <> ["-"%char])
    (chars_of (String.list_ascii_of_string typed)))).

(** ** Constants and scopes *)

Definition PENDING_PAIRING_TTL : Z := 120.
Definition MAX_PENDING_PAIRINGS : nat := 32.
Definition PAIRED_TOKEN_VALIDITY_SECS : Z := 600.
Definition TOKEN_CHALLENGE_TTL : Z := 120.
Definition MAX_LIVE_TOKEN_CHALLENGES : nat := 128.
Definition MAX_LIVE_TOKEN_CHALLENGES_PER_CLIENT : nat := 8.
Definition MAX_LOCAL_CHALLENGE_PROOFS : nat := 4096.
Definition MAX_LOCAL_CHALLENGE_PROOFS_PER_CLIENT : nat := 128.
Definition LOCAL_CHALLENGE_PROOF_WINDOW_SECS : Z := 30.
Definition PAIRING_INACTIVITY_SECS : Z := 180 * 24 * 3600.
Definition OWNER_KEY_UNAVAILABLE : string := "owner_key_unavailable".

Definition default_pairing_scopes : list Scope := [Read; Receive].
Definition bootstrap_pairing_scopes : list Scope := [Read; Receive; Identity].
Definition grantable_scopes : list Scope := [Spend; FrontDoor].

Definition Scope_as_str (s : Scope) : string :=
  match s with
  | Read => "read"
  | Receive => "receive"
  | Spend => "spend"
  | Admin => "admin"
  | Identity => "identity"
  | Credential => "credential"
  | FrontDoor => "front_door"
  end.

(** ** The state *)

Record PendingPairing := mkPendingPairing {
  pp_client_pubkey : string;
  pp_name : string;
  pp_challenge : bytes;
  pp_expires_at : Z
}.

(** [oc_approval_file]: the code was delivered in a protected file. *)
Record OwnerConfirmation := mkConfirmation {
  oc_phrase : bytes;
  oc_code : option bytes;
  oc_expires_at : Z;
  oc_failures : Z;
  oc_approval_file : bool
}.

Record Provisional := mkProvisional {
  pv_ticket_id : string;
  pv_ticket_commitment : bytes;
  pv_issuer : string;
  pv_deadline : Z;
  pv_expires_at : Z;
  pv_failures : Z
}.

Record UsedTicket := mkUsedTicket {
  ut_client_id : string;
  ut_epoch : Z;
  ut_public_key : string;
  ut_transport : bytes;
  ut_deadline : Z;
  ut_contested : bool;
  ut_contested_op : option string
}.

Record ContestedAlert := mkAlert { al_client_id : string; al_name : string; al_event : string }.

Record Inner := mkInner {
  in_ledger : LedgerState;
  in_pending : gmap string PendingPairing;
  in_token_challenges : gmap string (string * Z);
  in_local_challenge_proofs : gset (string * Z * bytes);
  in_window_until : option Z;
  in_pairing_closed : bool;
  in_owner_confirmations : gmap string OwnerConfirmation;
  in_owner_code_failures : Z;
  in_provisional : gmap string Provisional;
  in_used_tickets : gmap string UsedTicket;
  in_alerts : list ContestedAlert;
  in_cancelled_ops : gmap string string
}.

Definition in_file (i : Inner) : PairingFile := ls_file (in_ledger i).
Definition in_identity_fingerprint (i : Inner) : string := ls_identity_fingerprint (in_ledger i).

Definition set_ledger (x : LedgerState) (i : Inner) : Inner :=
  mkInner x (in_pending i) (in_token_challenges i) (in_local_challenge_proofs i) (in_window_until i)
    (in_pairing_closed i) (in_owner_confirmations i) (in_owner_code_failures i) (in_provisional i)
    (in_used_tickets i) (in_alerts i) (in_cancelled_ops i).
Definition set_in_pending (x : gmap string PendingPairing) (i : Inner) : Inner :=
  mkInner (in_ledger i) x (in_token_challenges i) (in_local_challenge_proofs i) (in_window_until i)
    (in_pairing_closed i) (in_owner_confirmations i) (in_owner_code_failures i) (in_provisional i)
    (in_used_tickets i) (in_alerts i) (in_cancelled_ops i).
Definition set_token_challenges (x : gmap string (string * Z)) (i : Inner) : Inner :=
  mkInner (in_ledger i) (in_pending i) x (in_local_challenge_proofs i) (in_window_until i) (in_pairing_closed i)
    (in_owner_confirmations i) (in_owner_code_failures i) (in_provisional i) (in_used_tickets i) (in_alerts i)
    (in_cancelled_ops i).
Definition set_local_proofs (x : gset (string * Z * bytes)) (i : Inner) : Inner :=
  mkInner (in_ledger i) (in_pending i) (in_token_challenges i) x (in_window_until i) (in_pairing_closed i)
    (in_owner_confirmations i) (in_owner_code_failures i) (in_provisional i) (in_used_tickets i) (in_alerts i)
    (in_cancelled_ops i).
Definition set_window_until (x : option Z) (i : Inner) : Inner :=
  mkInner (in_ledger i) (in_pending i) (in_token_challenges i) (in_local_challenge_proofs i) x
    (in_pairing_closed i) (in_owner_confirmations i) (in_owner_code_failures i) (in_provisional i)
    (in_used_tickets i) (in_alerts i) (in_cancelled_ops i).
Definition set_pairing_closed (x : bool) (i : Inner) : Inner :=
  mkInner (in_ledger i) (in_pending i) (in_token_challenges i) (in_local_challenge_proofs i) (in_window_until i)
    x (in_owner_confirmations i) (in_owner_code_failures i) (in_provisional i) (in_used_tickets i) (in_alerts i)
    (in_cancelled_ops i).
Definition set_owner_confirmations (x : gmap string OwnerConfirmation) (i : Inner) : Inner :=
  mkInner (in_ledger i) (in_pending i) (in_token_challenges i) (in_local_challenge_proofs i) (in_window_until i)
    (in_pairing_closed i) x (in_owner_code_failures i) (in_provisional i) (in_used_tickets i) (in_alerts i)
    (in_cancelled_ops i).
Definition set_owner_code_failures (x : Z) (i : Inner) : Inner :=
  mkInner (in_ledger i) (in_pending i) (in_token_challenges i) (in_local_challenge_proofs i) (in_window_until i)
    (in_pairing_closed i) (in_owner_confirmations i) x (in_provisional i) (in_used_tickets i) (in_alerts i)
    (in_cancelled_ops i).
Definition set_provisional (x : gmap string Provisional) (i : Inner) : Inner :=
  mkInner (in_ledger i) (in_pending i) (in_token_challenges i) (in_local_challenge_proofs i) (in_window_until i)
    (in_pairing_closed i) (in_owner_confirmations i) (in_owner_code_failures i) x (in_used_tickets i)
    (in_alerts i) (in_cancelled_ops i).
Definition set_used_tickets (x : gmap string UsedTicket) (i : Inner) : Inner :=
  mkInner (in_ledger i) (in_pending i) (in_token_challenges i) (in_local_challenge_proofs i) (in_window_until i)
    (in_pairing_closed i) (in_owner_confirmations i) (in_owner_code_failures i) (in_provisional i) x
    (in_alerts i) (in_cancelled_ops i).
Definition set_alerts (x : list ContestedAlert) (i : Inner) : Inner :=
  mkInner (in_ledger i) (in_pending i) (in_token_challenges i) (in_local_challenge_proofs i) (in_window_until i)
    (in_pairing_closed i) (in_owner_confirmations i) (in_owner_code_failures i) (in_provisional i)
    (in_used_tickets i) x (in_cancelled_ops i).
Definition set_cancelled_ops (x : gmap string string) (i : Inner) : Inner :=
  mkInner (in_ledger i) (in_pending i) (in_token_challenges i) (in_local_challenge_proofs i) (in_window_until i)
    (in_pairing_closed i) (in_owner_confirmations i) (in_owner_code_failures i) (in_provisional i)
    (in_used_tickets i) (in_alerts i) x.
Definition set_in_file (f : PairingFile) (i : Inner) : Inner := set_ledger (set_file f (in_ledger i)) i.

(** ** Time and the lock *)

(** What happens while the lock is held once: the reading that drops expired
    confirmations, the environment of the ledger, and the monotonic clock. *)
Record Tick := mkTick { tk_prune : Z; tk_env : Env; tk_instant : Z }.
Definition tk_now (t : Tick) : Z := en_now (tk_env t).

Definition prune_owner_confirmations (now : Z) (i : Inner) : Inner :=
  set_owner_confirmations (filter (fun '(op_id, c) =>
    now < oc_expires_at c /\
    (oc_approval_file c = false \/
     Exists (fun op => pe_op_id op = op_id) (pf_pending_elevations (in_file i)) \/
     Exists (fun op => pd_op_id op = op_id) (pf_pending_device_keys (in_file i))))
    (in_owner_confirmations i)) i.

Definition inner_lock (t : Tick) (i : Inner) : Inner :=
  let i := prune_owner_confirmations (tk_prune t) i in
  set_ledger (lock (tk_env t) (in_ledger i)) i.

(** Writing the file in memory to disk. *)
Definition inner_persist (t : Tick) : comp Inner PairingError unit := fun i =>
  let '(l, r) := persist (en_persist (tk_env t)) (in_ledger i) in (set_ledger l i, r).

Definition find_client (client_id : string) (f : PairingFile) : option PairedClient :=
  snd <$> list_find (fun c => pc_client_id c = client_id) (pf_clients f).

(** Changing the first client with an identity. *)
Definition update_client (client_id : string) (h : PairedClient -> PairedClient) (f : PairingFile) : PairingFile :=
  match list_find (fun c => pc_client_id c = client_id) (pf_clients f) with
  | Some (idx, _) => set_clients (alter h idx (pf_clients f)) f
  | None => f
  end.

Definition without_client (client_id : string) (f : PairingFile) : PairingFile :=
  set_clients (filter (fun c => pc_client_id c <> client_id) (pf_clients f)) f.

Definition last_epoch_of (client_id : string) (f : PairingFile) : Z := default 0 (pf_last_epoch f !! client_id).
Definition track_epoch (client_id : string) (epoch : Z) (f : PairingFile) : PairingFile :=
  set_last_epoch (<[client_id := epoch]> (pf_last_epoch f)) f.

(** ** Configuration and primitives *)

(** [Signature::from_slice] of ed25519-dalek and keyed BLAKE3. *)
Class PairingPrims := {
  sig_from_slice : bytes -> result string bytes;
  blake3_keyed : bytes -> bytes -> bytes
}.

Section Pairing.
Context `{PR : Prims} `{PP : PairingPrims}.

Record PairingConfig := mkPairingConfig {
  pg_owner_control_enabled : bool;
  pg_local_owner_device : bool;
  pg_device_authority_off : option string;
  pg_owner_approval_key : option VerifyingKey;
  pg_owner_signing_key : bool;
  pg_second_device_enrollment : bool
}.

Definition service_config (cfg : PairingConfig) : ServiceConfig :=
  mkService (pg_owner_control_enabled cfg) (pg_local_owner_device cfg) (pg_device_authority_off cfg)
    (bool_decide (is_Some (pg_owner_approval_key cfg))).

Context (cfg : PairingConfig) (receipt_verifies : bytes -> SpendGrant -> bool).

Definition parse_pubkey (hex_key : string) : result PairingError VerifyingKey :=
  let? raw := map_err (fun e => Malformed ("client key is not hex: " +:+ e)) (hex_decode hex_key) in
  check (length raw =? 32)%nat else Malformed "client key must be 32 bytes" ;;
  map_err (fun e => Malformed ("invalid client key: " +:+ e)) (vk_from_bytes raw).

Definition parse_signature (signature_hex : string) : result PairingError bytes :=
  let? raw := map_err (fun e => Malformed ("invalid signature hex: " +:+ e)) (hex_decode signature_hex) in
  map_err (fun e => Malformed ("invalid signature: " +:+ e)) (sig_from_slice raw).

Definition derived_id (domain input : string) : string :=
  hex_encode (take 16 (blake3_keyed (blake3 (bytes_of_string domain)) (bytes_of_string input))).

Definition client_id_from_pubkey (pubkey_hex : string) : string := derived_id "bitsov-pair-client-id-v1" pubkey_hex.
Definition identity_fingerprint (node_id_hex : string) : string :=
  derived_id "bitsov-identity-fingerprint-v1" node_id_hex.

Definition ALPHABET : list ascii := String.list_ascii_of_string "23456789ABCDEFGHJKLMNPQRSTUVWXYZ".

(** Eight symbols with a dash in the middle. *)
Definition dashed_code (bs : bytes) : string :=
  let symbols := map (fun b => nth (Z.to_nat b mod 32) ALPHABET "2"%char) (take 8 bs) in
  String.string_of_list_ascii (take 4 symbols ++ (if (4 <? length symbols)%nat then ["-"%char] else []) ++ drop 4 symbols).

Definition short_code (challenge : bytes) : string :=
  dashed_code (blake3_keyed (blake3 (bytes_of_string "bitsov-pair-shortcode-v1")) challenge).

(** ** Device keys that an epoch change would retire *)

Definition provenance_parent (value : string) : option string :=
  match strip_prefix "second_device:" value with
  | Some p => Some p
  | None => strip_prefix "device:" value
  end.

Definition owner_approval_message (node client_pubkey : string) (epoch : Z) (device_public_key : string) : string :=
  "bitsov-owner-approval-v1" +:+ String "010"%char ("purpose:device-key" +:+ String "010"%char
    ("node:" +:+ node +:+ String "010"%char ("client_pubkey:" +:+ client_pubkey +:+ String "010"%char
      ("epoch:" +:+ show_uint epoch +:+ String "010"%char ("device_key:" +:+ device_public_key))))).

Definition verify_owner_approval (owner : VerifyingKey) (message signature_hex : string) : result PairingError unit :=
  let? raw := map_err (fun _ => BadProof) (hex_decode signature_hex) in
  let? sig := map_err (fun _ => BadProof) (sig_from_slice raw) in
  map_err (fun _ => BadProof) (verify_strict owner (bytes_of_string message) sig).

Definition device_authority : result PairingError VerifyingKey :=
  match pg_device_authority_off cfg with
  | Some reason => Err (DeviceApprovalsDisabled reason)
  | None => ok_or (pg_owner_approval_key cfg) (DeviceApprovalsDisabled OWNER_KEY_UNAVAILABLE)
  end.

Definition intent_key (i : Inner) (client_id : string) (epoch : Z) (key_id : string) : result PairingError DeviceKey :=
  let? client := ok_or (find_client client_id (in_file i)) UnknownClient in
  check pc_epoch client =? epoch else PairingInvalid "stale token epoch" ;;
  let? key := ok_or (snd <$> list_find (fun k => dk_key_id k = key_id /\ dk_client_id k = client_id /\
                dk_epoch k = epoch) (pf_device_keys (in_file i))) (NotGrantable "unknown or revoked device key") in
  let? owner := device_authority in
  check bool_decide (dk_client_pubkey key = pc_client_pubkey client)
    else NotGrantable "device key has no valid owner approval" ;;
  let? _ := map_err (fun _ => NotGrantable "device key has no valid owner approval")
    (verify_owner_approval owner (owner_approval_message (in_identity_fingerprint i) (dk_client_pubkey key)
       (dk_epoch key) (dk_public_key key)) (dk_owner_approval key)) in
  Ok key.

Definition parse_public_key (public_key_hex : string) : result PairingError bytes :=
  let? raw := map_err (fun _ => Malformed "device key is not hex") (hex_decode public_key_hex) in
  check (length raw =? 65)%nat && bool_decide (head raw = Some 4)
    else Malformed "device key must be an uncompressed P-256 point (65 bytes, 0x04…)" ;;
  Ok raw.

Definition key_id_for (public_key : bytes) : string := hex_encode (take 16 (blake3 public_key)).

(** Whether a device key carries the identity of its public key. *)
Definition names_itself (k : DeviceKey) : bool :=
  match parse_public_key (dk_public_key k) with
  | Ok raw => bool_decide (key_id_for raw = dk_key_id k)
  | Err _ => false
  end.

Definition console_owner_count (i : Inner) (removed clients : gset string) : nat :=
  size (list_to_set (C := gset string) (map dk_key_id (filter (fun k =>
    (dk_key_id k ∉ removed) /\ (dk_client_id k ∉ clients) /\ names_itself k = true /\
    is_ok (intent_key i (dk_client_id k) (dk_epoch k) (dk_key_id k)) = true) (pf_device_keys (in_file i))))).

Definition second_device_enrollment_enabled : bool := pg_second_device_enrollment cfg && pg_local_owner_device cfg.

Definition guard_device_removal (i : Inner) (affected : DeviceKey -> bool) : result PairingError unit :=
  let keys := pf_device_keys (in_file i) in
  let removed := list_to_set (C := gset string) (map dk_key_id (filter (fun k => affected k = true) keys)) in
  if bool_decide (removed = ∅) then Ok tt
  else
    let has_approvals := existsb (fun k =>
      match provenance_parent (dk_enrolled_by k) with Some p => bool_decide (p ∈ removed) | None => false end) keys in
    let owners_before := console_owner_count i ∅ ∅ in
    let loses_last_owner := (0 <? owners_before)%nat && (console_owner_count i removed ∅ =? 0)%nat in
    let unverifiable_owner :=
      (bool_decide (pg_owner_approval_key cfg = None) || bool_decide (is_Some (pg_device_authority_off cfg))) &&
      existsb (fun k => bool_decide (dk_key_id k ∈ removed) && negb (bool_decide (dk_owner_approval k = ""))) keys in
    check negb (second_device_enrollment_enabled || has_approvals || loses_last_owner || unverifiable_owner)
      else NotGrantable "revocation requires owner review; use device revoke on the owner console (preview and confirmation required)" ;;
    Ok tt.

(** A client without scopes has authority only while its enrollment lasts. *)
Definition second_device_available : result PairingError unit :=
  check negb (negb second_device_enrollment_enabled || negb (pg_owner_signing_key cfg))
    else OwnerChannelUnavailable ;;
  Ok tt.

Definition provisional_locked (i : Inner) (client : string) (instant now : Z) : result PairingError Provisional :=
  let? _ := second_device_available in
  let? p := ok_or (in_provisional i !! client) (PairingInvalid "provisional pairing required") in
  check negb ((pv_deadline p <=? instant) || (pv_expires_at p <=? now)) else Expired ;;
  check existsb (fun c => bool_decide (pc_client_id c = client) && bool_decide (pc_scopes c = []))
          (pf_clients (in_file i)) else PairingInvalid "provisional pairing required" ;;
  Ok p.

(** ** Pairing windows *)

Definition open_inner (i : Inner) (instant : Z) : bool :=
  if in_pairing_closed i then false
  else if bool_decide (pf_clients (in_file i) = []) then true
  else match in_window_until i with Some until => instant <? until | None => false end.

Definition pairing_open (t : Tick) (i : Inner) : Inner * bool :=
  let i := inner_lock t i in (i, open_inner i (tk_instant t)).

Definition with_pairing_closed (t : Tick) (i : Inner) : Inner := set_pairing_closed true (inner_lock t i).

Definition open_pairing_window (for_duration : Z) (t : Tick) (i : Inner) : Inner * Z :=
  (set_window_until (Some (tk_instant t + for_duration)) (inner_lock t i), tk_now t + for_duration).

(** ** The ceremony *)

Record PairingRequestOutcome := mkOutcome { po_pair_id : string; po_expires_at : Z; po_short_code : string }.

(** [challenge] and [pair_id_bytes] are drawn; [before] and [now_unix] are read
    before the lock is taken; [write] is what writing the challenge file does. *)
Definition request_pairing (name client_pubkey_hex : string) (challenge pair_id_bytes : bytes) (before now_unix : Z)
    (write : result string unit) (t : Tick) : comp Inner PairingError PairingRequestOutcome := fun i0 =>
  match parse_pubkey client_pubkey_hex with
  | Err e => (i0, Err e)
  | Ok _ =>
      let name := sanitize_name name in
      let pair_id := hex_encode pair_id_bytes in
      let i := inner_lock t i0 in
      if negb (open_inner i (tk_instant t)) then (i, Err Closed)
      else
        let i := set_in_pending (filter (fun '(_, p) => before < pp_expires_at p) (in_pending i)) i in
        if (MAX_PENDING_PAIRINGS <=? size (in_pending i))%nat then (i, Err TooManyPending)
        else
          let i := set_in_pending (<[pair_id := mkPendingPairing (to_ascii_lowercase client_pubkey_hex) name challenge
                     (before + PENDING_PAIRING_TTL)]> (in_pending i)) i in
          match write with
          | Err e => (i, Err (Io e))
          | Ok _ => (i, Ok (mkOutcome pair_id (now_unix + PENDING_PAIRING_TTL) (short_code challenge)))
          end
  end.

Definition proof_message (pair_id client_pubkey_hex : string) (challenge : bytes) : bytes :=
  bytes_of_string pair_id ++ bytes_of_string client_pubkey_hex ++ challenge.

(** The next epoch of a client, with the file that remembers it; [None] when
    the counter is exhausted, the file then remembering the last one. *)
Definition allocate_epoch (client_id : string) (floor : Z) (f : PairingFile) : PairingFile * option Z :=
  let last := Z.max (last_epoch_of client_id f) floor in
  match checked_add last 1 with
  | Some epoch => (track_epoch client_id epoch f, Some epoch)
  | None => (track_epoch client_id last f, None)
  end.

(** The pending record is consumed under the first lock, the client recorded
    under the second. *)
Definition confirm_pairing (pair_id signature_hex : string) (scopes : list Scope) (t1 t2 : Tick) :
    comp Inner PairingError PairedClient := fun i0 =>
  match parse_signature signature_hex with
  | Err e => (i0, Err e)
  | Ok sig =>
      let i := inner_lock t1 i0 in
      match in_pending i !! pair_id with
      | None => (i, Err UnknownPending)
      | Some pending =>
          let i := set_in_pending (delete pair_id (in_pending i)) i in
          if pp_expires_at pending <=? tk_instant t1 then (i, Err UnknownPending)
          else
            match (let? verifying := parse_pubkey (pp_client_pubkey pending) in
                   map_err (fun _ => BadProof) (verify_strict verifying
                     (proof_message pair_id (pp_client_pubkey pending) (pp_challenge pending)) sig)) with
            | Err e => (i, Err e)
            | Ok _ =>
                let client_id := client_id_from_pubkey (pp_client_pubkey pending) in
                let i := inner_lock t2 i in
                if bool_decide (Identity ∈ scopes) && negb (bool_decide (in_identity_fingerprint i = ""))
                then (i, Err Closed)
                else
                  match guard_device_removal i (fun key => bool_decide (dk_client_id key = client_id)) with
                  | Err e => (i, Err e)
                  | Ok _ =>
                      let prior := default 0 (pc_epoch <$> find_client client_id (in_file i)) in
                      match allocate_epoch client_id prior (in_file i) with
                      | (f, None) => (set_in_file f i, Err Closed)
                      | (f, Some epoch) =>
                          let record := mkClient client_id (pp_name pending) (pp_client_pubkey pending) None scopes
                                          epoch (in_identity_fingerprint i) (tk_now t2) None in
                          let f := without_client client_id f in
                          let i := set_in_file (set_clients (pf_clients f ++ [record]) f) i in
                          match inner_persist t2 i with
                          | (i, Err e) => (i, Err e)
                          | (i, Ok _) => (i, Ok record)
                          end
                      end
                  end
            end
      end
  end.

(** ** Remote pairings *)

Definition create_bootstrap_ticket_pairing (name client_pubkey_hex : string) (remote_transport_pubkey : bytes)
    (t : Tick) : comp Inner PairingError PairedClient := fun i0 =>
  let pubkey := to_ascii_lowercase client_pubkey_hex in
  match parse_pubkey pubkey with
  | Err e => (i0, Err e)
  | Ok _ =>
      let client_id := client_id_from_pubkey pubkey in
      let i := inner_lock t i0 in
      if in_pairing_closed i || negb (bool_decide (in_identity_fingerprint i = "")) ||
         negb (bool_decide (pf_clients (in_file i) = []))
      then (i, Err Closed)
      else
        let previous := in_file i in
        match allocate_epoch client_id 0 previous with
        | (f, None) => (set_in_file f i, Err Closed)
        | (f, Some epoch) =>
            let record := mkClient client_id (sanitize_name name) pubkey (Some (hex_encode remote_transport_pubkey))
                            bootstrap_pairing_scopes epoch "" (tk_now t) None in
            match inner_persist t (set_in_file (set_clients (pf_clients f ++ [record]) f) i) with
            | (i, Err e) => (set_in_file previous i, Err e)
            | (i, Ok _) => (i, Ok record)
            end
        end
  end.

Definition set_remote (remote_hex : string) (c : PairedClient) : PairedClient :=
  mkClient (pc_client_id c) (pc_name c) (pc_client_pubkey c) (Some remote_hex) (pc_scopes c) (pc_epoch c)
    (pc_identity_fingerprint c) (pc_created_at c) (pc_last_seen c).

Definition create_remote_pairing_locked (name client_pubkey_hex : string) (remote_transport_pubkey : bytes)
    (require_window : bool) (t : Tick) : comp Inner PairingError PairedClient := fun i =>
  let pubkey := to_ascii_lowercase client_pubkey_hex in
  match parse_pubkey pubkey with
  | Err e => (i, Err e)
  | Ok _ =>
      let remote_hex := hex_encode remote_transport_pubkey in
      let client_id := client_id_from_pubkey pubkey in
      let previous := in_file i in
      if negb (if require_window then open_inner i (tk_instant t) else negb (in_pairing_closed i))
      then (i, Err Closed)
      else if existsb (fun c => bool_decide (pc_remote_transport_pubkey c = Some remote_hex) &&
                         negb (bool_decide (pc_client_id c = client_id))) (pf_clients previous)
      then (i, Err Closed)
      else if bool_decide (in_identity_fingerprint i = "")
      then (i, Err (PairingInvalid "remote access requires a live node identity"))
      else
        match find_client client_id previous with
        | Some existing =>
            if negb (bool_decide (pc_identity_fingerprint existing = in_identity_fingerprint i))
            then (i, Err (PairingInvalid "identity fingerprint changed"))
            else
              match pc_remote_transport_pubkey existing with
              | Some bound => if bool_decide (bound = remote_hex) then (i, Ok existing) else (i, Err Closed)
              | None =>
                  match inner_persist t (set_in_file (update_client client_id (set_remote remote_hex) previous) i) with
                  | (i, Err e) => (set_in_file previous i, Err e)
                  | (i, Ok _) => (i, Ok (set_remote remote_hex existing))
                  end
              end
        | None =>
            match allocate_epoch client_id 0 previous with
            | (f, None) => (set_in_file f i, Err Closed)
            | (f, Some epoch) =>
                let record := mkClient client_id (sanitize_name name) pubkey (Some remote_hex) [Read; Receive] epoch
                                (in_identity_fingerprint i) (tk_now t) None in
                match inner_persist t (set_in_file (set_clients (pf_clients f ++ [record]) f) i) with
                | (i, Err e) => (set_in_file previous i, Err e)
                | (i, Ok _) => (i, Ok record)
                end
            end
        end
  end.

Definition create_remote_pairing (name client_pubkey_hex : string) (remote_transport_pubkey : bytes)
    (require_window : bool) (t : Tick) : comp Inner PairingError PairedClient := fun i =>
  create_remote_pairing_locked name client_pubkey_hex remote_transport_pubkey require_window t (inner_lock t i).

(** A client without scopes must still be provisional. *)
Definition check_provisional (i : Inner) (c : PairedClient) (t : Tick) : result PairingError unit :=
  if bool_decide (pc_scopes c = [])
  then let? _ := provisional_locked i (pc_client_id c) (tk_instant t) (tk_now t) in Ok tt
  else Ok tt.

Definition validate_remote_transport (remote_transport_pubkey : bytes) (t : Tick) :
    comp Inner PairingError PairedClient := fun i0 =>
  let i := inner_lock t i0 in
  (i, let? record := ok_or (snd <$> list_find (fun c => pc_remote_transport_pubkey c =
                       Some (hex_encode remote_transport_pubkey)) (pf_clients (in_file i))) UnknownClient in
      let? _ := check_provisional i record t in
      check bool_decide (pc_identity_fingerprint record = in_identity_fingerprint i)
        else PairingInvalid "identity fingerprint changed" ;;
      Ok record).

Definition validate_remote_authority (client_id : string) (epoch : Z) (remote_transport_pubkey : bytes)
    (fingerprint : string) (t : Tick) : comp Inner PairingError unit := fun i0 =>
  let i := inner_lock t i0 in
  (i, let? record := ok_or (find_client client_id (in_file i)) UnknownClient in
      let? _ := check_provisional i record t in
      check (pc_epoch record =? epoch) &&
            bool_decide (pc_remote_transport_pubkey record = Some (hex_encode remote_transport_pubkey)) &&
            bool_decide (pc_identity_fingerprint record = fingerprint) &&
            bool_decide (in_identity_fingerprint i = fingerprint)
        else PairingInvalid "remote tunnel authority changed" ;;
      Ok tt).

(** ** Token challenges *)

(** The challenge of a client that expires first. *)
Definition oldest_challenge (client_id : string) (m : gmap string (string * Z)) : option string :=
  fst <$> fold_left (fun best '(challenge, (owner, expires)) =>
    if bool_decide (owner = client_id) then
      match best with
      | Some (_, least) => if expires <? least then Some (challenge, expires) else best
      | None => Some (challenge, expires)
      end
    else best) (map_to_list m) None.

Definition issue_token_challenge_locked (nonce : bytes) (client_id : string) (instant : Z) :
    comp Inner PairingError string := fun i =>
  if negb (existsb (fun c => bool_decide (pc_client_id c = client_id)) (pf_clients (in_file i)))
  then (i, Err UnknownClient)
  else
    let live := filter (fun '(_, (_, expires)) => instant < expires) (in_token_challenges i) in
    let mine := length (filter (fun '(_, (owner, _)) => owner = client_id) (map_to_list live)) in
    let challenge := "bitsov-pair-token-v1:" +:+ hex_encode nonce in
    let add m := set_token_challenges (<[challenge := (client_id, instant + TOKEN_CHALLENGE_TTL)]> m) i in
    if (MAX_LIVE_TOKEN_CHALLENGES_PER_CLIENT <=? mine)%nat
    then (add (match oldest_challenge client_id live with Some c => delete c live | None => live end), Ok challenge)
    else if (MAX_LIVE_TOKEN_CHALLENGES <=? size live)%nat
    then (set_token_challenges live i, Err TooManyPending)
    else (add live, Ok challenge).

Definition issue_token_challenge (nonce : bytes) (client_id : string) (t : Tick) : comp Inner PairingError string :=
  fun i => issue_token_challenge_locked nonce client_id (tk_instant t) (inner_lock t i).

Definition abs_diff (a b : Z) : Z := Z.abs (a - b).

Definition issue_verified_local_token_challenge (nonce : bytes) (verified : PairedClient) (timestamp : Z)
    (signature : bytes) (t : Tick) : comp Inner PairingError string := fun i0 =>
  let i := inner_lock t i0 in
  let now := tk_now t in
  if (LOCAL_CHALLENGE_PROOF_WINDOW_SECS <? abs_diff now timestamp) ||
     negb (bool_decide (in_identity_fingerprint i = pc_identity_fingerprint verified)) ||
     negb (existsb (fun c => bool_decide (pc_client_id c = pc_client_id verified) &&
             bool_decide (pc_client_pubkey c = pc_client_pubkey verified) && (pc_epoch c =? pc_epoch verified) &&
             bool_decide (pc_identity_fingerprint c = pc_identity_fingerprint verified)) (pf_clients (in_file i)))
  then (i, Err BadProof)
  else
    let i := set_local_proofs (filter (fun '(_, at_, _) =>
               now <= Z.min I64_MAX (at_ + LOCAL_CHALLENGE_PROOF_WINDOW_SECS)) (in_local_challenge_proofs i)) i in
    let proof := (pc_client_id verified, timestamp, signature) in
    if bool_decide (proof ∈ in_local_challenge_proofs i) then (i, Err BadProof)
    else if (MAX_LOCAL_CHALLENGE_PROOFS <=? size (in_local_challenge_proofs i))%nat ||
            (MAX_LOCAL_CHALLENGE_PROOFS_PER_CLIENT <=?
               size (filter (fun '(c, _, _) => c = pc_client_id verified) (in_local_challenge_proofs i)))%nat
    then (i, Err TooManyPending)
    else
      match issue_token_challenge_locked nonce (pc_client_id verified) (tk_instant t) i with
      | (i, Err e) => (i, Err e)
      | (i, Ok challenge) => (set_local_proofs ({[proof]} ∪ in_local_challenge_proofs i) i, Ok challenge)
      end.

(** [now] is read before the first lock. *)
Definition issue_local_token_challenge (nonce : bytes) (client_id : string) (timestamp : Z) (signature_hex : string)
    (now : Z) (t1 t2 : Tick) : comp Inner PairingError string := fun i0 =>
  if LOCAL_CHALLENGE_PROOF_WINDOW_SECS <? abs_diff now timestamp then (i0, Err BadProof)
  else
    match hex_decode signature_hex with
    | Err _ => (i0, Err BadProof)
    | Ok raw =>
        if negb (length raw =? 64)%nat then (i0, Err BadProof)
        else
          let i := inner_lock t1 i0 in
          match find_client client_id (in_file i) with
          | None => (i, Err BadProof)
          | Some client =>
              match (let? key := parse_pubkey (pc_client_pubkey client) in
                     map_err (fun _ => BadProof) (verify_strict key (bytes_of_string ("bitsov-pair-challenge-v1:"
                       +:+ client_id +:+ ":" +:+ show_int timestamp)) raw)) with
              | Err e => (i, Err e)
              | Ok _ => issue_verified_local_token_challenge nonce client timestamp raw t2 i
              end
          end
    end.

(** ** Tokens *)

Record Claims := mkClaims {
  cl_sub : string;
  cl_iat : Z;
  cl_exp : Z;
  cl_scp : list Scope;
  cl_cid : option string;
  cl_epc : option Z;
  cl_idf : option string;
  cl_bst : option bool
}.

Inductive TokenKind : Type := Live (subject : string) | Bootstrap.

Record IssuedToken := mkToken { it_token : string; it_expires_at : Z; it_scopes : list Scope }.

(** The claims of the token of a paired client; [now] is read when it is made. *)
Definition token_claims (kind : TokenKind) (scopes : list Scope) (client_id : string) (epoch : Z)
    (fingerprint : string) (now : Z) : Claims :=
  match kind with
  | Live subject => mkClaims subject now (now + PAIRED_TOKEN_VALIDITY_SECS) scopes (Some client_id) (Some epoch)
                      (Some fingerprint) None
  | Bootstrap => mkClaims "bootstrap" now (now + PAIRED_TOKEN_VALIDITY_SECS) scopes (Some client_id) (Some epoch)
                   (Some "") (Some true)
  end.

Definition permits (g : SpendGrant) : bool := permits_spend_grant receipt_verifies (service_config cfg) g.

(** Adding the scopes of one grant. *)
Definition add_grant_scopes (g : SpendGrant) (scopes : list Scope) : list Scope :=
  fold_left (fun scopes s =>
    if negb (bool_decide (s ∈ scopes)) && (pg_owner_control_enabled cfg || (bool_decide (s = Spend) && permits g))
    then scopes ++ [s] else scopes) (sg_scopes g) scopes.

Definition effective_scopes (i : Inner) (record : PairedClient) (now : Z) : list Scope :=
  if bool_decide (pc_scopes record = []) then []
  else
    let scopes := if pg_owner_control_enabled cfg then pc_scopes record
                  else filter (fun s => s ∉ grantable_scopes) (pc_scopes record) in
    let scopes := fold_left (fun scopes g =>
      if bool_decide (sg_client_id g = pc_client_id record) && is_live now g && (sg_epoch g =? pc_epoch record) &&
         bool_decide (sg_identity_fingerprint g = in_identity_fingerprint i)
      then add_grant_scopes g scopes else scopes) (pf_grants (in_file i)) scopes in
    let front_door := pg_owner_control_enabled cfg &&
      existsb (fun g => bool_decide (fd_client_id g = pc_client_id record) && front_door_is_live now g &&
        (fd_epoch g =? pc_epoch record) && bool_decide (fd_identity_fingerprint g = in_identity_fingerprint i))
        (pf_front_door_grants (in_file i)) in
    if front_door && negb (bool_decide (FrontDoor ∈ scopes)) then scopes ++ [FrontDoor] else scopes.

Section Tokens.
(** Serialising and signing the claims with the node's secret. *)
Context (sign_claims : Claims -> string -> result string string).

Definition inactive (record : PairedClient) (now : Z) : bool :=
  PAIRING_INACTIVITY_SECS <? now - default (pc_created_at record) (pc_last_seen record).

Definition set_last_seen (now : Z) (c : PairedClient) : PairedClient :=
  mkClient (pc_client_id c) (pc_name c) (pc_client_pubkey c) (pc_remote_transport_pubkey c) (pc_scopes c) (pc_epoch c)
    (pc_identity_fingerprint c) (pc_created_at c) (Some now).

(** [made_at] is the reading when the token is made. *)
Definition issue_token_kind (kind : TokenKind) (jwt_secret client_id challenge signature_hex : string) (made_at : Z)
    (t : Tick) : comp Inner PairingError IssuedToken := fun i0 =>
  match parse_signature signature_hex with
  | Err e => (i0, Err e)
  | Ok sig =>
      let i := inner_lock t i0 in
      match in_token_challenges i !! challenge with
      | None => (i, Err UnknownPending)
      | Some (owner, expires) =>
          let i := set_token_challenges (delete challenge (in_token_challenges i)) i in
          if (expires <=? tk_instant t) || negb (bool_decide (owner = client_id)) then (i, Err UnknownPending)
          else
            match (let? record := ok_or (find_client client_id (in_file i)) UnknownClient in
                   let? _ := check_provisional i record t in
                   check bool_decide (pc_identity_fingerprint record = in_identity_fingerprint i)
                     else PairingInvalid "pairing was created against a different identity" ;;
                   check negb (inactive record (tk_now t))
                     else PairingInvalid "pairing has been unused past its inactivity horizon — re-pair" ;;
                   let? verifying := parse_pubkey (pc_client_pubkey record) in
                   let? _ := map_err (fun _ => BadProof) (verify_strict verifying (bytes_of_string challenge) sig) in
                   let scopes := effective_scopes i record (tk_now t) in
                   let? token := map_err (fun e => Io e) (sign_claims (token_claims kind scopes client_id
                                   (pc_epoch record) (in_identity_fingerprint i) made_at) jwt_secret) in
                   Ok (token, scopes)) with
            | Err e => (i, Err e)
            | Ok (token, scopes) =>
                match inner_persist t (set_in_file (update_client client_id (set_last_seen (tk_now t)) (in_file i)) i) with
                | (i, Err e) => (i, Err e)
                | (i, Ok _) => (i, Ok (mkToken token (tk_now t + PAIRED_TOKEN_VALIDITY_SECS) scopes))
                end
            end
      end
  end.

Definition issue_token (subject : string) := issue_token_kind (Live subject).
Definition issue_bootstrap_token := issue_token_kind Bootstrap.
End Tokens.

Record PairingRefusal := mkRefusal { pr_error : PairingError; pr_reason : string }.

Definition refusal_of (e : PairingError) : PairingRefusal :=
  mkRefusal e match e with
              | BadProof => "bad_signature"
              | Expired => "stale_or_future"
              | NotGrantable _ => "unknown_or_revoked_key"
              | PairingInvalid _ => "invalid_pairing"
              | UnknownClient => "unknown_client"
              | OwnerChannelUnavailable => "owner_channel_off"
              | DeviceApprovalsDisabled _ => "device_approvals_disabled"
              | Malformed _ => "malformed"
              | TooManyPending => "rate_limited"
              | Io _ => "storage_error"
              | _ => "pairing_refused"
              end.

Definition verify_token_binding_with_reason (client_id : string) (epoch : Z) (fingerprint : string)
    (scopes : list Scope) (t : Tick) : comp Inner PairingRefusal unit := fun i0 =>
  let i := inner_lock t i0 in
  (i, check bool_decide (in_identity_fingerprint i = fingerprint)
        else refusal_of (PairingInvalid "token was issued against a different identity") ;;
      let? record := map_err refusal_of (ok_or (find_client client_id (in_file i)) UnknownClient) in
      let? _ := map_err (fun e => mkRefusal e "provisional_session") (check_provisional i record t) in
      check pc_epoch record =? epoch
        else mkRefusal (PairingInvalid "pairing epoch has been bumped — the token is revoked") "wrong_epoch" ;;
      check bool_decide (pc_identity_fingerprint record = fingerprint)
        else refusal_of (PairingInvalid "pairing is bound to a different identity") ;;
      let permitted := effective_scopes i record (tk_now t) in
      match list_find (fun s => s ∉ permitted) scopes with
      | Some (_, extra) => Err (refusal_of (PairingInvalid ("token claims scope `" +:+ Scope_as_str extra +:+
                                  "` the pairing does not hold in this deployment")))
      | None => Ok tt
      end).

Definition verify_token_binding (client_id : string) (epoch : Z) (fingerprint : string) (scopes : list Scope)
    (t : Tick) : comp Inner PairingError unit :=
  cmap_err pr_error (verify_token_binding_with_reason client_id epoch fingerprint scopes t).

(** The binding a token asserts, if any. *)
Record PairingBinding := mkBinding { pb_client_id : string; pb_epoch : Z; pb_fingerprint : string }.

Definition from_claims (c : Claims) : option (option PairingBinding) :=
  match cl_cid c, cl_epc c, cl_idf c with
  | None, None, None => Some None
  | Some cid, Some epoch, Some idf =>
      if negb (bool_decide (cid = "")) && negb (bool_decide (idf = ""))
      then Some (Some (mkBinding cid epoch idf)) else None
  | _, _, _ => None
  end.

Definition live_spend_grant_id (b : PairingBinding) (t : Tick) (i0 : Inner) : Inner * option string :=
  let i := inner_lock t i0 in
  (i, if negb (bool_decide (in_identity_fingerprint i = pb_fingerprint b)) ||
         negb (existsb (fun c => bool_decide (pc_client_id c = pb_client_id b) && (pc_epoch c =? pb_epoch b) &&
                 bool_decide (pc_identity_fingerprint c = pb_fingerprint b)) (pf_clients (in_file i)))
      then None
      else (fun '(_, g) => sg_op_id g) <$> list_find (fun g => permits g = true /\ sg_client_id g = pb_client_id b /\
             sg_epoch g = pb_epoch b /\ sg_identity_fingerprint g = pb_fingerprint b /\ Spend ∈ sg_scopes g /\
             is_live (tk_now t) g = true) (pf_grants (in_file i))).

(** ** Revocation and rotation *)

Definition set_epoch (epoch : Z) (c : PairedClient) : PairedClient :=
  mkClient (pc_client_id c) (pc_name c) (pc_client_pubkey c) (pc_remote_transport_pubkey c) (pc_scopes c) epoch
    (pc_identity_fingerprint c) (pc_created_at c) (pc_last_seen c).

(** [+= 1] wraps in a release build. *)
Definition bump_epoch (client_id : string) (t : Tick) : comp Inner PairingError Z := fun i0 =>
  let i := inner_lock t i0 in
  match (let? _ := guard_device_removal i (fun key => bool_decide (dk_client_id key = client_id)) in
         ok_or (find_client client_id (in_file i)) UnknownClient) with
  | Err e => (i, Err e)
  | Ok record =>
      let epoch := wrapping_add_u64 (pc_epoch record) 1 in
      let f := track_epoch client_id epoch (update_client client_id (set_epoch epoch) (in_file i)) in
      match inner_persist t (set_in_file (file_revoke_grants (Some client_id) f).1 i) with
      | (i, Err e) => (i, Err e)
      | (i, Ok _) => (i, Ok epoch)
      end
  end.

Definition drop_device_keys (client_id : string) (f : PairingFile) : PairingFile :=
  set_pending_device_keys (filter (fun p => pd_client_id p <> client_id) (pf_pending_device_keys f))
    (set_device_keys (filter (fun k => dk_client_id k <> client_id) (pf_device_keys f)) f).

(** What [revoke] does to the file. *)
Definition revoked_file (client_id : string) (epoch : Z) (f : PairingFile) : PairingFile :=
  let f := track_epoch client_id (Z.max (last_epoch_of client_id f) epoch) f in
  let f := without_client client_id f in
  let f := (file_revoke_grants (Some client_id) f).1 in
  let f := set_pending_elevations (filter (fun e => pe_client_id e <> client_id) (pf_pending_elevations f)) f in
  let f := set_replacement_approvals (filter (fun a => ra_client_id a <> client_id) (pf_replacement_approvals f)) f in
  let f := drop_device_keys client_id f in
  set_registered_ops (filter (fun '(_, k) => k ∈ map dk_key_id (pf_device_keys f)) (pf_registered_ops f)) f.

Definition revoke (client_id : string) (t : Tick) : comp Inner PairingError unit := fun i0 =>
  let i := inner_lock t i0 in
  match (let? _ := guard_device_removal i (fun key => bool_decide (dk_client_id key = client_id)) in
         ok_or (find_client client_id (in_file i)) UnknownClient) with
  | Err e => (i, Err e)
  | Ok existing =>
      let i := set_token_challenges (filter (fun '(_, (owner, _)) => owner <> client_id) (in_token_challenges i)) i in
      match inner_persist t (set_in_file (revoked_file client_id (pc_epoch existing) (in_file i)) i) with
      | (i, Err e) => (i, Err e)
      | (i, Ok _) => (set_provisional (delete client_id (in_provisional i)) i, Ok tt)
      end
  end.

(** What [rotate_client_key] does to the file. *)
Definition rotated_file (client_id new_id : string) (old_epoch epoch : Z) (rotated : PairedClient) (f : PairingFile) :
    PairingFile :=
  let f := track_epoch client_id (Z.max (last_epoch_of client_id f) old_epoch) f in
  let f := track_epoch new_id (Z.max (last_epoch_of new_id f) epoch) f in
  let f := set_clients (filter (fun c => pc_client_id c <> client_id /\ pc_client_id c <> new_id) (pf_clients f)
             ++ [rotated]) f in
  (file_revoke_grants (Some client_id) (drop_device_keys client_id f)).1.

Definition rotate_client_key (client_id new_pubkey_hex signature_hex : string) (t : Tick) :
    comp Inner PairingError PairedClient := fun i0 =>
  match (let? _ := parse_pubkey new_pubkey_hex in parse_signature signature_hex) with
  | Err e => (i0, Err e)
  | Ok sig =>
      let i := inner_lock t i0 in
      let f := in_file i in
      let new_pubkey := to_ascii_lowercase new_pubkey_hex in
      let new_id := client_id_from_pubkey new_pubkey in
      match (let? old := ok_or (find_client client_id f) UnknownClient in
             check negb (bool_decide (pc_scopes old = [])) else PairingInvalid "provisional" ;;
             let? old_key := parse_pubkey (pc_client_pubkey old) in
             let? _ := map_err (fun _ => BadProof) (verify_strict old_key (bytes_of_string ("bitsov-pair-rotate-v1:"
                         +:+ client_id +:+ ":" +:+ new_pubkey_hex)) sig) in
             let? _ := guard_device_removal i (fun key => bool_decide (dk_client_id key = client_id) ||
                         bool_decide (dk_client_id key = new_id)) in
             let? epoch := ok_or (checked_add (Z.max (Z.max (pc_epoch old) (last_epoch_of new_id f))
                             (default 0 (pc_epoch <$> find_client new_id f))) 1) Closed in
             Ok (old, epoch)) with
      | Err e => (i, Err e)
      | Ok (old, epoch) =>
          let rotated := mkClient new_id (pc_name old) new_pubkey None (pc_scopes old) epoch
                           (pc_identity_fingerprint old) (pc_created_at old) (pc_last_seen old) in
          match inner_persist t (set_in_file (rotated_file client_id new_id (pc_epoch old) epoch rotated f) i) with
          | (i, Err e) => (i, Err e)
          | (i, Ok _) => (i, Ok rotated)
          end
      end
  end.

Definition rebind_client (fingerprint : string) (c : PairedClient) : PairedClient :=
  mkClient (pc_client_id c) (pc_name c) (pc_client_pubkey c) (pc_remote_transport_pubkey c) default_pairing_scopes
    (pc_epoch c) fingerprint (pc_created_at c) (pc_last_seen c).

Definition rebound_file (fingerprint : string) (f : PairingFile) : PairingFile :=
  let f := set_clients (map (rebind_client fingerprint) (pf_clients f)) f in
  let f := (file_revoke_grants None f).1 in
  set_registered_ops ∅ (set_pending_device_keys [] (set_device_keys []
    (set_replacement_approvals [] (set_pending_elevations [] f)))).

Definition rebind_to_identity (fingerprint : string) (t : Tick) : comp Inner PairingError unit := fun i0 =>
  let i := inner_lock t i0 in
  let i := set_ledger (mkLedger (rebound_file fingerprint (in_file i)) (ls_disk (in_ledger i)) fingerprint) i in
  let i := set_owner_confirmations ∅ (set_in_pending ∅ i) in
  inner_persist t i.
End Pairing.
