(* ===== verification/Elevation.v ===== *)
(** * Elevation: what only the owner may grant

    The part of [konsensus-api/src/pairing.rs] in which a paired client asks for
    spending, for the front door or for a new identity, and the owner confirms over
    the console with a code that no client sees.

    The nonce and the short code of a challenge are drawn by the caller of the
    model; how the code reaches the owner is a [delivery].  The text of the console
    message and of a terms error are left to the caller. *)

From S2P Require Import Prelude Text Types BTree SpendBudget CallSpend PairingStore SpendLedger Pairing.

Definition ELEVATION_TTL_SECS : Z := 900.
Definition MAX_PENDING_ELEVATIONS_PER_CLIENT : nat := 4.
Definition OWNER_CODE_ATTEMPTS : Z := 3.
Definition OWNER_CODE_FAILURES_PER_RUN : Z := 10.

Definition scope_list (scopes : list Scope) : string := String.concat "+" (map Scope_as_str scopes).

Definition grant_confirmation_phrase (op : PendingElevation) : string :=
  "GRANT " +:+ scope_list (pe_scopes op) +:+ " TO " +:+ pe_op_id op.

Definition replacement_confirmation_phrase (a : ReplacementApproval) : string :=
  "REPLACE IDENTITY " +:+ ra_op_id a.

(** The console took the message; it did not but a protected file was written;
    neither worked. *)
Inductive delivery : Type := OnConsole | InFile | Undelivered.

Section Elevation.
Context `{PR : Prims} `{PP : PairingPrims}.
Context (cfg : PairingConfig) (terms_text : TermsError -> string).

(** ** Challenges *)

(** [nonce] and [fresh_code] are drawn; [with_command] says that an owner
    command exists for the operation; [now] is read after delivery. *)
Definition console_challenge (op_id label : string) (expires_at : Z) (with_command : bool) (nonce : bytes)
    (fresh_code : string) (d : delivery) (now : Z) : comp Inner PairingError unit := fun i =>
  if negb (pg_owner_control_enabled cfg) then (i, Ok tt)
  else
    let phrase := label +:+ " CODE " +:+ hex_encode nonce in
    let codes_on := in_owner_code_failures i <? OWNER_CODE_FAILURES_PER_RUN in
    let code := if with_command && codes_on then Some fresh_code else None in
    let store in_a_file :=
      set_owner_confirmations (<[op_id := mkConfirmation (blake3 (bytes_of_string phrase))
          ((fun c => blake3 (bytes_of_string (normalize_owner_code c))) <$> code) expires_at 0 in_a_file]>
        (filter (fun '(_, c) => now < oc_expires_at c) (in_owner_confirmations i))) i in
    match d with
    | OnConsole => (store false, Ok tt)
    | InFile => if with_command then (store true, Ok tt) else (i, Err OwnerApprovalUnavailable)
    | Undelivered => (i, Err OwnerApprovalUnavailable)
    end.

(** The full line only. *)
Definition verify_owner_confirmation (i : Inner) (op_id confirmation : string) (now : Z) : result PairingError unit :=
  match in_owner_confirmations i !! op_id with
  | Some c =>
      check (now <? oc_expires_at c) && bool_decide (oc_phrase c = blake3 (bytes_of_string (trim confirmation)))
        else ConfirmationMismatch ;;
      Ok tt
  | None => Err ConfirmationMismatch
  end.

(** Whether what was typed is the phrase or, while codes are on, the code. *)
Definition confirmation_matches (c : OwnerConfirmation) (codes_enabled : bool) (confirmation : string) : bool :=
  let typed := trim confirmation in
  bool_decide (oc_phrase c = blake3 (bytes_of_string typed)) ||
  (codes_enabled && match oc_code c with
                    | Some d => bool_decide (d = blake3 (bytes_of_string (normalize_owner_code typed)))
                    | None => false
                    end).

Definition without_elevation (op_id : string) (f : PairingFile) : PairingFile :=
  set_pending_elevations (filter (fun e => pe_op_id e <> op_id) (pf_pending_elevations f)) f.

Definition find_elevation (op_id : string) (f : PairingFile) : option PendingElevation :=
  snd <$> list_find (fun e => pe_op_id e = op_id) (pf_pending_elevations f).

(** The client that asked for an operation. *)
Definition requester (op_id : string) (f : PairingFile) : option string :=
  match find_elevation op_id f with
  | Some e => Some (pe_client_id e)
  | None => (fun '(_, p) => pd_client_id p) <$> list_find (fun p => pd_op_id p = op_id) (pf_pending_device_keys f)
  end.

(** Cancelling a request after its last wrong code; a failed write is logged. *)
Definition cancel_operation (op_id : string) (t : Tick) (i : Inner) : Inner :=
  let i := set_owner_confirmations (delete op_id (in_owner_confirmations i)) i in
  let client := requester op_id (in_file i) in
  let f := without_elevation op_id (in_file i) in
  let f := set_pending_device_keys (filter (fun p => pd_op_id p <> op_id) (pf_pending_device_keys f)) f in
  let i := set_in_file f i in
  let i := match client with Some c => set_cancelled_ops (<[op_id := c]> (in_cancelled_ops i)) i | None => i end in
  (inner_persist t i).1.

Definition U8_MAX : Z := 255.

Definition verify_grant_confirmation (op_id confirmation : string) (now : Z) (t : Tick) :
    comp Inner PairingError unit := fun i =>
  let codes_enabled := in_owner_code_failures i <? OWNER_CODE_FAILURES_PER_RUN in
  match in_owner_confirmations i !! op_id with
  | None => (i, Err ConfirmationLost)
  | Some c =>
      if oc_expires_at c <=? now then (i, Err ConfirmationLost)
      else if confirmation_matches c codes_enabled confirmation then (i, Ok tt)
      else
        let failures := saturating_add U8_MAX (oc_failures c) 1 in
        let left := saturating_sub OWNER_CODE_ATTEMPTS failures in
        let i := set_owner_confirmations (<[op_id := mkConfirmation (oc_phrase c) (oc_code c) (oc_expires_at c) failures
                   (oc_approval_file c)]> (in_owner_confirmations i)) i in
        let i := set_owner_code_failures (saturating_add U32_MAX (in_owner_code_failures i) 1) i in
        if left =? 0 then (cancel_operation op_id t i, Err ConfirmationLost)
        else if negb codes_enabled then (i, Err ShortCodesOff)
        else (i, Err (WrongOwnerCode left))
  end.

Definition confirmable (i : Inner) (op_id : string) (now : Z) : bool :=
  match in_owner_confirmations i !! op_id with Some c => now <? oc_expires_at c | None => false end.

Definition elevation_confirmable (op_id : string) (t : Tick) (i : Inner) : Inner * bool :=
  let i := inner_lock t i in (i, confirmable i op_id (tk_now t)).

(** ** Requests *)

(** The checks of a request that need no state. *)
Definition check_request (scopes : list Scope) (proposed : option GrantTerms) :
    result PairingError (option GrantTerms) :=
  let? terms := match proposed with
                | None => Ok None
                | Some t => let? t := map_err (fun e => Malformed (terms_text e)) (normalized t) in Ok (Some t)
                end in
  check negb (bool_decide (scopes = [])) else NotGrantable "no scopes requested" ;;
  match list_find (fun s => s ∉ grantable_scopes) scopes with
  | Some (_, bad) => Err (NotGrantable (Scope_as_str bad))
  | None =>
      if bool_decide (FrontDoor ∈ scopes) then
        check negb (bool_decide (Exists (fun s => s <> FrontDoor) scopes))
          else NotGrantable "front_door is requested on its own, never together with another scope" ;;
        check bool_decide (terms = None) else Malformed "a front_door request carries no budget" ;;
        Ok terms
      else Ok terms
  end.

(** [op_bytes], [nonce] and [code] are drawn; [now] is read before the lock. *)
Definition create_budget_elevation_request (client_id : string) (scopes : list Scope) (proposed : option GrantTerms)
    (op_bytes nonce : bytes) (code : string) (d : delivery) (now : Z) (t : Tick) :
    comp Inner PairingError PendingElevation := fun i0 =>
  match check_request scopes proposed with
  | Err e => (i0, Err e)
  | Ok terms =>
      let i := inner_lock t i0 in
      match find_client client_id (in_file i) with
      | None => (i, Err UnknownClient)
      | Some client =>
          if negb (pg_owner_control_enabled cfg) then (i, Err OwnerApprovalUnavailable)
          else if (MAX_PENDING_ELEVATIONS_PER_CLIENT <=?
                     length (filter (fun e => pe_client_id e = client_id /\ (now < pe_expires_at e)%Z)
                       (pf_pending_elevations (in_file i))))%nat
          then (i, Err TooManyPending)
          else
            let op := mkElevation (hex_encode op_bytes) client_id (pc_name client) scopes now
                        (now + ELEVATION_TTL_SECS) terms in
            match console_challenge (pe_op_id op) (grant_confirmation_phrase op) (pe_expires_at op) true nonce code d
                    (tk_now t) i with
            | (i, Err e) => (i, Err e)
            | (i, Ok _) =>
                let kept := filter (fun e => now < pe_expires_at e) (pf_pending_elevations (in_file i)) in
                match inner_persist t (set_in_file (set_pending_elevations (kept ++ [op]) (in_file i)) i) with
                | (i, Ok _) => (i, Ok op)
                | (i, Err e) =>
                    let i := set_in_file (without_elevation (pe_op_id op) (in_file i)) i in
                    (set_owner_confirmations (delete (pe_op_id op) (in_owner_confirmations i)) i, Err e)
                end
            end
      end
  end.

Definition create_elevation_request (client_id : string) (scopes : list Scope) :=
  create_budget_elevation_request client_id scopes None.

Inductive ElevationStatus : Type := EPending | EGranted | EExpired | ELost | EAbsent.

Definition elevation_status (client_id op_id : string) (t : Tick) : comp Inner PairingError ElevationStatus := fun i0 =>
  let i := inner_lock t i0 in
  let f := in_file i in
  let now := tk_now t in
  let owned :=
    existsb (fun e => bool_decide (pe_op_id e = op_id) && bool_decide (pe_client_id e = client_id)) (pf_pending_elevations f) ||
    existsb (fun g => bool_decide (sg_op_id g = op_id) && bool_decide (sg_client_id g = client_id)) (pf_grants f) ||
    existsb (fun g => bool_decide (fd_op_id g = op_id) && bool_decide (fd_client_id g = client_id)) (pf_front_door_grants f) ||
    bool_decide (in_cancelled_ops i !! op_id = Some client_id) in
  if negb owned then (i, Err UnknownOperation)
  else if negb (pg_owner_control_enabled cfg) then
    (i, Ok match find_elevation op_id f with
           | Some op => if pe_expires_at op <=? now then EExpired else EPending
           | None => EAbsent
           end)
  else
    (i, Ok match find_elevation op_id f with
           | Some op =>
               if pe_expires_at op <=? now then EExpired
               else if (if bool_decide (FrontDoor ∈ pe_scopes op)
                        then existsb (fun g => bool_decide (fd_client_id g = pe_client_id op) && front_door_is_live now g)
                               (pf_front_door_grants f)
                        else existsb (fun g => bool_decide (sg_client_id g = pe_client_id op) && is_live now g) (pf_grants f))
               then EGranted
               else if negb (confirmable i op_id now) then ELost else EPending
           | None =>
               if existsb (fun g => bool_decide (sg_op_id g = op_id) && is_live now g) (pf_grants f) ||
                  existsb (fun g => bool_decide (fd_op_id g = op_id) && front_door_is_live now g) (pf_front_door_grants f)
               then EGranted
               else if bool_decide (is_Some (in_cancelled_ops i !! op_id)) then ELost else EAbsent
           end).

(** ** Grants *)

(** The operation an owner confirms: known and unexpired, or dropped. *)
Definition open_operation (op_id : string) (t : Tick) : comp Inner PairingError PendingElevation := fun i =>
  match find_elevation op_id (in_file i) with
  | None => (i, Err UnknownOperation)
  | Some op =>
      if pe_expires_at op <=? tk_now t then
        match inner_persist t (set_in_file (without_elevation op_id (in_file i)) i) with
        | (i, Err e) => (i, Err e)
        | (i, Ok _) => (i, Err Expired)
        end
      else (i, Ok op)
  end.

(** [after] is read once the grant is written. *)
Definition grant_elevation (op_id confirmation : string) (terms : GrantTerms) (verify_at after : Z) (t : Tick) :
    comp Inner PairingError SpendGrant := fun i0 =>
  if negb (pg_owner_control_enabled cfg) then (i0, Err OwnerChannelUnavailable)
  else
    match normalized terms with
    | Err e => (i0, Err (Malformed (terms_text e)))
    | Ok terms =>
        (let! op := open_operation op_id t in
         if bool_decide (FrontDoor ∈ pe_scopes op) then cthrow (NotGrantable "this request asks for front_door, which carries no budget; grant it as a front-door grant")
         else
           let! _ := verify_grant_confirmation op_id confirmation verify_at t in
           fun i =>
             match find_client (pe_client_id op) (in_file i) with
             | None => (i, Err UnknownClient)
             | Some client =>
                 let grant := mkGrant (pe_op_id op) (pe_client_id op) (pe_scopes op) (tk_now t)
                                (tk_now t + gt_ttl_secs terms) (in_identity_fingerprint i) (pc_epoch client) "cli"
                                (Some (from_terms terms)) None in
                 let f := without_elevation op_id (in_file i) in
                 let f := set_grants (map (fun g => if bool_decide (sg_client_id g = sg_client_id grant)
                                                     then set_budget None g else g) (pf_grants f) ++ [grant]) f in
                 match inner_persist t (set_in_file f i) with
                 | (i, Err e) => (i, Err e)
                 | (i, Ok _) =>
                     (set_owner_confirmations (delete op_id (in_owner_confirmations i)) i,
                      if is_live after grant then Ok grant else Err Expired)
                 end
             end) (inner_lock t i0)
    end.

Definition grant_front_door (op_id confirmation : string) (ttl_secs verify_at : Z) (t : Tick) :
    comp Inner PairingError FrontDoorGrant := fun i0 =>
  if negb (pg_owner_control_enabled cfg) then (i0, Err OwnerChannelUnavailable)
  else if (ttl_secs <=? 0) || (MAX_SPEND_GRANT_TTL_SECS <? ttl_secs)
  then (i0, Err (Malformed "a front-door grant lasts between 1 second and 24 hours"))
  else
    (let! op := open_operation op_id t in
     if negb (bool_decide (pe_scopes op = [FrontDoor]))
     then cthrow (NotGrantable "this request does not ask for front_door; grant it with a budget")
     else
       let! _ := verify_grant_confirmation op_id confirmation verify_at t in
       fun i =>
         match find_client (pe_client_id op) (in_file i) with
         | None => (i, Err UnknownClient)
         | Some client =>
             let grant := mkFrontDoor (pe_op_id op) (pe_client_id op) (tk_now t) (tk_now t + ttl_secs)
                            (in_identity_fingerprint i) (pc_epoch client) "cli" false in
             let f := without_elevation op_id (in_file i) in
             let f := set_front_door_grants (map (fun g => if bool_decide (fd_client_id g = fd_client_id grant)
                                                            then set_revoked g else g) (pf_front_door_grants f) ++ [grant]) f in
             match inner_persist t (set_in_file f i) with
             | (i, Err e) => (i, Err e)
             | (i, Ok _) => (set_owner_confirmations (delete op_id (in_owner_confirmations i)) i, Ok grant)
             end
         end) (inner_lock t i0).

Definition front_door_grants (t : Tick) (i : Inner) : Inner * list FrontDoorGrant :=
  let i := inner_lock t i in
  (i, filter (fun g => front_door_is_live (tk_now t) g = true) (pf_front_door_grants (in_file i))).

(** ** Replacing the identity *)

Definition set_approved (a : ReplacementApproval) : ReplacementApproval :=
  mkReplacement (ra_op_id a) (ra_client_id a) (ra_current_identity_fingerprint a)
    (ra_replacement_identity_fingerprint a) (ra_expires_at a) true (ra_client_name a).

Definition without_replacement (op_id : string) (f : PairingFile) : PairingFile :=
  set_replacement_approvals (filter (fun a => ra_op_id a <> op_id) (pf_replacement_approvals f)) f.

(** [replacement] is the fingerprint of the phrase, which is not stored. *)
Definition create_replacement_request (client_id current_fingerprint : string) (replacement : result PairingError string)
    (op_bytes nonce : bytes) (code : string) (d : delivery) (now : Z) (t : Tick) :
    comp Inner PairingError ReplacementApproval := fun i0 =>
  match replacement with
  | Err e => (i0, Err e)
  | Ok replacement =>
      let i := inner_lock t i0 in
      match find_client client_id (in_file i) with
      | None => (i, Err UnknownClient)
      | Some client =>
          let approval := mkReplacement (hex_encode op_bytes) client_id current_fingerprint replacement
                            (now + ELEVATION_TTL_SECS) false (pc_name client) in
          (let! _ := console_challenge (ra_op_id approval) (replacement_confirmation_phrase approval)
                       (ra_expires_at approval) false nonce code d (tk_now t) in
           fun i =>
             let kept := filter (fun a => now < ra_expires_at a) (pf_replacement_approvals (in_file i)) in
             match inner_persist t (set_in_file (set_replacement_approvals (kept ++ [approval]) (in_file i)) i) with
             | (i, Err e) => (i, Err e)
             | (i, Ok _) => (i, Ok approval)
             end) i
      end
  end.

Definition find_replacement (op_id : string) (f : PairingFile) : option ReplacementApproval :=
  snd <$> list_find (fun a => ra_op_id a = op_id) (pf_replacement_approvals f).

(** [now] is read before the lock, [verify_at] when the line is compared. *)
Definition approve_replacement (op_id confirmation : string) (now verify_at : Z) (t : Tick) :
    comp Inner PairingError ReplacementApproval := fun i0 =>
  if negb (pg_owner_control_enabled cfg) then (i0, Err OwnerChannelUnavailable)
  else
    let i := inner_lock t i0 in
    match find_replacement op_id (in_file i) with
    | None => (i, Err UnknownOperation)
    | Some existing =>
        let dropped := without_replacement op_id (in_file i) in
        if ra_expires_at existing <=? now then
          match inner_persist t (set_in_file dropped i) with
          | (i, Err e) => (i, Err e)
          | (i, Ok _) => (i, Err Expired)
          end
        else
          match verify_owner_confirmation i op_id confirmation verify_at with
          | Err e => (i, Err e)
          | Ok _ =>
              let f := set_replacement_approvals (pf_replacement_approvals dropped ++ [set_approved existing]) dropped in
              match inner_persist t (set_in_file f i) with
              | (i, Err e) => (i, Err e)
              | (i, Ok _) => (i, Ok (set_approved existing))
              end
          end
    end.

Definition replacement_approval (op_id : string) (t : Tick) (i : Inner) : Inner * option ReplacementApproval :=
  let i := inner_lock t i in (i, find_replacement op_id (in_file i)).

(** Removing the element at an index of the list. *)
Definition drop_replacement (idx : nat) (f : PairingFile) : PairingFile :=
  set_replacement_approvals (take idx (pf_replacement_approvals f) ++ drop (S idx) (pf_replacement_approvals f)) f.

Definition consume_replacement_approval (op_id client_id current_fingerprint replacement_fingerprint : string) (now : Z)
    (t : Tick) : comp Inner PairingError ReplacementApproval := fun i0 =>
  if negb (pg_owner_control_enabled cfg) then (i0, Err OwnerChannelUnavailable)
  else
    let i := inner_lock t i0 in
    match list_find (fun a => ra_op_id a = op_id) (pf_replacement_approvals (in_file i)) with
    | None => (i, Err UnknownOperation)
    | Some (idx, a) =>
        let dropped := set_in_file (drop_replacement idx (in_file i)) i in
        if ra_expires_at a <=? now then
          match inner_persist t dropped with
          | (i, Err e) => (i, Err e)
          | (i, Ok _) => (i, Err Expired)
          end
        else if negb (ra_approved a) then (i, Err NotApproved)
        else if negb (bool_decide (ra_client_id a = client_id)) ||
                negb (bool_decide (ra_current_identity_fingerprint a = current_fingerprint)) ||
                negb (bool_decide (ra_replacement_identity_fingerprint a = replacement_fingerprint))
        then (i, Err BindingMismatch)
        else
          match inner_persist t dropped with
          | (i, Err e) => (i, Err e)
          | (i, Ok _) => (i, Ok a)
          end
    end.
End Elevation.
