(* ===== verification/SecondDevice.v ===== *)
(** * Second devices, restarts and the owner's revocation of devices

    [konsensus-api/src/pairing/second_device.rs]: a second device pairs with a
    one-use ticket and holds no authority until an enrolled owner device approves it;
    [PairingService::open] of [pairing.rs]: what a restart makes of the file on disk;
    and the owner console's revocation of device keys in [pairing/console.rs].

    The approval of a second device by comparing words is not modelled. *)

From S2P Require Import Prelude Text Types BTree SpendBudget CallSpend PairingStore SpendLedger Pairing.

Definition PROVISIONAL_SECS : Z := 900.

Section SecondDevice.
Context `{PR : Prims} `{PP : PairingPrims}.
Context (cfg : PairingConfig).

Definition ticket_commitment (code : string) : bytes :=
  blake3 (bytes_of_string "bitsov-second-device-ticket-v1" ++ bytes_of_string code).
Definition ticket_id (code : string) : string :=
  hex_encode (take 16 (blake3 (bytes_of_string "bitsov-ticket-id-v1" ++ bytes_of_string code))).
Definition ticket_hash (code : string) : string := hex_encode (blake3 (bytes_of_string code)).

(** ** Ending an enrollment *)

Definition drop_second_op (op : string) (i : Inner) : Inner :=
  let i := match list_find (fun p => pd_op_id p = op) (pf_pending_device_keys (in_file i)) with
           | Some (_, p) => set_cancelled_ops (<[op := pd_client_id p]> (in_cancelled_ops i)) i
           | None => i
           end in
  set_in_file (set_pending_device_keys (filter (fun p => pd_op_id p <> op) (pf_pending_device_keys (in_file i)))
    (in_file i)) i.

Definition remove_provisional_locked (client : string) (i : Inner) : Inner :=
  let ops := map pd_op_id (filter (fun p => pd_client_id p = client) (pf_pending_device_keys (in_file i))) in
  let i := fold_left (fun i op => drop_second_op op i) ops i in
  let i := set_in_file (without_client client (in_file i)) i in
  set_provisional (delete client (in_provisional i)) i.

Definition commit_enrollment_cleanup (i : Inner) : Inner :=
  let i := set_owner_confirmations (filter (fun '(op, _) => in_cancelled_ops i !! op = None)
             (in_owner_confirmations i)) i in
  set_token_challenges (filter (fun '(_, (client, _)) =>
    Exists (fun c => pc_client_id c = client) (pf_clients (in_file i))) (in_token_challenges i)) i.

(** Undoing what an enrollment changed; the disk may have been written. *)
Definition undo_enrollment (before after : Inner) : Inner :=
  set_in_file (in_file before) (set_provisional (in_provisional before) (set_used_tickets (in_used_tickets before)
    (set_alerts (in_alerts before) (set_cancelled_ops (in_cancelled_ops before) after)))).

(** ** Tickets *)

Definition contest (op : option string) (u : UsedTicket) : UsedTicket :=
  mkUsedTicket (ut_client_id u) (ut_epoch u) (ut_public_key u) (ut_transport u) (ut_deadline u) true op.

Definition rescan_locked (code public_key : string) (transport : bytes) (t : Tick) : comp Inner PairingError unit := fun i =>
  let i := set_used_tickets (filter (fun '(_, u) => tk_instant t < ut_deadline u) (in_used_tickets i)) i in
  let hash := ticket_hash code in
  match in_used_tickets i !! hash with
  | None => (i, Ok tt)
  | Some used =>
      if bool_decide (ut_public_key used = public_key) && bool_decide (ut_transport used = transport)
      then (i, Err BadProof)
      else if match in_provisional i !! ut_client_id used with
              | Some p => bool_decide (pv_ticket_id p = ticket_id code)
              | None => false
              end &&
              existsb (fun c => bool_decide (pc_client_id c = ut_client_id used) && (pc_epoch c =? ut_epoch used) &&
                bool_decide (pc_scopes c = [])) (pf_clients (in_file i))
      then
        let contested_op := (fun '(_, op) => pd_op_id op) <$> list_find (fun op => pd_client_id op = ut_client_id used /\
                              pd_sas_version op = Some 2) (pf_pending_device_keys (in_file i)) in
        let i' := remove_provisional_locked (ut_client_id used) i in
        let i' := set_used_tickets (<[hash := contest contested_op used]> (in_used_tickets i')) i' in
        match inner_persist t i' with
        | (i', Err e) => (undo_enrollment i i', Err e)
        | (i', Ok _) => (commit_enrollment_cleanup i', Err (PairingInvalid "contested"))
        end
      else if ut_contested used then (i, Err (PairingInvalid "contested"))
      else
        match list_find (fun k => dk_client_id k = ut_client_id used /\ dk_epoch k = ut_epoch used)
                (pf_device_keys (in_file i)) with
        | None => (i, Err (PairingInvalid "contested"))
        | Some (_, key) =>
            let alerts := in_alerts i ++ [mkAlert (ut_client_id used) (dk_name key)
                            "pair.second_device_contested_after_enroll"] in
            let i := set_alerts (if (64 <? length alerts)%nat then drop 1 alerts else alerts) i in
            (set_used_tickets (<[hash := contest (ut_contested_op used) used]> (in_used_tickets i)) i,
             Err (PairingInvalid "contested"))
        end
  end.

Definition create_second_device_locked (code name public_key : string) (transport : bytes) (issuer : string) (t : Tick) :
    comp Inner PairingError PairedClient :=
  let! _ := clift (second_device_available cfg) in
  let! _ := rescan_locked code public_key transport t in
  fun i =>
    let pubkey := to_ascii_lowercase public_key in
    let remote := hex_encode transport in
    match (check existsb (fun k => is_ok (intent_key cfg i (dk_client_id k) (dk_epoch k) (dk_key_id k)))
                   (pf_device_keys (in_file i)) else PairingInvalid "no_owner_device" ;;
           let? _ := parse_pubkey pubkey in
           check negb (existsb (fun c => bool_decide (pc_client_pubkey c = pubkey) ||
                   bool_decide (pc_remote_transport_pubkey c = Some remote)) (pf_clients (in_file i)))
             else PairingInvalid "already_paired" ;;
           check (length (filter (fun '(_, p) => (tk_instant t < pv_deadline p)%Z /\ (tk_now t < pv_expires_at p)%Z)
                    (map_to_list (in_provisional i))) <? 2)%nat else TooManyPending ;;
           check negb (in_pairing_closed i || bool_decide (in_identity_fingerprint i = "")) else Closed ;;
           Ok tt) with
    | Err e => (i, Err e)
    | Ok _ =>
        let client_id := client_id_from_pubkey pubkey in
        match allocate_epoch client_id 0 (in_file i) with
        | (f, None) => (set_in_file f i, Err Closed)
        | (f, Some epoch) =>
            let record := mkClient client_id (sanitize_name name) pubkey (Some remote) [] epoch
                            (in_identity_fingerprint i) (tk_now t) None in
            let deadline := tk_instant t + PROVISIONAL_SECS in
            let i' := set_in_file (set_clients (pf_clients f ++ [record]) f) i in
            let i' := set_provisional (<[client_id := mkProvisional (ticket_id code) (ticket_commitment code) issuer deadline
                        (tk_now t + PROVISIONAL_SECS) 0]> (in_provisional i')) i' in
            let i' := set_used_tickets (<[ticket_hash code := mkUsedTicket client_id epoch pubkey transport deadline false
                        None]> (in_used_tickets i')) i' in
            match inner_persist t i' with
            | (i', Err e) => (undo_enrollment i i', Err e)
            | (i', Ok _) => (i', Ok record)
            end
        end
    end.

Definition create_second_device_pairing (code name public_key : string) (transport : bytes) (issuer : string) (t : Tick) :
    comp Inner PairingError PairedClient := fun i =>
  create_second_device_locked code name public_key transport issuer t (inner_lock t i).

Definition sweep_provisional_pairings (t : Tick) : comp Inner PairingError nat := fun i0 =>
  let i := inner_lock t i0 in
  let ids := map pc_client_id (filter (fun c => pc_scopes c = [] /\
    match in_provisional i !! pc_client_id c with
    | Some p => (pv_deadline p <=? tk_instant t) || (pv_expires_at p <=? tk_now t)
    | None => true
    end = true) (pf_clients (in_file i))) in
  let live i := set_used_tickets (filter (fun '(_, u) => tk_instant t < ut_deadline u) (in_used_tickets i)) i in
  match ids with
  | [] => (live i, Ok 0%nat)
  | _ =>
      match inner_persist t (fold_left (fun i id => remove_provisional_locked id i) ids i) with
      | (i', Err e) => (undo_enrollment i i', Err e)
      | (i', Ok _) => (live (commit_enrollment_cleanup i'), Ok (length ids))
      end
  end.

(** ** Restart *)

Definition empty_file : PairingFile := mkFile PAIRING_FILE_VERSION [] [] ∅ [] [] [] ∅ [] [] ∅ ∅.

(** A hold on the budget of a grant names that grant as the payer of its call. *)
Definition upgrade_funding (f : PairingFile) : PairingFile * bool :=
  let bind '(m, upgraded) '(key, op) :=
    match (m : gmap string string) !! key with Some _ => (m, upgraded) | None => (<[key := op]> m, true) end in
  let holds g := match sg_budget g with
                 | Some b => map (fun '(_, call) => (call_key (cs_terms call), sg_op_id g)) (entries (gb_call_reservations b))
                 | None => []
                 end in
  let '(m, upgraded) := fold_left bind (concat (map holds (pf_grants f))) (pf_call_spend_grants f, false) in
  (set_call_grants m f, upgraded).

(** Everything but the file is forgotten. *)
Definition fresh_inner (file disk : PairingFile) (fp : string) : Inner :=
  mkInner (mkLedger file disk fp) ∅ ∅ ∅ None false ∅ 0 ∅ ∅ [] ∅.

Definition prune_expired_grants (t : Tick) : comp Inner PairingError unit := fun i =>
  let i := prune_owner_confirmations (tk_prune t) i in
  let '(l, r) := prune_expired_locked (en_lock_now (tk_env t)) (en_lock (tk_env t)) (in_ledger i) in
  (set_ledger l i, r).

(** The file that parses from disk; a missing file is an empty one.  The disk
    is also returned when the start fails. *)
Definition open (file_path : string) (disk : option PairingFile) (fp : string) (t1 t2 t3 : Tick) :
    Inner * result PairingError unit :=
  let file := default empty_file disk in
  let i := fresh_inner file file fp in
  if PAIRING_FILE_VERSION <? pf_version file
  then (i, Err (Io ("pairing store at " +:+ file_path +:+ " was written by a newer node (version " +:+
         show_uint (pf_version file) +:+ " > " +:+ show_uint PAIRING_FILE_VERSION +:+
         "). Repair: upgrade the node, or remove the file to re-pair from scratch.")))
  else
    let '(file', upgraded) := upgrade_funding file in
    let i := fresh_inner file' file fp in
    (let! _ := if upgraded then inner_persist t1 else cret tt in
     let! _ := prune_expired_grants t2 in
     let! _ := sweep_provisional_pairings t3 in
     cret tt) i.

(** ** The owner's revocation of devices *)

Record RevokeOptions := mkOptions {
  ro_root : string;
  ro_cascade : bool;
  ro_with_pairing : bool;
  ro_keep : list string;
  ro_allow_zero_owner : bool
}.

Record RevokeKey := mkRevokeKey { rk_key_id : string; rk_client_id : string; rk_name : string; rk_enrolled_by : string }.

Record RevokePlan := mkPlan {
  rp_keys : list RevokeKey;
  rp_descendants : list RevokeKey;
  rp_pairings : list string;
  rp_owner_device_count : nat;
  rp_confirmation : string
}.

Definition revoke_key (k : DeviceKey) : RevokeKey :=
  mkRevokeKey (dk_key_id k) (dk_client_id k) (dk_name k) (dk_enrolled_by k).

Definition find_key (id : string) (keys : list DeviceKey) : option DeviceKey :=
  snd <$> list_find (fun k => dk_key_id k = id) keys.

Definition widens (o : RevokeOptions) (id : string) : bool :=
  (ro_cascade o || (ro_with_pairing o && bool_decide (id = ro_root o))) && negb (bool_decide (id ∈ ro_keep o)).

(** The identities queued when [id] is visited. *)
Definition siblings (o : RevokeOptions) (keys : list DeviceKey) (id : string) : list string :=
  match find_key id keys with
  | Some key => if widens o id then map dk_key_id (filter (fun s => dk_client_id s = dk_client_id key) keys) else []
  | None => []
  end.
Definition approved_by (keys : list DeviceKey) (id : string) : list string :=
  map dk_key_id (filter (fun k => provenance_parent (dk_enrolled_by k) = Some id) keys).

Fixpoint walk (fuel : nat) (o : RevokeOptions) (keys : list DeviceKey) (queue : list string) (visited : gset string)
    (chain : list RevokeKey) : option (list RevokeKey) :=
  match queue with
  | [] => Some chain
  | id :: queue =>
      match fuel with
      | O => None
      | S fuel =>
          if decide (id ∈ visited) then walk fuel o keys queue visited chain
          else walk fuel o keys (queue ++ siblings o keys id ++ approved_by keys id) ({[id]} ∪ visited)
                 (match find_key id keys with Some k => chain ++ [revoke_key k] | None => chain end)
      end
  end.

(** Every identity is visited once and queues each key at most twice. *)
Definition walk_fuel (keys : list DeviceKey) : nat :=
  S ((S (length keys)) * S (2 * length keys)).

(** [serde_json] of the options and the plan, hashed and printed. *)
Context (plan_digest : RevokeOptions -> RevokePlan -> string).

Definition end_relation_grants (client_id : string) (f : PairingFile) : PairingFile :=
  set_grants (map (fun g => if bool_decide (sg_client_id g = client_id) &&
      match sg_budget g with Some b => gb_recipients_only b | None => false end
    then set_budget None g else g) (pf_grants f)) f.

(** The chosen keys, then every other key of the pairings that end. *)
Definition revoked_keys (o : RevokeOptions) (keys : list DeviceKey) (pairings : gset string) (chosen : list RevokeKey) :
    result PairingError (list RevokeKey) :=
  fold_left (fun acc key =>
    let? chosen := acc in
    check negb (bool_decide (dk_key_id key ∈ ro_keep o))
      else NotGrantable "a kept key shares a pairing being revoked; keep every key on that pairing" ;;
    Ok (if existsb (fun k => bool_decide (rk_key_id k = dk_key_id key)) chosen then chosen else chosen ++ [revoke_key key]))
    (filter (fun k => dk_client_id k ∈ pairings) keys) (Ok chosen).

Definition make_plan (o : RevokeOptions) (i : Inner) : result PairingError (RevokePlan * gset string * gset string) :=
  let keys := pf_device_keys (in_file i) in
  let chain := default [] (walk (walk_fuel keys) o keys [ro_root o] ∅ []) in
  let descendants := filter (fun k => rk_key_id k <> ro_root o) chain in
  let chosen := filter (fun k => (ro_cascade o || bool_decide (rk_key_id k = ro_root o)) &&
    negb (bool_decide (rk_key_id k ∈ ro_keep o)) = true) chain in
  check negb (bool_decide (chosen = [])) else UnknownOperation ;;
  let pairings := if ro_with_pairing o || ro_cascade o
                  then list_to_set (C := gset string) (map rk_client_id chosen) else ∅ in
  let? all := revoked_keys o keys pairings chosen in
  let removed := list_to_set (C := gset string) (map rk_key_id all) in
  let plan := mkPlan all descendants (in_order pairings) (console_owner_count cfg i removed pairings) "" in
  Ok (mkPlan all descendants (in_order pairings) (rp_owner_device_count plan) (plan_digest o plan), pairings, removed).

Definition end_pairing (f : PairingFile) (client : string) : PairingFile :=
  let f := match find_client client f with
           | Some c => track_epoch client (Z.max (last_epoch_of client f) (pc_epoch c)) f
           | None => f
           end in
  (file_revoke_grants (Some client) f).1.

Definition console_revoked_file (plan : RevokePlan) (pairings removed : gset string) (f : PairingFile) : PairingFile :=
  let f := fold_left end_pairing (rp_pairings plan) f in
  let f := fold_left (fun f k => end_relation_grants (rk_client_id k) f) (rp_keys plan) f in
  let f := set_clients (filter (fun c => pc_client_id c ∉ pairings) (pf_clients f)) f in
  let f := set_device_keys (filter (fun k => dk_key_id k ∉ removed) (pf_device_keys f)) f in
  let f := set_registered_ops (filter (fun '(_, k) => k ∉ removed) (pf_registered_ops f)) f in
  let f := set_pending_device_keys (filter (fun p => pd_client_id p ∉ pairings) (pf_pending_device_keys f)) f in
  let f := set_pending_elevations (filter (fun p => pe_client_id p ∉ pairings) (pf_pending_elevations f)) f in
  set_replacement_approvals (filter (fun p => ra_client_id p ∉ pairings) (pf_replacement_approvals f)) f.

Definition console_revoke_devices (o : RevokeOptions) (confirmation : option string) (t : Tick) :
    comp Inner PairingError RevokePlan := fun i0 =>
  if negb (pg_owner_control_enabled cfg) then (i0, Err OwnerChannelUnavailable)
  else if bool_decide (ro_root o = "") || (negb (ro_cascade o) && negb (bool_decide (ro_keep o = [])))
  then (i0, Err (NotGrantable "invalid revocation options"))
  else
    let i := inner_lock t i0 in
    match make_plan o i with
    | Err e => (i, Err e)
    | Ok (plan, pairings, removed) =>
        match confirmation with
        | None => (i, Ok plan)
        | Some c =>
            if negb (bool_decide (c = rp_confirmation plan))
            then (i, Err (NotGrantable "revocation changed; review a fresh preview"))
            else if (rp_owner_device_count plan =? 0)%nat && negb (ro_allow_zero_owner o)
            then (i, Err (NotGrantable "zero owner devices; use --allow-zero-owner for console-only recovery"))
            else
              match inner_persist t (set_in_file (console_revoked_file plan pairings removed (in_file i)) i) with
              | (i', Err e) => (set_in_file (in_file i) i', Err e)
              | (i', Ok _) =>
                  let i' := set_provisional (filter (fun '(client, _) => client ∉ pairings) (in_provisional i')) i' in
                  (set_token_challenges (filter (fun '(_, (client, _)) => client ∉ pairings) (in_token_challenges i')) i',
                   Ok plan)
              end
        end
    end.

Definition console_cancel_second_device (op_id : string) (t : Tick) : comp Inner PairingError unit := fun i0 =>
  if negb (pg_owner_control_enabled cfg) || negb (pg_second_device_enrollment cfg)
  then (i0, Err OwnerChannelUnavailable)
  else
    let i := inner_lock t i0 in
    match list_find (fun p => pd_op_id p = op_id /\ pd_sas_version p = Some 2) (pf_pending_device_keys (in_file i)) with
    | None => (i, Err UnknownOperation)
    | Some (_, op) =>
        match in_provisional i !! pd_client_id op with
        | None => (i, Err UnknownOperation)
        | Some _ =>
            match inner_persist t (remove_provisional_locked (pd_client_id op) i) with
            | (i', Err e) => (undo_enrollment i i', Err e)
            | (i', Ok _) => (commit_enrollment_cleanup i', Ok tt)
            end
        end
    end.

Definition check_second_device_rescan (code public_key : string) (transport : bytes) (t : Tick) :
    comp Inner PairingError unit := fun i => rescan_locked code public_key transport t (inner_lock t i).

End SecondDevice.
