(* ===== verification/PairingFrame.v ===== *)
(** * What a write of the pairing file leaves alone

    Writing the file drops dead grants and nothing else, and the disk holds either
    what it held or what was in memory; so a property of the rest of the file that
    holds in memory and on disk survives every write and every taking of the lock,
    however the writes fail. *)

From S2P Require Import Prelude Text Types BTree SpendBudget CallSpend PairingStore SpendLedger Pairing SecondDevice.

(** The file without its version and its grants. *)
Definition core (f : PairingFile) : PairingFile := set_version 0 (set_grants [] (set_front_door_grants [] f)).

Lemma core_eq f g : core f = core g ->
  pf_clients f = pf_clients g /\ pf_last_epoch f = pf_last_epoch g /\ pf_device_keys f = pf_device_keys g /\
  pf_pending_elevations f = pf_pending_elevations g /\ pf_replacement_approvals f = pf_replacement_approvals g.
Proof. by intros [=]. Qed.

Lemma persist_rounds_core fuel : forall round env candidate disk disk' r,
  persist_rounds fuel round env candidate disk = Some (disk', r) ->
  (disk' = disk \/ core disk' = core candidate) /\
  (forall f, r = Ok f -> core f = core candidate /\ disk' = f).
Proof.
  induction fuel as [|fuel IH]; intros round env candidate disk disk' r; simpl; [done|].
  set (c := retain_live_grants _ candidate). assert (Hc : core c = core candidate) by done.
  assert (Hstop : forall d e, Some (d, Err e) = Some (disk', r) -> d = disk \/ core d = core candidate ->
    (disk' = disk \/ core disk' = core candidate) /\ (forall f, r = Ok f -> core f = core candidate /\ disk' = f)).
  { intros d e [= <- <-] ?. by split. }
  destruct (pe_io env round) as [e|e|e|]; [by intros ?%Hstop; auto| | |];
    (destruct (has_dead_grant _ c); [intros E%IH; rewrite Hc in E; tauto|]).
  - by intros ?%Hstop; auto.
  - by intros ?%Hstop; auto.
  - destruct (has_dead_grant _ c); [|intros [= <- <-]; split; [auto|by intros f [= <-]]].
    intros E%IH. rewrite Hc in E. destruct E as [[->|E] E']; auto.
Qed.

Lemma persist_core env s : let '(s', r) := persist env s in
  core (ls_file s') = core (ls_file s) /\
  (ls_disk s' = ls_disk s \/ core (ls_disk s') = core (ls_file s)) /\
  ls_identity_fingerprint s' = ls_identity_fingerprint s /\
  (is_ok r = true -> ls_disk s' = ls_file s').
Proof.
  unfold persist. destruct (persist_rounds _ _ _ _ _) as [[disk r]|] eqn:E; [|by split_and!; auto].
  apply persist_rounds_core in E as [D F]. change (core (set_version _ ?x)) with (core x) in *.
  destruct r as [f|e]; simpl; [|by split_and!; auto].
  destruct (F f eq_refl) as [Hf ->]. auto.
Qed.

Lemma inner_lock_core t i : core (in_file (inner_lock t i)) = core (in_file i) /\
  in_identity_fingerprint (inner_lock t i) = in_identity_fingerprint i.
Proof.
  unfold inner_lock, lock, prune_expired_locked, in_file, in_identity_fingerprint. simpl.
  destruct (has_dead_grant _ _); [|done]. pose proof (persist_core (en_lock (tk_env t)) (in_ledger i)) as H.
  simpl. destruct (persist _ _) as [l r]. simpl. tauto.
Qed.

Lemma inner_persist_core t i j (r : result PairingError unit) : inner_persist t i = (j, r) ->
  core (in_file j) = core (in_file i) /\ in_identity_fingerprint j = in_identity_fingerprint i /\
  (is_ok r = true -> ls_disk (in_ledger j) = in_file j).
Proof.
  unfold inner_persist. pose proof (persist_core (en_persist (tk_env t)) (in_ledger i)) as H.
  destruct (persist _ _) as [l r']. intros [= <- <-]. unfold in_file, in_identity_fingerprint. simpl. tauto.
Qed.

Section Holds.
Context (P : PairingFile -> Prop) (P_core : forall f g, core f = core g -> P f -> P g).

(** In memory and on disk. *)
Definition holds (i : Inner) : Prop := P (in_file i) /\ P (ls_disk (in_ledger i)).

Lemma holds_persist t i : holds i -> holds (inner_persist t i).1.
Proof.
  unfold inner_persist. pose proof (persist_core (en_persist (tk_env t)) (in_ledger i)) as H.
  destruct (persist _ _) as [l r]. destruct H as (F & D & _). intros [Hf Hd]. split; unfold in_file; simpl.
  - by eapply P_core; [symmetry; apply F|].
  - destruct D as [->|D]; [done|]. by eapply P_core; [symmetry; apply D|].
Qed.

Lemma holds_lock t i : holds i -> holds (inner_lock t i).
Proof.
  unfold inner_lock, lock, prune_expired_locked. destruct (has_dead_grant _ _); [|done].
  pose proof (persist_core (en_lock (tk_env t)) (in_ledger i)) as H.
  intros [Hf Hd]. split; unfold in_file; simpl; destruct (persist _ _) as [l r]; destruct H as (F & D & _); simpl.
  - by eapply P_core; [symmetry; apply F|].
  - destruct D as [->|D]; [done|]. by eapply P_core; [symmetry; apply D|].
Qed.

Lemma holds_file f i : P f -> holds i -> holds (set_in_file f i).
Proof. by intros ? []. Qed.

Lemma holds_persist_eq t i j (r : result PairingError unit) : inner_persist t i = (j, r) -> holds i -> holds j.
Proof. intros E H%(holds_persist t). by rewrite E in H. Qed.

Lemma holds_cbind {A B} (m : comp Inner PairingError A) (k : A -> comp Inner PairingError B) i :
  holds (m i).1 -> (forall a j, holds j -> holds (k a j).1) -> holds (cbind m k i).1.
Proof. unfold cbind. destruct (m i) as [j [a|e]]; simpl; auto. Qed.

End Holds.

(** Following an operation to the files it writes; what remains to be shown is
    the property of each file that the operation builds. *)
Ltac hold Pc :=
  repeat (cbv zeta; lazymatch goal with
  | |- holds _ (fst (?i, _)) => cbv [fst]
  | |- holds ?P (set_in_pending _ ?j) => change (holds P j)
  | |- holds ?P (set_token_challenges _ ?j) => change (holds P j)
  | |- holds ?P (set_local_proofs _ ?j) => change (holds P j)
  | |- holds ?P (set_window_until _ ?j) => change (holds P j)
  | |- holds ?P (set_pairing_closed _ ?j) => change (holds P j)
  | |- holds ?P (set_owner_confirmations _ ?j) => change (holds P j)
  | |- holds ?P (set_owner_code_failures _ ?j) => change (holds P j)
  | |- holds ?P (set_provisional _ ?j) => change (holds P j)
  | |- holds ?P (set_used_tickets _ ?j) => change (holds P j)
  | |- holds ?P (set_alerts _ ?j) => change (holds P j)
  | |- holds ?P (set_cancelled_ops _ ?j) => change (holds P j)
  | |- holds _ (inner_lock _ _) => apply (holds_lock _ Pc)
  | |- holds _ (set_in_file _ _) => apply holds_file
  | H : inner_persist _ _ = (?j, _) |- holds _ ?j => apply (holds_persist_eq _ Pc _ _ _ _ H)
  | |- holds _ (fst (match ?x with _ => _ end)) => destruct x eqn:?
  | |- holds _ (fst (if ?x then _ else _)) => destruct x eqn:?
  | |- holds _ _ => assumption
  end).
