(* ===== verification/DeviceRevocation.v ===== *)
(** * What the owner's revocation of a device reaches

    The walk of [console_revoke_devices] over who approved whom ends, finds exactly
    the keys that can be reached from the named one, and a confirmed cascade leaves
    none of them on disk unless the owner asked to keep it. *)

From S2P Require Import Prelude Text Types BTree SpendBudget CallSpend PairingStore SpendLedger Pairing SecondDevice PairingFrame.

Lemma list_to_set_size_le (l : list string) : (size (list_to_set (C := gset string) l) <= length l)%nat.
Proof.
  induction l as [|x l IH]; [done|]. simpl.
  rewrite size_union_alt, size_singleton.
  pose proof (subseteq_size (list_to_set (C := gset string) l ∖ {[x]}) (list_to_set l) ltac:(set_solver)). lia.
Qed.

Section Walk.
Context (o : RevokeOptions) (keys : list DeviceKey).

(** [b] is queued when [a] is visited. *)
Definition linked (a b : string) : Prop := b ∈ siblings o keys a ++ approved_by keys a.

Definition universe : gset string := {[ro_root o]} ∪ list_to_set (map dk_key_id keys).

Definition chain_of (visited : gset string) (chain : list RevokeKey) : Prop :=
  NoDup (map rk_key_id chain) /\
  forall k, k ∈ chain <-> exists d, find_key (rk_key_id k) keys = Some d /\ k = revoke_key d /\ rk_key_id k ∈ visited.

Record walk_inv (queue : list string) (visited : gset string) (chain : list RevokeKey) : Prop := {
  wi_reached : forall x, x ∈ queue \/ x ∈ visited -> rtc linked (ro_root o) x;
  wi_universe : forall x, x ∈ queue \/ x ∈ visited -> x ∈ universe;
  wi_closed : forall x y, x ∈ visited -> linked x y -> y ∈ queue \/ y ∈ visited;
  wi_root : ro_root o ∈ queue \/ ro_root o ∈ visited;
  wi_chain : chain_of visited chain
}.

Lemma find_key_id id d : find_key id keys = Some d -> dk_key_id d = id /\ d ∈ keys.
Proof.
  unfold find_key. destruct (list_find _ keys) as [[j x]|] eqn:E; [|done].
  intros [= <-]. apply list_find_Some in E as (Hl & ? & _). split; [done|]. by eapply list_elem_of_lookup_2.
Qed.

Lemma find_key_some d : d ∈ keys -> is_Some (find_key (dk_key_id d) keys).
Proof.
  intros H. unfold find_key. destruct (list_find_elem_of (fun k => dk_key_id k = dk_key_id d) keys d H eq_refl) as [x Hx].
  rewrite Hx. by destruct x.
Qed.

Lemma linked_universe a b : linked a b -> b ∈ universe.
Proof.
  unfold linked, siblings, approved_by, universe. rewrite elem_of_app, elem_of_union, elem_of_list_to_set.
  intros [H|H]; right.
  - destruct (find_key a keys); [destruct (widens o a)|]; try by apply elem_of_nil in H.
    apply list_elem_of_fmap in H as (k & -> & [_ Hk]%list_elem_of_filter). by apply list_elem_of_fmap_2.
  - apply list_elem_of_fmap in H as (k & -> & [_ Hk]%list_elem_of_filter). by apply list_elem_of_fmap_2.
Qed.

Lemma linked_length a : (length (siblings o keys a ++ approved_by keys a) <= 2 * length keys)%nat.
Proof.
  rewrite length_app. unfold siblings, approved_by.
  assert (F : forall P `{forall x, Decision (P x)}, (length (map dk_key_id (filter P keys)) <= length keys)%nat).
  { intros P ?. rewrite length_map. apply length_filter. }
  pose proof (F (fun k => provenance_parent (dk_enrolled_by k) = Some a) _).
  destruct (find_key a keys) as [d|]; [destruct (widens o a)|]; simpl; try lia.
  pose proof (F (fun s => dk_client_id s = dk_client_id d) _). lia.
Qed.

Lemma universe_size : (size universe <= S (length keys))%nat.
Proof.
  unfold universe. rewrite size_union_alt, size_singleton.
  pose proof (subseteq_size (list_to_set (map dk_key_id keys) ∖ {[ro_root o]}) (list_to_set (C := gset string) (map dk_key_id keys))
    ltac:(set_solver)).
  pose proof (list_to_set_size_le (map dk_key_id keys)) as L. rewrite length_map in L. lia.
Qed.

Lemma chain_visit visited chain id : id ∉ visited -> chain_of visited chain ->
  chain_of ({[id]} ∪ visited) (match find_key id keys with Some k => chain ++ [revoke_key k] | None => chain end).
Proof.
  intros Hid [ND Hc]. destruct (find_key id keys) as [d|] eqn:F.
  - pose proof (find_key_id _ _ F) as [Hd _]. split.
    + rewrite map_app. apply NoDup_app. split; [done|]. split; [|apply NoDup_singleton].
      intros x (k & -> & (? & _ & _ & Hk)%Hc)%list_elem_of_fmap Hx%list_elem_of_singleton.
      apply Hid. simpl in Hx. congruence.
    + intros k. rewrite elem_of_app, list_elem_of_singleton, Hc. split.
      * intros [(x & ? & ? & ?)| ->]; [exists x; set_solver|]. exists d. simpl. rewrite Hd. set_solver.
      * intros (x & Fx & -> & [Hx%elem_of_singleton|Hx]%elem_of_union); [right|left; eauto].
        simpl in *. congruence.
  - split; [done|]. intros k. rewrite Hc. split; intros (x & Fx & ? & Hx); exists x; split_and!; try done; set_solver.
Qed.

Lemma walk_visit id queue visited chain : id ∉ visited -> walk_inv (id :: queue) visited chain ->
  walk_inv (queue ++ siblings o keys id ++ approved_by keys id) ({[id]} ∪ visited)
    (match find_key id keys with Some k => chain ++ [revoke_key k] | None => chain end).
Proof.
  intros Hid [R U C Ro Ch]. split.
  - intros x Hx. rewrite elem_of_app, elem_of_union, elem_of_singleton in Hx.
    destruct Hx as [[Hx|Hx]|[->|Hx]]; [apply R; set_solver| |apply R; set_solver..].
    eapply rtc_r; [|exact Hx]. apply R. set_solver.
  - intros x Hx. rewrite elem_of_app, elem_of_union, elem_of_singleton in Hx.
    destruct Hx as [[Hx|Hx]|[->|Hx]]; [apply U; set_solver| |apply U; set_solver..]. by eapply linked_universe.
  - intros x y Hx L. rewrite elem_of_app. apply elem_of_union in Hx as [->%elem_of_singleton|Hx]; [auto|].
    destruct (C _ _ Hx L) as [[->|?]%elem_of_cons|?]; set_solver.
  - set_solver.
  - by apply chain_visit.
Qed.

Lemma walk_skip id queue visited chain : id ∈ visited -> walk_inv (id :: queue) visited chain ->
  walk_inv queue visited chain.
Proof. intros Hid [R U C Ro Ch]. split; [set_solver..| |set_solver|done]. intros x y Hx L. destruct (C _ _ Hx L); set_solver. Qed.

Lemma size_visit id (visited : gset string) : id ∈ universe -> id ∉ visited ->
  size (universe ∖ visited) = S (size (universe ∖ ({[id]} ∪ visited))).
Proof.
  intros. replace (universe ∖ visited) with ({[id]} ∪ universe ∖ ({[id]} ∪ visited)).
  - rewrite size_union; [by rewrite size_singleton|set_solver].
  - apply set_eq. intros x. destruct (decide (x = id)); set_solver.
Qed.

Lemma walk_ends fuel : forall queue visited chain, walk_inv queue visited chain ->
  (size (universe ∖ visited) * S (2 * length keys) + length queue <= fuel)%nat ->
  exists chain' visited', walk fuel o keys queue visited chain = Some chain' /\ walk_inv [] visited' chain'.
Proof.
  induction fuel as [|fuel IH]; intros [|id queue] visited chain I L; simpl in *; try lia; [by eauto..|].
  destruct (decide (id ∈ visited)).
  - apply IH; [by eapply walk_skip|lia].
  - apply IH; [by apply walk_visit|]. rewrite (size_visit id) in L; [|apply (wi_universe _ _ _ I); set_solver|done].
    rewrite length_app. pose proof (linked_length id). lia.
Qed.

Lemma walk_closure : exists chain, walk (walk_fuel keys) o keys [ro_root o] ∅ [] = Some chain /\
  NoDup (map rk_key_id chain) /\
  forall k, k ∈ chain <-> exists d, find_key (rk_key_id k) keys = Some d /\ k = revoke_key d /\
    rtc linked (ro_root o) (rk_key_id k).
Proof.
  destruct (walk_ends (walk_fuel keys) [ro_root o] ∅ []) as (chain & visited & E & [R _ C Ro [ND Ch]]).
  - split.
    + intros x [->%list_elem_of_singleton|?]; [done|set_solver].
    + unfold universe. set_solver.
    + set_solver.
    + set_solver.
    + split; [constructor|]. set_solver.
  - unfold walk_fuel. simpl length. replace (universe ∖ ∅) with universe by set_solver.
    pose proof universe_size. nia.
  - exists chain. split_and!; [done..|]. intros k. rewrite Ch.
    assert (V : forall x, rtc linked (ro_root o) x -> x ∈ visited).
    { apply rtc_ind_r; [set_solver|]. intros y z _ L Hy. destruct (C _ _ Hy L); set_solver. }
    split; intros (d & ? & ? & ?); exists d; auto.
Qed.

End Walk.

(** ** The confirmed revocation *)

Lemma revoked_keys_spec o keys pairings : forall chosen all, revoked_keys o keys pairings chosen = Ok all ->
  chosen ⊆ all /\ (forall k, k ∈ all -> k ∈ chosen \/ rk_key_id k ∉ ro_keep o).
Proof.
  unfold revoked_keys. induction (filter _ keys) as [|d l IH]; intros chosen all; simpl; [intros [= <-]; set_solver|].
  destruct (decide (dk_key_id d ∈ ro_keep o)).
  - rewrite bool_decide_true by done. simpl. clear. intros H. exfalso. revert H. by induction l.
  - rewrite bool_decide_false by done. simpl. intros [Hs Hk]%IH. case_match; [done|]. split; [set_solver|].
    intros k Hin. destruct (Hk k Hin) as [Hin'|]; [|auto].
    apply elem_of_app in Hin' as [| ->%list_elem_of_singleton]; auto.
Qed.

Section Console.
Context `{PR : Prims} `{PP : PairingPrims} (cfg : PairingConfig).
Context (plan_digest : RevokeOptions -> RevokePlan -> string).

Lemma console_revoked_keys plan pairings removed f :
  pf_device_keys (console_revoked_file plan pairings removed f) =
  filter (fun k => dk_key_id k ∉ removed) (pf_device_keys f).
Proof.
  unfold console_revoked_file. simpl.
  assert (H1 : forall l g, pf_device_keys (fold_left end_pairing l g) = pf_device_keys g).
  { induction l as [|x l IH]; intros g; [done|]. simpl. rewrite IH. unfold end_pairing. by destruct (find_client x g). }
  assert (H2 : forall l g, pf_device_keys (fold_left (fun f k => end_relation_grants (rk_client_id k) f) l g) =
    pf_device_keys g).
  { induction l as [|x l IH]; intros g; [done|]. simpl. by rewrite IH. }
  by rewrite H2, H1.
Qed.

(** The keys a plan removes: every key reached that is not kept, and no kept one. *)
Lemma make_plan_removed o i plan pairings removed : make_plan cfg plan_digest o i = Ok (plan, pairings, removed) ->
  ro_cascade o = true -> forall id, (id ∈ ro_keep o -> id ∉ removed) /\
    (is_Some (find_key id (pf_device_keys (in_file i))) -> rtc (linked o (pf_device_keys (in_file i))) (ro_root o) id ->
     id ∉ ro_keep o -> id ∈ removed).
Proof.
  intros M Hc id. unfold make_plan, bind_result in M. cbv zeta in M.
  destruct (walk_closure o (pf_device_keys (in_file i))) as (chain & W & _ & Hchain). rewrite W in M. simpl in M.
  rewrite Hc in M. do 2 (case_match; [|done]). simplify_eq.
  match goal with R : revoked_keys _ _ _ _ = Ok _ |- _ => apply revoked_keys_spec in R as [Hs Hk] end.
  rewrite elem_of_list_to_set. split.
  - intros Hin (k & -> & Hall)%list_elem_of_fmap. destruct (Hk k Hall) as [(Hb & _)%list_elem_of_filter|]; [|done].
    simpl in Hb. by rewrite bool_decide_true in Hb.
  - intros [d F] Hr Hn. apply list_elem_of_fmap. exists (revoke_key d). pose proof (find_key_id _ _ _ F) as [Hd _].
    split; [done|]. apply Hs, list_elem_of_filter. simpl. rewrite Hd, bool_decide_false by done. split; [done|].
    apply Hchain. exists d. simpl. by rewrite Hd.
Qed.

(** C27: a revocation with a cascade that the owner confirmed leaves no device key,
    in memory or on disk, that was approved by the named key directly or through
    any chain of approvals and shared pairings, except those the owner chose to keep;
    and it removes none of those. *)
Theorem cascade_leaves_no_descendant o confirmation t i j plan :
  console_revoke_devices cfg plan_digest o (Some confirmation) t i = (j, Ok plan) -> ro_cascade o = true ->
  ls_disk (in_ledger j) = in_file j /\
  forall d, d ∈ pf_device_keys (in_file i) ->
    (dk_key_id d ∈ ro_keep o -> d ∈ pf_device_keys (in_file j)) /\
    (dk_key_id d ∉ ro_keep o -> rtc (linked o (pf_device_keys (in_file i))) (ro_root o) (dk_key_id d) ->
     d ∉ pf_device_keys (in_file j)).
Proof.
  intros R Hc. unfold console_revoke_devices in R. do 2 (case_match; [done|]). cbv zeta in R.
  destruct (make_plan _ _ _ _) as [[[plan' pairings] removed]|] eqn:M; [|done]. do 2 (case_match; [done|]).
  destruct (inner_persist _ _) as [k [u|]] eqn:W; simplify_eq.
  apply inner_persist_core in W as ((_ & _ & K & _)%core_eq & _ & D). specialize (D eq_refl).
  pose proof (inner_lock_core t i) as [(_ & _ & L & _)%core_eq _].
  assert (Kf : pf_device_keys (in_file k) = filter (fun x => dk_key_id x ∉ removed) (pf_device_keys (in_file i))).
  { rewrite K, <- L. apply console_revoked_keys. }
  split; [exact D|]. intros d Hd. change (pf_device_keys (in_file (set_token_challenges _ _))) with (pf_device_keys (in_file k)).
  rewrite Kf, list_elem_of_filter.
  pose proof (make_plan_removed _ _ _ _ _ M Hc (dk_key_id d)) as [Hkeep Hgone]. rewrite L in Hgone.
  split; [by auto|]. intros Hn Hr [Hx _]. apply Hx, Hgone; [|done..]. by apply find_key_some.
Qed.

End Console.
