(* ===== verification/ElevationTerms.v ===== *)
(** * Well-formed terms and requests

    What the checks of a request for elevation establish of the record that then
    waits for the owner. *)

From S2P Require Import Prelude Text Types BTree SpendBudget CallSpend PairingStore SpendLedger Pairing Elevation.

(** ** Well-formed terms *)

Definition canonical_key (k : string) : bool :=
  ((String.length k =? 64) || (String.length k =? 66))%nat && forallb is_ascii_hexdigit (String.list_ascii_of_string k).

Record terms_ok (t : GrantTerms) : Prop := {
  to_breakers : valid (gt_breakers t) = true;
  to_budget : gt_budget_msat t <> 0 /\ gt_budget_msat t <= MAX_GRANT_BUDGET_MSAT;
  to_per_call : gt_per_call_max_msat t <> 0 /\ gt_per_call_max_msat t <= gt_budget_msat t;
  to_ttl : MIN_SPEND_GRANT_TTL_SECS <= gt_ttl_secs t <= MAX_SPEND_GRANT_TTL_SECS;
  to_payees : forall ks, gt_payee_allowlist t = Some ks -> forall k, k ∈ ks -> canonical_key k = true;
  to_recipients : map_Forall (fun k cap => canonical_key k = true /\ cap <> 0 /\ cap <= gt_budget_msat t)
                    (gt_per_recipient_msat t)
}.

Lemma canonical_recipient_ok key k : canonical_recipient key = Some k -> canonical_key k = true.
Proof. unfold canonical_recipient, canonical_key. case_match; congruence. Qed.

Lemma canonical_payees_ok l : forall ks, canonical_payees l = Ok ks -> forall k, k ∈ ks -> canonical_key k = true.
Proof.
  induction l as [|key l IH]; simpl; intros ks; [intros [= <-]; set_solver|].
  destruct (canonical_recipient key) as [k0|] eqn:C; simpl; [|done].
  destruct (canonical_payees l) as [ks'|]; simpl; [|done]. intros [= <-] k [->%elem_of_singleton|]%elem_of_union; [|by eapply IH].
  by eapply canonical_recipient_ok.
Qed.

Lemma canonical_budgets_ok budget l : forall acc m, canonical_budgets budget acc l = Ok m ->
  map_Forall (fun k cap => canonical_key k = true /\ cap <> 0 /\ cap <= budget) acc ->
  map_Forall (fun k cap => canonical_key k = true /\ cap <> 0 /\ cap <= budget) m.
Proof.
  induction l as [|[key cap] l IH]; simpl; intros acc m; [by intros [= <-]|].
  destruct (canonical_recipient key) as [k|] eqn:C; simpl; [|done]. case_match eqn:B; [|done]. case_match; [|done].
  intros E Hacc. apply (IH _ _ E), map_Forall_insert_2; [|done].
  split; [by eapply canonical_recipient_ok|]. apply negb_true_iff, orb_false_iff in B as [B1 B2]. lia.
Qed.

Lemma normalized_ok t t' : normalized t = Ok t' -> terms_ok t'.
Proof.
  unfold normalized. intros H. do 6 (case_match; [|done]).
  destruct (match gt_payee_allowlist t with None => _ | _ => _ end) as [payees|] eqn:Hp; [|done].
  destruct (canonical_budgets _ _ _) as [budgets|] eqn:Hb; [|done]. simpl in H. simplify_eq.
  split; simpl; [done|lia|lia|lia| |].
  - intros ks ->. destruct (gt_payee_allowlist t) as [l|]; [|done]. case_match; [|done].
    destruct (canonical_payees _) as [ks'|] eqn:Hk; [|done]. simpl in Hp. simplify_eq. by eapply canonical_payees_ok.
  - eapply canonical_budgets_ok; [exact Hb|]. apply map_Forall_empty.
Qed.

(** ** Well-formed requests *)

Record request_ok (e : PendingElevation) : Prop := {
  rq_some : pe_scopes e <> [];
  rq_grantable : forall s, s ∈ pe_scopes e -> s ∈ grantable_scopes;
  rq_front_door : FrontDoor ∈ pe_scopes e -> Forall (fun s => s = FrontDoor) (pe_scopes e) /\ pe_proposed_terms e = None;
  rq_terms : forall t, pe_proposed_terms e = Some t -> terms_ok t
}.

Definition requests_ok (f : PairingFile) : Prop := Forall request_ok (pf_pending_elevations f).


Section Checks.
Context (terms_text : TermsError -> string).

Lemma check_request_ok scopes proposed terms op client name created expires :
  check_request terms_text scopes proposed = Ok terms ->
  request_ok (mkElevation op client name scopes created expires terms).
Proof.
  unfold check_request. intros H.
  destruct (match proposed with None => _ | _ => _ end) as [t|] eqn:Ht; [|done]. simpl in H.
  case_match eqn:N; [|done]. destruct (list_find _ scopes) as [[]|] eqn:L; [done|].
  assert (Hg : forall s, s ∈ scopes -> s ∈ grantable_scopes).
  { apply list_find_None in L. rewrite Forall_forall in L. intros s Hs. specialize (L s Hs). simpl in L. by apply dec_stable. }
  assert (Hterms : forall t', t = Some t' -> terms_ok t').
  { intros t' ->. destruct proposed as [p|]; [|done]. destruct (normalized p) eqn:Np; [|done]. simpl in Ht. simplify_eq.
    by eapply normalized_ok. }
  apply negb_true_iff, bool_decide_eq_false in N.
  destruct (bool_decide (FrontDoor ∈ scopes)) eqn:Hf.
  - case_match eqn:A; [|done]. case_match eqn:T; [|done]. simplify_eq. split; [done|done| |done]. intros _.
    split; [|by apply bool_decide_eq_true in T]. apply negb_true_iff, bool_decide_eq_false in A.
    apply Forall_forall. intros s Hs. apply dec_stable. intros Hne. apply A, Exists_exists. eauto.
  - simplify_eq. split; [done|done| |done]. intros Hin. by apply bool_decide_eq_false in Hf.
Qed.

End Checks.
