(* ===== verification/SpendFrame.v ===== *)
(** * Spending leaves the pairings alone

    No operation of the spend ledger changes who is paired or which epochs were
    given out, in memory or on disk, whether its writes succeed or fail. *)

From S2P Require Import Prelude Text Types BTree SpendBudget CallSpend PairingStore SpendLedger Pairing SecondDevice PairingFrame SpendProps.

Section Frame.
Context (P : PairingFile -> Prop).
Context (P_same : forall f g, pf_clients f = pf_clients g -> pf_last_epoch f = pf_last_epoch g ->
  pf_pending_elevations f = pf_pending_elevations g -> P f -> P g).
Context (receipt_verifies : bytes -> SpendGrant -> bool) (cfg : ServiceConfig).

Definition on_ledger (s : LedgerState) : Prop := P (ls_file s) /\ P (ls_disk s).

Lemma P_core f g : core f = core g -> P f -> P g.
Proof. intros (? & ? & _ & ? & _)%core_eq. by apply P_same. Qed.

Lemma on_persist_eq env s s' (r : result PairingError unit) : persist env s = (s', r) -> on_ledger s -> on_ledger s'.
Proof.
  intros A [Hf Hd]. pose proof (persist_core env s) as H. rewrite A in H. destruct H as (F & D & _). split.
  - by eapply P_core; [symmetry; apply F|].
  - destruct D as [->|D]; [done|]. by eapply P_core; [symmetry; apply D|].
Qed.

Lemma on_lock env s : on_ledger s -> on_ledger (lock env s).
Proof.
  intros H. unfold lock, prune_expired_locked. destruct (has_dead_grant _ _); [|done].
  destruct (persist _ _) eqn:A. by eapply on_persist_eq.
Qed.

Lemma on_file f s : P f -> on_ledger s -> on_ledger (set_file f s).
Proof. by intros ? []. Qed.

Lemma on_ledger_file s : on_ledger s -> P (ls_file s).
Proof. by intros []. Qed.

Lemma P_restore op b f : P f -> P (restore_budget op b f).
Proof. unfold restore_budget. intros H. destruct (list_find _ _) as [[]|]; [|done]. by eapply P_same; [| | |exact H]. Qed.

Lemma P_undo binding f : P f -> P (undo_binding binding f).
Proof. unfold undo_binding. intros H. destruct binding as [[? []]|]; [..|done]; by eapply P_same; [| | |exact H]. Qed.

Ltac on_step :=
  repeat (cbv zeta; lazymatch goal with
  | |- on_ledger (fst (?i, _)) => cbv [fst]
  | |- on_ledger (lock _ _) => apply on_lock
  | |- on_ledger (set_file _ _) => apply on_file
  | H : persist _ _ = (?j, _) |- on_ledger ?j => apply (on_persist_eq _ _ _ _ H)
  | |- on_ledger (fst (match ?x with _ => _ end)) => destruct x eqn:?
  | |- on_ledger _ => assumption
  | |- P (restore_budget _ _ _) => apply P_restore
  | |- P (undo_binding _ _) => apply P_undo
  | |- P (ls_file _) => apply on_ledger_file
  | |- P (match ?x with _ => _ end) => destruct x eqn:?
  | |- P (put_budget _ _ ?f) => apply (P_same f); [reflexivity|reflexivity|reflexivity|]
  | |- P (set_call_grants _ ?f) => apply (P_same f); [reflexivity|reflexivity|reflexivity|]
  | |- P (set_grants _ ?f) => apply (P_same f); [reflexivity|reflexivity|reflexivity|]
  | |- P (map_budgets _ ?f) => apply (P_same f); [reflexivity|reflexivity|reflexivity|]
  | |- P (keep_observations ?f _) => apply (P_same f); [reflexivity|reflexivity|reflexivity|]
  end).

Lemma on_reserve id client epoch charges a env s : on_ledger s ->
  on_ledger (reserve_spend_locked receipt_verifies cfg id client epoch charges a env s).1.
Proof. intros H. unfold reserve_spend_locked. on_step. Qed.

Lemma on_prune now env s : on_ledger s -> on_ledger (prune_call_spend now env s).1.
Proof. intros H. unfold prune_call_spend. on_step. Qed.

Lemma on_draw id client epoch peer call_id seq price fee link closing env s : on_ledger s ->
  on_ledger (draw_call_spend_for_grant receipt_verifies cfg id client epoch peer call_id seq price fee link closing env s).1.
Proof. intros H. unfold draw_call_spend_for_grant. on_step. Qed.

Lemma on_hold id client epoch terms capacity prune env s : on_ledger s ->
  on_ledger (reserve_call_spend receipt_verifies cfg id client epoch terms capacity prune env s).1.
Proof.
  intros H%(on_prune (en_now prune) prune). unfold reserve_call_spend.
  destruct (prune_call_spend _ _ _) as [s1 [[]|e]]; simpl in H; on_step. by apply on_reserve, on_lock.
Qed.

Lemma on_hold_and_offer hold_id offer_id client epoch terms capacity offer cap link prune env s : on_ledger s ->
  on_ledger (reserve_call_with_offer receipt_verifies cfg hold_id offer_id client epoch terms capacity offer cap link
    prune env s).1.
Proof.
  intros H%(on_prune (en_now prune) prune). unfold reserve_call_with_offer.
  destruct (prune_call_spend _ _ _) as [s1 [[]|e]]; simpl in H; [|done].
  apply (on_lock env) in H. cbv zeta. clear s. generalize dependent (lock env s1). intros s H.
  destruct (ledger_check_call_hold _ _ _ _ _ _ _ _) as [[?|]|?]; [done| |done].
  match goal with |- context [cbind ?m ?k s] => assert (H2 : on_ledger (cbind m k s).1) end.
  { unfold cbind. pose proof (on_reserve hold_id client epoch (hold_charges terms)
      (mkAuthority [] false None false None None (Some terms) None true) env s H) as H1.
    destruct (reserve_spend_locked _ _ hold_id _ _ _ _ _ _) as [s2 [?|?]]; simpl in *; [by apply on_reserve|done]. }
  destruct (cbind _ _ s) as [s2 r]. simpl in H2. on_step.
Qed.

Lemma ledger_step_frame l l' : ledger_step receipt_verifies cfg l l' -> on_ledger l.1 -> on_ledger l'.1.
Proof.
  intros Hs H. destruct Hs; cbn [fst] in *.
  - by apply on_reserve, on_lock.
  - by apply on_hold.
  - by apply on_hold_and_offer.
  - by apply on_draw.
  - unfold try_resolve_spend_outcome. on_step.
  - unfold close_call_spend. on_step.
  - by apply on_prune.
  - unfold enforce_call_hold_limit. on_step.
  - unfold reset_grant_breakers. on_step.
  - unfold revoke_grants, file_revoke_grants. on_step.
    all: apply (P_same (ls_file (lock env s))); [reflexivity|reflexivity|reflexivity|]; by apply on_ledger_file, on_lock.
  - unfold with_call_spend_authority_at. on_step.
Qed.

End Frame.
