(* ===== verification/PairingSteps.v ===== *)
(** * The pairing service as a transition system

    Every operation of the pairing service, every operation of the spend ledger and
    a restart, as one step relation; and what a property of the pairing file must be
    closed under to be an invariant of it, in memory and on disk. *)

From S2P Require Import Prelude Text Types BTree SpendBudget CallSpend PairingStore SpendLedger Pairing Elevation ElevationTerms SecondDevice PairingFrame SpendProps SpendFrame.

(** ** Closed properties *)

Record closed (P : PairingFile -> Prop) : Prop := {
  cl_shrink f g : pf_clients g = pf_clients f -> pf_last_epoch g = pf_last_epoch f ->
    pf_pending_elevations g ⊆ pf_pending_elevations f -> P f -> P g;
  cl_track id x f : last_epoch_of id f <= x -> P f -> P (track_epoch id x f);
  cl_push f0 r f : P f0 -> last_epoch_of (pc_client_id r) f0 < pc_epoch r -> P f ->
    P (set_clients (pf_clients f ++ [r]) f);
  cl_filter (Q : string -> Prop) `{forall x, Decision (Q x)} f : P f ->
    P (set_clients (filter (fun c => Q (pc_client_id c)) (pf_clients f)) f);
  cl_map h f : (forall c, pc_client_id (h c) = pc_client_id c) -> (forall c, pc_epoch (h c) = pc_epoch c) ->
    P f -> P (set_clients (map h (pf_clients f)) f);
  cl_update id h f : (forall c, pc_client_id (h c) = pc_client_id c) -> (forall c, pc_epoch (h c) = pc_epoch c) ->
    P f -> P (update_client id h f);
  cl_bump id c f : find_client id f = Some c -> P f ->
    P (track_epoch id (pc_epoch c + 1) (update_client id (set_epoch (pc_epoch c + 1)) f));
  cl_ask e f : request_ok e -> P f -> P (set_pending_elevations (pf_pending_elevations f ++ [e]) f)
}.

Section Closed.
Context (P : PairingFile -> Prop) (HP : closed P).
Context `{PR : Prims} `{PP : PairingPrims}.
Context (cfg : PairingConfig) (receipt_verifies : bytes -> SpendGrant -> bool).

Lemma closed_same f g : pf_clients f = pf_clients g -> pf_last_epoch f = pf_last_epoch g ->
  pf_pending_elevations f = pf_pending_elevations g -> P f -> P g.
Proof. intros ? ? E. apply (cl_shrink P HP); [done..|by rewrite E]. Qed.

Lemma closed_core f g : core f = core g -> P f -> P g.
Proof. intros (? & ? & _ & ? & _)%core_eq. by apply closed_same. Qed.

Lemma closed_file i : holds P i -> P (in_file i).
Proof. by intros []. Qed.

Lemma closed_without id f : P f -> P (without_client id f).
Proof. exact (cl_filter P HP (fun x => x <> id) f). Qed.

Lemma closed_allocate id floor f g r : allocate_epoch id floor f = (g, r) -> P f ->
  P g /\ (forall epoch, r = Some epoch -> last_epoch_of id f < epoch).
Proof.
  unfold allocate_epoch, checked_add. intros H Hf. destruct (_ <=? U64_MAX); simplify_eq;
    (split; [apply (cl_track P HP); [lia|done]|]); [intros ? [= <-]; lia|done].
Qed.

(** A new client with an allocated epoch. *)
Lemma closed_allocated id floor f g epoch r : allocate_epoch id floor f = (g, Some epoch) -> P f ->
  pc_client_id r = id -> pc_epoch r = epoch ->
  P (set_clients (pf_clients g ++ [r]) g) /\
  P (set_clients (pf_clients (without_client id g) ++ [r]) (without_client id g)).
Proof.
  intros A Hf Hid He. apply closed_allocate in A as [Hg Hl]; [|done]. specialize (Hl _ eq_refl).
  split; (apply (cl_push P HP f); [done|by rewrite Hid, He|]); [done|by apply closed_without].
Qed.

(** Files that an operation did not touch, touched beside the clients and the
    epochs, or extended with a new client. *)
Ltac part_of := intros ?; rewrite ?list_elem_of_filter; tauto.
Ltac file_step := hold closed_core; try lazymatch goal with
  | A : allocate_epoch _ _ _ = (?g, _) |- P ?g => apply (closed_allocate _ _ _ _ _ A)
  | A : allocate_epoch _ _ _ = (?g, Some _) |- P (set_clients (pf_clients (without_client _ ?g) ++ _) _) =>
      eapply (closed_allocated _ _ _ _ _ _ A); [|reflexivity|reflexivity]
  | A : allocate_epoch _ _ _ = (?g, Some _) |- P (set_clients (pf_clients ?g ++ _) _) =>
      eapply (closed_allocated _ _ _ _ _ _ A); [|reflexivity|reflexivity]
  | |- P (update_client _ _ _) => apply (cl_update P HP); [done|done|]
  | |- P (in_file _) => idtac
  | |- P ?g => match g with context [in_file ?i] =>
      apply (cl_shrink P HP (in_file i)); [reflexivity|reflexivity|simpl; first [done|part_of]|] end
  end; try (apply closed_file; hold closed_core; file_step).

Lemma request_pairing_closed name key challenge id before now write t i : holds P i ->
  holds P (request_pairing name key challenge id before now write t i).1.
Proof. intros H. unfold request_pairing. file_step. Qed.

Lemma confirm_pairing_closed pair_id sig scopes t1 t2 i : holds P i ->
  holds P (confirm_pairing cfg pair_id sig scopes t1 t2 i).1.
Proof. intros H. unfold confirm_pairing. file_step. Qed.

Lemma create_bootstrap_ticket_pairing_closed name key transport t i : holds P i ->
  holds P (create_bootstrap_ticket_pairing name key transport t i).1.
Proof. intros H. unfold create_bootstrap_ticket_pairing. file_step. Qed.

Lemma create_remote_pairing_closed name key transport window t i : holds P i ->
  holds P (create_remote_pairing name key transport window t i).1.
Proof.
  intros H. unfold create_remote_pairing, create_remote_pairing_locked. file_step.
Qed.

Lemma issue_token_challenge_locked_closed nonce id instant i : holds P i ->
  holds P (issue_token_challenge_locked nonce id instant i).1.
Proof. intros H. unfold issue_token_challenge_locked. file_step. Qed.

Lemma issue_token_challenge_closed nonce id t i : holds P i -> holds P (issue_token_challenge nonce id t i).1.
Proof. intros H. apply issue_token_challenge_locked_closed. file_step. Qed.

Lemma issue_local_token_challenge_closed nonce id timestamp sig now t1 t2 i : holds P i ->
  holds P (issue_local_token_challenge nonce id timestamp sig now t1 t2 i).1.
Proof.
  intros H. unfold issue_local_token_challenge, issue_verified_local_token_challenge. file_step.
  all: match goal with A : issue_token_challenge_locked ?n ?d ?x ?j = (?k, _) |- holds P ?k =>
    pose proof (issue_token_challenge_locked_closed n d x j) as K; rewrite A in K; apply K; file_step end.
Qed.

Lemma issue_token_kind_closed sign kind secret id challenge sig made t i : holds P i ->
  holds P (issue_token_kind cfg receipt_verifies sign kind secret id challenge sig made t i).1.
Proof.
  intros H. unfold issue_token_kind. file_step.
Qed.

Lemma lock_clients t i : pf_clients (in_file (inner_lock t i)) = pf_clients (in_file i).
Proof. apply core_eq, inner_lock_core. Qed.

Lemma find_client_same cid f g : pf_clients f = pf_clients g -> find_client cid f = find_client cid g.
Proof. unfold find_client. by intros ->. Qed.

Lemma guarded_some {A B X} (g : result X A) (o : option B) (e : X) b :
  bind_result g (fun _ => ok_or o e) = Ok b -> o = Some b.
Proof. destruct g, o; simpl; congruence. Qed.

Lemma bump_no_wrap e : 0 <= e < U64_MAX -> wrapping_add_u64 e 1 = e + 1.
Proof. intros H. unfold wrapping_add_u64. rewrite Z.mod_small; [done|]. change (2 ^ 64) with (U64_MAX + 1). lia. Qed.

Lemma bump_epoch_closed id t i : (forall c, find_client id (in_file i) = Some c -> 0 <= pc_epoch c < U64_MAX) ->
  holds P i -> holds P (bump_epoch cfg id t i).1.
Proof.
  intros Hw H. unfold bump_epoch.
  destruct (bind_result _ _) as [c|e] eqn:G; [|by file_step]. apply guarded_some in G.
  pose proof G as G'. rewrite (find_client_same id _ _ (lock_clients t i)) in G'.
  rewrite (bump_no_wrap _ (Hw _ G')). cbv zeta.
  assert (Hb : P (track_epoch id (pc_epoch c + 1) (update_client id (set_epoch (pc_epoch c + 1)) (in_file (inner_lock t i))))).
  { apply (cl_bump P HP); [done|]. apply closed_file. by hold closed_core. }
  assert (Hf : P (file_revoke_grants (Some id) (track_epoch id (pc_epoch c + 1)
    (update_client id (set_epoch (pc_epoch c + 1)) (in_file (inner_lock t i))))).1) by (by eapply closed_same; [| | |exact Hb]).
  by hold closed_core.
Qed.

Lemma revoke_closed id t i : holds P i -> holds P (revoke cfg id t i).1.
Proof.
  intros H. unfold revoke.
  assert (Hl : P (in_file (inner_lock t i))) by (apply closed_file; by hold closed_core).
  assert (Hd : forall e, P (revoked_file id e (in_file (inner_lock t i)))).
  { intros e. eapply (cl_shrink P HP (without_client id (track_epoch id (Z.max (last_epoch_of id (in_file (inner_lock t i))) e)
      (in_file (inner_lock t i))))); [reflexivity|reflexivity|simpl; part_of|].
    apply closed_without, (cl_track P HP); [lia|done]. }
  hold closed_core; apply Hd.
Qed.

Lemma rotate_client_key_closed id key sig t i : holds P i -> holds P (rotate_client_key cfg id key sig t i).1.
Proof.
  intros H. unfold rotate_client_key. cbv zeta. set (new_id := client_id_from_pubkey _).
  assert (Hl : P (in_file (inner_lock t i))) by (apply closed_file; by hold closed_core).
  assert (Hf : forall old epoch r, last_epoch_of new_id (in_file (inner_lock t i)) < epoch -> pc_epoch r = epoch ->
    pc_client_id r = new_id -> P (rotated_file id new_id old epoch r (in_file (inner_lock t i)))).
  { intros old epoch r He Hr Hid. unfold rotated_file. cbv zeta.
    set (f1 := track_epoch id _ _). set (f2 := track_epoch new_id _ f1).
    assert (H2 : P f2) by (repeat (apply (cl_track P HP); [lia|]); done).
    pose proof (cl_filter P HP (fun x => x <> id /\ x <> new_id) f2 H2) as H3.
    eapply closed_same; [| | |eapply (cl_push P HP (in_file (inner_lock t i)) r); [done|by rewrite Hid, Hr|exact H3]]; done. }
  destruct (bind_result (parse_pubkey key) _) as [sg|]; [|done].
  destruct (bind_result (ok_or _ UnknownClient) _) as [[old epoch]|] eqn:G; [|by file_step].
  assert (He : last_epoch_of new_id (in_file (inner_lock t i)) < epoch).
  { clear Hf. repeat (unfold bind_result at 1 in G; case_match; [|done]).
    unfold checked_add, ok_or in *. repeat case_match; simplify_eq; lia. }
  hold closed_core; by apply Hf.
Qed.

Lemma rebind_to_identity_closed fp t i : holds P i -> holds P (rebind_to_identity fp t i).1.
Proof.
  intros H. unfold rebind_to_identity. apply (holds_persist _ closed_core). apply (holds_lock _ closed_core t) in H.
  split; [|apply H]. destruct H as [H _].
  apply (cl_map P HP (rebind_client fp)) in H; [|done..].
  eapply (cl_shrink P HP); [| | |exact H]; [reflexivity|reflexivity|]. simpl. set_solver.
Qed.

(** ** Elevation *)

Context (terms_text : TermsError -> string).

Lemma console_challenge_closed op label expires cmd nonce code d now i : holds P i ->
  holds P (console_challenge cfg op label expires cmd nonce code d now i).1.
Proof. intros H. unfold console_challenge. file_step. Qed.

Lemma open_operation_closed op t i : holds P i -> holds P (open_operation op t i).1.
Proof. intros H. unfold open_operation. file_step. Qed.

Lemma cancel_operation_closed op t i : holds P i -> holds P (cancel_operation op t i).
Proof.
  intros H. unfold cancel_operation. cbv zeta. apply (holds_persist _ closed_core).
  destruct (requester _ _); file_step.
Qed.

Lemma verify_grant_confirmation_closed op confirmation now t i : holds P i ->
  holds P (verify_grant_confirmation op confirmation now t i).1.
Proof. intros H. unfold verify_grant_confirmation. file_step. by apply cancel_operation_closed. Qed.

Lemma create_budget_elevation_request_closed id scopes proposed op nonce code d now t i : holds P i ->
  holds P (create_budget_elevation_request cfg terms_text id scopes proposed op nonce code d now t i).1.
Proof.
  intros H. unfold create_budget_elevation_request. destruct (check_request _ _ _) as [terms|] eqn:C; [|by file_step].
  cbv zeta. destruct (find_client _ _) as [c|]; [|by file_step]. do 2 (case_match; [by file_step|]).
  match goal with |- context [console_challenge ?a ?b ?c ?d ?e ?f ?g ?h ?k ?l] =>
    pose proof (console_challenge_closed b c d e f g h k l (holds_lock _ closed_core t i H)) as Hc;
    destruct (console_challenge a b c d e f g h k l) as [j [[]|]] end; [|exact Hc].
  simpl in Hc. set (kept := filter _ (pf_pending_elevations (in_file j))).
  assert (Hk : P (set_pending_elevations kept (in_file j))).
  { apply (cl_shrink P HP (in_file j)); [done|done|unfold kept; simpl; part_of|by apply closed_file]. }
  apply (cl_ask P HP (mkElevation (hex_encode op) id (pc_name c) scopes now (now + ELEVATION_TTL_SECS) terms)) in Hk;
    [|by eapply check_request_ok].
  assert (Hn : P (set_pending_elevations (kept ++
    [mkElevation (hex_encode op) id (pc_name c) scopes now (now + ELEVATION_TTL_SECS) terms]) (in_file j))) by exact Hk.
  destruct (inner_persist _ _) as [k [u|e]] eqn:W; apply (holds_persist_eq _ closed_core) in W; try (by apply holds_file);
    [done|]. cbv [fst]. hold closed_core. apply (cl_shrink P HP (in_file k)); [done|done|simpl; part_of|by apply closed_file].
Qed.

Lemma create_replacement_request_closed id fp replacement op nonce code d now t i : holds P i ->
  holds P (create_replacement_request cfg id fp replacement op nonce code d now t i).1.
Proof.
  intros H. unfold create_replacement_request. hold closed_core. apply holds_cbind.
  - apply console_challenge_closed. hold closed_core.
  - intros [] j Hj. file_step.
Qed.

Lemma grant_closed op confirmation terms at_ after ttl t i : holds P i ->
  holds P (grant_elevation cfg terms_text op confirmation terms at_ after t i).1 /\
  holds P (grant_front_door cfg op confirmation ttl at_ t i).1.
Proof.
  intros H. pose proof (holds_lock _ closed_core t i H) as Hl.
  unfold grant_elevation, grant_front_door. split; hold closed_core.
  all: apply holds_cbind; [by apply open_operation_closed|]; intros e j Hj; case_match; [done|].
  all: apply holds_cbind; [by apply verify_grant_confirmation_closed|]; intros [] k Hk; file_step.
Qed.

Lemma replacement_closed op confirmation id fp replacement now at_ t i : holds P i ->
  holds P (approve_replacement cfg op confirmation now at_ t i).1 /\
  holds P (consume_replacement_approval cfg op id fp replacement now t i).1.
Proof. intros H. unfold approve_replacement, consume_replacement_approval. split; file_step. Qed.

(** ** Second devices and the console *)

Lemma undo_enrollment_closed i j : holds P i -> holds P j -> holds P (undo_enrollment i j).
Proof. intros [? ?] [? ?]. by split. Qed.

Lemma drop_second_ops_closed l : forall i, holds P i -> holds P (fold_left (fun i op => drop_second_op op i) l i).
Proof.
  induction l as [|op l IH]; intros i H; [done|]. apply IH. unfold drop_second_op.
  destruct (list_find _ _) as [[]|]; file_step.
Qed.

Lemma remove_provisional_locked_closed client i : holds P i -> holds P (remove_provisional_locked client i).
Proof.
  intros H. unfold remove_provisional_locked.
  hold closed_core; [apply closed_without, closed_file|]; by apply drop_second_ops_closed.
Qed.

Ltac enrolled := hold closed_core; lazymatch goal with
  | |- holds _ (undo_enrollment _ _) => apply undo_enrollment_closed; enrolled
  | |- holds ?Q (commit_enrollment_cleanup ?j) => change (holds Q j); enrolled
  | |- holds _ (remove_provisional_locked _ _) => apply remove_provisional_locked_closed; enrolled
  | |- _ => idtac
  end.

Lemma rescan_locked_closed code key transport t i : holds P i -> holds P (rescan_locked code key transport t i).1.
Proof. intros H. unfold rescan_locked. enrolled. Qed.

Lemma create_second_device_closed code name key transport issuer t i : holds P i ->
  holds P (create_second_device_pairing cfg code name key transport issuer t i).1.
Proof.
  intros H. unfold create_second_device_pairing, create_second_device_locked.
  apply holds_cbind; [unfold clift; by hold closed_core|]. intros [] j Hj.
  apply holds_cbind; [by apply rescan_locked_closed|]. intros [] k Hk. enrolled; file_step.
Qed.

Lemma sweep_provisional_pairings_closed t i : holds P i -> holds P (sweep_provisional_pairings t i).1.
Proof.
  intros H. unfold sweep_provisional_pairings. cbv zeta.
  assert (Hl : forall l j, holds P j -> holds P (fold_left (fun i id => remove_provisional_locked id i) l j)).
  { induction l as [|x l IH]; intros j Hj; simpl; [done|]. by apply IH, remove_provisional_locked_closed. }
  enrolled; apply Hl; enrolled.
Qed.

Context (plan_digest : RevokeOptions -> RevokePlan -> string).

Lemma console_revoked_file_closed plan pairings removed f : P f -> P (console_revoked_file plan pairings removed f).
Proof.
  intros H. unfold console_revoked_file. cbv zeta.
  assert (H1 : forall l g, P g -> P (fold_left end_pairing l g)).
  { induction l as [|x l IH]; intros g Hg; [done|]. apply IH. unfold end_pairing.
    eapply closed_same; [reflexivity|reflexivity|reflexivity|]. destruct (find_client x g) as [c|];
      [eapply (closed_same (track_epoch x (Z.max (last_epoch_of x g) (pc_epoch c)) g))|by eapply (closed_same g)]; try done.
    apply (cl_track P HP); [lia|done]. }
  assert (H2 : forall l g, P g -> P (fold_left (fun f k => end_relation_grants (rk_client_id k) f) l g)).
  { induction l as [|x l IH]; intros g Hg; [done|]. apply IH. by apply (closed_same g). }
  pose proof (H2 (rp_keys plan) _ (H1 (rp_pairings plan) f H)) as H3.
  apply (cl_filter P HP (fun x => x ∉ pairings)) in H3.
  eapply (cl_shrink P HP); [| | |exact H3]; [reflexivity|reflexivity|]. simpl. part_of.
Qed.

Lemma console_revoke_devices_closed o confirmation t i : holds P i ->
  holds P (console_revoke_devices cfg plan_digest o confirmation t i).1.
Proof.
  intros H. unfold console_revoke_devices. hold closed_core.
  all: first [apply console_revoked_file_closed|idtac]; apply closed_file; hold closed_core.
Qed.

Lemma console_cancel_second_device_closed op t i : holds P i -> holds P (console_cancel_second_device cfg op t i).1.
Proof. intros H. unfold console_cancel_second_device. enrolled. Qed.

(** ** Restart *)

Lemma prune_expired_grants_closed t i : holds P i -> holds P (prune_expired_grants t i).1.
Proof.
  intros H%(holds_lock _ closed_core t). revert H. unfold prune_expired_grants, inner_lock, lock. cbv zeta.
  by destruct (prune_expired_locked _ _ _).
Qed.

Lemma open_closed path disk fp t1 t2 t3 : P disk -> holds P (open path (Some disk) fp t1 t2 t3).1.
Proof.
  intros H. unfold open. cbv zeta. simpl default. case_match; [done|].
  destruct (upgrade_funding disk) as [f u] eqn:U.
  assert (Hi : holds P (fresh_inner f disk fp)).
  { unfold upgrade_funding in U. destruct (fold_left _ _ _). simplify_eq. split; [by apply (closed_same disk)|done]. }
  apply holds_cbind; [destruct u; [by apply (holds_persist _ closed_core)|done]|]. intros [] j Hj.
  apply holds_cbind; [by apply prune_expired_grants_closed|]. intros [] k Hk.
  apply holds_cbind; [by apply sweep_provisional_pairings_closed|]. done.
Qed.

End Closed.

(** ** Steps *)

Section Steps.
Context `{PR : Prims} `{PP : PairingPrims}.
Context (receipt_verifies : bytes -> SpendGrant -> bool) (terms_text : TermsError -> string).
Context (sign_claims : Claims -> string -> result string string) (plan_digest : RevokeOptions -> RevokePlan -> string).

(** Any operation, under any configuration, whatever it returns.  A bump is
    taken below the last epoch; at the last one it wraps around. *)
Inductive pairing_step : Inner -> Inner -> Prop :=
| ps_window d t i : pairing_step i (open_pairing_window d t i).1
| ps_closed t i : pairing_step i (with_pairing_closed t i)
| ps_request name key challenge id before now write t i :
    pairing_step i (request_pairing name key challenge id before now write t i).1
| ps_confirm cfg pair_id sig scopes t1 t2 i : pairing_step i (confirm_pairing cfg pair_id sig scopes t1 t2 i).1
| ps_bootstrap name key transport t i : pairing_step i (create_bootstrap_ticket_pairing name key transport t i).1
| ps_remote name key transport window t i : pairing_step i (create_remote_pairing name key transport window t i).1
| ps_challenge nonce id t i : pairing_step i (issue_token_challenge nonce id t i).1
| ps_local nonce id timestamp sig now t1 t2 i :
    pairing_step i (issue_local_token_challenge nonce id timestamp sig now t1 t2 i).1
| ps_token cfg kind secret id challenge sig made t i :
    pairing_step i (issue_token_kind cfg receipt_verifies sign_claims kind secret id challenge sig made t i).1
| ps_bump cfg id t i : (forall c, find_client id (in_file i) = Some c -> 0 <= pc_epoch c < U64_MAX) ->
    pairing_step i (bump_epoch cfg id t i).1
| ps_revoke cfg id t i : pairing_step i (revoke cfg id t i).1
| ps_rotate cfg id key sig t i : pairing_step i (rotate_client_key cfg id key sig t i).1
| ps_rebind fp t i : pairing_step i (rebind_to_identity fp t i).1
| ps_ask cfg id scopes proposed op nonce code d now t i :
    pairing_step i (create_budget_elevation_request cfg terms_text id scopes proposed op nonce code d now t i).1
| ps_grant cfg op confirmation terms at_ after t i :
    pairing_step i (grant_elevation cfg terms_text op confirmation terms at_ after t i).1
| ps_front_door cfg op confirmation ttl at_ t i : pairing_step i (grant_front_door cfg op confirmation ttl at_ t i).1
| ps_replace cfg id fp replacement op nonce code d now t i :
    pairing_step i (create_replacement_request cfg id fp replacement op nonce code d now t i).1
| ps_approve cfg op confirmation now at_ t i : pairing_step i (approve_replacement cfg op confirmation now at_ t i).1
| ps_consume cfg op id fp replacement now t i :
    pairing_step i (consume_replacement_approval cfg op id fp replacement now t i).1
| ps_second cfg code name key transport issuer t i :
    pairing_step i (create_second_device_pairing cfg code name key transport issuer t i).1
| ps_rescan code key transport t i : pairing_step i (check_second_device_rescan code key transport t i).1
| ps_sweep t i : pairing_step i (sweep_provisional_pairings t i).1
| ps_console cfg o confirmation t i : pairing_step i (console_revoke_devices cfg plan_digest o confirmation t i).1
| ps_cancel cfg op t i : pairing_step i (console_cancel_second_device cfg op t i).1
| ps_spend cfg bk bk' l i : ledger_step receipt_verifies cfg (in_ledger i, bk) (l, bk') ->
    pairing_step i (set_ledger l i)
| ps_restart path fp t1 t2 t3 i : pairing_step i (open path (Some (ls_disk (in_ledger i))) fp t1 t2 t3).1.

(** A closed property is an invariant. *)
Lemma pairing_step_closed P i j : closed P -> pairing_step i j -> holds P i -> holds P j.
Proof.
  intros HP Hs H. destruct Hs; try (by apply (holds_lock _ (closed_core P HP)));
    eauto using request_pairing_closed, confirm_pairing_closed, create_bootstrap_ticket_pairing_closed,
      create_remote_pairing_closed, issue_token_challenge_closed, issue_local_token_challenge_closed,
      issue_token_kind_closed, bump_epoch_closed, revoke_closed, rotate_client_key_closed, rebind_to_identity_closed.
  all: eauto using create_budget_elevation_request_closed, create_replacement_request_closed,
      create_second_device_closed, sweep_provisional_pairings_closed, console_revoke_devices_closed,
      console_cancel_second_device_closed.
  - by eapply (grant_closed P HP).
  - exact (proj2 (grant_closed P HP cfg terms_text op confirmation (GrantTerms_new 0) at_ 0 ttl t i H)).
  - exact (proj1 (replacement_closed P HP cfg op confirmation "" "" "" now at_ t i H)).
  - exact (proj2 (replacement_closed P HP cfg op "" id fp replacement now 0 t i H)).
  - by apply (rescan_locked_closed P HP), (holds_lock _ (closed_core P HP)).
  - by eapply (ledger_step_frame P (closed_same P HP)) in H0.
  - apply (open_closed P HP), H.
Qed.

Lemma pairing_steps_closed P i j : closed P -> rtc pairing_step i j -> holds P i -> holds P j.
Proof. intros HP. induction 1; eauto using pairing_step_closed. Qed.

End Steps.
