(* ===== verification/PairingProps.v ===== *)
(** * A revoked token stays revoked

    Every operation of the pairing service as a step, with a restart that forgets
    everything but the file on disk: once the owner has ended an epoch of a pairing,
    no token of that epoch or of an earlier one is accepted again, whatever is paired,
    rotated, rebound or restarted afterwards and however the writes fail. *)

From S2P Require Import Prelude Text Types BTree SpendBudget CallSpend PairingStore SpendLedger Pairing Elevation SecondDevice ElevationTerms PairingFrame SpendProps SpendFrame PairingSteps.

(** ** Clients in a changed file *)

Lemma find_client_cons cid c l f : find_client cid (set_clients (c :: l) f) =
  if decide (pc_client_id c = cid) then Some c else find_client cid (set_clients l f).
Proof. unfold find_client. simpl. case_decide; [done|]. by destruct (list_find _ l) as [[]|]. Qed.

Lemma find_client_filter (Q : string -> Prop) `{forall x, Decision (Q x)} cid f l :
  find_client cid (set_clients (filter (fun c => Q (pc_client_id c)) l) f) =
  if decide (Q cid) then find_client cid (set_clients l f) else None.
Proof.
  induction l as [|c l IH]; [by case_decide|]. rewrite filter_cons, find_client_cons.
  destruct (decide (Q (pc_client_id c))); [rewrite find_client_cons|];
    destruct (decide (pc_client_id c = cid)) as [<-|]; rewrite ?IH; by repeat case_decide.
Qed.

Lemma find_client_gone (Q : string -> Prop) `{forall x, Decision (Q x)} cid f l : ~ Q cid ->
  find_client cid (set_clients (filter (fun c => Q (pc_client_id c)) l) f) = None.
Proof. intros. rewrite find_client_filter. by rewrite decide_False. Qed.

Lemma find_client_without cid f : find_client cid (without_client cid f) = None.
Proof. refine (find_client_gone (fun x => x <> cid) cid f (pf_clients f) _). tauto. Qed.

Lemma find_client_append cid r f l : find_client cid (set_clients (l ++ [r]) f) =
  match find_client cid (set_clients l f) with
  | Some c => Some c
  | None => if decide (pc_client_id r = cid) then Some r else None
  end.
Proof.
  induction l as [|c l IH]; [cbn [app]; by rewrite find_client_cons|]. rewrite <- app_comm_cons, !find_client_cons.
  by destruct (decide (pc_client_id c = cid)).
Qed.

Lemma find_client_map h cid f l : (forall c, pc_client_id (h c) = pc_client_id c) ->
  find_client cid (set_clients (map h l) f) = h <$> find_client cid (set_clients l f).
Proof.
  intros Hh. induction l as [|c l IH]; [done|]. rewrite map_cons, !find_client_cons, Hh.
  by destruct (decide (pc_client_id c = cid)).
Qed.

Lemma update_client_clients id h f : (forall c, pc_client_id (h c) = pc_client_id c) ->
  forall cid c, find_client cid (update_client id h f) = Some c ->
  exists c', find_client cid f = Some c' /\ (c = c' \/ (cid = id /\ c = h c')).
Proof.
  intros Hh cid c. unfold update_client. destruct (list_find _ (pf_clients f)) as [[idx x]|] eqn:L; [|eauto].
  rewrite (find_client_same cid f (set_clients (pf_clients f) f)) by done.
  revert idx x L. induction (pf_clients f) as [|y l IH]; intros idx x L; [done|]. simpl in L.
  destruct (decide (pc_client_id y = id)) as [Hy|Hy].
  - simplify_eq. simpl. rewrite !find_client_cons, Hh. case_decide; naive_solver.
  - destruct (list_find _ l) as [[j z]|] eqn:Lz; [|done]. simpl in L. simplify_eq. simpl. rewrite !find_client_cons.
    case_decide; [naive_solver|]. by eapply IH.
Qed.

Lemma find_client_updated h id f : (forall c, pc_client_id (h c) = pc_client_id c) ->
  find_client id (update_client id h f) = h <$> find_client id f.
Proof.
  intros Hh. unfold update_client. destruct (list_find _ (pf_clients f)) as [[idx x]|] eqn:L.
  - rewrite (find_client_same id f (set_clients (pf_clients f) f)) by done.
    revert idx x L. induction (pf_clients f) as [|y l IH]; intros idx x L; [done|]. simpl in L.
    destruct (decide (pc_client_id y = id)) as [Hy|Hy].
    + simplify_eq. simpl. by rewrite !find_client_cons, Hh, !decide_True by done.
    + destruct (list_find _ l) as [[k z]|] eqn:Lz; [|done]. simpl in L. simplify_eq. simpl.
      rewrite !find_client_cons, !decide_False by done. by eapply IH.
  - unfold find_client. by rewrite L.
Qed.

(** ** Dead epochs *)

Section Dead.
Context (cid : string) (E : Z).

(** No token of [cid] with an epoch up to [E] can match a client, now or after
    the next pairing of [cid]. *)
Definition dead (f : PairingFile) : Prop :=
  E <= last_epoch_of cid f /\ forall c, find_client cid f = Some c -> E < pc_epoch c.

Lemma dead_same f g : pf_clients f = pf_clients g -> pf_last_epoch f = pf_last_epoch g -> dead f -> dead g.
Proof. unfold dead, last_epoch_of, find_client. by intros -> ->. Qed.

Lemma dead_core f g : core f = core g -> dead f -> dead g.
Proof. intros (? & ? & _)%core_eq. by apply dead_same. Qed.

Lemma dead_track id epoch f : (id = cid -> E <= epoch) -> dead f -> dead (track_epoch id epoch f).
Proof.
  intros He [Hl Hc]. split; [|done]. unfold last_epoch_of, track_epoch. simpl.
  destruct (decide (id = cid)) as [->|]; [rewrite lookup_insert_eq; auto|by rewrite lookup_insert_ne].
Qed.

Lemma dead_append l r f : dead (set_clients l f) -> (pc_client_id r = cid -> E < pc_epoch r) ->
  dead (set_clients (l ++ [r]) f).
Proof.
  intros [? Hc] Hr. split; [done|]. intros c. rewrite find_client_append.
  destruct (find_client cid _) eqn:F; [by intros [= <-]; apply Hc|]. case_decide; [|done]. intros [= <-]. auto.
Qed.

Lemma dead_push r f : dead f -> (pc_client_id r = cid -> E < pc_epoch r) ->
  dead (set_clients (pf_clients f ++ [r]) f).
Proof. intros Hd. apply dead_append. by eapply dead_same; [| |exact Hd]. Qed.

Lemma dead_filter (Q : string -> Prop) `{forall x, Decision (Q x)} f : dead f ->
  dead (set_clients (filter (fun c => Q (pc_client_id c)) (pf_clients f)) f).
Proof.
  intros [? Hc]. split; [done|]. intros c. rewrite find_client_filter. case_decide; [|done]. apply Hc.
Qed.

Lemma dead_update id h f : (forall c, pc_client_id (h c) = pc_client_id c) ->
  (forall c, id = cid -> find_client cid f = Some c -> E < pc_epoch c -> E < pc_epoch (h c)) ->
  dead f -> dead (update_client id h f).
Proof.
  intros Hh He [Hl Hc]. split.
  - unfold last_epoch_of, update_client. by destruct (list_find _ _) as [[]|].
  - intros c (c' & F & [->|[Hid ->]])%update_client_clients; auto.
Qed.

Lemma dead_map h f : (forall c, pc_client_id (h c) = pc_client_id c) -> (forall c, pc_epoch (h c) = pc_epoch c) ->
  dead f -> dead (set_clients (map h (pf_clients f)) f).
Proof.
  intros Hh He [Hl Hc]. split; [done|]. intros c. rewrite find_client_map by done.
  intros (c' & F & ->)%fmap_Some. rewrite He. by apply Hc.
Qed.

Lemma dead_closed : closed dead.
Proof.
  split.
  - intros f g ? ? _. by apply dead_same.
  - intros id x f Hx Hf. apply dead_track; [|done]. intros ->. destruct Hf. lia.
  - intros f0 r f [H0 _] Hr Hf. apply dead_push; [done|]. intros Hid. rewrite Hid in Hr. lia.
  - intros Q ? f. apply dead_filter.
  - intros h f. apply dead_map.
  - intros id h f Hh He. apply dead_update; [done|]. intros c _ _. by rewrite He.
  - intros id c f F Hf. pose proof Hf as [_ Hc]. apply dead_track; [intros ->; specialize (Hc _ F); lia|].
    apply dead_update; [done| |done]. intros c' -> F' ?. simpl. rewrite F in F'. simplify_eq. lia.
  - done.
Qed.

End Dead.

Section Steps.
Context `{PR : Prims} `{PP : PairingPrims}.
Context (receipt_verifies : bytes -> SpendGrant -> bool) (terms_text : TermsError -> string).
Context (sign_claims : Claims -> string -> result string string) (plan_digest : RevokeOptions -> RevokePlan -> string).

(** ** Ending an epoch *)

(** The owner or the client ended epoch [E] of [cid], and was told so. *)
Inductive ended (cid : string) (E : Z) (i j : Inner) : Prop :=
| ended_revoke cfg t c : find_client cid (in_file i) = Some c -> E = pc_epoch c ->
    revoke cfg cid t i = (j, Ok tt) -> ended cid E i j
| ended_bump cfg t c epoch : find_client cid (in_file i) = Some c -> E = pc_epoch c -> 0 <= E < U64_MAX ->
    bump_epoch cfg cid t i = (j, Ok epoch) -> ended cid E i j
| ended_rotate cfg t c key sig r : find_client cid (in_file i) = Some c -> E = pc_epoch c ->
    rotate_client_key cfg cid key sig t i = (j, Ok r) -> ended cid E i j
| ended_console cfg t c o confirmation plan : find_client cid (in_file i) = Some c -> E = pc_epoch c ->
    console_revoke_devices cfg plan_digest o (Some confirmation) t i = (j, Ok plan) -> cid ∈ rp_pairings plan ->
    ended cid E i j.

Lemma written_dead cid E t i j (u : unit) : inner_persist t i = (j, Ok u) -> dead cid E (in_file i) -> holds (dead cid E) j.
Proof.
  intros (C & _ & D)%inner_persist_core H. rewrite <- (D eq_refl) in C.
  split; [rewrite <- (D eq_refl)|]; by eapply dead_core; [symmetry; apply C|].
Qed.

Lemma locked_client cid t i c : find_client cid (in_file i) = Some c ->
  find_client cid (in_file (inner_lock t i)) = Some c.
Proof. by rewrite (find_client_same cid _ _ (lock_clients t i)). Qed.

Lemma revoked_dead cfg cid t i j c : find_client cid (in_file i) = Some c -> revoke cfg cid t i = (j, Ok tt) ->
  holds (dead cid (pc_epoch c)) j.
Proof.
  intros F%(locked_client _ t) R. unfold revoke in R.
  destruct (bind_result _ _) as [c'|] eqn:G; [|done]. apply guarded_some in G. simplify_eq.
  destruct (inner_persist _ _) as [k [u|]] eqn:W; simplify_eq.
  change (holds (dead cid (pc_epoch c)) k). eapply written_dead; [exact W|]. split.
  - unfold last_epoch_of. simpl. rewrite lookup_insert_eq. simpl. lia.
  - intros x. unfold in_file. simpl. rewrite (find_client_same _ _ (without_client cid (in_file (inner_lock t i)))) by done.
    by rewrite find_client_without.
Qed.

Lemma bumped_dead cfg cid t i j c epoch : find_client cid (in_file i) = Some c -> 0 <= pc_epoch c < U64_MAX ->
  bump_epoch cfg cid t i = (j, Ok epoch) -> holds (dead cid (pc_epoch c)) j.
Proof.
  intros F%(locked_client _ t) He R. unfold bump_epoch in R.
  destruct (bind_result _ _) as [c'|] eqn:G; [|done]. apply guarded_some in G. simplify_eq.
  destruct (inner_persist _ _) as [k [u|]] eqn:W; simplify_eq.
  eapply written_dead; [exact W|].
  assert (Hb : wrapping_add_u64 (pc_epoch c) 1 = pc_epoch c + 1).
  { unfold wrapping_add_u64. rewrite Z.mod_small; [done|]. change (2 ^ 64) with (U64_MAX + 1). lia. }
  split.
  - unfold last_epoch_of. simpl. rewrite lookup_insert_eq. simpl. lia.
  - intros x. unfold in_file. simpl.
    rewrite (find_client_same _ _ (update_client cid (set_epoch (wrapping_add_u64 (pc_epoch c) 1))
      (in_file (inner_lock t i)))) by done.
    rewrite find_client_updated, F by done. intros [= <-]. simpl. lia.
Qed.

Lemma rotated_dead cfg cid key sig t i j c r : find_client cid (in_file i) = Some c ->
  rotate_client_key cfg cid key sig t i = (j, Ok r) -> holds (dead cid (pc_epoch c)) j.
Proof.
  intros F%(locked_client _ t) R. unfold rotate_client_key in R. cbv zeta in R.
  destruct (bind_result (parse_pubkey key) _) as [sg|]; [|done].
  destruct (bind_result (ok_or _ UnknownClient) _) as [[old epoch]|] eqn:G; [|done].
  destruct (inner_persist _ _) as [k [u|]] eqn:W; simplify_eq.
  assert (Ho : old = c /\ pc_epoch c < epoch).
  { rewrite F in G. cbn [ok_or bind_result] in G. repeat (unfold bind_result at 1 in G; case_match; [|done]).
    unfold checked_add, ok_or in *. repeat case_match; simplify_eq. split; [done|lia]. }
  destruct Ho as [-> He]. set (new_id := client_id_from_pubkey _) in *.
  eapply written_dead; [exact W|]. split.
  - unfold last_epoch_of. simpl. destruct (decide (new_id = cid)) as [->|].
    + rewrite lookup_insert_eq. simpl. lia.
    + rewrite lookup_insert_ne, lookup_insert_eq by done. simpl. lia.
  - intros x. unfold in_file. simpl. unfold rotated_file.
    match goal with |- find_client _ (file_revoke_grants _ (drop_device_keys _ ?f)).1 = _ -> _ =>
      rewrite (find_client_same cid _ f) by done end.
    rewrite find_client_append.
    match goal with |- context [find_client cid (set_clients ?l ?f)] =>
      replace (find_client cid (set_clients l f)) with (@None PairedClient)
        by (symmetry; refine (find_client_gone (fun x => x <> cid /\ x <> new_id) cid f _ _); tauto) end.
    simpl. case_decide; [|done]. by intros [= <-].
Qed.

(** What a confirmed console revocation does to a pairing it lists. *)
Lemma end_pairing_last l : forall f cid c, cid ∈ l -> find_client cid f = Some c ->
  pc_epoch c <= last_epoch_of cid (fold_left end_pairing l f).
Proof.
  assert (Hm : forall l f cid E, E <= last_epoch_of cid f -> E <= last_epoch_of cid (fold_left end_pairing l f)).
  { clear. intros l. induction l as [|x l IH]; intros f cid E H; [done|]. apply IH. unfold end_pairing.
    destruct (find_client x f); [|done]. unfold last_epoch_of in *. simpl.
    destruct (decide (x = cid)) as [->|]; [rewrite lookup_insert_eq; simpl; lia|by rewrite lookup_insert_ne]. }
  induction l as [|x l IH]; intros f cid c Hl F; [by apply elem_of_nil in Hl|]. simpl.
  destruct (decide (x = cid)) as [->|].
  - apply Hm. unfold end_pairing. rewrite F. unfold last_epoch_of. simpl. rewrite lookup_insert_eq. simpl. lia.
  - apply IH; [set_solver|]. rewrite <- F. apply find_client_same. unfold end_pairing. by destruct (find_client x f).
Qed.

Lemma end_relations_last l : forall f,
  pf_last_epoch (fold_left (fun f k => end_relation_grants (rk_client_id k) f) l f) = pf_last_epoch f.
Proof. induction l as [|k l IH]; intros f; [done|]. simpl. by rewrite IH. Qed.

Lemma console_revoked_dead cfg cid t i j c o confirmation plan : find_client cid (in_file i) = Some c ->
  console_revoke_devices cfg plan_digest o (Some confirmation) t i = (j, Ok plan) -> cid ∈ rp_pairings plan ->
  holds (dead cid (pc_epoch c)) j.
Proof.
  intros F%(locked_client _ t) R Hp. unfold console_revoke_devices in R. do 2 (case_match; [done|]). cbv zeta in R.
  destruct (make_plan _ _ _ _) as [[[plan' pairings] removed]|] eqn:M; [|done]. do 2 (case_match; [done|]).
  destruct (inner_persist _ _) as [k [u|]] eqn:W; simplify_eq.
  assert (Hin : cid ∈ pairings).
  { unfold make_plan, bind_result in M. cbv zeta in M. do 2 (case_match; [|done]). simplify_eq. simpl in Hp.
    rewrite in_order_perm in Hp. by apply elem_of_elements in Hp. }
  change (holds (dead cid (pc_epoch c)) k). eapply written_dead; [exact W|]. split.
  - etransitivity; [by eapply end_pairing_last|]. unfold in_file. simpl. unfold console_revoked_file, last_epoch_of. simpl.
    by rewrite end_relations_last.
  - intros x Hx. exfalso. unfold in_file in Hx. simpl in Hx. unfold console_revoked_file in Hx. cbv zeta in Hx.
    match type of Hx with find_client _ (set_replacement_approvals _ (set_pending_elevations _ (set_pending_device_keys _
      (set_registered_ops _ (set_device_keys _ (set_clients ?l ?f)))))) = _ =>
      assert (N : find_client cid (set_clients l f) = None) by (refine (find_client_gone (fun x => x ∉ pairings) cid f _ _); tauto)
    end.
    discriminate (eq_trans (eq_sym N) Hx).
Qed.

Lemma ended_dead cid E i j : ended cid E i j -> holds (dead cid E) j.
Proof. intros []; subst; eauto using revoked_dead, bumped_dead, rotated_dead, console_revoked_dead. Qed.

(** A token binding of a dead epoch is refused. *)
Lemma dead_token_refused cfg cid E epoch fp scopes t i : holds (dead cid E) i -> epoch <= E ->
  is_ok (verify_token_binding cfg receipt_verifies cid epoch fp scopes t i).2 = false.
Proof.
  intros [[_ H] _]%(holds_lock _ (dead_core cid E) t) He.
  unfold verify_token_binding, verify_token_binding_with_reason, cmap_err, bind_result. cbv zeta.
  case_match; [|done]. destruct (find_client cid _) as [c|]; [|done]. simpl.
  specialize (H c eq_refl). destruct (check_provisional _ _ _ _); [|done]. simpl.
  by replace (pc_epoch c =? epoch) with false by lia.
Qed.

(** C8: once an epoch of a pairing was ended with success, by revoking the client,
    bumping its epoch, rotating its key or a confirmed revocation on the console,
    no token of that epoch or an earlier one is accepted again: not after any
    sequence of operations, under any configuration, with writes that fail at any
    point and restarts from what was last on disk. *)
Theorem ended_epoch_never_accepted cid E epoch i j k cfg fp scopes t :
  ended cid E i j -> rtc (pairing_step receipt_verifies terms_text sign_claims plan_digest) j k -> epoch <= E ->
  is_ok (verify_token_binding cfg receipt_verifies cid epoch fp scopes t k).2 = false.
Proof. eauto using dead_token_refused, pairing_steps_closed, dead_closed, ended_dead. Qed.

End Steps.
