(* ===== verification/ElevationProps.v ===== *)
(** * What the owner's confirmation guards

    Requests that wait for the owner stay well-formed, a grant takes the phrase or
    the code that was shown to the owner for that request and uses it up, guessing
    codes is bounded, and the approval of a new identity works once. *)

From S2P Require Import Prelude Text Types BTree SpendBudget CallSpend PairingStore SpendLedger Pairing Elevation SecondDevice ElevationTerms PairingFrame SpendProps SpendFrame PairingSteps.

(** ** Requests *)

Lemma requests_closed : closed requests_ok.
Proof.
  split; unfold requests_ok; try done.
  - intros f g _ _ Hs. rewrite !Forall_forall. auto.
  - intros id h f _ _. unfold update_client. by destruct (list_find _ _) as [[]|].
  - intros id c f _ H. unfold update_client. by destruct (list_find _ _) as [[]|].
  - intros e f He H. simpl. apply Forall_app. split; [done|]. by apply Forall_singleton.
Qed.

Section Elevation.
Context `{PR : Prims} `{PP : PairingPrims}.
Context (receipt_verifies : bytes -> SpendGrant -> bool) (terms_text : TermsError -> string).
Context (sign_claims : Claims -> string -> result string string) (plan_digest : RevokeOptions -> RevokePlan -> string).

(** Every request that waits for the owner is well-formed, in memory and on
    disk, through every sequence of operations and restarts: it asks for spending or
    for the front door and nothing else, the front door alone and without a budget,
    and proposed terms are within the ceilings with canonical recipients. *)
Theorem requests_stay_well_formed i j : holds requests_ok i ->
  rtc (pairing_step receipt_verifies terms_text sign_claims plan_digest) i j ->
  Forall request_ok (pf_pending_elevations (in_file j)) /\ Forall request_ok (pf_pending_elevations (ls_disk (in_ledger j))).
Proof. intros H S. exact (pairing_steps_closed _ _ _ _ _ _ _ requests_closed S H). Qed.

(** ** Grants *)

Lemma lock_confirmations t i op c : in_owner_confirmations (inner_lock t i) !! op = Some c ->
  in_owner_confirmations i !! op = Some c.
Proof. unfold inner_lock, prune_owner_confirmations. simpl. by intros [? _]%map_lookup_filter_Some. Qed.

Lemma open_operation_ok op t i j e : open_operation op t i = (j, Ok e) ->
  j = i /\ find_elevation op (in_file i) = Some e /\ tk_now t < pe_expires_at e.
Proof.
  unfold open_operation. destruct (find_elevation _ _) as [x|]; [|done]. case_match eqn:X.
  - destruct (inner_persist _ _) as [? []]; done.
  - intros [= <- <-]. split_and!; [done..|lia].
Qed.

Lemma verify_grant_confirmation_ok op confirmation now t i j : verify_grant_confirmation op confirmation now t i = (j, Ok tt) ->
  j = i /\ exists c, in_owner_confirmations i !! op = Some c /\ now < oc_expires_at c /\
    confirmation_matches c (in_owner_code_failures i <? OWNER_CODE_FAILURES_PER_RUN) confirmation = true.
Proof.
  unfold verify_grant_confirmation. destruct (in_owner_confirmations i !! op) as [c|]; [|done].
  case_match eqn:X; [done|]. case_match eqn:M; [|by repeat case_match].
  intros [= <-]. split; [done|]. exists c. split_and!; [done|lia|done].
Qed.

Lemma find_elevation_gone op f g : pf_pending_elevations g = pf_pending_elevations (without_elevation op f) ->
  find_elevation op g = None.
Proof.
  intros E. unfold find_elevation. rewrite E. destruct (list_find _ _) as [[n e]|] eqn:L; [|done].
  apply list_find_Some in L as (L & Hop & _). apply list_elem_of_lookup_2, list_elem_of_filter in L as [? _]. done.
Qed.

(** A grant that is live at every reading of the clock is still there when the
    file was written. *)
Lemma persist_rounds_keeps fuel round env candidate disk disk' file g :
  persist_rounds fuel round env candidate disk = Some (disk', Ok file) ->
  (forall k, is_live (pe_clock env k) g = true) -> g ∈ pf_grants candidate -> g ∈ pf_grants file.
Proof.
  intros Hp Hlive. revert round candidate disk Hp.
  induction fuel as [|fuel IH]; intros round candidate disk; [done|].
  cbn [persist_rounds]. set (c := retain_live_grants _ candidate). intros Hp Hg.
  assert (Hc : g ∈ pf_grants c) by (apply list_elem_of_filter; by split).
  clearbody c. revert Hp.
  destruct (pe_io env round); [done| | |]; destruct (has_dead_grant _ c); try done; try (intros Hp; by eapply IH).
  destruct (has_dead_grant _ c); [intros Hp; by eapply IH|]. by intros [= _ <-].
Qed.

Lemma inner_persist_keeps t i j (u : unit) g : inner_persist t i = (j, Ok u) ->
  (forall k, is_live (pe_clock (en_persist (tk_env t)) k) g = true) ->
  g ∈ pf_grants (in_file i) -> g ∈ pf_grants (in_file j).
Proof.
  unfold inner_persist, persist. intros W Hlive Hg.
  destruct (persist_rounds _ _ _ _ _) as [[disk [file|]]|] eqn:Hp; simplify_eq.
  by eapply persist_rounds_keeps.
Qed.

Lemma is_live_earlier now now' g : now' <= now -> is_live now g = true -> is_live now' g = true.
Proof. unfold is_live. intros Hle [[-> Hx]%andb_prop ->]%andb_prop. by replace (now' <? sg_expires_at g) with true by lia. Qed.

Lemma persisted_grants t i j (u : unit) : inner_persist t i = (j, Ok u) ->
  pf_grants (in_file j) `sublist_of` pf_grants (in_file i) /\ ls_disk (in_ledger j) = in_file j /\
  pf_pending_elevations (in_file j) = pf_pending_elevations (in_file i) /\
  in_owner_confirmations j = in_owner_confirmations i.
Proof.
  intros W. pose proof W as ((_ & _ & _ & Hp & _)%core_eq & _ & D)%inner_persist_core. specialize (D eq_refl).
  unfold inner_persist in W. pose proof (persist_file (en_persist (tk_env t)) (in_ledger i)) as [F _].
  destruct (persist _ _) as [l [[]|]]; simplify_eq. destruct F. done.
Qed.

(** C9: a spending grant is made only when the owner channel is on and what was
    typed is the phrase, or while codes are on the code, that was shown to the owner
    for this unexpired request.  It gives the scopes that were asked for to the client
    that asked, under the owner's normalized, well-formed terms, in the client's
    current epoch.  It is live when the owner is told; it is in the file, in memory
    and on disk, unless the clock ran past that moment and back while the file was
    written; it is the only live grant of the client, and neither the request nor
    its confirmation can be used again. *)
Theorem grant_takes_the_owners_word cfg op confirmation terms at_ after t i j g :
  grant_elevation cfg terms_text op confirmation terms at_ after t i = (j, Ok g) ->
  pg_owner_control_enabled cfg = true /\
  (exists e c, find_elevation op (in_file i) = Some e /\ tk_now t < pe_expires_at e /\
     in_owner_confirmations i !! op = Some c /\ at_ < oc_expires_at c /\
     confirmation_matches c (in_owner_code_failures i <? OWNER_CODE_FAILURES_PER_RUN) confirmation = true /\
     sg_op_id g = pe_op_id e /\ sg_client_id g = pe_client_id e /\ sg_scopes g = pe_scopes e /\
     FrontDoor ∉ pe_scopes e) /\
  (exists t', normalized terms = Ok t' /\ terms_ok t' /\ sg_budget g = Some (from_terms t') /\ sg_expires_at g = sg_granted_at g + gt_ttl_secs t') /\
  (exists c, find_client (sg_client_id g) (in_file i) = Some c /\ sg_epoch g = pc_epoch c) /\
  is_live after g = true /\
  ((forall k, pe_clock (en_persist (tk_env t)) k <= after) -> g ∈ pf_grants (in_file j)) /\
  ls_disk (in_ledger j) = in_file j /\
  (forall g' now, g' ∈ pf_grants (in_file j) -> sg_client_id g' = sg_client_id g -> is_live now g' = true -> g' = g) /\
  find_elevation op (in_file j) = None /\ in_owner_confirmations j !! op = None.
Proof.
  unfold grant_elevation. destruct (pg_owner_control_enabled cfg); [|done]. simpl negb. cbv iota.
  destruct (normalized terms) as [t'|] eqn:N; [|done]. unfold cbind at 1.
  destruct (open_operation _ _ _) as [i1 [e|]] eqn:O; [|done]. apply open_operation_ok in O as (-> & Fe & He).
  case_match eqn:FD; [done|]. unfold cbind.
  destruct (verify_grant_confirmation _ _ _ _ _) as [i2 [[]|]] eqn:V; [|done].
  apply verify_grant_confirmation_ok in V as (-> & c & Hc%lock_confirmations & Hx & Hm).
  destruct (find_client _ _) as [client|] eqn:Fc; [|done]. cbv zeta.
  destruct (inner_persist _ _) as [k [u|]] eqn:W; [|done].
  pose proof W as (Hs & D & Hp & Hk)%persisted_grants. case_match eqn:Hlive; [|done]. intros [= <- <-].
  pose proof (inner_lock_core t i) as [(Lc & _ & _ & Le & _)%core_eq _].
  split_and!.
  - done.
  - exists e, c. unfold find_elevation in *. rewrite <- Le. apply bool_decide_eq_false in FD. done.
  - exists t'. split; [done|]. split; [by eapply normalized_ok|done].
  - exists client. simpl. by rewrite <- (find_client_same _ _ _ Lc).
  - exact Hlive.
  - intros Hclock. apply (inner_persist_keeps t _ k u _ W).
    + intros n. exact (is_live_earlier _ _ _ (Hclock n) Hlive).
    + apply elem_of_app. right. by apply list_elem_of_singleton.
  - exact D.
  - intros g' now Hg Hcl Hl'. eapply elem_of_sublist in Hs; [|exact Hg]. simpl in Hs.
    apply elem_of_app in Hs as [(x & -> & _)%list_elem_of_fmap| ->%list_elem_of_singleton]; [|done].
    case_match eqn:B; [done|]. apply bool_decide_eq_false in B. by simpl in Hcl.
  - exact (find_elevation_gone op (in_file (inner_lock t i)) (in_file k) Hp).
  - simpl. by rewrite lookup_delete_eq.
Qed.

Lemma persist_write_fails env s w : pe_io env 0 = WriteFails w -> persist env s = (s, Err (Io w)).
Proof. intros Hw. unfold persist. simpl. rewrite Hw. by destruct s. Qed.

(** C38: a confirmed grant whose write fails is reported to the owner as an error,
    but stays in memory: the client holds it, under the owner's terms, until the
    node restarts.  The disk does not have it and the confirmation is not used up. *)
Theorem failed_grant_is_held cfg op confirmation terms t' at_ after t i e c client w :
  pg_owner_control_enabled cfg = true -> normalized terms = Ok t' ->
  find_elevation op (in_file i) = Some e -> tk_now t < pe_expires_at e -> FrontDoor ∉ pe_scopes e ->
  in_owner_confirmations (inner_lock t i) !! op = Some c -> at_ < oc_expires_at c ->
  confirmation_matches c (in_owner_code_failures i <? OWNER_CODE_FAILURES_PER_RUN) confirmation = true ->
  find_client (pe_client_id e) (in_file i) = Some client -> pe_io (en_persist (tk_env t)) 0 = WriteFails w ->
  exists j g, grant_elevation cfg terms_text op confirmation terms at_ after t i = (j, Err (Io w)) /\
    g ∈ pf_grants (in_file j) /\ sg_client_id g = pe_client_id e /\ sg_scopes g = pe_scopes e /\
    sg_epoch g = pc_epoch client /\ sg_budget g = Some (from_terms t') /\
    ls_disk (in_ledger j) = ls_disk (in_ledger (inner_lock t i)) /\ in_owner_confirmations j !! op = Some c.
Proof.
  intros On N Fe He Hfd Hc Hx Hm Fc Hw.
  pose proof (inner_lock_core t i) as [(Lc & _ & _ & Le & _)%core_eq _].
  assert (Fe' : find_elevation op (in_file (inner_lock t i)) = Some e) by (unfold find_elevation in *; by rewrite Le).
  unfold grant_elevation. rewrite On, N. simpl negb. cbv iota. unfold cbind at 1, open_operation. rewrite Fe'.
  replace (pe_expires_at e <=? tk_now t) with false by lia. rewrite bool_decide_false by done.
  unfold cbind, verify_grant_confirmation. rewrite Hc. replace (oc_expires_at c <=? at_) with false by lia.
  change (in_owner_code_failures (inner_lock t i)) with (in_owner_code_failures i). rewrite Hm.
  rewrite (find_client_same _ _ _ Lc), Fc. cbv zeta. unfold inner_persist. rewrite (persist_write_fails _ _ w) by done.
  eexists _, _. split; [reflexivity|]. unfold in_file. simpl.
  split; [apply elem_of_app; right; by apply list_elem_of_singleton|]. done.
Qed.

(** ** Guessing *)

(** What can happen between two restarts: someone types a confirmation, or the
    owner is shown a new one. *)
Inductive guess_event : Type :=
| Guess (op confirmation : string) (now : Z) (t : Tick)
| Shown (cfg : PairingConfig) (op label : string) (expires : Z) (cmd : bool) (nonce : bytes) (code : string)
    (d : delivery) (now : Z).

Definition run_event (e : guess_event) (i : Inner) : Inner :=
  match e with
  | Guess op confirmation now t => (verify_grant_confirmation op confirmation now t i).1
  | Shown cfg op label expires cmd nonce code d now => (console_challenge cfg op label expires cmd nonce code d now i).1
  end.

(** A confirmation that was compared and was not the right one. *)
Definition wrong (op confirmation : string) (now : Z) (i : Inner) : bool :=
  match in_owner_confirmations i !! op with
  | Some c => (now <? oc_expires_at c) &&
      negb (confirmation_matches c (in_owner_code_failures i <? OWNER_CODE_FAILURES_PER_RUN) confirmation)
  | None => false
  end.

(** Wrong guesses among events, counting those that [count] selects. *)
Fixpoint wrong_guesses (count : string -> Inner -> bool) (l : list guess_event) (i : Inner) : Z :=
  match l with
  | [] => 0
  | e :: l =>
      match e with
      | Guess op confirmation now _ => if wrong op confirmation now i && count op i then 1 else 0
      | Shown _ _ _ _ _ _ _ _ _ => 0
      end + wrong_guesses count l (run_event e i)
  end.

(** With short codes on; and at one request. *)
Definition codes_on (_ : string) (i : Inner) : bool := in_owner_code_failures i <? OWNER_CODE_FAILURES_PER_RUN.
Definition at_request (op op' : string) (_ : Inner) : bool := bool_decide (op' = op).

Definition shows (op : string) (e : guess_event) : bool :=
  match e with Guess _ _ _ _ => false | Shown _ op' _ _ _ _ _ _ _ => bool_decide (op' = op) end.

Lemma cancel_operation_memory op t i :
  in_owner_confirmations (cancel_operation op t i) = delete op (in_owner_confirmations i) /\
  in_owner_code_failures (cancel_operation op t i) = in_owner_code_failures i.
Proof. unfold cancel_operation, inner_persist. cbv zeta. by destruct (requester _ _); destruct (persist _ _). Qed.

Lemma guess_memory op confirmation now t i : let j := (verify_grant_confirmation op confirmation now t i).1 in
  if wrong op confirmation now i then
    in_owner_code_failures j = saturating_add U32_MAX (in_owner_code_failures i) 1 /\
    (forall op', op' <> op -> in_owner_confirmations j !! op' = in_owner_confirmations i !! op') /\
    match in_owner_confirmations i !! op, in_owner_confirmations j !! op with
    | Some c, Some c' => oc_failures c' = saturating_add U8_MAX (oc_failures c) 1 /\ oc_failures c' < OWNER_CODE_ATTEMPTS
    | _, None => True
    | None, Some _ => False
    end
  else j = i.
Proof.
  cbv zeta. unfold wrong, verify_grant_confirmation. destruct (in_owner_confirmations i !! op) as [c|] eqn:C; [|done].
  destruct (oc_expires_at c <=? now) eqn:X; [by replace (now <? oc_expires_at c) with false by lia|].
  replace (now <? oc_expires_at c) with true by lia. simpl andb.
  destruct (confirmation_matches _ _ _); [done|]. simpl negb. cbv iota zeta.
  destruct (saturating_sub OWNER_CODE_ATTEMPTS _ =? 0) eqn:L.
  - cbv [fst]. match goal with |- context [cancel_operation op t ?k] => destruct (cancel_operation_memory op t k) as [-> ->] end.
    simpl. rewrite lookup_delete_eq. split_and!; [done| |done]. intros op' Hne.
    by rewrite lookup_delete_ne, lookup_insert_ne by done.
  - case_match; cbv [fst]; simpl; rewrite lookup_insert_eq;
      (split_and!; [done|intros op' Hne; by rewrite lookup_insert_ne by done|done|simpl; unfold saturating_sub in L; lia]).
Qed.

Lemma shown_memory cfg op label expires cmd nonce code d now i op' c :
  let j := (console_challenge cfg op label expires cmd nonce code d now i).1 in
  in_owner_code_failures j = in_owner_code_failures i /\
  (op' <> op -> in_owner_confirmations j !! op' = Some c -> in_owner_confirmations i !! op' = Some c).
Proof.
  cbv zeta. unfold console_challenge. destruct (negb _); [done|]. cbv zeta.
  destruct d; [|destruct cmd|]; simpl; (split; [done|]); intros Hne; try done;
    rewrite lookup_insert_ne by done; by intros [? _]%map_lookup_filter_Some.
Qed.

Lemma code_guesses_left l : forall i, 0 <= in_owner_code_failures i ->
  wrong_guesses codes_on l i <= Z.max 0 (OWNER_CODE_FAILURES_PER_RUN - in_owner_code_failures i).
Proof.
  induction l as [|[op confirmation now t|cfg op label expires cmd nonce code d now] l IH]; intros i Hi;
    cbn [wrong_guesses run_event]; [lia| |].
  - pose proof (guess_memory op confirmation now t i) as G. cbv zeta in G. destruct (wrong _ _ _ _); simpl andb.
    + destruct G as (G & _). specialize (IH (verify_grant_confirmation op confirmation now t i).1). rewrite G in IH.
      unfold saturating_add, codes_on, OWNER_CODE_FAILURES_PER_RUN, U32_MAX in *. case_match; lia.
    + rewrite G. specialize (IH i Hi). lia.
  - pose proof (shown_memory cfg op label expires cmd nonce code d now i op (mkConfirmation [] None 0 0 false)) as [G _].
    specialize (IH (console_challenge cfg op label expires cmd nonce code d now i).1). rewrite G in IH. specialize (IH Hi). lia.
Qed.

(** How many wrong guesses a request still takes. *)
Definition guesses_left (op : string) (i : Inner) : Z :=
  match in_owner_confirmations i !! op with Some c => Z.max 1 (OWNER_CODE_ATTEMPTS - oc_failures c) | None => 0 end.

Lemma request_guesses_left op l : forall i, Forall (fun e => shows op e = false) l ->
  (forall c, in_owner_confirmations i !! op = Some c -> 0 <= oc_failures c) ->
  wrong_guesses (at_request op) l i <= guesses_left op i.
Proof.
  induction l as [|[op' confirmation now t|cfg op' label expires cmd nonce code d now] l IH]; intros i Hl Hi;
    cbn [wrong_guesses run_event]; [unfold guesses_left; case_match; lia| |]; apply Forall_cons in Hl as [He Hl].
  - pose proof (guess_memory op' confirmation now t i) as G. cbv zeta in G. unfold at_request at 1.
    destruct (wrong op' confirmation now i) eqn:Wr; simpl andb; [|rewrite G; specialize (IH i Hl Hi); lia].
    destruct G as (_ & Go & Gc). set (j := (verify_grant_confirmation op' confirmation now t i).1) in *.
    specialize (IH j Hl). unfold guesses_left in *. case_bool_decide as Hop.
    + subst op'. unfold wrong in Wr. destruct (in_owner_confirmations i !! op) as [c|]; [|done]. specialize (Hi c eq_refl).
      destruct (in_owner_confirmations j !! op) as [c'|].
      * destruct Gc as [Gf Gb]. unfold saturating_add, U8_MAX, OWNER_CODE_ATTEMPTS in *.
        assert (0 <= oc_failures c') by lia. specialize (IH ltac:(by intros ? [= <-])). lia.
      * specialize (IH ltac:(done)). lia.
    + rewrite (Go op) in IH by done. specialize (IH Hi). lia.
  - specialize (IH (console_challenge cfg op' label expires cmd nonce code d now i).1 Hl).
    pose proof (fun c => shown_memory cfg op' label expires cmd nonce code d now i op c) as G. cbv zeta in G.
    simpl in He. apply bool_decide_eq_false in He. unfold guesses_left in *.
    destruct (in_owner_confirmations (console_challenge _ _ _ _ _ _ _ _ _ _).1 !! op) as [c|] eqn:C.
    + destruct (G c) as [_ Gc]. rewrite (Gc (not_eq_sym He) eq_refl) in *. specialize (IH ltac:(by intros ? [= <-]; apply Hi)). lia.
    + specialize (IH ltac:(done)). case_match; lia.
Qed.

(** C28: between two restarts at most ten wrong guesses are made while short codes
    work, whatever is asked and typed, and each request takes at most three wrong
    guesses before it is gone. *)
Theorem guessing_is_bounded op l i : 0 <= in_owner_code_failures i ->
  (forall c, in_owner_confirmations i !! op = Some c -> 0 <= oc_failures c) ->
  wrong_guesses codes_on l i <= OWNER_CODE_FAILURES_PER_RUN /\
  (Forall (fun e => shows op e = false) l -> wrong_guesses (at_request op) l i <= OWNER_CODE_ATTEMPTS).
Proof.
  intros Hf Hc. split; [pose proof (code_guesses_left l i Hf); unfold OWNER_CODE_FAILURES_PER_RUN in *; lia|].
  intros Hl. pose proof (request_guesses_left op l i Hl Hc) as H. unfold guesses_left, OWNER_CODE_ATTEMPTS in *.
  destruct (in_owner_confirmations i !! op) as [c|]; [specialize (Hc c eq_refl)|]; lia.
Qed.

(** ** Replacing the identity *)

Lemma take_drop_gone op (l : list ReplacementApproval) : forall idx a,
  NoDup (map ra_op_id l) -> list_find (fun x => ra_op_id x = op) l = Some (idx, a) ->
  list_find (fun x => ra_op_id x = op) (take idx l ++ drop (S idx) l) = None.
Proof.
  intros idx a ND L. apply list_find_Some in L as (Hl & Ha & Hb). apply list_find_None, Forall_app. split.
  - apply Forall_lookup. intros n x [Hx Hn]%lookup_take_Some. by apply (Hb n x Hx).
  - apply Forall_lookup. intros n x Hx Hop. rewrite lookup_drop in Hx.
    assert (S idx + n = idx)%nat; [|lia]. apply (NoDup_lookup (map ra_op_id l) _ _ op); [done|..];
      rewrite list_lookup_fmap; [rewrite Hx|rewrite Hl]; simpl; by rewrite ?Hop, ?Ha.
Qed.

(** The owner's approval of a new identity is spent only for the client and
    the two identities it names, approved and unexpired, and only once: it is off
    the disk when its use succeeds, and any later use is refused. *)
Theorem replacement_used_once cfg op client current replacement now t i j a :
  NoDup (map ra_op_id (pf_replacement_approvals (in_file i))) ->
  consume_replacement_approval cfg op client current replacement now t i = (j, Ok a) ->
  a ∈ pf_replacement_approvals (in_file i) /\ ra_approved a = true /\ now < ra_expires_at a /\
  ra_client_id a = client /\ ra_current_identity_fingerprint a = current /\
  ra_replacement_identity_fingerprint a = replacement /\
  find_replacement op (ls_disk (in_ledger j)) = None /\
  (forall cfg' client' current' replacement' now' t', pg_owner_control_enabled cfg' = true ->
     (consume_replacement_approval cfg' op client' current' replacement' now' t' j).2 = Err UnknownOperation).
Proof.
  intros ND. pose proof (inner_lock_core t i) as [(_ & _ & _ & _ & Lr)%core_eq _]. rewrite <- Lr in *.
  unfold consume_replacement_approval at 1. case_match; [done|]. cbv zeta.
  destruct (list_find _ _) as [[idx x]|] eqn:L; [|done]. case_match; [by destruct (inner_persist _ _) as [? []]|].
  do 2 (let B := fresh "B" in case_match eqn:B; [done|]). destruct (inner_persist _ _) as [k [u|]] eqn:W; [|done]. intros [= <- <-].
  apply inner_persist_core in W as ((_ & _ & _ & _ & Kr)%core_eq & _ & D). specialize (D eq_refl).
  pose proof (take_drop_gone op _ idx x ND L) as G.
  assert (Gk : list_find (fun y => ra_op_id y = op) (pf_replacement_approvals (in_file k)) = None).
  { rewrite Kr. exact G. }
  repeat match goal with B : _ || _ = false |- _ => apply orb_false_iff in B as [B ?] | B : negb _ = false |- _ =>
    apply negb_false_iff in B | B : bool_decide _ = true |- _ => apply bool_decide_eq_true in B end.
  apply list_find_Some in L as (Hl & _). split_and!; try done; [by eapply list_elem_of_lookup_2|lia| |].
  - unfold find_replacement. by rewrite D, Gk.
  - intros cfg' client' current' replacement' now' t' On. unfold consume_replacement_approval. rewrite On. simpl negb. cbv zeta iota.
    pose proof (inner_lock_core t' k) as [(_ & _ & _ & _ & Lk)%core_eq _]. by rewrite Lk, Gk.
Qed.

End Elevation.
