(* ===== verification/PairingWitness.v ===== *)
(** * The pairing theorems on a concrete node

    One paired app, a clock that stands still and writes that succeed, over the
    executable primitives: each hypothesis of the theorems on pairing can hold. *)

From S2P Require Import Prelude Text Types Concrete BTree SpendBudget CallSpend PairingStore SpendLedger Pairing Elevation SecondDevice ElevationTerms PairingFrame DeviceRevocation SpendProps SpendFrame PairingSteps PairingProps ElevationProps.

#[local] Existing Instance toy_prims.

#[local] Instance toy_pairing : PairingPrims := {|
  sig_from_slice b := if (length b =? 64)%nat then Ok b else Err "signature error";
  blake3_keyed k b := fold32 3 (k ++ b)
|}.

Definition node_cfg : PairingConfig := mkPairingConfig true false None None false false.
Definition no_receipt (_ : bytes) (_ : SpendGrant) : bool := false.
Definition some_text (_ : TermsError) : string := "bad terms".
Definition no_sign (_ : Claims) (_ : string) : result string string := Ok "token".
Definition a_digest (_ : RevokeOptions) (_ : RevokePlan) : string := "digest".
Definition now_tick : Tick := mkTick 10 ex_env 10.

Definition app : PairedClient := mkClient "app" "App" "" None [Read; Receive] 3 "fp" 0 None.
Definition tablet : PairedClient := mkClient "tablet" "Tablet" "" None [Read; Receive] 1 "fp" 0 None.
Definition key_of (id client by_ : string) : DeviceKey := mkDeviceKey id client "" "key" 0 1 "" "" by_.

(** A node with a device key of the app and one that this key approved. *)
Definition node_file (keys : list DeviceKey) (approvals : list ReplacementApproval) : PairingFile :=
  mkFile 8 [app; tablet] [] ∅ [] [] approvals ∅ keys [] ∅ ∅.
Definition node (keys : list DeviceKey) (approvals : list ReplacementApproval) : Inner :=
  fresh_inner (node_file keys approvals) (node_file keys approvals) "fp".

Lemma run_ok {S E A} (m : comp S E A) s a : (m s).2 = Ok a -> m s = ((m s).1, Ok a).
Proof. intros <-. by destruct (m s). Qed.

(** ** A revoked app after a restart *)

Definition revoked : Inner := (revoke node_cfg "app" now_tick (node [] [])).1.
Definition restarted : Inner :=
  (open "clients.json" (Some (ls_disk (in_ledger revoked))) "fp" now_tick now_tick now_tick).1.

Lemma ended_epoch_never_accepted_witness :
  is_ok (verify_token_binding node_cfg no_receipt "app" 3 "fp" [Read] now_tick (node [] [])).2 = true /\
  is_ok (verify_token_binding node_cfg no_receipt "app" 3 "fp" [Read] now_tick restarted).2 = false.
Proof.
  split; [vm_compute; reflexivity|].
  refine (ended_epoch_never_accepted no_receipt some_text no_sign a_digest "app" 3 3 (node [] []) revoked restarted
    node_cfg "fp" [Read] now_tick _ _ (Z.le_refl 3)).
  - refine (ended_revoke a_digest "app" 3 (node [] []) revoked node_cfg now_tick app _ eq_refl _); [vm_compute; reflexivity|].
    refine (run_ok (revoke node_cfg "app" now_tick) (node [] []) tt _). vm_compute. reflexivity.
  - apply rtc_once.
    exact (ps_restart _ _ _ _ "clients.json" "fp" now_tick now_tick now_tick revoked).
Defined.

(** ** A cascade *)

Definition lost_key : DeviceKey := key_of "k1" "app" "cli".
Definition approved_key : DeviceKey := key_of "k2" "tablet" "device:k1".
Definition cascade : RevokeOptions := mkOptions "k1" true false [] true.
Definition before_cascade : Inner := node [lost_key; approved_key] [].
Definition after_cascade : Inner :=
  (console_revoke_devices node_cfg a_digest cascade (Some "digest") now_tick before_cascade).1.

Lemma cascade_leaves_no_descendant_witness :
  ls_disk (in_ledger after_cascade) = in_file after_cascade /\ approved_key ∉ pf_device_keys (in_file after_cascade).
Proof.
  assert (Hok : exists plan, (console_revoke_devices node_cfg a_digest cascade (Some "digest") now_tick before_cascade).2 =
    Ok plan) by (eexists; vm_compute; reflexivity).
  destruct Hok as [plan Hok].
  pose proof (cascade_leaves_no_descendant node_cfg a_digest cascade "digest" now_tick before_cascade after_cascade plan
    (run_ok _ _ _ Hok) eq_refl) as [D H].
  split; [exact D|]. refine (proj2 (H approved_key _) _ _).
  - apply list_elem_of_In. right. left. reflexivity.
  - apply not_elem_of_nil.
  - apply rtc_once. apply list_elem_of_In. vm_compute. right. left. reflexivity.
Defined.

(** ** A request and its grant *)

Definition asked_op : string := hex_encode [7; 7].
Definition terms : GrantTerms := GrantTerms_new 100000.
Definition asked : Inner :=
  (create_budget_elevation_request node_cfg some_text "app" [Spend] (Some terms) [7; 7] [1; 2; 3] "ABCD-2345" OnConsole 10
     now_tick (node [] [])).1.

Lemma requests_stay_well_formed_witness :
  length (pf_pending_elevations (in_file asked)) = 1%nat /\
  Forall request_ok (pf_pending_elevations (in_file asked)) /\
  Forall request_ok (pf_pending_elevations (ls_disk (in_ledger asked))).
Proof.
  split; [vm_compute; reflexivity|].
  refine (requests_stay_well_formed no_receipt some_text no_sign a_digest (node [] []) asked _ _).
  - split; apply Forall_nil_2.
  - apply rtc_once.
    exact (ps_ask _ _ _ _ node_cfg "app" [Spend] (Some terms) [7; 7] [1; 2; 3] "ABCD-2345" OnConsole 10 now_tick (node [] [])).
Defined.

(** The owner types the code in lower case and without the dash. *)
Definition granted : Inner := (grant_elevation node_cfg some_text asked_op " abcd2345 " terms 10 10 now_tick asked).1.

Lemma grant_takes_the_owners_word_witness : exists g, sg_client_id g = "app" /\ sg_scopes g = [Spend] /\
  g ∈ pf_grants (in_file granted) /\
  ls_disk (in_ledger granted) = in_file granted /\ find_elevation asked_op (in_file granted) = None.
Proof.
  assert (Hok : exists g, (grant_elevation node_cfg some_text asked_op " abcd2345 " terms 10 10 now_tick asked).2 = Ok g /\
    sg_client_id g = "app" /\ sg_scopes g = [Spend]) by (eexists; split; [vm_compute; reflexivity|split; reflexivity]).
  destruct Hok as (g & Hok & Hc & Hs). exists g.
  pose proof (grant_takes_the_owners_word some_text node_cfg asked_op " abcd2345 " terms 10 10 now_tick asked granted g
    (run_ok _ _ _ Hok)) as (_ & _ & _ & _ & _ & G & D & _ & F & _).
  split; [exact Hc|]. split; [exact Hs|]. split; [|split; [exact D|exact F]].
  apply G. intros k. vm_compute. discriminate.
Defined.

(** The disk is full. *)
Definition full_disk : PersistEnv := mkPersistEnv (fun _ => 10) (fun _ => WriteFails "no space left on device").
Definition full_tick : Tick := mkTick 10 (mkEnv 10 full_disk 10 full_disk 10) 10.
Definition request : PendingElevation := mkElevation asked_op "app" "App" [Spend] 10 910 (Some terms).
Definition shown : OwnerConfirmation :=
  mkConfirmation (blake3 (bytes_of_string ("GRANT spend TO " +:+ asked_op +:+ " CODE 010203")))
    (Some (blake3 (bytes_of_string "ABCD2345"))) 910 0 false.

Lemma failed_grant_is_held_witness : exists j g,
  grant_elevation node_cfg some_text asked_op "ABCD-2345" terms 10 10 full_tick asked =
    (j, Err (Io "no space left on device")) /\
  g ∈ pf_grants (in_file j) /\ sg_client_id g = "app".
Proof.
  assert (N : normalized terms = Ok terms) by (vm_compute; reflexivity).
  destruct (failed_grant_is_held some_text node_cfg asked_op "ABCD-2345" terms terms 10 10 full_tick asked request shown app
    "no space left on device" eq_refl N) as (j & g & R & Hg & Hc & _).
  1, 4, 6, 7: vm_compute; reflexivity.
  - vm_compute. reflexivity.
  - apply (bool_decide_unpack _). vm_compute. exact I.
  - vm_compute. reflexivity.
  - reflexivity.
  - exists j, g. split; [exact R|]. split; [exact Hg|exact Hc].
Defined.

(** ** Three wrong codes *)

Definition guesses : list guess_event := repeat (Guess asked_op "ZZZZ-9999" 10 now_tick) 5.

Lemma guessing_is_bounded_witness :
  wrong_guesses (at_request asked_op) guesses asked = 3 /\ wrong_guesses (at_request asked_op) guesses asked <= OWNER_CODE_ATTEMPTS.
Proof.
  split; [vm_compute; reflexivity|].
  refine (proj2 (guessing_is_bounded asked_op guesses asked _ _) _).
  - vm_compute. discriminate.
  - intros c Hc. vm_compute in Hc. injection Hc as <-. vm_compute. discriminate.
  - apply (bool_decide_unpack _). vm_compute. exact I.
Defined.

(** ** A new identity *)

Definition approval : ReplacementApproval := mkReplacement "r1" "app" "fp" "fp2" 100 true "App".
Definition replaced : Inner :=
  (consume_replacement_approval node_cfg "r1" "app" "fp" "fp2" 10 now_tick (node [] [approval])).1.

Lemma replacement_used_once_witness :
  (consume_replacement_approval node_cfg "r1" "app" "fp" "fp2" 10 now_tick replaced).2 = Err UnknownOperation.
Proof.
  refine (proj2 (proj2 (proj2 (proj2 (proj2 (proj2 (proj2 (replacement_used_once node_cfg "r1" "app" "fp" "fp2" 10 now_tick
    (node [] [approval]) replaced approval _ _))))))) node_cfg "app" "fp" "fp2" 10 now_tick eq_refl).
  - apply NoDup_singleton.
  - refine (run_ok (consume_replacement_approval node_cfg "r1" "app" "fp" "fp2" 10 now_tick) (node [] [approval]) approval _).
    vm_compute. reflexivity.
Defined.
