(* ===== verification/FirstContact.v ===== *)
(** * First contact and readmission

    The part of [konsensus-api/src/pairing.rs] that pays a stranger: the owner's
    one-time confirmation for one recipient, its single use, and the quoted payment
    that admits a contact again after a reconnect.

    The confirmations live in memory beside the ledger.  The receipt of a device
    approval is left out, since only [approval.rs] writes one. *)

From S2P Require Import Prelude Text BTree SpendBudget CallSpend PairingStore SpendLedger SpendProps.

Record FirstContactGrant := mkContactGrant {
  fg_granted_by : option string;
  fg_recipient : string;
  fg_max_total_msat : Z;
  fg_expires_at : Z
}.

Record PendingFirstContact := mkPendingContact {
  fp_grant : FirstContactGrant;
  fp_epoch : Z;
  fp_budget_op_id : string;
  fp_consumed : bool
}.

Record FirstContactAuthorization := mkContactAuth {
  fa_max_total_msat : Z;
  fa_recipient : string;
  fa_client_id : string;
  fa_epoch : Z;
  fa_budget_op_id : string;
  fa_expires_at : Z
}.

Inductive FirstContactApprovalState : Type := FPending | FApproved | FConsumed | FExpired.

Record FirstContactApprovalStatus := mkContactStatus {
  fx_grant_op_id : string;
  fx_recipient : string;
  fx_state : FirstContactApprovalState;
  fx_approval_window_secs : Z;
  fx_approval : option FirstContactGrant
}.

Record Contacts := mkContacts { ct_ledger : LedgerState; ct_pending : gmap string PendingFirstContact }.

Definition set_ct_ledger (l : LedgerState) (s : Contacts) : Contacts := mkContacts l (ct_pending s).
Definition set_ct_pending (p : gmap string PendingFirstContact) (s : Contacts) : Contacts := mkContacts (ct_ledger s) p.
Definition ct_lock (env : Env) (s : Contacts) : Contacts := set_ct_ledger (lock env (ct_ledger s)) s.

Definition consume (p : PendingFirstContact) : PendingFirstContact :=
  mkPendingContact (fp_grant p) (fp_epoch p) (fp_budget_op_id p) true.

Definition set_recipient_caps (m : gmap string Z) (b : GrantBudget) : GrantBudget :=
  mkBudget (gb_breakers b) (gb_breaker_state b) (gb_device_breaker_resets b)
    (gb_breaker_reset_generation b) (gb_payment_ids b) (gb_payee_allowlist b)
    (gb_allow_liquidity_fees b) (gb_budget_msat b) (gb_per_call_max_msat b)
    m (gb_used_msat b) (gb_used_by_recipient b) (gb_pending b) (gb_operation_links b)
    (gb_call_reservations b) (gb_recipients_only b) (gb_per_act_max_by_recipient b)
    (gb_recipient_expires_at b) (gb_envelope_id_by_recipient b).

Section FirstContact.
Context (receipt_verifies : bytes -> SpendGrant -> bool) (cfg : ServiceConfig).

(** ** The owner's confirmation *)

(** The checks of a confirmation against the grant it would be paid from. *)
Definition check_first_contact (b : GrantBudget) (recipient : string) (max_total : Z) (contact_budget : option Z) :
    result BudgetRefusal unit :=
  check max_total <=? messaging_per_call_max_msat b else PerCall (messaging_per_call_max_msat b) ;;
  check max_total <=? remaining_msat b else TotalBudget (remaining_msat b) ;;
  let? _ := match gb_per_recipient_msat b !! recipient with
            | None => Ok tt
            | Some cap =>
                let left_ := saturating_sub cap (default 0 (gb_used_by_recipient b !! recipient)) in
                check max_total <=? left_ else RecipientBudget recipient left_ ;; Ok tt
            end in
  match contact_budget with
  | None => Ok tt
  | Some contact =>
      check negb ((contact <? max_total) || (gb_budget_msat b <? contact) ||
                  match gb_per_recipient_msat b !! recipient with Some cap => negb (cap =? contact) | None => false end)
        else FirstContact "contact budget must cover this approval, fit the grant total and match any existing recipient cap" ;;
      Ok tt
  end.

Definition grant_first_contact_locked (client_id grant_op_id recipient : string) (max_total : Z) (contact_budget : option Z)
    (env : Env) : comp Contacts BudgetRefusal FirstContactGrant := fun s =>
  let l := ct_ledger s in
  let f := ls_file l in
  let now := en_now env in
  match (let? recipient := ok_or (canonical_recipient recipient ≫= fun key =>
                              if (String.length key =? 64)%nat then Some key else None)
                            (FirstContact "the recipient is not a node id") in
         check negb ((max_total =? 0) || (FIRST_CONTACT_MAX_MSAT <? max_total))
           else FirstContact ("a first contact may cover 1..=" +:+ show_uint FIRST_CONTACT_MAX_MSAT +:+ " msat") ;;
         let? (_, grant) := ok_or (list_find (fun g => sg_client_id g = client_id /\ sg_op_id g = grant_op_id /\
             sg_identity_fingerprint g = ls_identity_fingerprint l /\ is_live now g = true /\
             Exists (fun c => pc_client_id c = client_id /\ pc_epoch c = sg_epoch g) (pf_clients f)) (pf_grants f)) NoGrant in
         let? budget := ok_or (sg_budget grant) NoGrant in
         let? _ := check_first_contact budget recipient max_total contact_budget in
         Ok (recipient, grant)) with
  | Err e => (s, Err e)
  | Ok (recipient, grant) =>
      let issued := mkContactGrant None recipient max_total (Z.min (now + FIRST_CONTACT_GRANT_TTL_SECS) (sg_expires_at grant)) in
      let pending := <[client_id := mkPendingContact issued (sg_epoch grant) (sg_op_id grant) false]> (ct_pending s) in
      let record l := (mkContacts l pending, Ok issued) in
      match contact_budget with
      | None => record l
      | Some contact =>
          match list_find (fun g => sg_op_id g = sg_op_id grant) (pf_grants f) with
          | None => (s, Err NoGrant)
          | Some (idx, g) =>
              match sg_budget g with
              | None => record l
              | Some before =>
                  if bool_decide (is_Some (gb_per_recipient_msat before !! recipient)) then record l
                  else
                    let b := set_recipient_caps (<[recipient := contact]> (gb_per_recipient_msat before)) before in
                    match persist (en_persist env) (set_file (put_budget idx (Some b) f) l) with
                    | (l', Err e) =>
                        (set_ct_ledger (set_file (put_budget idx (Some before) (ls_file l')) l') s,
                         Err (Ledger (PairingError_to_string e)))
                    | (l', Ok _) => record l'
                    end
              end
          end
      end
  end.

Definition grant_first_contact (client_id grant_op_id recipient : string) (max_total : Z) (contact_budget : option Z)
    (env : Env) : comp Contacts BudgetRefusal FirstContactGrant := fun s =>
  if negb (sv_owner_control_enabled cfg) then (s, Err NoGrant)
  else grant_first_contact_locked client_id grant_op_id recipient max_total contact_budget env (ct_lock env s).

Definition first_contact_approval_status (client_id : string) (epoch : Z) (grant_op_id recipient : string) (env : Env)
    (s : Contacts) : Contacts * option FirstContactApprovalStatus :=
  match canonical_recipient recipient with
  | None => (s, None)
  | Some recipient =>
      let s := ct_lock env s in
      let l := ct_ledger s in
      let now := en_now env in
      if negb (sv_owner_control_enabled cfg || sv_local_owner_device cfg) ||
         negb (existsb (fun c => bool_decide (pc_client_id c = client_id) && (pc_epoch c =? epoch)) (pf_clients (ls_file l))) ||
         negb (existsb (fun g => bool_decide (sg_op_id g = grant_op_id) && bool_decide (sg_client_id g = client_id) &&
                 (sg_epoch g =? epoch) && bool_decide (sg_identity_fingerprint g = ls_identity_fingerprint l) &&
                 permits_spend_grant receipt_verifies cfg g && bool_decide (is_Some (sg_budget g)) && is_live now g)
               (pf_grants (ls_file l)))
      then (s, None)
      else
        let pending := ct_pending s !! client_id ≫= fun p =>
          if bool_decide (fp_budget_op_id p = grant_op_id) && (fp_epoch p =? epoch) &&
             bool_decide (fg_recipient (fp_grant p) = recipient) then Some p else None in
        let state := match pending with
                     | Some p => if fp_consumed p then FConsumed
                                 else if fg_expires_at (fp_grant p) <=? now then FExpired else FApproved
                     | None => FPending
                     end in
        (s, Some (mkContactStatus grant_op_id recipient state FIRST_CONTACT_APPROVAL_WINDOW_SECS (fp_grant <$> pending)))
  end.

(** Single use: a match is marked consumed, also when its grant is gone. *)
Definition take_first_contact (client_id : string) (epoch : Z) (recipient : string) (env : Env) (s : Contacts) :
    Contacts * option FirstContactAuthorization :=
  match canonical_recipient recipient with
  | None => (s, None)
  | Some recipient =>
      let s := ct_lock env s in
      let l := ct_ledger s in
      let now := en_now env in
      match ct_pending s !! client_id with
      | None => (s, None)
      | Some p =>
          if fp_consumed p || (fg_expires_at (fp_grant p) <=? now) then (s, None)
          else if negb (bool_decide (fg_recipient (fp_grant p) = recipient)) || negb (fp_epoch p =? epoch) then (s, None)
          else
            let live := existsb (fun g => bool_decide (sg_op_id g = fp_budget_op_id p) && bool_decide (sg_client_id g = client_id) &&
                          (sg_epoch g =? epoch) && bool_decide (sg_identity_fingerprint g = ls_identity_fingerprint l) &&
                          is_live now g) (pf_grants (ls_file l)) in
            (set_ct_pending (<[client_id := consume p]> (ct_pending s)) s,
             if live then Some (mkContactAuth (fg_max_total_msat (fp_grant p)) recipient client_id epoch (fp_budget_op_id p)
                                  (fg_expires_at (fp_grant p)))
             else None)
      end
  end.

(** Running a ledger operation. *)
Definition on_contacts {A} (m : comp LedgerState BudgetRefusal A) : comp Contacts BudgetRefusal A := fun s =>
  let '(l, r) := m (ct_ledger s) in (set_ct_ledger l s, r).

(** [now] is read after the lock. *)
Definition reserve_first_contact_operation (id : string) (approval : FirstContactAuthorization) (cap : option Z)
    (operation : option OperationReservationLink) (now : Z) (env : Env) : comp Contacts BudgetRefusal Reservation := fun s =>
  let amount := Z.min (default (fa_max_total_msat approval) cap) (fa_max_total_msat approval) in
  let s := ct_lock env s in
  if fa_expires_at approval <=? now then (s, Err NoGrant)
  else on_contacts (reserve_spend_locked receipt_verifies cfg id (fa_client_id approval) (fa_epoch approval)
         [mkCharge (fa_recipient approval) amount]
         (mkAuthority [] false (Some (fa_budget_op_id approval)) false None operation None None false) env) s.

Definition reserve_first_contact (id : string) (approval : FirstContactAuthorization) (cap : option Z) :=
  reserve_first_contact_operation id approval cap None.

(** ** Readmission *)

Definition readmission_basis (s : Contacts) (parent : Reservation) (recipient : string) (now : Z) :
    result BudgetRefusal (Z * option Z) :=
  let l := ct_ledger s in
  let? (_, grant) := ok_or (list_find (fun g => sg_op_id g = rv_op_id parent /\ sg_client_id g = rv_client_id parent /\
      sg_identity_fingerprint g = ls_identity_fingerprint l /\ is_live now g = true) (pf_grants (ls_file l))) NoGrant in
  let confirmed := ct_pending s !! rv_client_id parent ≫= fun p =>
    if negb (fp_consumed p) && bool_decide (fg_recipient (fp_grant p) = recipient) && (fp_epoch p =? sg_epoch grant) &&
       bool_decide (fp_budget_op_id p = sg_op_id grant) && (now <? fg_expires_at (fp_grant p)) then Some p else None in
  match confirmed with
  | Some p => Ok (sg_epoch grant, Some (fg_max_total_msat (fp_grant p)))
  | None =>
      check match sg_budget grant with
            | Some b => bool_decide (is_Some (gb_per_recipient_msat b !! recipient))
            | None => false
            end
        else FirstContact "this contact has no budget in your grant, so paying admission to them again needs your one-time confirmation (POST /api/v1/pair/first-contact-grant) — nothing was requested or paid" ;;
      Ok (sg_epoch grant, None)
  end.

Definition readmission_allowed (parent : Reservation) (recipient : string) (env : Env) : comp Contacts BudgetRefusal unit :=
  fun s =>
  match canonical_recipient recipient with
  | None => (s, Err NoGrant)
  | Some recipient =>
      let s := ct_lock env s in
      (s, let? _ := readmission_basis s parent recipient (en_now env) in Ok tt)
  end.

(** What the quote needs: the grant, its meter, the top-up, the amount needed
    and the new total of the call. *)
Definition quote (s : Contacts) (parent : Reservation) (recipient : string) (message admission call_reserved : Z) :
    result BudgetRefusal (nat * GrantBudget * Z * Z * Z) :=
  let? (idx, g) := ok_or (list_find (fun g => sg_op_id g = rv_op_id parent) (pf_grants (ls_file (ct_ledger s)))) NoGrant in
  let? b := ok_or (sg_budget g) NoGrant in
  let? old := ok_or (gb_pending b !! rv_id parent ≫= fun p => p !! recipient) NoGrant in
  let top_up := saturating_sub message old in
  let max_msat := messaging_per_call_max_msat b in
  let? need := ok_or (checked_add top_up admission) (PerCall max_msat) in
  let? total := ok_or (checked_add call_reserved need) (PerCall max_msat) in
  check total <=? max_msat else PerCall max_msat ;;
  Ok (idx, b, top_up, need, total).

(** The top-up in the meter and in the parent's own entry. *)
Definition top_up_budget (parent recipient : string) (top_up now : Z) (b : GrantBudget) : result BudgetRefusal GrantBudget :=
  if 0 <? top_up then
    let? b := reserve_at [mkCharge recipient top_up] now b in
    Ok (match gb_pending b !! parent with
        | Some p => set_pending (<[parent := alter (fun amount => wrapping_add_u64 amount top_up) recipient p]> (gb_pending b)) b
        | None => b
        end)
  else Ok b.

(** Asking for more than the owner confirmed. *)
Definition above_confirmed (confirmed : option Z) (need : Z) : option BudgetRefusal :=
  match confirmed with
  | Some max_msat =>
      if max_msat <? need
      then Some (FirstContact ("the recipient asks " +:+ show_uint need +:+ " msat to admit you again, more than the "
             +:+ show_uint max_msat +:+ " msat you confirmed — nothing was paid"))
      else None
  | None => None
  end.

(** [basis_at] and [top_up_at] are read before the reservation's own clock. *)
Definition reserve_quoted_readmission (id : string) (parent : Reservation) (recipient : string)
    (message admission call_reserved : Z) (operation : option OperationReservationLink) (basis_at top_up_at : Z)
    (env : Env) : comp Contacts BudgetRefusal (Z * Reservation) := fun s =>
  match canonical_recipient recipient with
  | None => (s, Err NoGrant)
  | Some recipient =>
      let s := ct_lock env s in
      match (let? basis := readmission_basis s parent recipient basis_at in
             let? q := quote s parent recipient message admission call_reserved in Ok (basis, q)) with
      | Err e => (s, Err e)
      | Ok ((epoch, confirmed), (idx, before, top_up, need, total)) =>
          let s := match confirmed with
                   | Some _ => set_ct_pending (alter consume (rv_client_id parent) (ct_pending s)) s
                   | None => s
                   end in
          match above_confirmed confirmed need with
          | Some e => (s, Err e)
          | None =>
              match top_up_budget (rv_id parent) recipient top_up top_up_at before with
              | Err e => (s, Err e)
              | Ok b =>
                  let l := ct_ledger s in
                  match reserve_spend_locked receipt_verifies cfg id (rv_client_id parent) epoch
                          [mkCharge recipient admission]
                          (mkAuthority [] false (Some (rv_op_id parent)) false None operation None None false) env
                          (set_file (put_budget idx (Some b) (ls_file l)) l) with
                  | (l', Ok r) => (set_ct_ledger l' s, Ok (total, r))
                  | (l', Err e) =>
                      (set_ct_ledger (set_file (restore_budget (rv_op_id parent) (Some before) (ls_file l')) l') s, Err e)
                  end
              end
          end
      end
  end.

Definition reserve_readmission_operation (id : string) (parent : Reservation) (recipient : string)
    (amount call_reserved : Z) (operation : option OperationReservationLink) (basis_at top_up_at : Z) (env : Env) :
    comp Contacts BudgetRefusal Reservation := fun s =>
  let '(s, r) := reserve_quoted_readmission id parent recipient 0 amount call_reserved operation basis_at top_up_at env s in
  (s, let? (_, admission) := r in Ok admission).

Definition reserve_readmission (id : string) (parent : Reservation) (recipient : string) (amount call_reserved : Z) :=
  reserve_readmission_operation id parent recipient amount call_reserved None.

End FirstContact.

(** ** Single use *)

Section Uses.
Context (receipt_verifies : bytes -> SpendGrant -> bool) (cfg : ServiceConfig).

(** Anything that can happen to the confirmations but a new one for [client];
    the ledger may change in any way. *)
Inductive contact_step (client : string) : Contacts -> Contacts -> Prop :=
| cs_grant other op recipient max contact env s : other <> client ->
    contact_step client s (grant_first_contact cfg other op recipient max contact env s).1
| cs_take other epoch recipient env s : contact_step client s (take_first_contact other epoch recipient env s).1
| cs_reserve id approval cap operation now env s :
    contact_step client s (reserve_first_contact_operation receipt_verifies cfg id approval cap operation now env s).1
| cs_readmit id parent recipient message admission reserved operation basis_at top_up_at env s :
    contact_step client s (reserve_quoted_readmission receipt_verifies cfg id parent recipient message admission reserved
      operation basis_at top_up_at env s).1
| cs_ledger l s : contact_step client s (set_ct_ledger l s).

Definition spent (client : string) (s : Contacts) : Prop :=
  forall p, ct_pending s !! client = Some p -> fp_consumed p = true.

Lemma spent_same client s s' : ct_pending s' = ct_pending s -> spent client s -> spent client s'.
Proof. unfold spent. by intros ->. Qed.

Lemma spent_consume client other s s' : ct_pending s' = alter consume other (ct_pending s) -> spent client s -> spent client s'.
Proof.
  intros E H p. rewrite E. destruct (decide (other = client)) as [->|].
  - rewrite lookup_alter_eq. destruct (ct_pending s !! client); [|done]. by intros [= <-].
  - rewrite lookup_alter_ne by done. apply H.
Qed.

Lemma spent_step client s s' : contact_step client s s' -> spent client s -> spent client s'.
Proof.
  intros St H. destruct St; cbn [fst].
  - unfold grant_first_contact. case_match; [done|]. unfold grant_first_contact_locked. cbv zeta.
    destruct (bind_result _ _) as [[k g]|]; [|done].
    assert (Hn : forall l q, spent client (mkContacts l (<[other := q]> (ct_pending (ct_lock env s))))).
    { intros l q p. simpl. rewrite lookup_insert_ne by done. apply H. }
    repeat (case_match; simpl); try done; try apply Hn.
  - unfold take_first_contact. destruct (canonical_recipient _); [|done]. cbv zeta. case_match; [|done].
    do 2 (case_match; [done|]). cbv [fst]. intros q. simpl.
    destruct (decide (other = client)) as [->|]; [rewrite lookup_insert_eq; by intros [= <-]|].
    rewrite lookup_insert_ne by done. apply H.
  - unfold reserve_first_contact_operation, on_contacts. cbv zeta. case_match; [done|]. by destruct (reserve_spend_locked _ _ _ _ _ _ _ _ _).
  - unfold reserve_quoted_readmission. destruct (canonical_recipient _) as [k|]; [|done]. cbv zeta.
    destruct (bind_result _ _) as [[[epoch confirmed] [[[[idx before] top] need] total]]|]; [|done].
    set (s1 := match confirmed with Some _ => _ | None => _ end).
    assert (H1 : spent client s1) by (unfold s1; destruct confirmed; [by eapply spent_consume|done]).
    repeat (case_match; simpl); done.
  - done.
Qed.

Lemma taken_spent client epoch recipient env s s' a :
  take_first_contact client epoch recipient env s = (s', Some a) -> spent client s'.
Proof.
  unfold take_first_contact. destruct (canonical_recipient recipient); [|done]. cbv zeta.
  destruct (ct_pending (ct_lock env s) !! client) as [p|] eqn:P; [|done]. do 2 (case_match; [done|]). case_match; [|done].
  intros [= <- _] q. simpl. rewrite lookup_insert_eq. by intros [= <-].
Qed.

Lemma readmitted_spent id parent recipient message admission reserved operation basis_at top_up_at env s k epoch max :
  canonical_recipient recipient = Some k ->
  readmission_basis (ct_lock env s) parent k basis_at = Ok (epoch, Some max) ->
  forall s' r, reserve_quoted_readmission receipt_verifies cfg id parent recipient message admission reserved operation basis_at
    top_up_at env s = (s', Ok r) -> spent (rv_client_id parent) s' /\ r.1 - reserved <= max.
Proof.
  intros K B s' r. unfold reserve_quoted_readmission. rewrite K. cbv zeta. rewrite B. cbn [bind_result].
  destruct (quote _ _ _ _ _ _) as [[[[[idx before] top] need] total]|] eqn:Q; [|done]. cbn [bind_result].
  unfold above_confirmed. destruct (max <? need) eqn:A; [done|]. destruct (top_up_budget _ _ _ _ _) as [b|]; [|done].
  destruct (reserve_spend_locked _ _ _ _ _ _ _ _ _) as [l [x|]]; [|done]. intros [= <- <-]. split.
  - intros p. simpl. rewrite lookup_alter_eq. destruct (ct_pending s !! rv_client_id parent); [|done]. by intros [= <-].
  - simpl. unfold quote, ok_or, checked_add, bind_result in Q. repeat case_match; simplify_eq; lia.
Qed.

(** The confirmation of a client was taken for a message, or paid a readmission. *)
Inductive used (client : string) : Contacts -> Prop :=
| used_message epoch recipient env s s' a :
    take_first_contact client epoch recipient env s = (s', Some a) -> used client s'
| used_readmission id parent recipient k message admission reserved operation basis_at top_up_at env s s' epoch max r :
    rv_client_id parent = client -> canonical_recipient recipient = Some k ->
    readmission_basis (ct_lock env s) parent k basis_at = Ok (epoch, Some max) ->
    reserve_quoted_readmission receipt_verifies cfg id parent recipient message admission reserved operation basis_at
      top_up_at env s = (s', Ok r) -> used client s'.

Lemma used_spent client s : used client s -> spent client s.
Proof. intros []; subst; [by eapply taken_spent|by eapply readmitted_spent]. Qed.

Lemma spent_steps client s s' : rtc (contact_step client) s s' -> spent client s -> spent client s'.
Proof. induction 1; eauto using spent_step. Qed.

(** C29: the owner's confirmation of a first contact works once.  When it was taken
    for a message, or paid a readmission, then until the owner confirms anew for
    that client it is never taken again and never the basis of a readmission,
    whatever happens to the ledger and to the confirmations of other clients. *)
Theorem first_contact_works_once client s1 s2 : used client s1 -> rtc (contact_step client) s1 s2 ->
  (forall epoch recipient env, (take_first_contact client epoch recipient env s2).2 = None) /\
  (forall parent k now epoch max, rv_client_id parent = client ->
     readmission_basis s2 parent k now <> Ok (epoch, Some max)).
Proof.
  intros U S. pose proof (spent_steps _ _ _ S (used_spent _ _ U)) as H. split.
  - intros epoch recipient env. unfold take_first_contact. destruct (canonical_recipient recipient); [|done]. cbv zeta.
    change (ct_pending (ct_lock env s2)) with (ct_pending s2).
    destruct (ct_pending s2 !! client) as [p|] eqn:P; [|done]. by rewrite (H p P).
  - intros parent k now epoch max <-. unfold readmission_basis. cbv zeta.
    destruct (list_find _ _) as [[idx g]|]; [|done]. cbn [ok_or bind_result].
    destruct (ct_pending s2 !! rv_client_id parent) as [p|] eqn:P; simpl; [rewrite (H p P); simpl|]; by case_match.
Qed.

End Uses.

(** ** A concrete contact *)

Definition peer_key : string := "aaaaaaaaaaaaaaaaaaaaaaaaaaaaaaaaaaaaaaaaaaaaaaaaaaaaaaaaaaaaaaaa".

(** Two payments a minute, and a budget for the contact. *)
Definition contact_terms : GrantTerms :=
  mkTerms (mkLimits 2 60 5 1000000) None false 100000 100000 {[peer_key := 50000]} 3600.
Definition contact_file : PairingFile :=
  mkFile 8 [ex_client] [mkGrant "op" "app" [Spend] 0 1000 "fp" 1 "owner" (Some (from_terms contact_terms)) None]
    ∅ [] [] [] ∅ [] [] ∅ ∅.
Definition no_receipts (_ : bytes) (_ : SpendGrant) : bool := false.

(** A message of 1000 msat was reserved for the contact. *)
Definition message : Reservation := mkReservation "m1" "app" "op" [mkCharge peer_key 1000].
Definition contact_start : Contacts :=
  mkContacts (reserve_spend no_receipts ex_cfg "m1" "app" 1 [mkCharge peer_key 1000] ex_env
    (mkLedger contact_file contact_file "fp")).1 ∅.

(** The owner confirms the contact for the app, which takes it. *)
Definition contact_confirmed : Contacts := (grant_first_contact ex_cfg "app" "op" peer_key 5000 None ex_env contact_start).1.
Definition contact_taken : Contacts := (take_first_contact "app" 1 peer_key ex_env contact_confirmed).1.

Lemma first_contact_works_once_witness :
  is_Some (take_first_contact "app" 1 peer_key ex_env contact_confirmed).2 /\
  (take_first_contact "app" 1 peer_key ex_env contact_taken).2 = None.
Proof.
  split; [vm_compute; eexists; reflexivity|].
  assert (Hok : exists a, (take_first_contact "app" 1 peer_key ex_env contact_confirmed).2 = Some a)
    by (vm_compute; eexists; reflexivity).
  destruct Hok as [a Ha].
  refine (proj1 (first_contact_works_once no_receipts ex_cfg "app" contact_taken contact_taken _ (rtc_refl _ _)) 1 peer_key ex_env).
  refine (used_message _ _ _ 1 peer_key ex_env contact_confirmed contact_taken a _).
  unfold contact_taken. rewrite <- Ha. apply surjective_pairing.
Defined.
