(* ===== verification/Readmission.v ===== *)
(** * A readmission that a rolling limit refuses

    [reserve_quoted_readmission] of [konsensus-api/src/pairing.rs] raises the
    reservation of the message in memory before it reserves the admission.  When a
    rolling limit refuses the admission, the refusal is recorded by writing the
    file, with the raise in it, and only memory is rolled back. *)

From S2P Require Import Prelude Text BTree SpendBudget CallSpend PairingStore SpendLedger SpendSpec SpendProps SpendDurable FirstContact.

(** The refusals that are recorded in the meter. *)
Definition rolling (e : BudgetRefusal) : Prop := e = RateLimitMinute \/ e = RateLimitHour \/ e = VelocityLimit.

Lemma rolling_not_ledger e why : rolling e -> e <> Ledger why.
Proof. by intros [-> | [-> | ->]]. Qed.
Lemma rolling_not_grant e : rolling e -> e <> NoGrant.
Proof. by intros [-> | [-> | ->]]. Qed.

(** Meters are [u64]s. *)
Definition meter_range (_ : string) (b : GrantBudget) : Prop :=
  0 <= gb_used_msat b <= U64_MAX /\ gb_budget_msat b <= U64_MAX.

Section Readmission.
Context (receipt_verifies : bytes -> SpendGrant -> bool) (cfg : ServiceConfig).

(** A reservation that a rolling limit refused and that wrote the file. *)
Lemma refused_reservation id client epoch charges a env l l' e :
  au_before_persist a = None -> rolling e ->
  reserve_spend_locked receipt_verifies cfg id client epoch charges a env l = (l', Err e) ->
  ls_disk l' = ls_disk l \/
  exists idx g b b', list_find (fun g => spendable receipt_verifies cfg client epoch (au_expected_op_id a) (en_now env) l g = true)
      (pf_grants (ls_file l)) = Some (idx, g) /\ sg_budget g = Some b /\
    reserve_budget id a charges (en_now env) b = (b', Err (e, true)) /\
    persist (en_persist env) (set_file (put_budget idx (Some b') (ls_file l)) l) = (l', Ok tt).
Proof.
  intros Ha He. unfold reserve_spend_locked. cbv zeta. rewrite Ha.
  destruct (negb _); [intros [= <- _]; by left|].
  destruct (list_find _ _) as [[idx g]|] eqn:Hf; [|intros [= <- _]; by left].
  destruct (_ && _); [intros [= <- _]; by left|]. destruct (_ && _); [intros [= <- _]; by left|].
  destruct (sg_budget g) as [b|] eqn:Hb; [|intros [= <- _]; by left].
  destruct (reserve_budget id a charges (en_now env) b) as [b' [[]|[refusal observed]]] eqn:Hr.
  - destruct (au_in_memory a); [done|]. destruct (persist _ _) as [l1 [[]|err]].
    + destruct (existsb _ _); [done|]. intros [= _ <-]. by destruct (rolling_not_grant _ He).
    + intros [= _ <-]. by destruct (rolling_not_ledger _ _ He eq_refl).
  - destruct (observed && negb (au_in_memory a)) eqn:Ho; [|intros [= <- _]; by left].
    apply andb_prop in Ho as [-> _]. destruct (persist _ _) as [l1 [[]|err]] eqn:Hp.
    + intros [= <- <-]. right. by exists idx, g, b, b'.
    + intros [= _ <-]. by destruct (rolling_not_ledger _ _ He eq_refl).
Qed.

Lemma top_up_used parent k top_up now b b' op : 0 <= top_up -> meter_range op b ->
  top_up_budget parent k top_up now b = Ok b' -> gb_used_msat b' = gb_used_msat b + top_up.
Proof.
  intros H0 [Hu Hb]. unfold top_up_budget. destruct (Z.ltb_spec 0 top_up) as [Hpos|]; [|intros [= <-]; lia].
  destruct (reserve_at _ _ _) as [b1|] eqn:Hr; [|done]. cbn [bind_result]. unfold reserve_at in Hr.
  apply reserve_bounded_books in Hr as (Hused & _); [|by repeat constructor|done..]. cbn in Hused.
  intros [= <-]. destruct (gb_pending b1 !! parent); cbn; lia.
Qed.

(** The grant with an operation id is where [list_find] finds it. *)
Lemma grant_index f idx idx' g g' : NoDup (op_ids f) -> pf_grants f !! idx = Some g -> pf_grants f !! idx' = Some g' ->
  sg_op_id g = sg_op_id g' -> idx = idx'.
Proof.
  intros Hn Hg Hg' Hop. apply (NoDup_lookup (op_ids f) idx idx' (sg_op_id g)); [done|..];
    unfold op_ids; change (map sg_op_id) with (fmap (M := list) sg_op_id);
    rewrite list_lookup_fmap, ?Hg, ?Hg'; cbn; by rewrite ?Hop.
Qed.

Lemma put_op_ids idx b f : op_ids (put_budget idx b f) = op_ids f.
Proof.
  unfold op_ids, put_budget, set_grants. cbn.
  change (sg_op_id <$> alter (set_budget b) idx (pf_grants f) = sg_op_id <$> pf_grants f).
  rewrite (list_fmap_alter _ _ id) by by apply Forall_forall. by rewrite list_alter_id.
Qed.

(** The meter under an operation id. *)
Definition meter_is (op : string) (b : GrantBudget) (f : PairingFile) : Prop :=
  forall g b', g ∈ pf_grants f -> sg_op_id g = op -> sg_budget g = Some b' -> b' = b.

Lemma put_meter idx g b f : NoDup (op_ids f) -> pf_grants f !! idx = Some g ->
  meter_is (sg_op_id g) b (put_budget idx (Some b) f).
Proof.
  intros Hn Hg g' b' Hin Hop Hb. rewrite (put_unique idx g b f g' Hn Hg Hin Hop) in Hb. cbn in Hb. by injection Hb.
Qed.

Lemma restore_meter op b f : NoDup (op_ids f) -> meter_is op b (restore_budget op (Some b) f).
Proof.
  intros Hn. unfold restore_budget. destruct (list_find _ _) as [[idx g]|] eqn:Hf.
  - apply list_find_Some in Hf as (Hg & <- & _). by apply put_meter.
  - intros g b' Hin Hop. apply list_find_None in Hf. rewrite Forall_forall in Hf. by destruct (Hf g Hin).
Qed.

(** C39: a readmission that a rolling limit refuses is undone in memory but not on
    disk.  Whenever such a refusal wrote the file, in memory the meter of the grant
    is what it was before, while on disk it has the message's top-up (the quoted
    price above what was reserved for the message), without the admission; the
    two files have the same grants. *)
Theorem refused_readmission_splits_the_file id parent recipient message admission reserved operation basis_at
    top_up_at env s s' e :
  file_ok meter_range (ls_file (ct_ledger (ct_lock env s))) ->
  reserve_quoted_readmission receipt_verifies cfg id parent recipient message admission reserved operation basis_at
    top_up_at env s = (s', Err e) ->
  rolling e -> ls_disk (ct_ledger s') <> ls_disk (ct_ledger (ct_lock env s)) ->
  let memory := ls_file (ct_ledger s') in
  let disk := ls_disk (ct_ledger s') in
  exists k idx before top_up need total,
    canonical_recipient recipient = Some k /\
    quote (ct_lock env s) parent k message admission reserved = Ok (idx, before, top_up, need, total) /\
    op_ids memory = op_ids disk /\ meter_is (rv_op_id parent) before memory /\
    forall g b, g ∈ pf_grants disk -> sg_op_id g = rv_op_id parent -> sg_budget g = Some b ->
      gb_used_msat b = gb_used_msat before + top_up.
Proof.
  intros [Hn Hm]. unfold reserve_quoted_readmission. destruct (canonical_recipient recipient) as [k|];
    [|intros [= _ <-] He; by destruct (rolling_not_grant _ He)].
  cbv zeta. destruct (readmission_basis _ _ _ _) as [[epoch confirmed]|]; [|by intros [= <- _] _ []]. cbn [bind_result].
  destruct (quote _ _ _ _ _ _) as [[[[[idx before] top_up] need] total]|] eqn:Q; [|by intros [= <- _] _ []].
  cbn [bind_result].
  set (s1 := match confirmed with Some _ => _ | None => _ end).
  assert (Hl1 : ct_ledger s1 = ct_ledger (ct_lock env s)) by (unfold s1; by destruct confirmed).
  destruct (above_confirmed _ _); [intros [= <- _] _ H; by rewrite Hl1 in H|].
  destruct (top_up_budget _ _ _ _ _) as [b|] eqn:T; [|intros [= <- _] _ H; by rewrite Hl1 in H].
  rewrite Hl1. set (l := ct_ledger (ct_lock env s)) in *.
  destruct (reserve_spend_locked _ _ _ _ _ _ _ _ _) as [l' [r|e']] eqn:R; [done|]. intros [= <- <-] He Hd.
  apply refused_reservation in R as [R|(idx' & g & b0 & b1 & Hf & Hb0 & Hr & Hp)]; try done.
  apply list_find_Some in Hf as (Hg & Hsp & _). cbn [set_file ls_file] in Hg.
  assert (Hop : sg_op_id g = rv_op_id parent).
  { unfold spendable in Hsp. cbn [au_expected_op_id] in Hsp. rewrite !andb_true_iff in Hsp.
    by destruct Hsp as [[[[[?%bool_decide_eq_true _] _] _] _] _]. }
  assert (Hq : exists g0, pf_grants (ls_file l) !! idx = Some g0 /\ sg_op_id g0 = rv_op_id parent /\
    sg_budget g0 = Some before /\ 0 <= top_up).
  { unfold quote, ok_or in Q. fold l in Q. destruct (list_find _ _) as [[i g0]|] eqn:F; [|done].
    apply list_find_Some in F as (F & Fop & _). cbn [bind_result] in Q.
    destruct (sg_budget g0) as [bb|] eqn:Fb; [|done]. cbn [bind_result] in Q.
    destruct (_ ≫= _) as [old|]; [|done]. cbn [bind_result] in Q. unfold bind_result in Q.
    repeat case_match; simplify_eq. exists g0. split_and!; try done. solve_int. }
  destruct Hq as (g0 & Hg0 & Hop0 & Hb & Ht0).
  assert (Hidx : idx' = idx /\ b0 = b).
  { assert (Hput : pf_grants (put_budget idx (Some b) (ls_file l)) !! idx = Some (set_budget (Some b) g0)).
    { change (alter (set_budget (Some b)) idx (pf_grants (ls_file l)) !! idx = Some (set_budget (Some b) g0)).
      by rewrite list_lookup_alter_eq, Hg0. }
    assert (idx' = idx) as -> by (eapply grant_index; [by rewrite put_op_ids|done|done|by rewrite Hop]).
    rewrite Hput in Hg. injection Hg as <-. cbn in Hb0. by injection Hb0. }
  destruct Hidx as [-> ->].
  assert (Hused : gb_used_msat b1 = gb_used_msat before + top_up).
  { apply refused_same_money in Hr as [-> _].
    eapply top_up_used; [done| |exact T]. apply (Hm g0); [by eapply list_elem_of_lookup_2|done]. }
  pose proof (persist_file (en_persist env) (set_file (put_budget idx (Some b1)
    (ls_file (set_file (put_budget idx (Some b) (ls_file l)) l))) (set_file (put_budget idx (Some b) (ls_file l)) l))) as [Hpf _].
  rewrite Hp in Hpf. destruct Hpf as [Hsub Hdisk]. cbn [set_file ls_file ls_disk] in *.
  assert (Hnd : NoDup (op_ids (ls_file l'))).
  { eapply sublist_NoDup; [|by apply (fmap_sublist sg_op_id), Hsub].
    change (NoDup (op_ids (put_budget idx (Some b1) (put_budget idx (Some b) (ls_file l))))). by rewrite !put_op_ids. }
  exists k, idx, before, top_up, need, total. cbn. rewrite Hdisk. split_and!; [done|done| |by apply restore_meter|].
  - unfold restore_budget. case_match; [|done]. case_match. by rewrite put_op_ids.
  - intros g' b' Hin Hop' Hb'. rewrite <- Hused. f_equal.
    assert (Hmeter : meter_is (rv_op_id parent) b1 (put_budget idx (Some b1) (put_budget idx (Some b) (ls_file l)))).
    { rewrite <- Hop. apply put_meter; [by rewrite put_op_ids|done]. }
    apply (Hmeter g' b'); [by eapply elem_of_sublist|done|done].
Qed.
End Readmission.

(** ** A run *)

(** The recipient quotes 1500 msat for the message that 1000 msat were reserved
    for, and 2000 msat to admit the sender again; the minute's two payments are used
    up by the top-up. *)
Definition contact_refused : Contacts * result BudgetRefusal (Z * Reservation) :=
  reserve_quoted_readmission no_receipts ex_cfg "a1" message peer_key 1500 2000 1000 None 10 10 ex_env contact_start.

Definition used_msat (f : PairingFile) : option Z := g ← head (pf_grants f); gb_used_msat <$> sg_budget g.

Lemma meters_in_range f :
  forallb (fun g => match sg_budget g with
                    | Some b => (0 <=? gb_used_msat b) && (gb_used_msat b <=? U64_MAX) && (gb_budget_msat b <=? U64_MAX)
                    | None => true
                    end) (pf_grants f) = true -> meters meter_range f.
Proof.
  intros Hall g b Hg Hb. rewrite forallb_forall in Hall. apply list_elem_of_In, Hall in Hg. rewrite Hb in Hg.
  bool_to_prop. by split.
Qed.

Lemma refused_readmission_splits_the_file_witness :
  contact_refused.2 = Err RateLimitMinute /\
  used_msat (ls_file (ct_ledger contact_refused.1)) = Some 1000 /\
  used_msat (ls_disk (ct_ledger contact_refused.1)) = Some 1500 /\
  exists before, meter_is "op" before (ls_file (ct_ledger contact_refused.1)).
Proof.
  split; [vm_compute; reflexivity|]. split; [vm_compute; reflexivity|]. split; [vm_compute; reflexivity|].
  destruct (refused_readmission_splits_the_file no_receipts ex_cfg "a1" message peer_key 1500 2000 1000 None 10 10 ex_env
    contact_start contact_refused.1 RateLimitMinute) as (k & idx & before & top & need & total & _ & _ & _ & Hm & _).
  - split; [apply (bool_decide_unpack _); vm_compute; exact I|].
    apply meters_in_range. vm_compute. reflexivity.
  - vm_compute. reflexivity.
  - by left.
  - intros Heq. apply (f_equal used_msat) in Heq. vm_compute in Heq. discriminate Heq.
  - exists before. exact Hm.
Defined.
