(* ===== verification/Identity.v ===== *)
(** * Node identity

    [konsensus-core/src/identity.rs]: every key of a node derived from one
    64-byte seed with blake3's key derivation, one context string per key.

    BIP-39, blake3's key derivation, Ed25519 and secp256k1 come from third-party
    crates and are the class [IdentityPrims]; X25519 is the [RatchetPrims] one.
    Erasing secrets on drop has no effect on the values modelled here. *)

From S2P Require Import Prelude Text Types Concrete DoubleRatchet RatchetConcrete.

(** [blake3_derive_key ctx] is the keyed hasher fed the concatenated updates. *)
Class IdentityPrims {P : Prims} := {
  blake3_derive_key : string -> bytes -> bytes;
  signing_key_from_bytes : bytes -> SigningKey;
  signing_verifying_key : SigningKey -> VerifyingKey;
  vk_to_bytes : VerifyingKey -> bytes;
  ed_verify : VerifyingKey -> bytes -> bytes -> result string unit;
  dalek_signature_from_slice : bytes -> result string bytes;
  secp_secret_from_slice : bytes -> result string bytes;
  secp_public_key : bytes -> bytes;
  bip39_parse : string -> result string string;
  bip39_to_seed : string -> string -> bytes
}.

(** Documented behaviour: derived keys, public keys and signatures are arrays of
    fixed length, a verifying key survives its byte form, and a signature
    verifies under the key of its signer. *)
Class IdentityLaws {P : Prims} {IP : IdentityPrims} {RP : RatchetPrims} : Prop := {
  derive_key_array ctx ikm : is_array 32 (blake3_derive_key ctx ikm);
  x25519_public_array s : is_array 32 s -> is_array 32 (x25519_public s);
  vk_bytes_array b : is_array 32 b -> is_array 32 (vk_to_bytes (signing_verifying_key (signing_key_from_bytes b)));
  vk_bytes_roundtrip b : is_array 32 b ->
    vk_from_bytes (vk_to_bytes (signing_verifying_key (signing_key_from_bytes b))) =
    Ok (signing_verifying_key (signing_key_from_bytes b));
  ed_sign_array sk m : is_array 64 (ed_sign sk m);
  signature_from_array s : is_array 64 s -> dalek_signature_from_slice s = Ok s;
  ed_sign_verifies sk m : ed_verify (signing_verifying_key sk) m (ed_sign sk m) = Ok tt
}.

Inductive IdentityError : Type :=
| InvalidMnemonic (s : string)
| DerivationFailed (s : string)
| InvalidSeedLength (n : nat).

Definition CTX_ED25519 : string := "konsensus-v2 ed25519 signing key".
Definition CTX_X25519 : string := "konsensus-v2 x25519 key exchange".
Definition CTX_SECP256K1 : string := "konsensus-v2 secp256k1 bitcoin key".
Definition CTX_AES256 : string := "konsensus-v2 aes256 storage key".
Definition CTX_OWNER_APPROVAL : string :=
  "konsensus-v2 ed25519 owner-approval key v2 (seed+owner secret)".

Section Identity.
Context {P : Prims} {IP : IdentityPrims} {RP : RatchetPrims}.

Record NodeIdentity := mkIdentity {
  id_ed25519_signing : SigningKey;
  id_ed25519_verifying : VerifyingKey;
  id_x25519_secret : bytes;
  id_x25519_public : bytes;
  id_secp_secret : bytes;
  id_secp_public : bytes;
  id_aes_key : bytes;
  id_node_id : NodeId
}.

Definition identity_from_seed (seed : bytes) : result IdentityError NodeIdentity :=
  if negb (length seed =? 64)%nat then Err (InvalidSeedLength (length seed))
  else
    let signing := signing_key_from_bytes (blake3_derive_key CTX_ED25519 seed) in
    let verifying := signing_verifying_key signing in
    let x_secret := blake3_derive_key CTX_X25519 seed in
    let? secp := map_err (fun e => DerivationFailed ("secp256k1: " +:+ e))
                   (secp_secret_from_slice (blake3_derive_key CTX_SECP256K1 seed)) in
    Ok (mkIdentity signing verifying x_secret (x25519_public x_secret) secp (secp_public_key secp)
          (blake3_derive_key CTX_AES256 seed) (vk_to_bytes verifying)).

Definition mnemonic_seed (mnemonic passphrase : string) : result IdentityError bytes :=
  let? m := map_err InvalidMnemonic (bip39_parse mnemonic) in Ok (bip39_to_seed m passphrase).

Definition identity_from_mnemonic (mnemonic passphrase : string) : result IdentityError NodeIdentity :=
  let? seed := mnemonic_seed mnemonic passphrase in identity_from_seed seed.

(** The owner-approval signing key, from the seed and the owner secret. *)
Definition owner_approval_from_seed (seed owner_secret : bytes) : result IdentityError SigningKey :=
  if negb (length seed =? 64)%nat then Err (InvalidSeedLength (length seed))
  else Ok (signing_key_from_bytes (blake3_derive_key CTX_OWNER_APPROVAL (seed ++ owner_secret))).

Definition derive_jwt_secret (i : NodeIdentity) : bytes :=
  blake3_derive_key "konsensus-v2 jwt signing secret" (id_aes_key i).

(** What a derived identity guarantees to its users: the public halves belong to
    the secret ones, and the node id is the Ed25519 key. *)
Record identity_ok (i : NodeIdentity) : Prop := {
  io_x25519_secret : is_array 32 (id_x25519_secret i);
  io_x25519 : id_x25519_public i = x25519_public (id_x25519_secret i);
  io_signing : exists b, is_array 32 b /\ id_ed25519_signing i = signing_key_from_bytes b;
  io_verifying : id_ed25519_verifying i = signing_verifying_key (id_ed25519_signing i);
  io_node_id : id_node_id i = vk_to_bytes (id_ed25519_verifying i)
}.

Lemma derived_identity_ok {IL : IdentityLaws} seed i : identity_from_seed seed = Ok i -> identity_ok i.
Proof.
  unfold identity_from_seed. destruct (length seed =? 64)%nat; cbn [negb]; [|done].
  destruct (secp_secret_from_slice _) as [secp|e]; cbn [map_err bind_result]; [|done].
  intros [= <-]. split; cbn; try done; [apply derive_key_array|].
  eexists. split; [apply derive_key_array|done].
Qed.
End Identity.

(** ** Executable stand-ins *)

#[export] Instance toy_identity_prims : @IdentityPrims toy_prims := {|
  blake3_derive_key ctx ikm := fold32 (13 + Z.of_nat (String.length ctx)) ikm;
  signing_key_from_bytes b := (b : @SigningKey toy_prims);
  signing_verifying_key (sk : @SigningKey toy_prims) := (sk : @VerifyingKey toy_prims);
  vk_to_bytes (vk : @VerifyingKey toy_prims) := vk;
  ed_verify := @verify_strict toy_prims;
  dalek_signature_from_slice s := if (length s =? 64)%nat then Ok s else Err "signature error";
  secp_secret_from_slice b := Ok b;
  secp_public_key b := b;
  bip39_parse s := Ok s;
  bip39_to_seed m p := fold32 1 [Z.of_nat (String.length m)] ++ fold32 2 [Z.of_nat (String.length p)]
|}.

Lemma fold32_array tag bs : is_array 32 (fold32 tag bs).
Proof. split; [apply length_fold32|apply to_be_bytes_range]. Qed.

#[export] Instance toy_identity_laws : @IdentityLaws toy_prims toy_identity_prims toy_ratchet.
Proof.
  split; cbn [toy_identity_prims toy_ratchet toy_prims blake3_derive_key x25519_public vk_to_bytes
    signing_verifying_key signing_key_from_bytes vk_from_bytes ed_sign ed_verify verify_strict
    dalek_signature_from_slice].
  - intros. apply fold32_array.
  - done.
  - done.
  - intros b [-> _]. done.
  - intros sk m. unfold toy_sign. split.
    + by rewrite length_take, length_app, !length_fold32.
    + apply Forall_take, Forall_app. split; apply fold32_array.
  - intros s [-> _]. done.
  - intros sk m. by rewrite bool_decide_eq_true_2.
Qed.
