(* ===== verification/X3dh.v ===== *)
(** * X3DH key agreement

    [konsensus-crypto/src/x3dh.rs]: the initiator derives a secret from the
    responder's published prekey bundle; the responder derives it from the
    initiator's public keys.  Generated secrets are arguments.  Erasing the
    intermediate buffers has no effect on the values modelled here. *)

From S2P Require Import Prelude Text Types DoubleRatchet Identity.

Inductive X3dhError : Type :=
| X3InvalidSignature (s : string)
| X3NoOneTimePreKey
| X3DerivationFailed (s : string)
| X3InvalidPublicKey (s : string).

Section X3dh.
Context {P : Prims} {IP : IdentityPrims} {RP : RatchetPrims}.

Record PrekeyBundle := mkBundle {
  pb_identity_key : bytes;
  pb_signed_prekey : bytes;
  pb_signed_prekey_sig : bytes;
  pb_identity_verifying_key : VerifyingKey;
  pb_one_time_prekey : option bytes;
  pb_one_time_prekey_id : option Z
}.

Record SignedPreKey := mkSpk { spk_secret : bytes; spk_public : bytes }.
Definition signed_prekey_generate (fresh : bytes) : SignedPreKey := mkSpk fresh (x25519_public fresh).

Record OneTimePreKey := mkOpk { opk_id : Z; opk_secret : bytes; opk_public : bytes }.
Definition one_time_prekey_generate (fresh : bytes) (id : Z) : OneTimePreKey :=
  mkOpk id fresh (x25519_public fresh).

Record X3dhSharedSecret := mkShared { xs_secret : bytes; xs_associated_data : bytes }.

Record X3dhInitiation := mkInitiation {
  xi_shared_secret : X3dhSharedSecret;
  xi_identity_key : bytes;
  xi_ephemeral_key : bytes;
  xi_one_time_prekey_id : option Z
}.

Definition x3dh_kdf (dh_outputs : bytes) (info : string) : result X3dhError bytes :=
  map_err X3DerivationFailed (hkdf_expand (repeat 255 32) (repeat 255 32 ++ dh_outputs) info 32).

Definition build_associated_data (ik_a ik_b : bytes) : bytes := ik_a ++ ik_b.

Definition x3dh_initiate (ephemeral_secret alice_identity_secret alice_identity_public : bytes)
    (b : PrekeyBundle) : result X3dhError X3dhInitiation :=
  let? _ := map_err X3InvalidSignature
              (ed_verify (pb_identity_verifying_key b) (pb_signed_prekey b) (pb_signed_prekey_sig b)) in
  let dh1 := diffie_hellman alice_identity_secret (pb_signed_prekey b) in
  let dh2 := diffie_hellman ephemeral_secret (pb_identity_key b) in
  let dh3 := diffie_hellman ephemeral_secret (pb_signed_prekey b) in
  let '(dh4, opk_id) :=
    match pb_one_time_prekey b with
    | Some opk => (diffie_hellman ephemeral_secret opk, pb_one_time_prekey_id b)
    | None => ([], None)
    end in
  let? secret := x3dh_kdf (dh1 ++ dh2 ++ dh3 ++ dh4) "konsensus-v2-x3dh" in
  Ok (mkInitiation
        (mkShared secret (build_associated_data alice_identity_public (pb_identity_key b)))
        alice_identity_public (x25519_public ephemeral_secret) opk_id).

Definition x3dh_respond (bob_identity_secret bob_identity_public : bytes) (spk : SignedPreKey)
    (opk : option OneTimePreKey) (alice_identity_key alice_ephemeral_key : bytes) :
    result X3dhError X3dhSharedSecret :=
  let dh1 := diffie_hellman (spk_secret spk) alice_identity_key in
  let dh2 := diffie_hellman bob_identity_secret alice_ephemeral_key in
  let dh3 := diffie_hellman (spk_secret spk) alice_ephemeral_key in
  let dh4 := match opk with
             | Some k => diffie_hellman (opk_secret k) alice_ephemeral_key
             | None => []
             end in
  let? secret := x3dh_kdf (dh1 ++ dh2 ++ dh3 ++ dh4) "konsensus-v2-x3dh" in
  Ok (mkShared secret (build_associated_data alice_identity_key bob_identity_public)).

(** ** Agreement *)

Lemma x3dh_kdf_total {RL : RatchetLaws} dh info : exists out, x3dh_kdf dh info = Ok out.
Proof.
  unfold x3dh_kdf. destruct (hkdf_total (repeat 255 32) (repeat 255 32 ++ dh) info 32) as [out ->]; [lia|].
  by exists out.
Qed.

(** The bundle a responder publishes from its identity and prekeys. *)
Record published (i : NodeIdentity) (spk : SignedPreKey) (opk : option OneTimePreKey)
    (b : PrekeyBundle) : Prop := {
  pub_identity : pb_identity_key b = id_x25519_public i;
  pub_spk : pb_signed_prekey b = spk_public spk;
  pub_sig : pb_signed_prekey_sig b = ed_sign (id_ed25519_signing i) (spk_public spk);
  pub_vk : pb_identity_verifying_key b = id_ed25519_verifying i;
  pub_opk : pb_one_time_prekey b = opk_public <$> opk;
  pub_opk_id : pb_one_time_prekey_id b = opk_id <$> opk
}.

(** The two runs derive one secret and one associated data. *)
Lemma x3dh_agreement {RL : RatchetLaws} {IL : IdentityLaws} ephemeral a b spk opk bundle :
  identity_ok a -> identity_ok b -> spk_public spk = x25519_public (spk_secret spk) ->
  (forall k, opk = Some k -> opk_public k = x25519_public (opk_secret k)) ->
  published b spk opk bundle ->
  exists i, x3dh_initiate ephemeral (id_x25519_secret a) (id_x25519_public a) bundle = Ok i /\
    x3dh_respond (id_x25519_secret b) (id_x25519_public b) spk opk (xi_identity_key i) (xi_ephemeral_key i)
      = Ok (xi_shared_secret i) /\
    xi_identity_key i = id_x25519_public a /\ xi_ephemeral_key i = x25519_public ephemeral /\
    xi_one_time_prekey_id i = opk_id <$> opk.
Proof.
  intros Ha Hb Hspk Hopk [Hid Hsp Hsig Hvk Ho Hoid].
  unfold x3dh_initiate, x3dh_respond. rewrite Hvk, Hsp, Hsig, (io_verifying _ Hb), ed_sign_verifies, Hid.
  cbn [map_err bind_result].
  rewrite Ho, Hoid, (io_x25519 _ Hb), (io_x25519 _ Ha), Hspk.
  rewrite (dh_agree (id_x25519_secret a)), !(dh_agree ephemeral).
  destruct opk as [k|]; cbn [fmap option_fmap option_map]; [rewrite (Hopk k eq_refl), (dh_agree ephemeral)|];
    match goal with |- context [x3dh_kdf ?l ?i] => destruct (x3dh_kdf_total l i) as [out Hout] end;
    rewrite Hout; (eexists; split; [done|]); cbn [xi_identity_key xi_ephemeral_key xi_shared_secret
      xi_one_time_prekey_id]; rewrite Hout; done.
Qed.
End X3dh.
