(* ===== verification/Session.v ===== *)
(** * The session manager

    [konsensus-crypto/src/session.rs]: prekeys, X3DH and one Double Ratchet per
    peer, with replacement sessions held aside until the peer proves it holds
    them, and every session sealed in a store.

    A manager is a record; each operation is a function of it.  Generated keys
    and nonces, the clock ([now] in ms, [inst] the monotonic clock in ns) and the
    answer of the store are arguments.  Every change of the session map happens
    under its write lock; [persist_session], [session_encrypt] and
    [remove_session] hold it across the store call, so each is one step, and the
    others are compositions of steps.  The default build is modelled: plaintext
    migration is compiled out. *)

From S2P Require Import Prelude Text Types DoubleRatchet Identity X3dh.

(** serde_json on ratchet states, and equality of curve points. *)
Class SessionPrims := {
  ratchet_state_to_vec : RatchetState -> result string bytes;
  ratchet_state_from_slice : bytes -> result string RatchetState;
  x25519_point_eq : bytes -> bytes -> bool
}.

(** Documented behaviour: what was serialised reads back as it was, and AES-GCM
    appends a 16-byte tag. *)
Class SessionLaws {RP : RatchetPrims} {SP : SessionPrims} : Prop := {
  ratchet_state_json s b : ratchet_state_to_vec s = Ok b -> ratchet_state_from_slice b = Ok s;
  aes_gcm_tagged key nonce msg aad ct : aes_gcm_encrypt key nonce msg aad = Ok ct -> (16 <= length ct)%nat
}.

Inductive SessionError : Type :=
| NoSession (peer : NodeId)
| SessionExists (peer : NodeId)
| KeyAgreement (e : X3dhError)
| Ratchet (e : RatchetError)
| InvalidPeerData (s : string)
| NotPersisted.

Record SerializablePrekeyBundle := mkSerBundle {
  sb_identity_key : string;
  sb_signed_prekey : string;
  sb_signed_prekey_sig : string;
  sb_node_id : string;
  sb_one_time_prekey : option string;
  sb_one_time_prekey_id : option Z
}.

Record SerializableSessionInit := mkSerInit {
  si_identity_key : string;
  si_ephemeral_key : string;
  si_one_time_prekey_id : option Z;
  si_ratchet_key : string
}.

Inductive SessionReplacement : Type := Keep | AfterConfirmation.

(** How the store answered a write: stored, refused, or stored although the
    caller was told it failed. *)
Inductive store_answer : Type := Stored | Refused (e : string) | StoredButFailed (e : string).

Definition store_write (a : store_answer) (f : gmap NodeId bytes -> gmap NodeId bytes)
    (disk : gmap NodeId bytes) : gmap NodeId bytes * result string unit :=
  match a with
  | Stored => (f disk, Ok tt)
  | Refused e => (disk, Err e)
  | StoredButFailed e => (f disk, Err e)
  end.

(** Seconds on the monotonic clock; [elapsed] saturates at zero. *)
Definition secs (n : Z) : Z := n * 1000000000.
Definition elapsed (now since : Z) : Z := saturating_sub now since.
Definition RETIRED_SESSION_READS_FOR : Z := secs (60 * 60).
Definition SESSION_ENCRYPTION_CTX : string := "konsensus-v2 session-at-rest encryption key".

Section Session.
Context {P : Prims} {IP : IdentityPrims} {RP : RatchetPrims} {SP : SessionPrims}.

Record RetiredSession := mkRetired { rt_ratchet : DoubleRatchet; rt_since : Z }.

Record PeerSession := mkSession {
  ss_ratchet : DoubleRatchet;
  ss_established_at_ms : option Z;
  ss_unconfirmed : option DoubleRatchet;
  ss_unconfirmed_initiated : bool;
  ss_unconfirmed_since : option Z;
  ss_awaiting_confirmation : bool;
  ss_needs_renegotiation : bool;
  ss_retired : option RetiredSession;
  ss_ratchet_init_owed : bool
}.

Definition new_session (r : DoubleRatchet) (established : option Z) (awaiting : bool) : PeerSession :=
  mkSession r established None false None awaiting false None false.

Definition switch_to (now : option Z) (inst : Z) (r : DoubleRatchet) (s : PeerSession) : PeerSession :=
  mkSession r now None false None false false (Some (mkRetired (ss_ratchet s) inst)) false.

Definition retired_can_read (inst : Z) (s : PeerSession) : bool :=
  match ss_retired s with
  | Some r => elapsed inst (rt_since r) <=? RETIRED_SESSION_READS_FOR
  | None => false
  end.

Definition set_ratchet (r : DoubleRatchet) (s : PeerSession) : PeerSession :=
  mkSession r (ss_established_at_ms s) (ss_unconfirmed s) (ss_unconfirmed_initiated s)
    (ss_unconfirmed_since s) (ss_awaiting_confirmation s) (ss_needs_renegotiation s) (ss_retired s)
    (ss_ratchet_init_owed s).
Definition set_unconfirmed (u : option DoubleRatchet) (s : PeerSession) : PeerSession :=
  mkSession (ss_ratchet s) (ss_established_at_ms s) u (ss_unconfirmed_initiated s)
    (ss_unconfirmed_since s) (ss_awaiting_confirmation s) (ss_needs_renegotiation s) (ss_retired s)
    (ss_ratchet_init_owed s).
Definition hold_aside (inst : Z) (r : DoubleRatchet) (initiator : bool) (s : PeerSession) : PeerSession :=
  mkSession (ss_ratchet s) (ss_established_at_ms s) (Some r) initiator (Some inst)
    (ss_awaiting_confirmation s) (ss_needs_renegotiation s) (ss_retired s) (ss_ratchet_init_owed s).
Definition set_awaiting (b : bool) (s : PeerSession) : PeerSession :=
  mkSession (ss_ratchet s) (ss_established_at_ms s) (ss_unconfirmed s) (ss_unconfirmed_initiated s)
    (ss_unconfirmed_since s) b (ss_needs_renegotiation s) (ss_retired s) (ss_ratchet_init_owed s).
Definition set_renegotiate (b : bool) (s : PeerSession) : PeerSession :=
  mkSession (ss_ratchet s) (ss_established_at_ms s) (ss_unconfirmed s) (ss_unconfirmed_initiated s)
    (ss_unconfirmed_since s) (ss_awaiting_confirmation s) b (ss_retired s) (ss_ratchet_init_owed s).
Definition set_retired (t : option RetiredSession) (s : PeerSession) : PeerSession :=
  mkSession (ss_ratchet s) (ss_established_at_ms s) (ss_unconfirmed s) (ss_unconfirmed_initiated s)
    (ss_unconfirmed_since s) (ss_awaiting_confirmation s) (ss_needs_renegotiation s) t
    (ss_ratchet_init_owed s).
Definition set_owed (b : bool) (s : PeerSession) : PeerSession :=
  mkSession (ss_ratchet s) (ss_established_at_ms s) (ss_unconfirmed s) (ss_unconfirmed_initiated s)
    (ss_unconfirmed_since s) (ss_awaiting_confirmation s) (ss_needs_renegotiation s) (ss_retired s) b.

(** [sm_store] is [None] without a store, else what it holds. *)
Record SessionManager := mkManager {
  sm_identity : NodeIdentity;
  sm_signed_prekey : SignedPreKey;
  sm_one_time_prekeys : list OneTimePreKey;
  sm_next_opk_id : Z;
  sm_sessions : gmap NodeId PeerSession;
  sm_store : option (gmap NodeId bytes);
  sm_session_cipher : bytes
}.

Definition set_sessions (m : gmap NodeId PeerSession) (st : SessionManager) : SessionManager :=
  mkManager (sm_identity st) (sm_signed_prekey st) (sm_one_time_prekeys st) (sm_next_opk_id st) m
    (sm_store st) (sm_session_cipher st).
Definition set_store (d : option (gmap NodeId bytes)) (st : SessionManager) : SessionManager :=
  mkManager (sm_identity st) (sm_signed_prekey st) (sm_one_time_prekeys st) (sm_next_opk_id st)
    (sm_sessions st) d (sm_session_cipher st).
Definition set_prekeys (ks : list OneTimePreKey) (next : Z) (st : SessionManager) : SessionManager :=
  mkManager (sm_identity st) (sm_signed_prekey st) ks next (sm_sessions st) (sm_store st)
    (sm_session_cipher st).
(** [sessions.get_mut(peer)]: change the session in place, if there is one. *)
Definition update_session (peer : NodeId) (f : PeerSession -> PeerSession) (st : SessionManager) :
    SessionManager := set_sessions (alter f peer (sm_sessions st)) st.

Definition derive_session_cipher (i : NodeIdentity) : bytes :=
  blake3_derive_key SESSION_ENCRYPTION_CTX (id_aes_key i).

(** [fresh i] is the [i]th generated one-time secret; [random] the drawn u32. *)
Definition generate_prekeys (fresh : nat -> bytes) (first : Z) (n : nat) : list OneTimePreKey :=
  map (fun i => one_time_prekey_generate (fresh i) (wrapping_add_u32 first (Z.of_nat i))) (seq 0 n).

Definition with_optional_store (spk : bytes) (fresh : nat -> bytes) (random : Z) (i : NodeIdentity)
    (store : option (gmap NodeId bytes)) : SessionManager :=
  let base := random / 2 in
  mkManager i (signed_prekey_generate spk) (generate_prekeys fresh base 10) (base + 10) ∅ store
    (derive_session_cipher i).

(** ** Sealing sessions *)

Definition seal_session_blob (nonce cipher plaintext : bytes) : result string bytes :=
  let? encrypted := map_err (fun e => "session encrypt: " +:+ e) (aes_gcm_encrypt cipher nonce plaintext []) in
  Ok (nonce ++ encrypted).

Definition session_blob (nonce cipher : bytes) (s : PeerSession) : result string bytes :=
  let? json := map_err (fun e => "serialize session state: " +:+ e)
                 (ratchet_state_to_vec (export_state (ss_ratchet s))) in
  map_err (fun e => "encrypt session state: " +:+ e) (seal_session_blob nonce cipher json).

Definition decrypt_session_blob (cipher data : bytes) : result string bytes :=
  if (length data <? 12)%nat then Err "session blob too short for nonce"
  else map_err (fun e => "session decrypt: " +:+ e)
         (aes_gcm_decrypt cipher (take 12 data) (drop 12 data) []).

(** The default build: only a blob that authenticates is loaded. *)
Definition decrypt_or_migrate_blob (cipher blob : bytes) : option bytes :=
  if (12 <? length blob)%nat then
    match decrypt_session_blob cipher blob with Ok b => Some b | Err _ => None end
  else None.

Definition persist_session (nonce : bytes) (answer : store_answer) (peer : NodeId)
    (st : SessionManager) : SessionManager :=
  match sm_store st, sm_sessions st !! peer with
  | Some disk, Some session =>
      match session_blob nonce (sm_session_cipher st) session with
      | Ok blob => set_store (Some (store_write answer (insert peer blob) disk).1) st
      | Err _ => st
      end
  | _, _ => st
  end.

(** [listed] is the answer of [list_sessions], [load] that of [load_session] for
    each peer; the result counts the sessions restored. *)
Fixpoint restore_listed (listed : list NodeId) (load : NodeId -> result string (option bytes))
    (st : SessionManager) : SessionManager * Z :=
  match listed with
  | [] => (st, 0)
  | peer :: rest =>
      let restored :=
        match load peer with
        | Ok (Some blob) =>
            match decrypt_or_migrate_blob (sm_session_cipher st) blob with
            | Some json =>
                match ratchet_state_from_slice json with
                | Ok state => Some (from_state state)
                | Err _ => None
                end
            | None => None
            end
        | _ => None
        end in
      match restored with
      | Some r =>
          let '(st', n) := restore_listed rest load
            (set_sessions (<[peer := new_session r None false]> (sm_sessions st)) st) in (st', n + 1)
      | None => restore_listed rest load st
      end
  end.

Definition restore_sessions (listed : result string (list NodeId))
    (load : NodeId -> result string (option bytes)) (st : SessionManager) : SessionManager * Z :=
  match sm_store st, listed with
  | Some _, Ok ids => restore_listed ids load st
  | _, _ => (st, 0)
  end.

(** ** Keys on the wire *)

Definition parse_x25519_key (hex : string) : result SessionError bytes :=
  let? b := map_err (fun e => InvalidPeerData ("invalid hex: " +:+ e)) (hex_decode hex) in
  if (length b =? 32)%nat then Ok b else Err (InvalidPeerData "expected 32-byte X25519 key").

Definition same_x25519_point (first second : string) : bool :=
  match parse_x25519_key first, parse_x25519_key second with
  | Ok a, Ok b => x25519_point_eq a b
  | _, _ => false
  end.

Definition deserialize_prekey_bundle (b : SerializablePrekeyBundle) : result SessionError PrekeyBundle :=
  let? identity_key := parse_x25519_key (sb_identity_key b) in
  let? signed_prekey := parse_x25519_key (sb_signed_prekey b) in
  let? sig_bytes := map_err (fun e => InvalidPeerData ("invalid sig hex: " +:+ e))
                      (hex_decode (sb_signed_prekey_sig b)) in
  let? sig := map_err (fun e => InvalidPeerData ("invalid signature: " +:+ e))
                (dalek_signature_from_slice sig_bytes) in
  let? node_id := map_err (fun e => InvalidPeerData ("invalid node_id: " +:+ CoreError_to_string e))
                    (NodeId_from_hex (sb_node_id b)) in
  let? vk := map_err (fun e => InvalidPeerData ("invalid verifying key: " +:+ CoreError_to_string e))
               (NodeId_to_verifying_key node_id) in
  let? opk := match sb_one_time_prekey b with
              | Some h => let? k := parse_x25519_key h in Ok (Some k)
              | None => Ok None
              end in
  Ok (mkBundle identity_key signed_prekey sig vk opk (sb_one_time_prekey_id b)).

Definition prekey_bundle (st : SessionManager) : SerializablePrekeyBundle :=
  let i := sm_identity st in
  let spk := sm_signed_prekey st in
  let opk := head (sm_one_time_prekeys st) in
  mkSerBundle (hex_encode (id_x25519_public i)) (hex_encode (spk_public spk))
    (hex_encode (ed_sign (id_ed25519_signing i) (spk_public spk))) (NodeId_to_hex (id_node_id i))
    ((fun k => hex_encode (opk_public k)) <$> opk) (opk_id <$> opk).

Definition ratchet_message_to_bytes (m : RatchetMessage) : bytes :=
  header_to_bytes (rm_header m) ++ rm_ciphertext m.

Definition ratchet_message_from_bytes (data : bytes) : result SessionError RatchetMessage :=
  if (length data <? 40)%nat then
    Err (InvalidPeerData ("ratchet message too short: " +:+ show_uint (Z.of_nat (length data))
                          +:+ " bytes, need at least 40"))
  else Ok (mkRatchetMsg (header_from_bytes (take 40 data)) (drop 40 data)).

(** ** Establishing sessions *)

Definition install_session (now : option Z) (inst : Z) (peer : NodeId) (r : DoubleRatchet)
    (replacement : SessionReplacement) (initiator : bool) : comp SessionManager SessionError unit := fun st =>
  match replacement, sm_sessions st !! peer with
  | Keep, Some _ => (st, Err (SessionExists peer))
  | AfterConfirmation, Some _ => (update_session peer (hold_aside inst r initiator) st, Ok tt)
  | _, None => (set_sessions (<[peer := new_session r now initiator]> (sm_sessions st)) st, Ok tt)
  end.

(** What one negotiation draws and is answered: the ephemeral and the ratchet
    secret, the nonce of the saved blob, the clocks and the store. *)
Record NegotiationEnv := mkNegEnv {
  ne_ephemeral : bytes;
  ne_ratchet : bytes;
  ne_nonce : bytes;
  ne_now : option Z;
  ne_inst : Z;
  ne_answer : store_answer;
  ne_opk : nat -> bytes
}.

(** The part of [initiate_with] before the session map is touched. *)
Definition derive_initiated (env : NegotiationEnv) (peer_bundle : SerializablePrekeyBundle)
    (st : SessionManager) : result SessionError (X3dhInitiation * DoubleRatchet) :=
  let? bundle := deserialize_prekey_bundle peer_bundle in
  let? initiation := map_err KeyAgreement
    (x3dh_initiate (ne_ephemeral env) (id_x25519_secret (sm_identity st))
       (id_x25519_public (sm_identity st)) bundle) in
  let? r := map_err Ratchet
    (init_sender (ne_ratchet env) (xs_secret (xi_shared_secret initiation)) (pb_signed_prekey bundle)
       (xs_associated_data (xi_shared_secret initiation))) in
  Ok (initiation, r).

Definition initiate_with (env : NegotiationEnv) (peer : NodeId) (peer_bundle : SerializablePrekeyBundle)
    (replacement : SessionReplacement) : comp SessionManager SessionError SerializableSessionInit := fun st =>
  match derive_initiated env peer_bundle st with
  | Err e => (st, Err e)
  | Ok (initiation, r) =>
      match install_session (ne_now env) (ne_inst env) peer r replacement true st with
      | (st, Err e) => (st, Err e)
      | (st, Ok _) =>
          (persist_session (ne_nonce env) (ne_answer env) peer st,
           Ok (mkSerInit (hex_encode (xi_identity_key initiation)) (hex_encode (xi_ephemeral_key initiation))
                 (xi_one_time_prekey_id initiation) (hex_encode (dh_public r))))
      end
  end.

Definition initiate_session (env : NegotiationEnv) (peer : NodeId) (b : SerializablePrekeyBundle) :
    comp SessionManager SessionError SerializableSessionInit := fun st =>
  match sm_sessions st !! peer with
  | Some _ => (st, Err (SessionExists peer))
  | None => initiate_with env peer b Keep st
  end.

Definition reinitiate_session (env : NegotiationEnv) (peer : NodeId) (b : SerializablePrekeyBundle) :
    comp SessionManager SessionError SerializableSessionInit :=
  initiate_with env peer b AfterConfirmation.

Definition replenish_prekeys (fresh : nat -> bytes) (st : SessionManager) : SessionManager :=
  let ks := sm_one_time_prekeys st in
  if (length ks <? 5)%nat then
    let batch := (10 - length ks)%nat in
    set_prekeys (ks ++ generate_prekeys fresh (sm_next_opk_id st) batch)
      (wrapping_add_u32 (sm_next_opk_id st) (Z.of_nat batch)) st
  else st.

(** The part of [accept_with] before the session map is touched: the position
    of the named one-time prekey, and the session. *)
Definition derive_accepted (init : SerializableSessionInit) (st : SessionManager) :
    result SessionError (option nat * DoubleRatchet) :=
  let? alice_identity := parse_x25519_key (si_identity_key init) in
  let? alice_ephemeral := parse_x25519_key (si_ephemeral_key init) in
  let? _ := parse_x25519_key (si_ratchet_key init) in
  let spk := sm_signed_prekey st in
  let otpks := sm_one_time_prekeys st in
  let? idx := match si_one_time_prekey_id init with
              | Some id =>
                  let? found := ok_or (list_find (fun k => opk_id k = id) otpks)
                    (InvalidPeerData ("unknown one-time prekey id " +:+ show_uint id)) in
                  Ok (Some found.1)
              | None => Ok None
              end in
  let? shared := map_err KeyAgreement
    (x3dh_respond (id_x25519_secret (sm_identity st)) (id_x25519_public (sm_identity st)) spk
       (i ← idx; otpks !! i) alice_identity alice_ephemeral) in
  Ok (idx, init_receiver (xs_secret shared) (spk_secret spk) (spk_public spk) (xs_associated_data shared)).

Definition accept_with (env : NegotiationEnv) (peer : NodeId) (init : SerializableSessionInit)
    (replacement : SessionReplacement) : comp SessionManager SessionError unit := fun st =>
  match derive_accepted init st with
  | Err e => (st, Err e)
  | Ok (idx, r) =>
      match install_session (ne_now env) (ne_inst env) peer r replacement false st with
      | (st, Err e) => (st, Err e)
      | (st, Ok _) =>
          let st := match idx with
                    | Some i => set_prekeys (delete i (sm_one_time_prekeys st)) (sm_next_opk_id st) st
                    | None => st
                    end in
          let st := persist_session (ne_nonce env) (ne_answer env) peer st in
          (replenish_prekeys (ne_opk env) st, Ok tt)
      end
  end.

Definition accept_session (env : NegotiationEnv) (peer : NodeId) (init : SerializableSessionInit) :
    comp SessionManager SessionError unit := fun st =>
  match sm_sessions st !! peer with
  | Some _ => (st, Err (SessionExists peer))
  | None => accept_with env peer init Keep st
  end.

Definition reaccept_session (env : NegotiationEnv) (peer : NodeId) (init : SerializableSessionInit) :
    comp SessionManager SessionError unit := accept_with env peer init AfterConfirmation.

(** [confirm_session] up to the end of the locked block. *)
Definition confirm_locked (now : option Z) (inst : Z) (peer : NodeId) (st : SessionManager) :
    SessionManager * bool :=
  match sm_sessions st !! peer with
  | None => (st, false)
  | Some s =>
      match ss_unconfirmed s, ss_unconfirmed_initiated s with
      | Some r, true => (update_session peer (switch_to now inst r) st, true)
      | _, _ =>
          if ss_awaiting_confirmation s then (update_session peer (set_awaiting false) st, true)
          else (st, false)
      end
  end.

Definition confirm_session (now : option Z) (inst : Z) (nonce : bytes) (answer : store_answer)
    (peer : NodeId) (st : SessionManager) : SessionManager * bool :=
  let '(st, confirmed) := confirm_locked now inst peer st in
  if confirmed then (persist_session nonce answer peer st, true) else (st, false).

Definition mark_needs_renegotiation (peer : NodeId) : SessionManager -> SessionManager :=
  update_session peer (set_renegotiate true).
Definition owe_ratchet_init (peer : NodeId) : SessionManager -> SessionManager :=
  update_session peer (set_owed true).
Definition take_ratchet_init_owed (peer : NodeId) (st : SessionManager) : SessionManager * bool :=
  match sm_sessions st !! peer with
  | Some s => (update_session peer (set_owed false) st, ss_ratchet_init_owed s)
  | None => (st, false)
  end.
Definition expire_retired_sessions (inst : Z) (st : SessionManager) : SessionManager :=
  set_sessions ((fun s => if retired_can_read inst s then s else set_retired None s) <$> sm_sessions st) st.

(** ** Messages *)

Definition session_encrypt (nonce : bytes) (answer : store_answer) (peer : NodeId) (plaintext : bytes) :
    comp SessionManager SessionError RatchetMessage := fun st =>
  match sm_sessions st !! peer with
  | None => (st, Err (NoSession peer))
  | Some s =>
      match encrypt plaintext (ss_ratchet s) with
      | (r, Err e) => (update_session peer (set_ratchet r) st, Err (Ratchet e))
      | (r, Ok msg) =>
          let st' := update_session peer (set_ratchet r) st in
          match sm_store st with
          | None => (st', Ok msg)
          | Some disk =>
              let '(disk, saved) :=
                match session_blob nonce (sm_session_cipher st) (set_ratchet r s) with
                | Ok blob => store_write answer (insert peer blob) disk
                | Err e => (disk, Err e)
                end in
              match saved with
              | Ok _ => (set_store (Some disk) st', Ok msg)
              | Err _ =>
                  (set_store (Some disk)
                     (update_session peer (set_ratchet (from_state (export_state (ss_ratchet s)))) st),
                   Err NotPersisted)
              end
          end
      end
  end.

(** Reading tries the session in use, then the one held aside, then the retired
    one; [f1], [f2], [f3] are the ratchet secrets the three would generate. *)
Definition decrypt_locked (f1 f2 f3 : bytes) (now : option Z) (inst : Z) (peer : NodeId)
    (m : RatchetMessage) : comp SessionManager SessionError bytes := fun st =>
  match sm_sessions st !! peer with
  | None => (st, Err (NoSession peer))
  | Some s =>
      match decrypt f1 m (ss_ratchet s) with
      | (r, Ok plaintext) =>
          (update_session peer (fun s => set_renegotiate false (set_ratchet r s)) st, Ok plaintext)
      | (r, Err error) =>
          let s := set_ratchet r s in
          match decrypt f2 m <$> ss_unconfirmed s with
          | Some (u, Ok plaintext) =>
              (update_session peer (fun _ => switch_to now inst u s) st, Ok plaintext)
          | promoted =>
              let s := set_unconfirmed (fst <$> promoted) s in
              match (t ← ss_retired s; if retired_can_read inst s then Some t else None) with
              | Some t =>
                  match decrypt f3 m (rt_ratchet t) with
                  | (t', Ok plaintext) =>
                      (update_session peer
                         (fun _ => set_owed true (set_retired (Some (mkRetired t' (rt_since t))) s)) st,
                       Ok plaintext)
                  | (t', Err _) =>
                      (update_session peer (fun _ => set_retired (Some (mkRetired t' (rt_since t))) s) st,
                       Err (Ratchet error))
                  end
              | None => (update_session peer (fun _ => s) st, Err (Ratchet error))
              end
          end
      end
  end.

Definition session_decrypt (f1 f2 f3 : bytes) (now : option Z) (inst : Z) (nonce : bytes)
    (answer : store_answer) (peer : NodeId) (m : RatchetMessage) :
    comp SessionManager SessionError bytes := fun st =>
  match decrypt_locked f1 f2 f3 now inst peer m st with
  | (st, Ok plaintext) => (persist_session nonce answer peer st, Ok plaintext)
  | (st, Err e) => (st, Err e)
  end.

(** A preview reads on copies, which are dropped. *)
Definition preview_decrypt (f1 f2 f3 : bytes) (inst : Z) (peer : NodeId) (m : RatchetMessage)
    (st : SessionManager) : result SessionError bytes :=
  let? s := ok_or (sm_sessions st !! peer) (NoSession peer) in
  let copy r := from_state (export_state r) in
  match (decrypt f1 m (copy (ss_ratchet s))).2 with
  | Ok plaintext => Ok plaintext
  | Err error =>
      let unconfirmed := (fun u => (decrypt f2 m (copy u)).2) <$> ss_unconfirmed s in
      let retired := (fun t => (decrypt f3 m (copy (rt_ratchet t))).2) <$>
                       (t ← ss_retired s; if retired_can_read inst s then Some t else None) in
      match unconfirmed, retired with
      | Some (Ok plaintext), _ => Ok plaintext
      | _, Some (Ok plaintext) => Ok plaintext
      | _, _ => Err (Ratchet error)
      end
  end.

Definition remove_session (answer : store_answer) (peer : NodeId) (st : SessionManager) :
    SessionManager * bool :=
  let removed := bool_decide (is_Some (sm_sessions st !! peer)) in
  let st' := set_sessions (delete peer (sm_sessions st)) st in
  match removed, sm_store st with
  | true, Some disk => (set_store (Some (store_write answer (delete peer) disk).1) st', true)
  | _, _ => (st', removed)
  end.
End Session.
