(* ===== verification/SessionConcrete.v ===== *)
(** * A concrete instance of the session manager's primitives

    Executable stand-ins that satisfy the documented laws, and two nodes built
    from them, used to run sessions on concrete inputs.  A ratchet state is
    serialised by numbering it. *)

From stdpp Require Import countable.
From S2P Require Import Prelude Text Types Concrete DoubleRatchet RatchetConcrete Identity X3dh Session.

#[local] Instance skipped_eq_dec : EqDecision SkippedKey.
Proof. solve_decision. Defined.
#[local] Instance skipped_countable : Countable SkippedKey.
Proof.
  refine (inj_countable' (fun k => (sk_ratchet_public k, sk_message_number k, sk_message_key k))
    (fun '(a, b, c) => mkSkipped a b c) _). by intros [].
Defined.
#[local] Instance state_eq_dec : EqDecision RatchetState.
Proof. solve_decision. Defined.
#[local] Instance state_countable : Countable RatchetState.
Proof.
  refine (inj_countable'
    (fun s => (rs_dh_secret s, rs_dh_public s, rs_remote_dh_public s, rs_root_key s, rs_sending_chain s,
               rs_receiving_chain s, rs_send_count s, rs_recv_count s, rs_previous_chain_length s,
               rs_skipped_keys s, rs_associated_data s))
    (fun '(a, b, c, d, e, f, g, h, i, j, k) => mkState a b c d e f g h i j k) _). by intros [].
Defined.

#[export] Instance toy_session_prims : SessionPrims := {|
  ratchet_state_to_vec s := Ok [Zpos (encode s)];
  ratchet_state_from_slice b :=
    match b with
    | [Zpos p] => match decode p with Some s => Ok s | None => Err "invalid state" end
    | _ => Err "invalid state"
    end;
  x25519_point_eq a b := bool_decide (a = b)
|}.

#[export] Instance toy_session_laws : @SessionLaws toy_ratchet toy_session_prims.
Proof.
  split.
  - intros s b [= <-]. cbn. by rewrite decode_encode.
  - intros key nonce msg aad ct Hct.
    assert (ct = toy_tag key nonce msg aad ++ msg) as -> by (by injection Hct).
    rewrite length_app. unfold toy_tag. rewrite length_fold32. lia.
Qed.

(** Two nodes, from two seeds. *)
Definition toy_identity (n : Z) : @NodeIdentity toy_prims :=
  match @identity_from_seed toy_prims toy_identity_prims toy_ratchet (repeat n 64) with
  | Ok i => i
  | Err _ => mkIdentity (P := toy_prims) [] [] [] [] [] [] [] []
  end.

Definition toy_key (n : Z) : bytes := repeat (n mod 256) 32.

Definition toy_manager (n : Z) : @SessionManager toy_prims :=
  @with_optional_store toy_prims toy_identity_prims toy_ratchet (toy_key (n + 10))
    (fun i => toy_key (n + 100 + Z.of_nat i)) (40 * n) (toy_identity n) (Some ∅).

Definition toy_env (n : Z) : NegotiationEnv :=
  mkNegEnv (toy_key (n + 20)) (toy_key (n + 21)) (repeat n 12) (Some 1000) (secs 5) Stored
    (fun i => toy_key (n + 200 + Z.of_nat i)).
