(* ===== verification/SessionKeys.v ===== *)
(** * No position of a send chain is used twice

    Every ciphertext the manager releases is numbered by its ratchet key and its
    position in that key's send chain.  Over every interleaving of the manager's
    locked sections, with a store that may refuse any write, and across crashes
    after which the sessions come back from the store, no number is released
    twice: the advanced send chain reaches the store before the ciphertext leaves.
    [SessionSeeds] follows the keys of the chains. *)

From S2P Require Import Prelude Text Types Concrete DoubleRatchet RatchetConcrete RatchetConvo Identity X3dh Session SessionConcrete.

Section Keys.
Context {P : Prims} {IP : IdentityPrims} {RP : RatchetPrims} {SP : SessionPrims}.
Context {RL : RatchetLaws} {SL : SessionLaws}.

(** A released message, with the plaintext and the associated data of the
    session that sealed it. *)
Record release := mkRelease { rl_message : RatchetMessage; rl_plaintext : bytes; rl_ad : bytes }.

(** Its position: the ratchet key and the number in that key's chain. *)
Definition rl_position (x : release) : bytes * Z :=
  (hd_dh_public (rm_header (rl_message x)), hd_message_number (rm_header (rl_message x))).

(** A manager, the ratchet keys generated so far, and the messages released. *)
Record keys_state := mkKeys {
  ks_manager : SessionManager;
  ks_generated : gset bytes;
  ks_released : list release
}.

Definition positions (k : keys_state) : list (bytes * Z) := map rl_position (ks_released k).

Definition with_manager (st : SessionManager) (k : keys_state) : keys_state :=
  mkKeys st (ks_generated k) (ks_released k).
Definition generated (pubs : list bytes) (st : SessionManager) (k : keys_state) : keys_state :=
  mkKeys st (ks_generated k ∪ list_to_set pubs) (ks_released k).

(** Generated ratchet keys are new, also among themselves. *)
Definition all_fresh (secrets : list bytes) (k : keys_state) : Prop :=
  NoDup (map x25519_public secrets) /\
  Forall (fun s => x25519_public s ∉ ks_generated k) secrets.

(** The store answers a load with what it holds, or fails. *)
Definition loads_from (disk : gmap NodeId bytes) (load : NodeId -> result string (option bytes)) : Prop :=
  forall peer blob, load peer = Ok (Some blob) -> disk !! peer = Some blob.

Definition released_by (peer : NodeId) (plaintext : bytes) (st : SessionManager)
    (m : result SessionError RatchetMessage) : list release :=
  match m, sm_sessions st !! peer with
  | Ok m, Some s => [mkRelease m plaintext (associated_data (ss_ratchet s))]
  | _, _ => []
  end.

(** A send, with what it releases. *)
Definition sent (nonce : bytes) (answer : store_answer) (peer : NodeId) (plaintext : bytes)
    (k : keys_state) : keys_state :=
  let '(st, out) := session_encrypt nonce answer peer plaintext (ks_manager k) in
  mkKeys st (ks_generated k) (released_by peer plaintext (ks_manager k) out ++ ks_released k).

(** One locked section, by any caller, or a crash and the boot after it. *)
Inductive keys_step : keys_state -> keys_state -> Prop :=
| ks_initiated fresh shared prekey ad r now inst peer replacement k :
    all_fresh [fresh] k -> init_sender fresh shared prekey ad = Ok r ->
    keys_step k (generated [x25519_public fresh]
      (install_session now inst peer r replacement true (ks_manager k)).1 k)
| ks_accepted shared secret public ad now inst peer replacement k :
    keys_step k (with_manager
      (install_session now inst peer (init_receiver shared secret public ad) replacement false
         (ks_manager k)).1 k)
| ks_persist nonce answer peer k : length nonce = 12%nat ->
    keys_step k (with_manager (persist_session nonce answer peer (ks_manager k)) k)
| ks_prekeys ks next k : keys_step k (with_manager (set_prekeys ks next (ks_manager k)) k)
| ks_confirm now inst peer k :
    keys_step k (with_manager (confirm_locked now inst peer (ks_manager k)).1 k)
| ks_mark peer k : keys_step k (with_manager (mark_needs_renegotiation peer (ks_manager k)) k)
| ks_owe peer k : keys_step k (with_manager (owe_ratchet_init peer (ks_manager k)) k)
| ks_take peer k : keys_step k (with_manager (take_ratchet_init_owed peer (ks_manager k)).1 k)
| ks_expire inst k : keys_step k (with_manager (expire_retired_sessions inst (ks_manager k)) k)
| ks_encrypt nonce answer peer plaintext k :
    length nonce = 12%nat ->
    (forall s, sm_sessions (ks_manager k) !! peer = Some s -> send_count (ss_ratchet s) < U32_MAX) ->
    keys_step k (sent nonce answer peer plaintext k)
| ks_decrypt f1 f2 f3 now inst peer m k :
    all_fresh [f1; f2; f3] k ->
    keys_step k (generated [x25519_public f1; x25519_public f2; x25519_public f3]
      (decrypt_locked f1 f2 f3 now inst peer m (ks_manager k)).1 k)
| ks_remove answer peer k : keys_step k (with_manager (remove_session answer peer (ks_manager k)).1 k)
| ks_restart spk fresh random listed load disk k :
    sm_store (ks_manager k) = Some disk -> loads_from disk load ->
    keys_step k (with_manager
      (restore_sessions listed load
         (with_optional_store spk fresh random (sm_identity (ks_manager k)) (Some disk))).1 k).

(** ** The invariant *)

(** The state a blob restores to. *)
Definition restored (cipher blob : bytes) : option DoubleRatchet :=
  json ← decrypt_or_migrate_blob cipher blob;
  match ratchet_state_from_slice json with Ok state => Some (from_state state) | Err _ => None end.

(** The send chain a ratchet can use: its key and its next number. *)
Definition chain_of (r : DoubleRatchet) : option (bytes * Z) :=
  match sending_chain r with Some _ => Some (dh_public r, send_count r) | None => None end.

Inductive place := InUse | Aside | OnDisk.
#[local] Instance place_eq_dec : EqDecision place.
Proof. solve_decision. Defined.

Definition session_chain (w : place) (s : PeerSession) : option (bytes * Z) :=
  match w with
  | InUse => chain_of (ss_ratchet s)
  | Aside => ss_unconfirmed s ≫= chain_of
  | OnDisk => None
  end.

(** The send chain of the session with [peer] in place [w]. *)
Definition chain_at_place (st : SessionManager) (w : place) (peer : NodeId) : option (bytes * Z) :=
  match w with
  | OnDisk => disk ← sm_store st; blob ← (disk !! peer); (restored (sm_session_cipher st) blob) ≫= chain_of
  | _ => (sm_sessions st !! peer) ≫= session_chain w
  end.

(** A chain is in one place, except that the store may also hold the one in use. *)
Definition may_share (w w' : place) : Prop := w = w' \/ (w <> Aside /\ w' <> Aside).

Record keys_ok (k : keys_state) : Prop := {
  ko_cipher : sm_session_cipher (ks_manager k) = derive_session_cipher (sm_identity (ks_manager k));
  ko_known w peer pub n : chain_at_place (ks_manager k) w peer = Some (pub, n) -> pub ∈ ks_generated k;
  ko_ahead w peer pub n i : chain_at_place (ks_manager k) w peer = Some (pub, n) ->
    (pub, i) ∈ positions k -> i < n;
  ko_alone w peer n w' peer' n' pub : chain_at_place (ks_manager k) w peer = Some (pub, n) ->
    chain_at_place (ks_manager k) w' peer' = Some (pub, n') -> peer = peer' /\ may_share w w';
  ko_nonneg w peer pub n : chain_at_place (ks_manager k) w peer = Some (pub, n) -> 0 <= n;
  ko_released pub i : (pub, i) ∈ positions k -> pub ∈ ks_generated k;
  ko_nodup : NoDup (positions k)
}.

(** ** Steps that only move chains *)

(** Where a chain of [st'] was before: in place, held aside until now, in use
    before it was saved, or in the store before it was loaded. *)
Inductive origin (k : keys_state) (st' : SessionManager) (w : place) (peer : NodeId) (pub : bytes) (n : Z) : Prop :=
| or_same : chain_at_place (ks_manager k) w peer = Some (pub, n) -> origin k st' w peer pub n
| or_promoted : w = InUse -> chain_at_place (ks_manager k) Aside peer = Some (pub, n) ->
    chain_at_place st' Aside peer = None -> origin k st' w peer pub n
| or_saved : w = OnDisk -> chain_at_place (ks_manager k) InUse peer = Some (pub, n) -> origin k st' w peer pub n
| or_loaded : w = InUse -> chain_at_place (ks_manager k) OnDisk peer = Some (pub, n) -> origin k st' w peer pub n.

Lemma origin_old k st' w peer pub n : origin k st' w peer pub n ->
  exists w0, chain_at_place (ks_manager k) w0 peer = Some (pub, n).
Proof. intros []; eauto. Qed.

Lemma origin_alone k st' w peer n w' peer' n' pub : keys_ok k ->
  chain_at_place st' w peer = Some (pub, n) -> chain_at_place st' w' peer' = Some (pub, n') ->
  origin k st' w peer pub n -> origin k st' w' peer' pub n' -> peer = peer' /\ may_share w w'.
Proof.
  intros Hk Hc Hc' [H1| -> H1 N1| -> H1| -> H1] [H2| -> H2 N2| -> H2| -> H2].
  all: destruct (ko_alone _ Hk _ _ _ _ _ _ _ H1 H2) as [<- Hs]; split; [done|].
  all: destruct Hs as [Hs|[Hs1 Hs2]]; simplify_eq; try (by left); try (by right); try congruence.
Qed.

(** The invariant survives a step that releases nothing, moves chains, and
    starts a chain under a new key in at most one place. *)
Lemma keys_ok_moves w0 p0 k st' G : keys_ok k ->
  sm_session_cipher st' = derive_session_cipher (sm_identity st') -> ks_generated k ⊆ G ->
  (forall w peer pub n, chain_at_place st' w peer = Some (pub, n) -> origin k st' w peer pub n \/
     (w = w0 /\ peer = p0 /\ (pub ∉ ks_generated k) /\ pub ∈ G /\ n = 0)) ->
  keys_ok (mkKeys st' G (ks_released k)).
Proof.
  intros Hk Hci HG Hor. split; cbn; try done; try apply Hk.
  - intros w peer pub n H. destruct (Hor _ _ _ _ H) as [[w1 H1]%origin_old|Hf]; [|apply Hf].
    by apply HG, (ko_known _ Hk _ _ _ _ H1).
  - intros w peer pub n i H Hr. destruct (Hor _ _ _ _ H) as [[w1 H1]%origin_old|(_ & _ & Hf & _)].
    + by eapply (ko_ahead _ Hk).
    + by destruct Hf; eapply (ko_released _ Hk).
  - intros w peer n w' peer' n' pub H H'.
    destruct (Hor _ _ _ _ H) as [Ho|(-> & -> & Hf & _)], (Hor _ _ _ _ H') as [Ho'|(-> & -> & Hf' & _)].
    + by eapply (origin_alone k st').
    + apply origin_old in Ho as [w1 H1]. by destruct Hf'; eapply (ko_known _ Hk).
    + apply origin_old in Ho' as [w1 H1]. by destruct Hf; eapply (ko_known _ Hk).
    + split; [done|by left].
  - intros w peer pub n H. destruct (Hor _ _ _ _ H) as [[w1 H1]%origin_old|(_ & _ & _ & _ & ->)]; [|done].
    by apply (ko_nonneg _ Hk _ _ _ _ H1).
  - intros pub i Hr. by apply HG, (ko_released _ Hk pub i).
Qed.

(** ** Chains under the manager's updates *)

Lemma chain_update peer f st w q : chain_at_place (update_session peer f st) w q =
  if decide (q = peer /\ w <> OnDisk) then (sm_sessions st !! peer) ≫= (session_chain w ∘ f)
  else chain_at_place st w q.
Proof.
  unfold chain_at_place, update_session, set_sessions. cbn [sm_sessions sm_store sm_session_cipher].
  destruct w; case_decide as Hd; try (by destruct Hd as [_ []]); try done.
  all: try (destruct Hd as [-> _]; rewrite lookup_alter_eq; by destruct (sm_sessions st !! peer)).
  all: rewrite lookup_alter_ne; [done|]; intros ->; by destruct Hd.
Qed.

(** A change of flags moves nothing. *)
Lemma chain_flags peer f st w q : (forall s, session_chain w (f s) = session_chain w s) ->
  chain_at_place (update_session peer f st) w q = chain_at_place st w q.
Proof.
  intros Hf. rewrite chain_update. case_decide as Hd; [|done]. destruct Hd as [-> Hw].
  unfold chain_at_place. destruct (sm_sessions st !! peer) as [s|]; cbn; destruct w; try done; apply Hf.
Qed.

Lemma chain_insert peer s st w q :
  chain_at_place (set_sessions (<[peer := s]> (sm_sessions st)) st) w q =
  if decide (q = peer /\ w <> OnDisk) then session_chain w s else chain_at_place st w q.
Proof.
  unfold chain_at_place, set_sessions. cbn [sm_sessions sm_store sm_session_cipher].
  destruct w; case_decide as Hd; try (by destruct Hd as [_ []]); try done.
  all: try (destruct Hd as [-> _]; by rewrite lookup_insert_eq).
  all: rewrite lookup_insert_ne; [done|]; intros ->; by destruct Hd.
Qed.

(** ** Ratchet operations and the send chain *)

Lemma staged_key fresh r h p step : stage_receive fresh r h = Ok p -> pr_dh_step p = Some step ->
  ps_dh_public step = x25519_public fresh.
Proof.
  unfold stage_receive. set (new := match remote_dh_public r with Some _ => _ | None => _ end).
  intros H Hs. destruct new.
  - destruct (stage_skip_opt (receiving_chain r) _ _ _) as [[[keys c] n]|]; cbn in H; [|done].
    destruct (stage_dh_ratchet fresh r (hd_dh_public h)) as [[st rc]|] eqn:Hst; cbn in H; [|done].
    assert (ps_dh_public st = x25519_public fresh) as <-.
    { unfold stage_dh_ratchet in Hst. destruct (kdf_rk (root_key r) _) as [[r1 c1]|]; cbn in Hst; [|done].
      destruct (kdf_rk r1 _) as [[r2 c2]|]; cbn in Hst; [|done]. by injection Hst as <- <-. }
    unfold bind_result, ok_or in H. inv_match H; by simplify_eq/=.
  - cbn in H. unfold bind_result, ok_or in H. inv_match H; by simplify_eq/=.
Qed.

Lemma chain_decrypt f m r r' out : decrypt f m r = (r', out) ->
  chain_of r' = chain_of r \/ chain_of r' = Some (x25519_public f, 0).
Proof.
  unfold decrypt. case_match.
  - case_match. case_match; intros [= <- _]; by left.
  - case_match eqn:Hst; [|intros [= <- _]; by left].
    case_match; intros [= <- _]; [|by left].
    unfold commit_receive. case_match. case_match eqn:Hstep; [right|by left].
    unfold chain_of. cbn. by rewrite (staged_key _ _ _ _ _ Hst Hstep).
Qed.

Lemma decrypt_failed f m r r' e : decrypt f m r = (r', Err e) -> r' = r.
Proof.
  intros H. change r' with (r', @Err RatchetError bytes e).1. rewrite <- H. apply (failed_decrypt _ _ _ e).
  by rewrite H.
Qed.

Lemma chain_encrypt pt r r' m : 0 <= send_count r < U32_MAX -> encrypt pt r = (r', Ok m) ->
  exists n, chain_of r = Some (dh_public r, n) /\ hd_dh_public (rm_header m) = dh_public r /\
    hd_message_number (rm_header m) = n /\ chain_of r' = Some (dh_public r, n + 1).
Proof.
  intros Hn. unfold encrypt, chain_of. destruct (sending_chain r) as [c|]; cbn [ok_or bind_result]; [|done].
  destruct (ratchet c) as [[next mk]|]; cbn; [|done]. destruct (aead_encrypt _ _ _) as [ct|]; cbn; [|done].
  intros [= <- <-]. eexists. split; [done|]. cbn. split_and!; try done.
  unfold wrapping_add_u32. rewrite Z.mod_small by solve_int. done.
Qed.

(** A snapshot keeps the chain. *)
Lemma chain_snapshot r : chain_of (from_state (export_state r)) = chain_of r.
Proof. done. Qed.

Lemma saved_restores nonce cipher s blob : length nonce = 12%nat -> session_blob nonce cipher s = Ok blob ->
  restored cipher blob = Some (from_state (export_state (ss_ratchet s))).
Proof.
  intros Hn. unfold session_blob, seal_session_blob.
  destruct (ratchet_state_to_vec _) as [json|] eqn:Hj; cbn; [|done].
  destruct (aes_gcm_encrypt _ _ _ _) as [ct|] eqn:He; cbn; [|done]. intros [= <-].
  pose proof (aes_gcm_tagged _ _ _ _ _ He) as Hlen. apply aes_gcm_open in He.
  unfold restored, decrypt_or_migrate_blob, decrypt_session_blob. rewrite length_app, Hn.
  rewrite (proj2 (Nat.ltb_lt _ _)), (proj2 (Nat.ltb_ge _ _)) by lia.
  rewrite take_app_length', drop_app_length', He by done. cbn.
  by rewrite (ratchet_state_json _ _ Hj).
Qed.

(** ** Every section keeps the invariant *)

(** A step that leaves every chain where it is. *)
Lemma keys_ok_still k st' : keys_ok k ->
  sm_session_cipher st' = derive_session_cipher (sm_identity st') ->
  (forall w peer c, chain_at_place st' w peer = Some c -> chain_at_place (ks_manager k) w peer = Some c) ->
  keys_ok (with_manager st' k).
Proof.
  intros Hk Hci Hsame. apply (keys_ok_moves InUse []); try done.
  intros w peer pub n H. left. by apply or_same, Hsame.
Qed.

Lemma install_keeps k now inst peer r replacement initiator G : keys_ok k -> ks_generated k ⊆ G ->
  (forall pub n, chain_of r = Some (pub, n) -> (pub ∉ ks_generated k) /\ pub ∈ G /\ n = 0) ->
  keys_ok (mkKeys (install_session now inst peer r replacement initiator (ks_manager k)).1 G (ks_released k)).
Proof.
  intros Hk HG Hr. unfold install_session.
  destruct (sm_sessions (ks_manager k) !! peer) as [s|] eqn:Hs.
  - destruct replacement; cbn [fst].
    + apply (keys_ok_moves InUse []); try done; [apply Hk|]. intros. left. by apply or_same.
    + apply (keys_ok_moves Aside peer); try done; [apply Hk|]. intros w q pub n. rewrite chain_update, Hs.
      case_decide as Hd; [|intros H; left; by apply or_same]. destruct Hd as [-> Hw].
      destruct w; cbn; try done; intros H; [|by right; eauto].
      left. apply or_same. cbn. by rewrite Hs.
  - assert (Hnew : keys_ok (mkKeys (set_sessions (<[peer := new_session r now initiator]>
      (sm_sessions (ks_manager k))) (ks_manager k)) G (ks_released k))); [|by destruct replacement].
    apply (keys_ok_moves InUse peer); try done; [apply Hk|]. intros w q pub n. rewrite chain_insert.
    case_decide as Hd; [|intros H; left; by apply or_same]. destruct Hd as [-> Hw].
    destruct w; cbn; try done. intros H. right. by eauto.
Qed.

Lemma chain_store disk st w peer : chain_at_place (set_store (Some disk) st) w peer =
  match w with
  | OnDisk => blob ← (disk !! peer); (restored (sm_session_cipher st) blob) ≫= chain_of
  | _ => chain_at_place st w peer
  end.
Proof. by destruct w. Qed.

(** What a write leaves under a key: what was there, or what it put there. *)
Lemma store_write_lookup answer peer blob disk q b :
  (store_write answer (insert peer blob) disk).1 !! q = Some b -> disk !! q = Some b \/ (q = peer /\ b = blob).
Proof.
  destruct answer; cbn; try (by left). all: intros [[<- <-]|[_ H]]%lookup_insert_Some; auto.
Qed.

Lemma session_persist_keeps k nonce answer peer : length nonce = 12%nat -> keys_ok k ->
  keys_ok (with_manager (persist_session nonce answer peer (ks_manager k)) k).
Proof.
  intros Hn Hk. unfold persist_session.
  destruct (sm_store (ks_manager k)) as [disk|] eqn:Hd; [|by destruct k].
  destruct (sm_sessions (ks_manager k) !! peer) as [s|] eqn:Hs; [|by destruct k].
  destruct (session_blob _ _ _) as [blob|] eqn:Hb; [|by destruct k].
  apply (keys_ok_moves InUse []); try done; [apply Hk|]. intros w q pub n. rewrite chain_store.
  destruct w; intros H; left; try (by apply or_same).
  destruct (_ !! q) as [b|] eqn:Hq; cbn in H; [|done].
  apply store_write_lookup in Hq as [Hq|[-> ->]].
  - apply or_same. cbn. by rewrite Hd; cbn; rewrite Hq.
  - apply or_saved; [done|]. cbn. rewrite Hs. by rewrite (saved_restores _ _ _ _ Hn Hb) in H.
Qed.

Lemma confirm_keeps k now inst peer : keys_ok k ->
  keys_ok (with_manager (confirm_locked now inst peer (ks_manager k)).1 k).
Proof.
  intros Hk. unfold confirm_locked. destruct (sm_sessions (ks_manager k) !! peer) as [s|] eqn:Hs; [|by destruct k].
  assert (Hawait : keys_ok (with_manager (if ss_awaiting_confirmation s
    then (update_session peer (set_awaiting false) (ks_manager k), true) else (ks_manager k, false)).1 k)).
  { destruct (ss_awaiting_confirmation s); [|by destruct k].
    apply keys_ok_still; [done|apply Hk|]. intros w q c. cbn [fst]. rewrite chain_flags; [done|]. by intros; destruct w. }
  destruct (ss_unconfirmed s) as [u|] eqn:Hu; [|done]. destruct (ss_unconfirmed_initiated s); [|done].
  cbn [fst]. apply (keys_ok_moves InUse []); try done; [apply Hk|]. intros w q pub n. rewrite chain_update, Hs.
  case_decide as Hd; [|intros H; left; by apply or_same]. destruct Hd as [-> Hw].
  destruct w; cbn; try done. intros H. left. apply or_promoted; [done|by cbn; rewrite Hs; cbn; rewrite Hu|].
  rewrite chain_update, Hs. by rewrite decide_True.
Qed.

Lemma expire_keeps k inst : keys_ok k -> keys_ok (with_manager (expire_retired_sessions inst (ks_manager k)) k).
Proof.
  intros Hk. apply keys_ok_still; [done|apply Hk|]. intros w q c. unfold expire_retired_sessions, chain_at_place.
  cbn [sm_sessions set_sessions sm_store sm_session_cipher]. destruct w; [..|done];
    rewrite lookup_fmap; destruct (sm_sessions (ks_manager k) !! q) as [s|]; cbn; try done;
    by destruct (retired_can_read inst s).
Qed.

Lemma remove_keeps k answer peer : keys_ok k ->
  keys_ok (with_manager (remove_session answer peer (ks_manager k)).1 k).
Proof.
  intros Hk. unfold remove_session.
  assert (Hdel : forall w q c,
    chain_at_place (set_sessions (delete peer (sm_sessions (ks_manager k))) (ks_manager k)) w q = Some c ->
    chain_at_place (ks_manager k) w q = Some c).
  { intros w q c. unfold chain_at_place. cbn [sm_sessions set_sessions sm_store sm_session_cipher].
    destruct w; [..|done]; (destruct (decide (q = peer)) as [->|Hne];
      [by rewrite lookup_delete_eq|by rewrite lookup_delete_ne]). }
  destruct (bool_decide _); [|by apply keys_ok_still; [done|apply Hk|]].
  destruct (sm_store (ks_manager k)) as [disk|] eqn:Hd; [|by apply keys_ok_still; [done|apply Hk|]].
  apply keys_ok_still; [done|apply Hk|]. intros w q c. cbn [fst]. rewrite chain_store.
  destruct w; [by apply Hdel..|]. cbn. rewrite Hd. cbn.
  destruct answer; cbn; try done;
    (destruct (decide (q = peer)) as [->|Hne]; [by rewrite lookup_delete_eq|by rewrite lookup_delete_ne]).
Qed.

(** Loading puts in use only what the store holds. *)
Lemma restore_lookup listed load disk st q s : loads_from disk load ->
  sm_sessions (restore_listed listed load st).1 !! q = Some s ->
  sm_sessions st !! q = Some s \/
  exists blob r, disk !! q = Some blob /\ restored (sm_session_cipher st) blob = Some r /\
    s = new_session r None false.
Proof.
  intros Hl. revert st. induction listed as [|peer rest IH]; intros st; cbn; [by left|].
  destruct (load peer) as [[blob|]|] eqn:Hload; cbn; try apply IH.
  destruct (decrypt_or_migrate_blob _ blob) as [json|] eqn:Hj; [|apply IH].
  destruct (ratchet_state_from_slice json) as [state|] eqn:Hst; [|apply IH].
  destruct (restore_listed rest load _) as [st' n] eqn:Hr. cbn [fst]. intros Hq.
  specialize (IH (set_sessions (<[peer := new_session (from_state state) None false]> (sm_sessions st)) st)).
  rewrite Hr in IH. destruct (IH Hq) as [Hin|Hin]; [|by right].
  cbn in Hin. apply lookup_insert_Some in Hin as [[<- <-]|[_ Hin]]; [|by left].
  right. exists blob, (from_state state). split_and!; [by apply Hl|by unfold restored; rewrite Hj; cbn; rewrite Hst|done].
Qed.

Lemma restore_rest listed load st : (restore_listed listed load st).1 =
  set_sessions (sm_sessions (restore_listed listed load st).1) st.
Proof.
  revert st. induction listed as [|peer rest IH]; intros st; cbn; [by destruct st|].
  destruct (load peer) as [[blob|]|]; cbn; try apply IH.
  destruct (decrypt_or_migrate_blob _ blob) as [json|]; [|apply IH].
  destruct (ratchet_state_from_slice json) as [state|]; [|apply IH].
  specialize (IH (set_sessions (<[peer := new_session (from_state state) None false]> (sm_sessions st)) st)).
  destruct (restore_listed rest load _) as [st' n]. cbn in *. rewrite IH. done.
Qed.

Lemma restart_keeps k spk fresh random listed load disk : keys_ok k ->
  sm_store (ks_manager k) = Some disk -> loads_from disk load ->
  keys_ok (with_manager (restore_sessions listed load
    (with_optional_store spk fresh random (sm_identity (ks_manager k)) (Some disk))).1 k).
Proof.
  intros Hk Hd Hl. set (st0 := with_optional_store _ _ _ _ _).
  assert (Hst : exists ids, (restore_sessions listed load st0).1 = (restore_listed ids load st0).1).
  { destruct listed as [ids|]; [by exists ids|by exists []]. }
  destruct Hst as [ids ->].
  apply (keys_ok_moves InUse []); try done.
  { rewrite restore_rest. done. }
  intros w q pub n H. left. destruct w.
  - cbn in H. destruct (sm_sessions (restore_listed ids load st0).1 !! q) as [s|] eqn:Hs; cbn in H; [|done].
    apply (restore_lookup _ _ disk _ _ _ Hl) in Hs as [Hs|(blob & r & Hb & Hr & ->)]; [done|].
    apply or_loaded; [done|]. cbn. rewrite Hd. cbn. rewrite Hb. cbn.
    rewrite (ko_cipher _ Hk). unfold st0 in Hr. cbn [sm_session_cipher with_optional_store] in Hr. by rewrite Hr.
  - cbn in H. destruct (sm_sessions (restore_listed ids load st0).1 !! q) as [s|] eqn:Hs; cbn in H; [|done].
    by apply (restore_lookup _ _ disk _ _ _ Hl) in Hs as [Hs|(blob & r & Hb & Hr & ->)].
  - apply or_same. rewrite restore_rest in H. cbn in H. cbn. by rewrite Hd, (ko_cipher _ Hk).
Qed.

(** A session in which reading leaves the chain in use where it was, promotes the
    one held aside, or starts a new one. *)
Lemma read_keeps k peer s s' G : keys_ok k -> ks_generated k ⊆ G ->
  sm_sessions (ks_manager k) !! peer = Some s ->
  (ss_unconfirmed s' = ss_unconfirmed s /\ chain_of (ss_ratchet s') = chain_of (ss_ratchet s)) \/
  (ss_unconfirmed s' = None /\ chain_of (ss_ratchet s') = session_chain Aside s) \/
  ((ss_unconfirmed s' = ss_unconfirmed s \/ ss_unconfirmed s' = None) /\
   exists pub, chain_of (ss_ratchet s') = Some (pub, 0) /\ (pub ∉ ks_generated k) /\ pub ∈ G) ->
  keys_ok (mkKeys (update_session peer (fun _ => s') (ks_manager k)) G (ks_released k)).
Proof.
  intros Hk HG Hs Hcase. apply (keys_ok_moves InUse peer); try done; [apply Hk|].
  intros w q pub n. rewrite chain_update, Hs. case_decide as Hd; [|intros H; left; by apply or_same].
  destruct Hd as [-> Hw]. cbn. intros H.
  assert (Haside : w = Aside -> chain_at_place (ks_manager k) w peer = Some (pub, n)).
  { intros ->. cbn in *. rewrite Hs. cbn.
    destruct Hcase as [[Hn _]|[[Hn _]|[[Hn|Hn] _]]]; rewrite Hn in H; done. }
  destruct w; cbn in H; try done; [|left; by apply or_same, Haside].
  destruct Hcase as [[_ Hc]|[[Hn Hc]|[_ (pub' & Hc & Hf & Hin)]]]; rewrite Hc in H.
  - left. apply or_same. cbn. by rewrite Hs.
  - left. apply or_promoted; [done|cbn; by rewrite Hs|]. rewrite chain_update, Hs, decide_True by done. cbn. by rewrite Hn.
  - injection H as <- <-. right. done.
Qed.

Lemma update_same peer s f st : sm_sessions st !! peer = Some s ->
  update_session peer f st = update_session peer (fun _ => f s) st.
Proof. intros Hs. unfold update_session. f_equal. by apply alter_ext; intros x Hx; simplify_eq. Qed.

Lemma decrypt_keeps k f1 f2 f3 now inst peer m : all_fresh [f1; f2; f3] k -> keys_ok k ->
  keys_ok (generated [x25519_public f1; x25519_public f2; x25519_public f3]
    (decrypt_locked f1 f2 f3 now inst peer m (ks_manager k)).1 k).
Proof.
  intros [_ Hf] Hk. unfold generated, decrypt_locked. set (G := ks_generated k ∪ _).
  assert (HG : ks_generated k ⊆ G) by set_solver.
  assert (Hnew : forall f, f ∈ [f1; f2; f3] -> (x25519_public f ∉ ks_generated k) /\ x25519_public f ∈ G).
  { intros f Hin. split; [by apply (proj1 (Forall_forall _ _) Hf)|]. unfold G. set_solver. }
  destruct (sm_sessions (ks_manager k) !! peer) as [s|] eqn:Hs.
  2: { apply (keys_ok_moves InUse []); try done; [apply Hk|]. intros. left. by apply or_same. }
  destruct (decrypt f1 m (ss_ratchet s)) as [r [pt|e]] eqn:Hd1.
  { rewrite (update_same _ _ _ _ Hs). apply (read_keeps k peer s); try done.
    destruct (chain_decrypt _ _ _ _ _ Hd1) as [Hc|Hc]; [by left|right; right]. split; [by left|].
    eexists. split; [exact Hc|]. apply Hnew. set_solver. }
  apply decrypt_failed in Hd1 as ->.
  assert (Hsame : forall s', ss_unconfirmed s' = ss_unconfirmed s -> ss_ratchet s' = ss_ratchet s ->
    keys_ok (mkKeys (update_session peer (fun _ => s') (ks_manager k)) G (ks_released k))).
  { intros s' Hu Hr. apply (read_keeps k peer s); try done. left. by rewrite Hu, Hr. }
  cbn [ss_unconfirmed set_ratchet].
  destruct (ss_unconfirmed s) as [u|] eqn:Hu; cbn [fmap option_fmap option_map].
  - destruct (decrypt f2 m u) as [u' [pt|e2]] eqn:Hd2.
    + cbn [fst]. apply (read_keeps k peer s); try done.
      destruct (chain_decrypt _ _ _ _ _ Hd2) as [Hc|Hc]; right; [left|right].
      * split; [done|]. cbn. by rewrite Hc, Hu.
      * split; [by right|]. eexists. split; [exact Hc|]. apply Hnew. set_solver.
    + apply decrypt_failed in Hd2 as ->. destruct (_ ≫= _) as [t|]; [|by apply Hsame].
      destruct (decrypt f3 m (rt_ratchet t)) as [t' [pt|e3]]; by apply Hsame.
  - destruct (_ ≫= _) as [t|]; [|by apply Hsame].
    destruct (decrypt f3 m (rt_ratchet t)) as [t' [pt|e3]]; by apply Hsame.
Qed.

(** The chain in use moves one number on, in memory and in the store; if its
    number was released, no copy of it stays behind. *)
Lemma advance_keeps k st' peer pub n new : keys_ok k ->
  sm_session_cipher st' = derive_session_cipher (sm_identity st') ->
  chain_at_place (ks_manager k) InUse peer = Some (pub, n) -> new = [] \/ map rl_position new = [(pub, n)] ->
  (forall w q c, chain_at_place st' w q = Some c ->
     (q = peer /\ w <> Aside /\ c = (pub, n + 1)) \/
     (chain_at_place (ks_manager k) w q = Some c /\ (new = [] \/ q <> peer \/ w = Aside))) ->
  keys_ok (mkKeys st' (ks_generated k) (new ++ ks_released k)).
Proof.
  intros Hk Hci Hc Hnew Hst.
  assert (Hpos : exists new', positions (mkKeys st' (ks_generated k) (new ++ ks_released k)) = new' ++ positions k /\
    (new' = [] \/ (new' = [(pub, n)] /\ new <> []))).
  { exists (map rl_position new). unfold positions. cbn. rewrite map_app. split; [done|].
    destruct Hnew as [-> | Hnew]; [by left|right]. rewrite Hnew. split; [done|]. by intros ->. }
  destruct Hpos as (new' & Hpos & Hnew').
  split; rewrite ?Hpos; cbn; [done|..].
  - intros w q pub' n' H. destruct (Hst _ _ _ H) as [(_ & _ & [= -> ->])|[H' _]]; by eapply (ko_known _ Hk).
  - intros w q pub' n' i H Hr. apply elem_of_app in Hr as [Hr|Hr].
    + destruct Hnew' as [-> | [-> Hne]]; [by apply elem_of_nil in Hr|].
      apply list_elem_of_singleton in Hr as [= -> ->].
      destruct (Hst _ _ _ H) as [(_ & _ & [= ->])|[H' Ho]]; [lia|].
      destruct (ko_alone _ Hk _ _ _ _ _ _ _ Hc H') as [<- Hs]. unfold may_share in Hs.
      destruct Hs as [Hs|[_ Hs]], Ho as [Ho|[Ho|Ho]]; by subst.
    + destruct (Hst _ _ _ H) as [(_ & _ & [= -> ->])|[H' _]]; [|by eapply (ko_ahead _ Hk)].
      pose proof (ko_ahead _ Hk _ _ _ _ _ Hc Hr). lia.
  - intros w q n1 w' q' n2 pub' H H'. unfold may_share.
    destruct (Hst _ _ _ H) as [(-> & Hw & Ec)|[H1 _]], (Hst _ _ _ H') as [(-> & Hw' & Ec')|[H2 _]]; simplify_eq.
    + auto.
    + destruct (ko_alone _ Hk _ _ _ _ _ _ _ Hc H2) as [<- [<-|[_ ?]]]; auto.
    + destruct (ko_alone _ Hk _ _ _ _ _ _ _ Hc H1) as [<- [<-|[_ ?]]]; auto.
    + by apply (ko_alone _ Hk _ _ _ _ _ _ _ H1 H2).
  - intros w q pub' n' H. destruct (Hst _ _ _ H) as [(_ & _ & [= -> ->])|[H' _]]; [|by eapply (ko_nonneg _ Hk)].
    pose proof (ko_nonneg _ Hk _ _ _ _ Hc). lia.
  - intros pub' i [Hr|Hr]%elem_of_app; [|by eapply (ko_released _ Hk)].
    assert (pub' = pub) as -> by (destruct Hnew' as [-> | [-> _]]; set_solver). by eapply (ko_known _ Hk).
  - destruct Hnew' as [-> | [-> _]]; [apply Hk|]. apply NoDup_cons. split; [|apply Hk].
    intros Hr. pose proof (ko_ahead _ Hk _ _ _ _ _ Hc Hr). lia.
Qed.

(** The places of a manager whose session in use was replaced, and whose store
    was written, by a send. *)
Lemma chain_sent k peer s r w q c : sm_sessions (ks_manager k) !! peer = Some s ->
  chain_at_place (update_session peer (set_ratchet r) (ks_manager k)) w q = Some c ->
  (q = peer /\ w = InUse /\ chain_of r = Some c) \/
  ((q <> peer \/ w <> InUse) /\ chain_at_place (ks_manager k) w q = Some c).
Proof.
  intros Hs. rewrite chain_update, Hs. case_decide as Hd.
  - destruct Hd as [-> Hw]. destruct w; cbn; intros H; [by left| |done]. right. rewrite Hs. auto.
  - intros H. right. split; [|done]. destruct (decide (q = peer)); [|by left]. right. intros ->. by apply Hd.
Qed.

Lemma sent_keeps k peer s r pub n disk disk' new r' : keys_ok k ->
  sm_sessions (ks_manager k) !! peer = Some s -> sm_store (ks_manager k) = Some disk ->
  chain_of (ss_ratchet s) = Some (pub, n) -> chain_of r = Some (pub, n + 1) ->
  new = [] \/ map rl_position new = [(pub, n)] ->
  new = [] /\ chain_of r' = chain_of (ss_ratchet s) \/ chain_of r' = chain_of r ->
  (forall q b, disk' !! q = Some b -> (disk !! q = Some b /\ (new = [] \/ q <> peer)) \/
     (q = peer /\ restored (sm_session_cipher (ks_manager k)) b = Some (from_state (export_state r)))) ->
  keys_ok (mkKeys (set_store (Some disk') (update_session peer (set_ratchet r') (ks_manager k)))
    (ks_generated k) (new ++ ks_released k)).
Proof.
  intros Hk Hs Hd Hc Hc' Hnew Hr' Hdisk.
  assert (Huse : chain_at_place (ks_manager k) InUse peer = Some (pub, n)) by (cbn; by rewrite Hs).
  apply (advance_keeps k _ peer pub n); auto; try apply Hk.
  intros w q c. rewrite chain_store. destruct w.
  - intros [(-> & _ & H)|[Ho H]]%(chain_sent k peer s _ _ _ _ Hs); [|by right; destruct Ho; auto].
    destruct Hr' as [[-> Hr']|Hr']; rewrite Hr' in H; [right; rewrite Huse, <- Hc; auto|left].
    by rewrite Hc' in H; simplify_eq.
  - intros [(_ & ? & _)|[_ H]]%(chain_sent k peer s _ _ _ _ Hs); [done|]. right. auto.
  - cbn. intros H. destruct (disk' !! q) as [b|] eqn:Hb; cbn in H; [|done].
    destruct (Hdisk _ _ Hb) as [[Hq Ho]|[-> Hq]].
    + right. rewrite Hd. cbn. rewrite Hq. cbn. split; [done|]. destruct Ho; auto.
    + left. rewrite Hq in H. cbn in H. rewrite chain_snapshot, Hc' in H. by simplify_eq.
Qed.

(** What a send that succeeds did to the chain in use. *)
Lemma sent_chain k peer s pt r m : keys_ok k -> sm_sessions (ks_manager k) !! peer = Some s ->
  send_count (ss_ratchet s) < U32_MAX -> encrypt pt (ss_ratchet s) = (r, Ok m) ->
  exists n, chain_of (ss_ratchet s) = Some (dh_public (ss_ratchet s), n) /\
    chain_of r = Some (dh_public (ss_ratchet s), n + 1) /\
    map rl_position (released_by peer pt (ks_manager k) (Ok m)) = [(dh_public (ss_ratchet s), n)].
Proof.
  intros Hk Hs Hmax He. pose proof (encrypt_needs_chain _ _ _ _ He) as Hch.
  destruct (chain_encrypt pt (ss_ratchet s) r m) as (n & Hc & Hpub & Hnum & Hc'); [|done|].
  - split; [|done]. destruct (sending_chain (ss_ratchet s)) eqn:Hsc; [|done].
    eapply (ko_nonneg _ Hk InUse peer (dh_public (ss_ratchet s))). cbn. rewrite Hs. cbn. unfold chain_of. by rewrite Hsc.
  - exists n. split_and!; try done. unfold released_by. rewrite Hs. unfold rl_position. cbn. by rewrite Hpub, Hnum.
Qed.

Lemma encrypt_keeps k nonce answer peer pt : length nonce = 12%nat ->
  (forall s, sm_sessions (ks_manager k) !! peer = Some s -> send_count (ss_ratchet s) < U32_MAX) ->
  keys_ok k ->
  keys_ok (sent nonce answer peer pt k).
Proof.
  intros Hn Hmax Hk. unfold sent, session_encrypt.
  destruct (sm_sessions (ks_manager k) !! peer) as [s|] eqn:Hs; [|by destruct k].
  destruct (encrypt pt (ss_ratchet s)) as [r [m|e]] eqn:He.
  2: { apply encrypt_failed in He as ->. apply (keys_ok_still k); [done|apply Hk|]. intros w q c H.
       apply (chain_sent k peer s) in H as [(-> & -> & H)|[_ H]]; [|done|done]. cbn. by rewrite Hs. }
  destruct (sent_chain k peer s pt r m Hk Hs (Hmax s eq_refl) He) as (n & Hc & Hc' & Hrel).
  destruct (sm_store (ks_manager k)) as [disk|] eqn:Hd.
  2: { apply (advance_keeps k _ peer (dh_public (ss_ratchet s)) n); auto; try apply Hk; [by cbn; rewrite Hs|].
       intros w q c [(-> & -> & H)|[Ho H]]%(chain_sent k peer s _ _ _ _ Hs); [left; by rewrite Hc' in H; simplify_eq|].
       right. split; [done|right]. destruct Ho as [Ho|Ho]; [by left|].
       destruct w; [done|by right|]. cbn in H. by rewrite Hd in H. }
  destruct (session_blob nonce _ _) as [blob|e] eqn:Hb; cbn beta iota zeta.
  2: { eapply (sent_keeps k peer s r _ n disk disk []); eauto. }
  apply (saved_restores _ _ _ _ Hn) in Hb. cbn in Hb.
  destruct answer as [|e|e]; cbn [store_write].
  - eapply (sent_keeps k peer s r _ n disk); eauto.
    intros q b [[<- <-]|[Hne Hq]]%lookup_insert_Some; auto.
  - eapply (sent_keeps k peer s r _ n disk disk []); eauto.
  - eapply (sent_keeps k peer s r _ n disk _ []); eauto.
    intros q b [[<- <-]|[Hne Hq]]%lookup_insert_Some; auto.
Qed.

Lemma keys_step_ok k k' : keys_step k k' -> keys_ok k -> keys_ok k'.
Proof.
  intros [] Hk.
  - apply install_keeps; [done|set_solver|]. intros pub n Hc.
    assert (Hr : chain_of r = Some (x25519_public fresh, 0)).
    { revert H0. unfold init_sender. destruct (kdf_rk _ _) as [[root ck]|]; [|done]. by intros [= <-]. }
    rewrite Hr in Hc. simplify_eq. destruct H as [_ [H _]%Forall_cons].
    split_and!; [done| |done]. apply elem_of_union_r, elem_of_list_to_set. by left.
  - by apply install_keeps.
  - by apply session_persist_keeps.
  - apply keys_ok_still; [done|apply Hk|]. done.
  - by apply confirm_keeps.
  - apply keys_ok_still; [done|apply Hk|]. intros w q c. unfold mark_needs_renegotiation.
    rewrite chain_flags; [done|]. by intros; destruct w.
  - apply keys_ok_still; [done|apply Hk|]. intros w q c. unfold owe_ratchet_init.
    rewrite chain_flags; [done|]. by intros; destruct w.
  - unfold take_ratchet_init_owed. destruct (_ !! peer); [|by destruct k0]. cbn [fst].
    apply keys_ok_still; [done|apply Hk|]. intros w q c. rewrite chain_flags; [done|]. by intros; destruct w.
  - by apply expire_keeps.
  - by apply encrypt_keeps.
  - by apply decrypt_keeps.
  - by apply remove_keeps.
  - by apply restart_keeps.
Qed.

Lemma fresh_manager_ok spk fresh random i store : store = None \/ store = Some ∅ ->
  keys_ok (mkKeys (with_optional_store spk fresh random i store) ∅ []).
Proof.
  intros Hst. assert (Hnone : forall w q, chain_at_place (with_optional_store spk fresh random i store) w q = None).
  { intros w q. unfold chain_at_place. cbn. by destruct w, Hst as [-> | ->]. }
  split; cbn; try done; try (intros w q *; by rewrite Hnone); [by intros ? ? ?%elem_of_nil|constructor].
Qed.

(** ** Whole operations are sequences of sections *)

Lemma initiate_with_steps env peer bundle replacement k : length (ne_nonce env) = 12%nat ->
  all_fresh [ne_ratchet env] k ->
  exists k', rtc keys_step k k' /\ ks_released k' = ks_released k /\
    ks_manager k' = (initiate_with env peer bundle replacement (ks_manager k)).1.
Proof.
  intros Hn Hf. unfold initiate_with.
  destruct (derive_initiated env bundle (ks_manager k)) as [[i r]|e] eqn:Hd; [|by exists k].
  assert (Hr : exists shared prekey ad, init_sender (ne_ratchet env) shared prekey ad = Ok r).
  { unfold derive_initiated, bind_result in Hd. destruct (deserialize_prekey_bundle bundle) as [b|]; [|done].
    destruct (map_err _ _) as [x|]; [|done]. destruct (init_sender _ _ _ _) as [r'|] eqn:Hi; [|done].
    injection Hd as <- <-. eauto. }
  destruct Hr as (shared & prekey & ad & Hr).
  pose proof (ks_initiated _ _ _ _ _ (ne_now env) (ne_inst env) peer replacement k Hf Hr) as Hs.
  destruct (install_session _ _ _ _ _ _ _) as [st [u|e]]; eexists; (split; [eapply rtc_l; [exact Hs|]|]).
  - apply rtc_once, (ks_persist (ne_nonce env) (ne_answer env) peer), Hn.
  - done.
  - apply rtc_refl.
  - done.
Qed.

Lemma derive_accepted_receiver init st idx r : derive_accepted init st = Ok (idx, r) ->
  exists shared secret public ad, r = init_receiver shared secret public ad.
Proof.
  unfold derive_accepted, bind_result. intros Hd. inv_match Hd; simplify_eq; eauto.
Qed.

Lemma prekeys_step k st ks next : rtc keys_step k (with_manager st k) ->
  rtc keys_step k (with_manager (set_prekeys ks next st) k).
Proof. intros H. eapply rtc_r; [exact H|]. apply (ks_prekeys ks next (with_manager st k)). Qed.

Lemma set_prekeys_same (st : SessionManager) :
  set_prekeys (sm_one_time_prekeys st) (sm_next_opk_id st) st = st.
Proof. by destruct st. Qed.

Lemma accept_with_steps env peer init replacement k : length (ne_nonce env) = 12%nat ->
  rtc keys_step k (with_manager (accept_with env peer init replacement (ks_manager k)).1 k).
Proof.
  intros Hn. unfold accept_with.
  destruct (derive_accepted init (ks_manager k)) as [[idx r]|e] eqn:Hd; [|by destruct k].
  apply derive_accepted_receiver in Hd as (shared & secret & public & ad & ->).
  pose proof (ks_accepted shared secret public ad (ne_now env) (ne_inst env) peer replacement k) as Hs.
  apply rtc_once in Hs. destruct (install_session _ _ _ _ _ _ _) as [st [u|e]]; cbn [fst] in *; [|done].
  set (st1 := match idx with Some _ => _ | None => _ end).
  assert (H1 : rtc keys_step k (with_manager st1 k)).
  { unfold st1. destruct idx; [by apply prekeys_step|done]. }
  assert (H2 : rtc keys_step k (with_manager (persist_session (ne_nonce env) (ne_answer env) peer st1) k)).
  { eapply rtc_r; [exact H1|]. by apply (ks_persist _ _ _ (with_manager st1 k)). }
  unfold replenish_prekeys. case_match; [by apply prekeys_step|done].
Qed.

Lemma confirm_session_steps now inst nonce answer peer k : length nonce = 12%nat ->
  rtc keys_step k (with_manager (confirm_session now inst nonce answer peer (ks_manager k)).1 k).
Proof.
  intros Hn. unfold confirm_session. pose proof (rtc_once _ _ (ks_confirm now inst peer k)) as H.
  destruct (confirm_locked now inst peer (ks_manager k)) as [st []]; [|done].
  eapply rtc_r; [exact H|]. by apply (ks_persist _ _ _ (with_manager st k)).
Qed.

Lemma session_decrypt_steps f1 f2 f3 now inst nonce answer peer m k : length nonce = 12%nat ->
  all_fresh [f1; f2; f3] k ->
  rtc keys_step k (generated [x25519_public f1; x25519_public f2; x25519_public f3]
    (session_decrypt f1 f2 f3 now inst nonce answer peer m (ks_manager k)).1 k).
Proof.
  intros Hn Hf. unfold session_decrypt. pose proof (rtc_once _ _ (ks_decrypt f1 f2 f3 now inst peer m k Hf)) as H.
  destruct (decrypt_locked f1 f2 f3 now inst peer m (ks_manager k)) as [st [pt|e]]; [|done].
  eapply rtc_r; [exact H|]. by apply (ks_persist nonce answer peer (generated _ st k)).
Qed.

Lemma reachable_keys_ok spk fresh random i store k : store = None \/ store = Some ∅ ->
  rtc keys_step (mkKeys (with_optional_store spk fresh random i store) ∅ []) k -> keys_ok k.
Proof.
  intros Hst Hr. apply fresh_manager_ok with (spk := spk) (fresh := fresh) (random := random) (i := i) in Hst.
  induction Hr as [|k1 k2 k3 Hs Hr IH]; [done|]. by apply IH, (keys_step_ok k1).
Qed.
End Keys.

