(* ===== verification/SessionSeeds.v ===== *)
(** * No message key is used twice

    Every message the manager releases is sealed under the message key at its own
    position of one send chain: the chain of HMACs from the chain key its ratchet
    key started with.  Positions are never used twice ([SessionKeys]), so two
    messages sealed under one message key exhibit a coincidence among the HMACs of
    those very chains. *)

From S2P Require Import Prelude Text Types Concrete DoubleRatchet RatchetConcrete RatchetConvo Identity X3dh Session SessionConcrete.
From S2P Require Import SessionKeys.

Section Chains.
Context {RP : RatchetPrims}.

(** ** The chain from a seed *)

Fixpoint chain_key (n : nat) (seed : bytes) : result string bytes :=
  match n with
  | O => Ok seed
  | S n => let? c := chain_key n seed in hmac_digest c [2]
  end.

Definition message_key (n : nat) (seed : bytes) : result string bytes :=
  let? c := chain_key n seed in hmac_digest c [1].

(** How position [n] of the chain from [a] and position [m] of that from [b] can
    have the same message key: two different keys of the chains, no further along
    than these positions, have the same HMAC; or one chain starts on the other. *)
Inductive coincidence (a : bytes) (n : nat) (b : bytes) (m : nat) : Prop :=
| co_collision i j ka kb data out : (i <= n)%nat -> (j <= m)%nat ->
    chain_key i a = Ok ka -> chain_key j b = Ok kb -> ka <> kb ->
    hmac_digest ka data = Ok out -> hmac_digest kb data = Ok out -> coincidence a n b m
| co_on_first d : n = (m + d)%nat -> chain_key d a = Ok b -> coincidence a n b m
| co_on_second d : m = (n + d)%nat -> chain_key d b = Ok a -> coincidence a n b m.

Lemma chain_key_S n seed out : chain_key (S n) seed = Ok out ->
  exists c, chain_key n seed = Ok c /\ hmac_digest c [2] = Ok out.
Proof. cbn. destruct (chain_key n seed) as [c|]; cbn; [eauto|done]. Qed.

Lemma chains_meet a n b m c : chain_key n a = Ok c -> chain_key m b = Ok c -> coincidence a n b m.
Proof.
  revert m c. induction n as [|n IH]; intros m c Ha Hb.
  - injection Ha as <-. by apply (co_on_second _ _ _ _ m).
  - destruct m as [|m]; [injection Hb as <-; by apply (co_on_first _ _ _ _ (S n))|].
    apply chain_key_S in Ha as (ka & Ha & Hout), Hb as (kb & Hb & Hout').
    destruct (decide (ka = kb)) as [->|Hne].
    + destruct (IH _ _ Ha Hb) as [i j ka' kb' data out Hi Hj|d|d].
      * eapply (co_collision _ _ _ _ i j); eauto; lia.
      * apply (co_on_first _ _ _ _ d); [lia|done].
      * apply (co_on_second _ _ _ _ d); [lia|done].
    + eapply (co_collision _ _ _ _ n m); eauto.
Qed.

Lemma message_keys_meet a n b m mk : message_key n a = Ok mk -> message_key m b = Ok mk ->
  coincidence a n b m.
Proof.
  unfold message_key, bind_result. destruct (chain_key n a) as [ka|] eqn:Ha; [|done].
  destruct (chain_key m b) as [kb|] eqn:Hb; [|done]. intros Hk Hk'.
  destruct (decide (ka = kb)) as [->|Hne]; [by eapply chains_meet|].
  eapply (co_collision _ _ _ _ n m); eauto.
Qed.

(** ** Ratchets on the chain of a seed *)

(** [seeds] has the chain key each ratchet key's send chain started with; the
    chain of [r] is where its counter says. *)
Definition on_chain (seeds : gmap bytes bytes) (r : DoubleRatchet) : Prop :=
  forall c, sending_chain r = Some c -> exists seed, seeds !! dh_public r = Some seed /\
    0 <= send_count r /\ chain_key (Z.to_nat (send_count r)) seed = Ok c.

Definition same_send (r r' : DoubleRatchet) : Prop :=
  dh_public r' = dh_public r /\ sending_chain r' = sending_chain r /\ send_count r' = send_count r.

Lemma on_chain_same seeds r r' : same_send r r' -> on_chain seeds r -> on_chain seeds r'.
Proof. intros (Hp & Hc & Hn) Hr c. rewrite Hp, Hc, Hn. apply Hr. Qed.

Lemma on_chain_more seeds seeds' r : seeds ⊆ seeds' -> on_chain seeds r -> on_chain seeds' r.
Proof.
  intros Hs Hr c Hc. destruct (Hr c Hc) as (seed & Hl & H). exists seed. split; [|done]. by eapply lookup_weaken.
Qed.

(** A chain that starts now. *)
Definition starts (pub seed : bytes) (r : DoubleRatchet) : Prop :=
  dh_public r = pub /\ sending_chain r = Some seed /\ send_count r = 0.

Lemma on_chain_starts seeds pub seed r : starts pub seed r -> seeds !! pub = Some seed -> on_chain seeds r.
Proof. intros (<- & Hc & Hn) Hl c Hc'. rewrite Hc in Hc'. injection Hc' as <-. exists seed. by rewrite Hn. Qed.

Lemma init_sender_starts fresh shared prekey ad r : init_sender fresh shared prekey ad = Ok r ->
  exists seed, starts (x25519_public fresh) seed r.
Proof. unfold init_sender. destruct (kdf_rk _ _) as [[root c]|]; [|done]. intros [= <-]. by exists c. Qed.

Lemma decrypt_send f m r r' out : decrypt f m r = (r', out) ->
  same_send r r' \/ exists seed, starts (x25519_public f) seed r'.
Proof.
  unfold decrypt. case_match.
  - case_match. case_match; intros [= <- _]; by left.
  - case_match eqn:Hst; [|intros [= <- _]; by left].
    case_match; intros [= <- _]; [|by left].
    unfold commit_receive. case_match. case_match eqn:Hstep; [right|by left].
    eexists. unfold starts. cbn. by rewrite (staged_key _ _ _ _ _ Hst Hstep).
Qed.

(** A released message, sealed under [mk]. *)
Definition sealed_under (mk : bytes) (x : release) : Prop :=
  aead_encrypt mk (rl_plaintext x) (rl_ad x ++ header_to_bytes (rm_header (rl_message x))) =
  Ok (rm_ciphertext (rl_message x)).

(** The key at the message's position of its ratchet key's chain. *)
Definition key_of (seeds : gmap bytes bytes) (x : release) : option bytes :=
  seed ← seeds !! (rl_position x).1;
  match message_key (Z.to_nat (rl_position x).2) seed with Ok mk => Some mk | Err _ => None end.

Lemma key_of_more seeds seeds' x mk : seeds ⊆ seeds' -> key_of seeds x = Some mk -> key_of seeds' x = Some mk.
Proof.
  unfold key_of. intros Hs. destruct (seeds !! _) as [seed|] eqn:Hl; [|done].
  by rewrite (lookup_weaken _ _ _ _ Hl Hs).
Qed.

Lemma ratchet_keys c next mk : ratchet c = Ok (next, mk) -> hmac_digest c [1] = Ok mk /\ hmac_digest c [2] = Ok next.
Proof.
  unfold ratchet, hmac_sha256, map_err, bind_result. destruct (hmac_digest c [1]); [|done].
  destruct (hmac_digest c [2]); [|done]. by intros [= <- <-].
Qed.

(** A send seals under the key of its position and moves the chain one on. *)
Lemma encrypt_on_chain seeds pt r r' m : on_chain seeds r -> send_count r < U32_MAX ->
  encrypt pt r = (r', Ok m) ->
  on_chain seeds r' /\ exists mk, key_of seeds (mkRelease m pt (associated_data r)) = Some mk /\
    sealed_under mk (mkRelease m pt (associated_data r)).
Proof.
  intros Hr Hmax. unfold encrypt. destruct (sending_chain r) as [c|] eqn:Hc; cbn [ok_or bind_result]; [|done].
  destruct (Hr c Hc) as (seed & Hl & Hn & Hk).
  destruct (ratchet c) as [[next mk]|] eqn:Hrat; cbn; [|done]. apply ratchet_keys in Hrat as [Hmk Hnext].
  destruct (aead_encrypt _ _ _) as [ct|] eqn:Hct; cbn; [|done]. intros [= <- <-]. split.
  - intros c' [= <-]. exists seed. cbn. split; [done|]. unfold wrapping_add_u32. rewrite Z.mod_small by solve_int.
    split; [lia|]. replace (Z.to_nat (send_count r + 1)) with (S (Z.to_nat (send_count r))) by lia.
    cbn. by rewrite Hk.
  - exists mk. split; [|exact Hct]. unfold key_of, message_key. cbn. rewrite Hl. cbn. rewrite Hk. cbn. by rewrite Hmk.
Qed.
End Chains.

Section Seeds.
Context {P : Prims} {IP : IdentityPrims} {RP : RatchetPrims} {SP : SessionPrims}.
Context {RL : RatchetLaws} {SL : SessionLaws}.

(** The ratchet that can send to [peer] in place [w]. *)
Definition ratchet_at (st : SessionManager) (w : place) (peer : NodeId) : option DoubleRatchet :=
  match w with
  | InUse => ss_ratchet <$> sm_sessions st !! peer
  | Aside => (sm_sessions st !! peer) ≫= ss_unconfirmed
  | OnDisk => disk ← sm_store st; blob ← (disk !! peer); restored (sm_session_cipher st) blob
  end.

(** The invariant: every ratchet that can send, and every message released, is on
    the chain of its ratchet key's seed. *)
Record seeds_ok (k : keys_state) (seeds : gmap bytes bytes) : Prop := {
  so_generated : dom seeds ⊆ ks_generated k;
  so_ratchets w peer r : ratchet_at (ks_manager k) w peer = Some r -> on_chain seeds r;
  so_released x : x ∈ ks_released k -> exists mk, key_of seeds x = Some mk /\ sealed_under mk x
}.

(** Whatever moves ratchets, and starts chains under the new key [pub] only. *)
Lemma seeds_moves k seeds st' pub seed G : seeds_ok k seeds -> ks_generated k ∪ {[pub]} ⊆ G -> pub ∉ ks_generated k ->
  (forall w peer r, ratchet_at st' w peer = Some r ->
     (exists w0 peer0 r0, ratchet_at (ks_manager k) w0 peer0 = Some r0 /\ same_send r0 r) \/
     sending_chain r = None \/ starts pub seed r) ->
  exists seeds', seeds_ok (mkKeys st' G (ks_released k)) seeds'.
Proof.
  intros [Hd Hr Hx] HG Hpub Hor. exists (<[pub := seed]> seeds).
  assert (Hnew : seeds !! pub = None) by (apply not_elem_of_dom; set_solver).
  assert (Hsub : seeds ⊆ <[pub := seed]> seeds) by by apply insert_subseteq.
  split; cbn.
  - rewrite dom_insert_L. set_solver.
  - intros w peer r H. destruct (Hor _ _ _ H) as [(w0 & p0 & r0 & H0 & Hs)|[Hnone|Hst]].
    + eapply on_chain_same; [exact Hs|]. eapply on_chain_more; [exact Hsub|]. by eapply Hr.
    + intros c Hc. by rewrite Hnone in Hc.
    + eapply on_chain_starts; [exact Hst|]. apply lookup_insert_eq.
  - intros x Hin. destruct (Hx x Hin) as (mk & Hk & Hs). exists mk. split; [|done]. by eapply key_of_more.
Qed.

(** Whatever only moves ratchets. *)
Lemma seeds_still k seeds st' G : seeds_ok k seeds -> ks_generated k ⊆ G ->
  (forall w peer r, ratchet_at st' w peer = Some r ->
     (exists w0 peer0 r0, ratchet_at (ks_manager k) w0 peer0 = Some r0 /\ same_send r0 r) \/ sending_chain r = None) ->
  seeds_ok (mkKeys st' G (ks_released k)) seeds.
Proof.
  intros [Hd Hr Hx] HG Hor. split; cbn; [set_solver| |done]. intros w peer r H.
  destruct (Hor _ _ _ H) as [(w0 & p0 & r0 & H0 & Hs)|Hnone].
  - eapply on_chain_same; [exact Hs|by eapply Hr].
  - intros c Hc. by rewrite Hnone in Hc.
Qed.

(** ** The sections *)

Definition session_ratchet (w : place) (s : PeerSession) : option DoubleRatchet :=
  match w with InUse => Some (ss_ratchet s) | Aside => ss_unconfirmed s | OnDisk => None end.

Lemma ratchet_at_session st w peer s r : sm_sessions st !! peer = Some s -> session_ratchet w s = Some r ->
  ratchet_at st w peer = Some r.
Proof. intros Hs. destruct w; cbn; rewrite ?Hs; done. Qed.

(** Where the ratchets of a manager with one session changed are from. *)
Lemma ratchet_update peer f st w q r : ratchet_at (update_session peer f st) w q = Some r ->
  ratchet_at st w q = Some r \/
  exists s, sm_sessions st !! peer = Some s /\ session_ratchet w (f s) = Some r.
Proof.
  unfold update_session, set_sessions. destruct (decide (q = peer)) as [->|Hne].
  - destruct w; cbn; rewrite ?lookup_alter_eq; try (by left); destruct (sm_sessions st !! peer) as [s|] eqn:Hs;
      cbn; try done; intros H; right; by exists s.
  - destruct w; cbn; rewrite ?lookup_alter_ne by done; by left.
Qed.

Lemma ratchet_insert peer s st w q r :
  ratchet_at (set_sessions (<[peer := s]> (sm_sessions st)) st) w q = Some r ->
  ratchet_at st w q = Some r \/ session_ratchet w s = Some r.
Proof.
  unfold set_sessions. destruct (decide (q = peer)) as [->|Hne].
  - destruct w; cbn; rewrite ?lookup_insert_eq; cbn; auto.
  - destruct w; cbn; rewrite ?lookup_insert_ne by done; by left.
Qed.

(** Flags, and dropping sessions. *)
Lemma seeds_flags k seeds peer f : seeds_ok k seeds ->
  (forall s, ss_ratchet (f s) = ss_ratchet s /\ ss_unconfirmed (f s) = ss_unconfirmed s) ->
  seeds_ok (with_manager (update_session peer f (ks_manager k)) k) seeds.
Proof.
  intros Hk Hf. apply (seeds_still k); [done..|].
  intros w q r [H|(s & Hs & H)]%ratchet_update; left; [by exists w, q, r|].
  exists w, peer, r. split; [|done]. apply (ratchet_at_session _ _ _ s); [done|].
  destruct (Hf s) as [H1 H2]. destruct w; cbn in *; congruence.
Qed.

Lemma seeds_sub k seeds st' : seeds_ok k seeds ->
  (forall w q r, ratchet_at st' w q = Some r -> ratchet_at (ks_manager k) w q = Some r) ->
  seeds_ok (with_manager st' k) seeds.
Proof. intros Hk H. apply (seeds_still k); [done..|]. intros w q r Hr. left. exists w, q, r. split; [auto|done]. Qed.

(** A session is installed with a ratchet that cannot send, or starts. *)
Lemma ratchet_install now inst peer r replacement initiator st w q r' :
  ratchet_at (install_session now inst peer r replacement initiator st).1 w q = Some r' ->
  (exists w0 q0, ratchet_at st w0 q0 = Some r') \/ r' = r.
Proof.
  unfold install_session. destruct (sm_sessions st !! peer) as [s|] eqn:Hs.
  - destruct replacement; cbn [fst]; [by eauto|]. intros [H|(s' & Hs' & H)]%ratchet_update; [by eauto|].
    destruct w; cbn in H; try done; injection H as <-; [|by right].
    left. exists InUse, peer. by eapply ratchet_at_session.
  - assert (Hnew : ratchet_at (set_sessions (<[peer := new_session r now initiator]> (sm_sessions st)) st) w q = Some r' ->
      (exists w0 q0, ratchet_at st w0 q0 = Some r') \/ r' = r); [|by destruct replacement].
    intros [H|H]%ratchet_insert; [by eauto|]. destruct w; cbn in H; by simplify_eq; auto.
Qed.

Lemma persist_seeds k seeds nonce answer peer : length nonce = 12%nat -> seeds_ok k seeds ->
  seeds_ok (with_manager (persist_session nonce answer peer (ks_manager k)) k) seeds.
Proof.
  intros Hn Hk. unfold persist_session.
  destruct (sm_store (ks_manager k)) as [disk|] eqn:Hd; [|by destruct k].
  destruct (sm_sessions (ks_manager k) !! peer) as [s|] eqn:Hs; [|by destruct k].
  destruct (session_blob _ _ _) as [blob|] eqn:Hb; [|by destruct k].
  apply (seeds_still k); [done..|]. intros w q r H. left. destruct w; [by exists InUse, q, r|by exists Aside, q, r|].
  cbn in H. destruct (_ !! q) as [b|] eqn:Hq; cbn in H; [|done].
  apply store_write_lookup in Hq as [Hq|[-> ->]].
  - exists OnDisk, q, r. split; [|done]. cbn. rewrite Hd. cbn. by rewrite Hq.
  - rewrite (saved_restores _ _ _ _ Hn Hb) in H. injection H as <-.
    exists InUse, peer, (ss_ratchet s). split; [|done]. cbn. by rewrite Hs.
Qed.

Lemma confirm_seeds k seeds now inst peer : seeds_ok k seeds ->
  seeds_ok (with_manager (confirm_locked now inst peer (ks_manager k)).1 k) seeds.
Proof.
  intros Hk. unfold confirm_locked. destruct (sm_sessions (ks_manager k) !! peer) as [s|] eqn:Hs; [|by destruct k].
  assert (Hawait : seeds_ok (with_manager (if ss_awaiting_confirmation s
    then (update_session peer (set_awaiting false) (ks_manager k), true) else (ks_manager k, false)).1 k) seeds).
  { destruct (ss_awaiting_confirmation s); [by apply seeds_flags|by destruct k]. }
  destruct (ss_unconfirmed s) as [u|] eqn:Hu; [|done]. destruct (ss_unconfirmed_initiated s); [|done].
  apply (seeds_still k); [done..|]. intros w q r [H|(s' & Hs' & H)]%ratchet_update; left; [by exists w, q, r|].
  destruct w; cbn in H; try done. injection H as <-. exists Aside, peer, u. split; [|done]. cbn. by rewrite Hs.
Qed.

Lemma expire_seeds k seeds inst : seeds_ok k seeds ->
  seeds_ok (with_manager (expire_retired_sessions inst (ks_manager k)) k) seeds.
Proof.
  intros Hk. apply seeds_sub; [done|]. intros w q r. unfold expire_retired_sessions, ratchet_at.
  cbn [sm_sessions set_sessions sm_store sm_session_cipher]. destruct w; [..|done];
    rewrite lookup_fmap; destruct (sm_sessions (ks_manager k) !! q) as [s|]; cbn; try done;
    by destruct (retired_can_read inst s).
Qed.

Lemma remove_seeds k seeds answer peer : seeds_ok k seeds ->
  seeds_ok (with_manager (remove_session answer peer (ks_manager k)).1 k) seeds.
Proof.
  intros Hk. apply seeds_sub; [done|]. intros w q r. unfold remove_session.
  set (st := set_sessions (delete peer (sm_sessions (ks_manager k))) (ks_manager k)).
  assert (Hdel : ratchet_at st w q = Some r -> ratchet_at (ks_manager k) w q = Some r).
  { unfold st. destruct w; cbn; [..|done]; (destruct (decide (q = peer)) as [->|Hne];
      [by rewrite lookup_delete_eq|by rewrite lookup_delete_ne]). }
  destruct (bool_decide _); [|exact Hdel]. destruct (sm_store (ks_manager k)) as [disk|] eqn:Hd; [|exact Hdel].
  destruct w; [exact Hdel..|]. cbn. rewrite Hd. cbn.
  destruct answer; cbn; try done;
    (destruct (decide (q = peer)) as [->|Hne]; [by rewrite lookup_delete_eq|by rewrite lookup_delete_ne]).
Qed.

Lemma restart_seeds k seeds spk fresh random listed load disk : keys_ok k -> seeds_ok k seeds ->
  sm_store (ks_manager k) = Some disk -> loads_from disk load ->
  seeds_ok (with_manager (restore_sessions listed load
    (with_optional_store spk fresh random (sm_identity (ks_manager k)) (Some disk))).1 k) seeds.
Proof.
  intros Hok Hk Hd Hl. set (st0 := with_optional_store _ _ _ _ _).
  assert (Hst : exists ids, (restore_sessions listed load st0).1 = (restore_listed ids load st0).1).
  { destruct listed as [ids|]; [by exists ids|by exists []]. }
  destruct Hst as [ids ->]. apply (seeds_still k); [done..|]. intros w q r H. left. exists OnDisk, q, r.
  split; [|done]. cbn. rewrite Hd. cbn. rewrite (ko_cipher _ Hok). destruct w.
  - cbn in H. destruct (sm_sessions (restore_listed ids load st0).1 !! q) as [s|] eqn:Hs; cbn in H; [|done].
    apply (restore_lookup _ _ disk _ _ _ Hl) in Hs as [Hs|(blob & r0 & Hb & Hr & ->)]; [done|].
    cbn in H. rewrite Hb. cbn. by rewrite <- H.
  - cbn in H. destruct (sm_sessions (restore_listed ids load st0).1 !! q) as [s|] eqn:Hs; cbn in H; [|done].
    by apply (restore_lookup _ _ disk _ _ _ Hl) in Hs as [Hs|(blob & r0 & Hb & Hr & ->)].
  - rewrite restore_rest in H. exact H.
Qed.

(** A session that was read with, whose ratchets are those it had, moved, or one
    that starts under a new key. *)
Definition kept_send (s s' : PeerSession) : Prop :=
  forall w r, session_ratchet w s' = Some r ->
    exists w0 r0, session_ratchet w0 s = Some r0 /\ same_send r0 r.
Definition started_send (pub seed : bytes) (s s' : PeerSession) : Prop :=
  forall w r, session_ratchet w s' = Some r ->
    (exists w0 r0, session_ratchet w0 s = Some r0 /\ same_send r0 r) \/ starts pub seed r.

Lemma read_seeds k seeds peer s s' G : seeds_ok k seeds -> ks_generated k ⊆ G ->
  sm_sessions (ks_manager k) !! peer = Some s ->
  kept_send s s' \/ (exists pub seed, (pub ∉ ks_generated k) /\ pub ∈ G /\ started_send pub seed s s') ->
  exists seeds', seeds_ok (mkKeys (update_session peer (fun _ => s') (ks_manager k)) G (ks_released k)) seeds'.
Proof.
  intros Hk HG Hs [Hkept|(pub & seed & Hpub & Hin & Hst)].
  - exists seeds. apply (seeds_still k); [done..|].
    intros w q r [H|(s0 & _ & H)]%ratchet_update; left; [by exists w, q, r|].
    destruct (Hkept w r H) as (w0 & r0 & H0 & Hsame). exists w0, peer, r0. split; [by eapply ratchet_at_session|done].
  - apply (seeds_moves k seeds _ pub seed); [done|set_solver|done|].
    intros w q r [H|(s0 & _ & H)]%ratchet_update; [left; by exists w, q, r|].
    destruct (Hst w r H) as [(w0 & r0 & H0 & Hsame)|?]; [left|by auto].
    exists w0, peer, r0. split; [by eapply ratchet_at_session|done].
Qed.

Lemma decrypt_seeds k seeds f1 f2 f3 now inst peer m : all_fresh [f1; f2; f3] k -> seeds_ok k seeds ->
  exists seeds', seeds_ok (generated [x25519_public f1; x25519_public f2; x25519_public f3]
    (decrypt_locked f1 f2 f3 now inst peer m (ks_manager k)).1 k) seeds'.
Proof.
  intros [_ Hf] Hk. unfold generated, decrypt_locked. set (G := ks_generated k ∪ _).
  assert (HG : ks_generated k ⊆ G) by set_solver.
  assert (Hnew : forall f, f ∈ [f1; f2; f3] -> (x25519_public f ∉ ks_generated k) /\ x25519_public f ∈ G).
  { intros f Hin. split; [by apply (proj1 (Forall_forall _ _) Hf)|]. unfold G. set_solver. }
  destruct (sm_sessions (ks_manager k) !! peer) as [s|] eqn:Hs.
  2: { exists seeds. apply (seeds_still k); [done..|]. intros w q r H. left. by exists w, q, r. }
  destruct (decrypt f1 m (ss_ratchet s)) as [r [pt|e]] eqn:Hd1.
  { rewrite (update_same _ _ _ _ Hs). apply (read_seeds k seeds peer s); try done.
    destruct (decrypt_send _ _ _ _ _ Hd1) as [Hsame|[seed Hst]]; [left|right].
    - intros w r' Hr'. destruct w; cbn in *; [injection Hr' as <-|by exists Aside, r'|done].
      by exists InUse, (ss_ratchet s).
    - exists (x25519_public f1), seed. destruct (Hnew f1) as [H1 H2]; [set_solver|]. split_and!; try done.
      intros w r' Hr'. destruct w; cbn in *; [injection Hr' as <-; by right|left; by exists Aside, r'|done]. }
  apply decrypt_failed in Hd1 as ->.
  assert (Hsame : forall s', ss_unconfirmed s' = ss_unconfirmed s -> ss_ratchet s' = ss_ratchet s ->
    exists seeds', seeds_ok (mkKeys (update_session peer (fun _ => s') (ks_manager k)) G (ks_released k)) seeds').
  { intros s' Hu Hr. apply (read_seeds k seeds peer s); try done. left. intros w r' Hr'. exists w, r'.
    split; [|done]. destruct w; cbn in *; congruence. }
  cbn [ss_unconfirmed set_ratchet].
  destruct (ss_unconfirmed s) as [u|] eqn:Hu; cbn [fmap option_fmap option_map].
  - destruct (decrypt f2 m u) as [u' [pt|e2]] eqn:Hd2.
    + cbn [fst]. apply (read_seeds k seeds peer s); try done.
      destruct (decrypt_send _ _ _ _ _ Hd2) as [Hsend|[seed Hst]]; [left|right].
      * intros w r' Hr'. destruct w; cbn in *; try done. injection Hr' as <-. by exists Aside, u.
      * exists (x25519_public f2), seed. destruct (Hnew f2) as [H1 H2]; [set_solver|]. split_and!; try done.
        intros w r' Hr'. destruct w; cbn in *; try done. injection Hr' as <-. by right.
    + apply decrypt_failed in Hd2 as ->. destruct (_ ≫= _) as [t|]; [|by apply Hsame].
      destruct (decrypt f3 m (rt_ratchet t)) as [t' [pt|e3]]; by apply Hsame.
  - destruct (_ ≫= _) as [t|]; [|by apply Hsame].
    destruct (decrypt f3 m (rt_ratchet t)) as [t' [pt|e3]]; by apply Hsame.
Qed.

(** A send: the session in use, and its copy in the store, are where they were or
    one further. *)
Lemma sent_seeds k seeds peer s r r' disk' new : seeds_ok k seeds ->
  sm_sessions (ks_manager k) !! peer = Some s -> on_chain seeds r ->
  same_send (ss_ratchet s) r' \/ same_send r r' ->
  (forall q b, disk' !! q = Some b -> (exists disk, sm_store (ks_manager k) = Some disk /\ disk !! q = Some b) \/
     restored (sm_session_cipher (ks_manager k)) b = Some (from_state (export_state r))) ->
  (forall x, x ∈ new -> exists mk, key_of seeds x = Some mk /\ sealed_under mk x) ->
  seeds_ok (mkKeys (set_store (Some disk') (update_session peer (set_ratchet r') (ks_manager k)))
    (ks_generated k) (new ++ ks_released k)) seeds.
Proof.
  intros Hk Hs Hr Hr' Hdisk Hnew. split; cbn [ks_manager ks_generated ks_released]; [apply Hk| |].
  2: { intros x [Hin|Hin]%elem_of_app; [by apply Hnew|by apply (so_released _ _ Hk)]. }
  intros w q x H.
  assert (Hold : w <> OnDisk -> on_chain seeds x).
  { intros Hw. assert (H' : ratchet_at (update_session peer (set_ratchet r') (ks_manager k)) w q = Some x) by by destruct w.
    apply ratchet_update in H' as [H'|(s0 & Hs0 & H')]; [by eapply (so_ratchets _ _ Hk)|].
    rewrite Hs in Hs0. injection Hs0 as <-. destruct w; cbn in H'; [injection H' as <-| |done].
    - destruct Hr' as [Hr'|Hr']; (eapply on_chain_same; [exact Hr'|]); [|done].
      apply (so_ratchets _ _ Hk InUse peer). cbn. by rewrite Hs.
    - apply (so_ratchets _ _ Hk Aside peer). cbn. by rewrite Hs. }
  destruct w; [by apply Hold..|]. cbn in H. destruct (disk' !! q) as [b|] eqn:Hq; cbn in H; [|done].
  destruct (Hdisk _ _ Hq) as [(disk & Hd & Hb)|Hb].
  - apply (so_ratchets _ _ Hk OnDisk q). cbn. rewrite Hd. cbn. by rewrite Hb.
  - rewrite Hb in H. injection H as <-. by eapply on_chain_same.
Qed.

Lemma encrypt_seeds k seeds nonce answer peer pt : length nonce = 12%nat ->
  (forall s, sm_sessions (ks_manager k) !! peer = Some s -> send_count (ss_ratchet s) < U32_MAX) ->
  seeds_ok k seeds -> seeds_ok (sent nonce answer peer pt k) seeds.
Proof.
  intros Hn Hmax Hk. unfold sent, session_encrypt, released_by.
  destruct (sm_sessions (ks_manager k) !! peer) as [s|] eqn:Hs; [|by destruct k].
  assert (Hon : on_chain seeds (ss_ratchet s)) by (apply (so_ratchets _ _ Hk InUse peer); cbn; by rewrite Hs).
  destruct (encrypt pt (ss_ratchet s)) as [r [m|e]] eqn:He.
  2: { apply encrypt_failed in He as ->. apply (seeds_still k); [done..|].
       intros w q r [H|(s' & Hs' & H)]%ratchet_update; left; [by exists w, q, r|].
       exists w, peer, r. split; [|done]. apply (ratchet_at_session _ _ _ s'); [done|].
       rewrite Hs in Hs'. injection Hs' as <-. by destruct w. }
  destruct (encrypt_on_chain seeds pt _ _ _ Hon (Hmax s eq_refl) He) as [Hr Hrel].
  assert (Hnew : forall x, x ∈ [mkRelease m pt (associated_data (ss_ratchet s))] ->
    exists mk, key_of seeds x = Some mk /\ sealed_under mk x) by by intros x ->%list_elem_of_singleton.
  assert (Hnil : forall x, x ∈ @nil release -> exists mk, key_of seeds x = Some mk /\ sealed_under mk x)
    by by intros x ?%elem_of_nil.
  destruct (sm_store (ks_manager k)) as [disk|] eqn:Hd.
  2: { split; cbn [ks_manager ks_generated ks_released]; [apply Hk| |].
       2: { intros x [Hin|Hin]%elem_of_app; [by apply Hnew|by apply (so_released _ _ Hk)]. }
       intros w q x [H|(s' & Hs' & H)]%ratchet_update; [by eapply (so_ratchets _ _ Hk)|].
       rewrite Hs in Hs'. injection Hs' as <-. destruct w; cbn in H; [injection H as <-; done| |done].
       apply (so_ratchets _ _ Hk Aside peer). cbn. by rewrite Hs. }
  destruct (session_blob nonce _ _) as [blob|e] eqn:Hb; cbn beta iota zeta.
  2: { apply (sent_seeds k seeds peer s r _ disk []); eauto. by left. }
  apply (saved_restores _ _ _ _ Hn) in Hb. cbn in Hb.
  destruct answer as [|e|e]; cbn [store_write].
  - apply (sent_seeds k seeds peer s r); eauto; [by right|].
    intros q b [[<- <-]|[Hne Hq]]%lookup_insert_Some; eauto.
  - apply (sent_seeds k seeds peer s r _ disk []); eauto. by left.
  - apply (sent_seeds k seeds peer s r _ _ []); eauto; [by left|].
    intros q b [[<- <-]|[Hne Hq]]%lookup_insert_Some; eauto.
Qed.

Lemma seeds_step k k' seeds : keys_step k k' -> keys_ok k -> seeds_ok k seeds -> exists seeds', seeds_ok k' seeds'.
Proof.
  intros [] Hok Hk.
  - destruct (init_sender_starts _ _ _ _ _ H0) as [seed Hst]. destruct H as [_ [H _]%Forall_cons].
    apply (seeds_moves k0 seeds _ (x25519_public fresh) seed); [done|set_solver|done|].
    intros w q r' [(w0 & q0 & Hr)| ->]%ratchet_install; [left; by exists w0, q0, r'|by right; right].
  - exists seeds. apply (seeds_still k0); [done..|].
    intros w q r [(w0 & q0 & Hr)| ->]%ratchet_install; [left; by exists w0, q0, r|by right].
  - exists seeds. by apply persist_seeds.
  - exists seeds. apply seeds_sub; [done|]. by intros [].
  - exists seeds. by apply confirm_seeds.
  - exists seeds. by apply seeds_flags.
  - exists seeds. by apply seeds_flags.
  - exists seeds. unfold take_ratchet_init_owed. destruct (_ !! peer); [by apply seeds_flags|by destruct k0].
  - exists seeds. by apply expire_seeds.
  - exists seeds. by apply encrypt_seeds.
  - by eapply decrypt_seeds.
  - exists seeds. by apply remove_seeds.
  - exists seeds. by apply restart_seeds.
Qed.

Lemma reachable_seeds_ok k0 k : keys_ok k0 -> (exists seeds, seeds_ok k0 seeds) -> rtc keys_step k0 k ->
  exists seeds, seeds_ok k seeds.
Proof.
  intros Hok Hs Hr. induction Hr as [|k1 k2 k3 H12 Hr IH]; [done|]. destruct Hs as [seeds Hs].
  apply IH; [by eapply keys_step_ok|by eapply seeds_step].
Qed.

(** C6: no message key is used twice.  Over any sequence of locked sections of the
    manager, by any callers, with a store that may fail any write, and across any
    crashes and restarts from that store: each position of each ratchet key's send
    chain is released at most once; each ratchet key has one seed, on whose HMAC
    chain all its session's states are, and each released message is sealed under
    the message key of its own position of that chain; and two messages sealed
    under one key show, among the keys of their two chains up to their positions,
    two different keys with the same HMAC, or one chain that starts on the other
    (for one chain: that returns to its start).  Generated ratchet keys are taken to
    be new, and a chain to stay below 2^32 - 1 messages, where its counter wraps. *)
Theorem message_keys_never_reused spk fresh random i store k :
  store = None \/ store = Some ∅ ->
  rtc keys_step (mkKeys (with_optional_store spk fresh random i store) ∅ []) k ->
  NoDup (positions k) /\
  exists seeds, seeds_ok k seeds /\
    forall a b x y mk, a <> b -> ks_released k !! a = Some x -> ks_released k !! b = Some y ->
      key_of seeds x = Some mk -> key_of seeds y = Some mk ->
      rl_position x <> rl_position y /\
      exists sx sy, seeds !! (rl_position x).1 = Some sx /\ seeds !! (rl_position y).1 = Some sy /\
        coincidence sx (Z.to_nat (rl_position x).2) sy (Z.to_nat (rl_position y).2).
Proof.
  intros Hst Hr. pose proof (ko_nodup _ (reachable_keys_ok _ _ _ _ _ _ Hst Hr)) as Hnd. split; [done|].
  destruct (reachable_seeds_ok _ k (fresh_manager_ok spk fresh random i store Hst)) as [seeds Hs]; [|done|].
  { exists ∅. split; cbn; [set_solver| |by intros x ?%elem_of_nil].
    intros w q r. by destruct w, Hst as [-> | ->]. }
  exists seeds. split; [done|]. intros a b x y mk Hab Hx Hy Kx Ky. split.
  - intros Heq. apply Hab, (NoDup_lookup (positions k) a b (rl_position x)); [done|..];
      unfold positions; rewrite list_lookup_fmap, ?Hx, ?Hy; cbn; by rewrite ?Heq.
  - revert Kx Ky. unfold key_of.
    destruct (seeds !! (rl_position x).1) as [sx|]; [|done]. destruct (seeds !! (rl_position y).1) as [sy|]; [|done].
    cbn. destruct (message_key _ sx) as [kx|] eqn:Kx; [|done]. destruct (message_key _ sy) as [ky|] eqn:Ky; [|done].
    intros [= ->] [= ->]. exists sx, sy. split_and!; try done. by eapply message_keys_meet.
Qed.
End Seeds.

(** ** A run: two sends, a send the store reports lost, a crash, and a third *)

#[local] Existing Instance toy_prims.

Definition toy_peer : NodeId := id_node_id (toy_identity 2).
Definition toy_keys_start : keys_state := mkKeys (toy_manager 1) ∅ [].

Definition toy_sender : DoubleRatchet :=
  match init_sender (toy_key 31) (toy_key 9) (toy_key 5) [7; 7] with
  | Ok r => r
  | Err _ => init_receiver [] [] [] []
  end.

Definition toy_keys_up : keys_state :=
  sent (repeat 4 12) (StoredButFailed "disk full") toy_peer [3]
    (sent (repeat 3 12) Stored toy_peer [2]
      (sent (repeat 2 12) Stored toy_peer [1]
        (generated [x25519_public (toy_key 31)]
          (install_session None 0 toy_peer toy_sender Keep true (ks_manager toy_keys_start)).1 toy_keys_start))).

Definition toy_disk : gmap NodeId bytes := default ∅ (sm_store (ks_manager toy_keys_up)).

(** A crash, and the boot after it with a store that answers what it holds. *)
Definition toy_reboot (disk : gmap NodeId bytes) (k : keys_state) : keys_state :=
  with_manager (restore_sessions (Ok [toy_peer]) (fun p => Ok (disk !! p))
    (@with_optional_store toy_prims toy_identity_prims toy_ratchet (toy_key 77) (fun _ => toy_key 78) 8
       (sm_identity (ks_manager k)) (Some disk))).1 k.

Definition toy_keys_end : keys_state := sent (repeat 5 12) Stored toy_peer [4] (toy_reboot toy_disk toy_keys_up).

Lemma toy_reboot_step disk k : sm_store (ks_manager k) = Some disk -> keys_step k (toy_reboot disk k).
Proof. intros Hd. apply ks_restart; [done|]. intros p b H. by injection H. Qed.

Lemma store_default (o : option (gmap NodeId bytes)) : bool_decide (is_Some o) = true -> o = Some (default ∅ o).
Proof. intros H%bool_decide_eq_true. by destruct H as [d ->]. Qed.

Lemma toy_sent_step nonce answer pt k : length nonce = 12%nat ->
  (bool_decide (map_Forall (fun _ (s : PeerSession) =>
    send_count (ss_ratchet s) < U32_MAX) (sm_sessions (ks_manager k))) = true) ->
  keys_step k (sent nonce answer toy_peer pt k).
Proof.
  intros Hn Hc%bool_decide_eq_true. apply ks_encrypt; [done|]. intros s Hs. exact (Hc toy_peer s Hs).
Qed.

Lemma toy_keys_run : rtc keys_step toy_keys_start toy_keys_end.
Proof.
  unfold toy_keys_end.
  eapply rtc_r; [|apply toy_sent_step; vm_compute; reflexivity].
  eapply rtc_r; [|apply toy_reboot_step, store_default; vm_compute; reflexivity].
  unfold toy_keys_up.
  eapply rtc_r; [|apply toy_sent_step; vm_compute; reflexivity].
  eapply rtc_r; [|apply toy_sent_step; vm_compute; reflexivity].
  eapply rtc_r; [|apply toy_sent_step; vm_compute; reflexivity].
  apply rtc_once. refine (ks_initiated (toy_key 31) (toy_key 9) (toy_key 5) [7; 7] toy_sender _ _ _ _ _ _ _).
  - split; [apply NoDup_singleton|]. repeat constructor. apply not_elem_of_empty.
  - vm_compute. reflexivity.
Qed.

Lemma message_keys_never_reused_witness :
  length (ks_released toy_keys_end) = 3%nat /\ NoDup (positions toy_keys_end) /\
  exists seeds, seeds_ok toy_keys_end seeds.
Proof.
  split; [vm_compute; reflexivity|].
  destruct (message_keys_never_reused (toy_key 11) (fun i => toy_key (1 + 100 + Z.of_nat i)) (40 * 1)
    (toy_identity 1) (Some ∅) toy_keys_end (or_intror eq_refl) toy_keys_run) as (Hd & seeds & Hs & _).
  split; [exact Hd|]. exists seeds. exact Hs.
Defined.
