(* ===== verification/SessionProps.v ===== *)
(** * What sessions promise

    Previewing a message reads what delivering it will read; two managers that
    exchange a bundle and an init hold the two ends of one conversation; a failed
    negotiation changes nothing; and a one-time prekey serves one session. *)

From S2P Require Import Prelude Text Types Concrete DoubleRatchet RatchetConcrete RatchetSpec RatchetProps RatchetConvo RatchetRestart Identity X3dh Session SessionConcrete SessionKeys SessionSeeds.

Section Ratchets.
Context {P : Prims} {IP : IdentityPrims} {RP : RatchetPrims} {SP : SessionPrims}.

(** ** A property of every ratchet a manager holds *)

Variable Q : DoubleRatchet -> Prop.
Hypothesis Q_sender : forall f sh pk ad r, init_sender f sh pk ad = Ok r -> Q r.
Hypothesis Q_receiver : forall sh se pu ad, Q (init_receiver sh se pu ad).
Hypothesis Q_encrypt : forall pt r, Q r -> Q (encrypt pt r).1.
Hypothesis Q_decrypt : forall f m r, Q r -> Q (decrypt f m r).1.
Hypothesis Q_state : forall st, Q (from_state st).

Record session_has (s : PeerSession) : Prop := {
  sh_use : Q (ss_ratchet s);
  sh_aside u : ss_unconfirmed s = Some u -> Q u;
  sh_retired t : ss_retired s = Some t -> Q (rt_ratchet t)
}.

Definition manager_has (st : SessionManager) : Prop :=
  forall peer s, sm_sessions st !! peer = Some s -> session_has s.

Lemma has_update peer f st : manager_has st ->
  (forall s, sm_sessions st !! peer = Some s -> session_has s -> session_has (f s)) ->
  manager_has (update_session peer f st).
Proof.
  intros Hm Hf q s. cbn. intros Hq. destruct (decide (q = peer)) as [->|Hne].
  - rewrite lookup_alter_eq in Hq. destruct (sm_sessions st !! peer) as [s0|] eqn:Hs; cbn in Hq; [|done].
    injection Hq as <-. by apply Hf, (Hm peer).
  - rewrite lookup_alter_ne in Hq by done. by apply (Hm q).
Qed.

Lemma has_new r now b : Q r -> session_has (new_session r now b).
Proof. intros Hr. by split. Qed.

Lemma has_insert peer s st : manager_has st -> session_has s ->
  manager_has (set_sessions (<[peer := s]> (sm_sessions st)) st).
Proof. intros Hm Hs q s'. cbn. intros [[<- <-]|[_ Hq]]%lookup_insert_Some; [done|by apply (Hm q)]. Qed.

Lemma has_install now inst peer r replacement initiator st : manager_has st -> Q r ->
  manager_has (install_session now inst peer r replacement initiator st).1.
Proof.
  intros Hm Hr. unfold install_session.
  destruct (sm_sessions st !! peer) as [s|], replacement; cbn [fst]; try done.
  - apply has_update; [done|]. intros s' _ [Hu Ha Ht]. split; cbn; try done. by intros u [= <-].
  - by apply has_insert, has_new.
  - by apply has_insert, has_new.
Qed.

Lemma has_restore listed load st : manager_has st -> manager_has (restore_listed listed load st).1.
Proof.
  revert st. induction listed as [|peer rest IH]; intros st Hm; cbn; [done|].
  destruct (load peer) as [[blob|]|]; cbn; try by apply IH.
  destruct (decrypt_or_migrate_blob _ blob) as [json|]; [|by apply IH].
  destruct (ratchet_state_from_slice json) as [state|]; [|by apply IH].
  specialize (IH (set_sessions (<[peer := new_session (from_state state) None false]> (sm_sessions st)) st)).
  destruct (restore_listed rest load _). by apply IH, has_insert, has_new.
Qed.

Lemma has_encrypt nonce answer peer pt st : manager_has st ->
  manager_has (session_encrypt nonce answer peer pt st).1.
Proof.
  intros Hm. unfold session_encrypt. destruct (sm_sessions st !! peer) as [s|] eqn:Hs; [|done].
  assert (Hset : forall r, Q r -> manager_has (update_session peer (set_ratchet r) st)).
  { intros r Hr. apply has_update; [done|]. intros s' _ [Hu Ha Ht]. by split. }
  pose proof (Q_encrypt pt _ (sh_use _ (Hm _ _ Hs))) as Hr.
  destruct (encrypt pt (ss_ratchet s)) as [r [m|e]]; cbn in Hr; [|by apply Hset].
  destruct (sm_store st) as [disk|]; [|by apply Hset].
  destruct (match session_blob _ _ _ with Ok _ => _ | Err _ => _ end) as [disk' [u|e]];
    intros q s' Hq; [by apply (Hset r Hr q)|by apply (Hset _ (Q_state (export_state (ss_ratchet s))) q)].
Qed.

Lemma has_decrypt f1 f2 f3 now inst peer m st : manager_has st ->
  manager_has (decrypt_locked f1 f2 f3 now inst peer m st).1.
Proof.
  intros Hm. unfold decrypt_locked. destruct (sm_sessions st !! peer) as [s|] eqn:Hs; [|done].
  pose proof (Hm _ _ Hs) as [Hu Ha Ht].
  assert (Hconst : forall s', session_has s' -> manager_has (update_session peer (fun _ => s') st)).
  { intros s' Hs'. by apply has_update. }
  pose proof (Q_decrypt f1 m _ Hu) as H1. destruct (decrypt f1 m (ss_ratchet s)) as [r [pt|e]]; cbn in H1.
  { apply has_update; [done|]. intros s' _ [Hu' Ha' Ht']. by split. }
  assert (Hrest : forall s' e, ss_ratchet s' = r -> (forall u, ss_unconfirmed s' = Some u -> Q u) ->
    ss_retired s' = ss_retired s ->
    manager_has (match (t ← ss_retired s'; if retired_can_read inst s' then Some t else None) with
      | Some t => match decrypt f3 m (rt_ratchet t) with
          | (t', Ok pt) => (update_session peer
              (fun _ => set_owed true (set_retired (Some (mkRetired t' (rt_since t))) s')) st, Ok pt)
          | (t', Err _) => (update_session peer
              (fun _ => set_retired (Some (mkRetired t' (rt_since t))) s') st, Err e)
          end
      | None => (update_session peer (fun _ => s') st, Err e : result SessionError bytes)
      end).1).
  { intros s' e' Er Hu' Et. destruct (ss_retired s') as [t|] eqn:Hret; cbn [mbind option_bind].
    2: { apply Hconst. split; [by rewrite Er|done|by rewrite Hret]. }
    symmetry in Et. pose proof (Q_decrypt f3 m _ (Ht t Et)) as H3.
    destruct (retired_can_read inst s').
    - destruct (decrypt f3 m (rt_ratchet t)) as [t' [pt|e3]]; cbn in H3; apply Hconst;
        (split; cbn; [by rewrite Er|done|by intros ? [= <-]]).
    - apply Hconst. split; [by rewrite Er|done|]. rewrite Hret. by intros ? [= <-]; apply Ht. }
  cbn [ss_unconfirmed set_ratchet]. destruct (ss_unconfirmed s) as [u|] eqn:Hun; cbn [fmap option_fmap option_map].
  - pose proof (Q_decrypt f2 m u (Ha u eq_refl)) as H2. destruct (decrypt f2 m u) as [u' [pt|e2]]; cbn in H2.
    + apply Hconst. split; cbn; try done. by intros ? [= <-].
    + apply Hrest; try done. by intros ? [= <-].
  - by apply Hrest.
Qed.

Lemma has_step k k' : keys_step k k' -> manager_has (ks_manager k) -> manager_has (ks_manager k').
Proof.
  intros [] Hm; cbn [ks_manager with_manager generated].
  - by apply has_install; [|eapply Q_sender].
  - by apply has_install.
  - unfold persist_session. repeat case_match; done.
  - done.
  - unfold confirm_locked. destruct (sm_sessions (ks_manager k0) !! peer) as [s|] eqn:Hs; [|done].
    assert (Hawait : manager_has (if ss_awaiting_confirmation s
      then (update_session peer (set_awaiting false) (ks_manager k0), true) else (ks_manager k0, false)).1).
    { destruct (ss_awaiting_confirmation s); [|done]. apply has_update; [done|]. intros s' _ []. by split. }
    pose proof (Hm _ _ Hs) as [Hu Ha Ht].
    destruct (ss_unconfirmed s) as [u|]; [|done]. destruct (ss_unconfirmed_initiated s); [|done].
    apply has_update; [done|]. intros s' Hs' [Hu' _ _]. split; cbn; [by apply Ha|done|by intros ? [= <-]].
  - apply has_update; [done|]. intros s' _ []. by split.
  - apply has_update; [done|]. intros s' _ []. by split.
  - unfold take_ratchet_init_owed. case_match; [|done]. apply has_update; [done|]. intros s' _ []. by split.
  - intros q s. cbn. rewrite lookup_fmap. destruct (sm_sessions _ !! q) as [s0|] eqn:Hq; [|done].
    intros [= <-]. pose proof (Hm _ _ Hq) as []. case_match; by split.
  - unfold sent. pose proof (has_encrypt nonce answer peer plaintext _ Hm). by destruct (session_encrypt _ _ _ _ _).
  - by apply has_decrypt.
  - unfold remove_session. assert (Hd : manager_has (set_sessions (delete peer (sm_sessions (ks_manager k0))) (ks_manager k0))).
    { intros q s. cbn. intros [_ Hq]%lookup_delete_Some. by apply (Hm q). }
    case_match; [|done]. case_match; done.
  - unfold restore_sessions. cbn [sm_store with_optional_store]. destruct listed as [ids|]; cbn.
    + by apply has_restore.
    + done.
Qed.

Lemma reachable_has spk fresh random i store k :
  rtc keys_step (mkKeys (with_optional_store spk fresh random i store) ∅ []) k -> manager_has (ks_manager k).
Proof.
  intros Hr. assert (H0 : manager_has (with_optional_store spk fresh random i store)) by done. revert Hr H0.
  generalize (with_optional_store spk fresh random i store). intros st Hr.
  remember (mkKeys st ∅ []) as k0 eqn:Hk. intros H0. assert (Hk0 : manager_has (ks_manager k0)) by (by rewrite Hk).
  clear Hk H0. induction Hr as [|k1 k2 k3 Hs Hr IH]; [done|]. by eapply IH, has_step.
Qed.
End Ratchets.

Section Promises.
Context {P : Prims} {IP : IdentityPrims} {RP : RatchetPrims} {SP : SessionPrims}.
Context {RL : RatchetLaws}.

(** ** Previews *)

Definition ratchet_numbered (r : DoubleRatchet) : Prop := numbered (skipped_keys r) (skipped_key_seq r).

Lemma import_numbered l q m : numbered m q -> numbered (import_skipped q l m) (q + Z.of_nat (length l)).
Proof.
  revert q m. induction l as [|k l IH]; intros q m Hm; cbn [import_skipped length].
  - by rewrite Z.add_0_r.
  - replace (q + Z.of_nat (S (length l))) with ((q + 1) + Z.of_nat (length l)) by lia.
    apply IH. by apply numbered_insert.
Qed.

Lemma empty_numbered : numbered ∅ 0.
Proof. split; intros k; intros; by rewrite lookup_empty in *. Qed.

Lemma reachable_numbered spk fresh random i store k :
  rtc keys_step (mkKeys (with_optional_store spk fresh random i store) ∅ []) k ->
  manager_has ratchet_numbered (ks_manager k).
Proof.
  apply reachable_has.
  - intros f sh pk ad r (root & ck & _ & ->)%init_sender_sends. apply empty_numbered.
  - intros. apply empty_numbered.
  - intros pt r Hr. pose proof (run_op_numbered (OpEncrypt pt) r Hr) as H. cbn in H. by destruct (encrypt pt r).
  - intros f m r Hr. pose proof (run_op_numbered (OpDecrypt f m) r Hr) as H. cbn in H. by destruct (decrypt f m r).
  - intros st. apply (import_numbered (rs_skipped_keys st) 0 ∅), empty_numbered.
Qed.

(** A copy reads what the original would. *)
Lemma copy_reads f m r : ratchet_numbered r ->
  (decrypt f m (from_state (export_state r))).2 = (decrypt f m r).2.
Proof.
  intros Hr. destruct (same_session_op (OpDecrypt f m) _ _ (restart_matches r Hr)) as [Ho _]. cbn in Ho.
  destruct (decrypt f m r) as [r1 o1], (decrypt f m (from_state _)) as [r2 o2]. cbn in *.
  destruct o1, o2; cbn in Ho; by simplify_eq.
Qed.

(** C32: a preview is what delivery reads.  In every state a manager can reach,
    inspecting a message before it is admitted gives exactly the plaintext, or
    exactly the error, that decrypting it would give, whichever of the three
    sessions reads it, although the preview works on discarded copies. *)
Theorem preview_is_what_decrypt_reads spk fresh random i store k f1 f2 f3 now inst nonce answer peer m :
  rtc keys_step (mkKeys (with_optional_store spk fresh random i store) ∅ []) k ->
  preview_decrypt f1 f2 f3 inst peer m (ks_manager k) =
  (session_decrypt f1 f2 f3 now inst nonce answer peer m (ks_manager k)).2.
Proof.
  intros Hr%reachable_numbered. unfold preview_decrypt, session_decrypt, decrypt_locked.
  destruct (sm_sessions (ks_manager k) !! peer) as [s|] eqn:Hs; cbn [ok_or bind_result]; [|done].
  destruct (Hr _ _ Hs) as [Hu Ha Ht]. rewrite copy_reads by done.
  destruct (decrypt f1 m (ss_ratchet s)) as [r [pt|e]]; cbn [snd]; [done|].
  cbn [ss_unconfirmed set_ratchet set_unconfirmed ss_retired retired_can_read].
  assert (Hret : forall e' : SessionError,
    (match (fun t => (decrypt f3 m (from_state (export_state (rt_ratchet t)))).2) <$>
       (t ← ss_retired s; if retired_can_read inst s then Some t else None) with
     | Some (Ok pt) => Ok pt
     | _ => Err e' end) =
    match (t ← ss_retired s; if retired_can_read inst s then Some t else None) with
    | Some t => match (decrypt f3 m (rt_ratchet t)).2 with Ok pt => Ok pt | Err _ => Err e' end
    | None => Err e' end).
  { intros e'. destruct (ss_retired s) as [t|] eqn:Et; cbn; [|done]. destruct (retired_can_read inst s); cbn; [|done].
    by rewrite copy_reads by (by apply Ht). }
  unfold retired_can_read in *. cbn [ss_retired set_ratchet set_unconfirmed].
  destruct (ss_unconfirmed s) as [u|]; cbn [fmap option_fmap option_map].
  - rewrite copy_reads by (by apply Ha). destruct (decrypt f2 m u) as [u' [pt|e2]]; cbn [snd]; [done|].
    rewrite Hret. destruct (_ ≫= _) as [t|]; cbn; [|done].
    by destruct (decrypt f3 m (rt_ratchet t)) as [t' [pt|e3]].
  - rewrite Hret. destruct (_ ≫= _) as [t|]; cbn; [|done].
    by destruct (decrypt f3 m (rt_ratchet t)) as [t' [pt|e3]].
Qed.

(** ** Establishing a session *)

Context {HL : HexLaws} {IL : IdentityLaws}.

(** A manager's own keys belong together, and its one-time ids are distinct and
    below the counter. *)
Definition prekey_ok (k : OneTimePreKey) : Prop :=
  is_array 32 (opk_secret k) /\ opk_public k = x25519_public (opk_secret k).

Record manager_ok (st : SessionManager) : Prop := {
  mo_identity : identity_ok (sm_identity st);
  mo_spk : is_array 32 (spk_secret (sm_signed_prekey st));
  mo_spk_public : spk_public (sm_signed_prekey st) = x25519_public (spk_secret (sm_signed_prekey st));
  mo_opks : Forall prekey_ok (sm_one_time_prekeys st)
}.

Lemma prekeys_generated fresh first n : (forall i, is_array 32 (fresh i)) ->
  Forall prekey_ok (generate_prekeys fresh first n).
Proof.
  intros Hf. apply Forall_forall. intros k (i & -> & _)%list_elem_of_fmap. split; [apply Hf|done].
Qed.

Lemma created_manager_ok spk fresh random i store : identity_ok i -> is_array 32 spk ->
  (forall n, is_array 32 (fresh n)) -> manager_ok (with_optional_store spk fresh random i store).
Proof.
  intros Hi Hs Hf. split; [done|done|done|]. by apply prekeys_generated.
Qed.

(** Accepting sessions keeps the manager ready for the next handshake. *)
Lemma accepting_keeps_manager_ok env peer init replacement st : (forall n, is_array 32 (ne_opk env n)) ->
  manager_ok st -> manager_ok (accept_with env peer init replacement st).1.
Proof.
  intros Hf [Hi Hs Hp Ho]. unfold accept_with.
  destruct (derive_accepted init st) as [[idx r]|e]; [|by split].
  assert (Hinst : manager_ok (install_session (ne_now env) (ne_inst env) peer r replacement false st).1).
  { unfold install_session. destruct (sm_sessions st !! peer), replacement; by split. }
  destruct (install_session _ _ _ _ _ _ _) as [st1 [u|e]]; [|done]. cbn [fst] in *. clear Hi Hs Hp Ho.
  set (st2 := match idx with Some _ => _ | None => _ end).
  assert (H2 : manager_ok st2).
  { destruct Hinst as [Hi Hs Hp Ho]. unfold st2. destruct idx as [i|]; split; cbn; try done.
    by eapply Forall_delete. }
  assert (H3 : manager_ok (persist_session (ne_nonce env) (ne_answer env) peer st2)).
  { destruct H2. unfold persist_session. repeat case_match; by split. }
  unfold replenish_prekeys. case_match; [|done]. destruct H3 as [Hi Hs Hp Ho]. split; cbn; try done.
  apply Forall_app. split; [done|by apply prekeys_generated].
Qed.

Lemma parse_own_key b : is_array 32 b -> parse_x25519_key (hex_encode b) = Ok b.
Proof. intros [Hl Hb]. unfold parse_x25519_key. rewrite hex_decode_encode by done. cbn. by rewrite Hl. Qed.

Lemma own_public_array i : identity_ok i -> is_array 32 (id_x25519_public i).
Proof. intros Hi. rewrite (io_x25519 _ Hi). apply x25519_public_array, Hi. Qed.

Lemma own_bundle_reads b : manager_ok b ->
  exists bundle, deserialize_prekey_bundle (prekey_bundle b) = Ok bundle /\
    published (sm_identity b) (sm_signed_prekey b) (head (sm_one_time_prekeys b)) bundle.
Proof.
  intros [Hi Hs Hp Ho]. destruct (io_signing _ Hi) as (sk & Hsk & Hsign).
  unfold deserialize_prekey_bundle, prekey_bundle. cbn [sb_identity_key sb_signed_prekey sb_signed_prekey_sig
    sb_node_id sb_one_time_prekey sb_one_time_prekey_id].
  rewrite parse_own_key by (by apply own_public_array). cbn [bind_result].
  rewrite parse_own_key by (rewrite Hp; by apply x25519_public_array). cbn [bind_result].
  rewrite hex_decode_encode by apply ed_sign_array. cbn [map_err bind_result].
  rewrite signature_from_array by apply ed_sign_array. cbn [map_err bind_result].
  assert (Hid : is_array 32 (id_node_id (sm_identity b))).
  { rewrite (io_node_id _ Hi), (io_verifying _ Hi), Hsign. by apply vk_bytes_array. }
  rewrite NodeId_hex_roundtrip by done. cbn [map_err bind_result].
  unfold NodeId_to_verifying_key. rewrite (io_node_id _ Hi), (io_verifying _ Hi), Hsign, vk_bytes_roundtrip by done.
  cbn [map_err bind_result].
  destruct (sm_one_time_prekeys b) as [|k ks]; cbn.
  - eexists. split; [done|]. split; cbn; try done; [by rewrite Hsign|by rewrite (io_verifying _ Hi), Hsign].
  - apply Forall_cons in Ho as [[Hk Hkp] _]. rewrite parse_own_key by (rewrite Hkp; by apply x25519_public_array).
    eexists. split; [done|]. split; cbn; try done; [by rewrite Hsign|by rewrite (io_verifying _ Hi), Hsign].
Qed.

(** What two fresh ends hold after the exchange. *)
Lemma derive_both env a b : identity_ok (sm_identity a) -> manager_ok b ->
  is_array 32 (ne_ephemeral env) -> is_array 32 (ne_ratchet env) ->
  exists i r shared ad idx, derive_initiated env (prekey_bundle b) a = Ok (i, r) /\
    init_sender (ne_ratchet env) shared (x25519_public (spk_secret (sm_signed_prekey b))) ad = Ok r /\
    derive_accepted (mkSerInit (hex_encode (xi_identity_key i)) (hex_encode (xi_ephemeral_key i))
      (xi_one_time_prekey_id i) (hex_encode (dh_public r))) b =
    Ok (idx, init_receiver shared (spk_secret (sm_signed_prekey b))
               (x25519_public (spk_secret (sm_signed_prekey b))) ad).
Proof.
  intros Ha Hb He Hr. destruct (own_bundle_reads b Hb) as (bundle & Hread & Hpub).
  pose proof Hb as [Hbi Hs Hp Ho].
  destruct (x3dh_agreement (ne_ephemeral env) (sm_identity a) (sm_identity b) (sm_signed_prekey b)
    (head (sm_one_time_prekeys b)) bundle) as (i & Hi & Hresp & Hik & Hek & Hoid); try done.
  { intros k Hk. destruct (sm_one_time_prekeys b); [done|]. injection Hk as ->. by apply Forall_cons in Ho as [[] _]. }
  destruct (kdf_rk_total (xs_secret (xi_shared_secret i)) (diffie_hellman (ne_ratchet env) (pb_signed_prekey bundle)))
    as (root & ck & Hk).
  unfold derive_initiated. rewrite Hread. cbn [bind_result]. rewrite Hi. cbn [map_err bind_result].
  unfold init_sender at 1. rewrite Hk. cbn [map_err bind_result]. eexists i, _, _, _, (match sm_one_time_prekeys b with [] => None | _ => Some 0%nat end).
  split; [done|]. split.
  { unfold init_sender. rewrite <- Hp, <- (pub_spk _ _ _ _ Hpub), Hk. done. }
  unfold derive_accepted. cbn [si_identity_key si_ephemeral_key si_ratchet_key si_one_time_prekey_id dh_public].
  rewrite Hik, parse_own_key by (by apply own_public_array). cbn [bind_result].
  rewrite Hek, parse_own_key by (by apply x25519_public_array). cbn [bind_result].
  rewrite parse_own_key by (by apply x25519_public_array). cbn [bind_result].
  rewrite Hik, Hek in Hresp. rewrite Hoid.
  destruct (sm_one_time_prekeys b) as [|k ks]; cbn [head fmap option_fmap option_map bind_result ok_or list_find].
  - cbn [head] in Hresp. cbn [mbind option_bind]. rewrite Hresp. cbn. by rewrite Hp.
  - rewrite decide_True by done. cbn [ok_or bind_result fst mbind option_bind lookup list_lookup].
    cbn [head] in Hresp. rewrite Hresp. cbn. by rewrite Hp.
Qed.

(** C13: a handshake establishes a conversation.  When one node initiates a session
    from another's published bundle and that node accepts the init, both succeed,
    and the two installed sessions are the two ends of one conversation: however
    the ends then send, receive, restart and reject forgeries, every delivered
    message decrypts to what was sent. *)
Theorem handshake_establishes_conversation env env' a b alice bob :
  identity_ok (sm_identity a) -> manager_ok b -> is_array 32 (ne_ephemeral env) -> is_array 32 (ne_ratchet env) ->
  sm_sessions a !! bob = None -> sm_sessions b !! alice = None ->
  exists a' init b' sa sb,
    initiate_session env bob (prekey_bundle b) a = (a', Ok init) /\
    accept_session env' alice init b = (b', Ok tt) /\
    sm_sessions a' !! bob = Some sa /\ sm_sessions b' !! alice = Some sb /\
    forall c, rtc convo_step (mkConvo (ss_ratchet sa) (ss_ratchet sb) [] [] []) c ->
      Forall (fun '(pt, r) => r = Ok pt) (cv_log c).
Proof.
  intros Ha Hb He Hr Hna Hnb. destruct (derive_both env a b) as (i & r & shared & ad & idx & Hd & Hi & Hacc); try done.
  unfold initiate_session, initiate_with, accept_session, accept_with, install_session.
  rewrite Hna, Hnb, Hd. do 2 eexists. rewrite Hacc. eexists _, (new_session r (ne_now env) true), (new_session _ (ne_now env') false).
  split; [done|]. split; [done|].
  split; [|split].
  - unfold persist_session. cbn. rewrite lookup_insert_eq. repeat case_match; cbn; by rewrite lookup_insert_eq.
  - assert (Hrep : forall f st, sm_sessions (replenish_prekeys f st) = sm_sessions st).
    { intros f st. unfold replenish_prekeys. by case_match. }
    rewrite Hrep. unfold persist_session. destruct idx; cbn; rewrite lookup_insert_eq;
      repeat case_match; cbn; by rewrite lookup_insert_eq.
  - intros c Hc. cbn in Hc.
    assert (Hok : convo_ok ad c); [|apply Hok].
    assert (H0 : convo_ok ad (mkConvo r (init_receiver shared (spk_secret (sm_signed_prekey b))
      (x25519_public (spk_secret (sm_signed_prekey b))) ad) [] [] [])).
    { split; [left; by eapply init_leads|constructor]. }
    induction Hc as [|c1 c2 c3 Hs Hc IH]; [done|]. by apply IH, (convo_step_ok ad c1 c2).
Qed.
End Promises.

(** ** One-time prekeys *)

Section Pool.
Context {P : Prims} {IP : IdentityPrims} {RP : RatchetPrims} {SP : SessionPrims}.

(** A manager and the ids of the one-time prekeys its accepted sessions used. *)
Record pool_state := mkPool { pl_manager : SessionManager; pl_served : list Z }.

Definition served_by (init : SerializableSessionInit) (r : result SessionError unit) : list Z :=
  match r, si_one_time_prekey_id init with Ok _, Some id => [id] | _, _ => [] end.

Definition accepted (env : NegotiationEnv) (peer : NodeId) (init : SerializableSessionInit)
    (replacement : SessionReplacement) (p : pool_state) : pool_state :=
  let '(st, r) := accept_with env peer init replacement (pl_manager p) in
  mkPool st (served_by init r ++ pl_served p).

Definition pool_with (st : SessionManager) (p : pool_state) : pool_state := mkPool st (pl_served p).

(** Any operation of one boot.  A boot draws its first id from the lower half of
    the id space and does not use up the upper half. *)
Inductive pool_step : pool_state -> pool_state -> Prop :=
| pl_accept env peer init replacement p : sm_next_opk_id (pl_manager p) + 10 <= U32_MAX ->
    pool_step p (accepted env peer init replacement p)
| pl_initiate env peer bundle replacement p :
    pool_step p (pool_with (initiate_with env peer bundle replacement (pl_manager p)).1 p)
| pl_confirm now inst nonce answer peer p :
    pool_step p (pool_with (confirm_session now inst nonce answer peer (pl_manager p)).1 p)
| pl_mark peer p : pool_step p (pool_with (mark_needs_renegotiation peer (pl_manager p)) p)
| pl_owe peer p : pool_step p (pool_with (owe_ratchet_init peer (pl_manager p)) p)
| pl_take peer p : pool_step p (pool_with (take_ratchet_init_owed peer (pl_manager p)).1 p)
| pl_expire inst p : pool_step p (pool_with (expire_retired_sessions inst (pl_manager p)) p)
| pl_encrypt nonce answer peer pt p :
    pool_step p (pool_with (session_encrypt nonce answer peer pt (pl_manager p)).1 p)
| pl_decrypt f1 f2 f3 now inst nonce answer peer m p :
    pool_step p (pool_with (session_decrypt f1 f2 f3 now inst nonce answer peer m (pl_manager p)).1 p)
| pl_remove answer peer p : pool_step p (pool_with (remove_session answer peer (pl_manager p)).1 p)
| pl_restore listed load p : pool_step p (pool_with (restore_sessions listed load (pl_manager p)).1 p).

(** Two managers with one pool. *)
Definition same_pool (st st' : SessionManager) : Prop :=
  sm_one_time_prekeys st' = sm_one_time_prekeys st /\ sm_next_opk_id st' = sm_next_opk_id st.

Lemma persist_pool nonce answer peer st : same_pool st (persist_session nonce answer peer st).
Proof. unfold persist_session. by repeat case_match. Qed.

Lemma install_pool now inst peer r replacement initiator st :
  same_pool st (install_session now inst peer r replacement initiator st).1.
Proof. unfold install_session. by destruct (sm_sessions st !! peer), replacement. Qed.

Lemma initiate_pool env peer bundle replacement st :
  same_pool st (initiate_with env peer bundle replacement st).1.
Proof.
  unfold initiate_with. destruct (derive_initiated env bundle st) as [[i r]|e]; [|done].
  pose proof (install_pool (ne_now env) (ne_inst env) peer r replacement true st) as [H1 H2].
  destruct (install_session _ _ _ _ _ _ _) as [st' [u|e]]; cbn in *; [|done].
  destruct (persist_pool (ne_nonce env) (ne_answer env) peer st') as [H3 H4]. split; congruence.
Qed.

Lemma confirm_pool now inst nonce answer peer st :
  same_pool st (confirm_session now inst nonce answer peer st).1.
Proof.
  unfold confirm_session. assert (H : same_pool st (confirm_locked now inst peer st).1).
  { unfold confirm_locked. by repeat case_match. }
  destruct (confirm_locked now inst peer st) as [st' []]; [|done]. destruct H as [H1 H2].
  destruct (persist_pool nonce answer peer st') as [H3 H4]. cbn in *. split; congruence.
Qed.

Lemma encrypt_pool nonce answer peer pt st : same_pool st (session_encrypt nonce answer peer pt st).1.
Proof. unfold session_encrypt. by repeat case_match. Qed.

Lemma decrypt_pool f1 f2 f3 now inst nonce answer peer m st :
  same_pool st (session_decrypt f1 f2 f3 now inst nonce answer peer m st).1.
Proof.
  unfold session_decrypt. assert (H : same_pool st (decrypt_locked f1 f2 f3 now inst peer m st).1).
  { unfold decrypt_locked. by repeat case_match. }
  destruct (decrypt_locked f1 f2 f3 now inst peer m st) as [st' [pt|e]]; [|done]. destruct H as [H1 H2].
  destruct (persist_pool nonce answer peer st') as [H3 H4]. cbn in *. split; congruence.
Qed.

Lemma restore_pool listed load st : same_pool st (restore_sessions listed load st).1.
Proof.
  unfold restore_sessions. destruct (sm_store st), listed; try done. rewrite restore_rest. done.
Qed.

(** ** The pool's invariant *)

Definition pool_ids (st : SessionManager) : list Z := map opk_id (sm_one_time_prekeys st).

Record pool_ok (p : pool_state) : Prop := {
  po_nodup : NoDup (pool_ids (pl_manager p));
  po_below : Forall (fun id => 0 <= id < sm_next_opk_id (pl_manager p)) (pool_ids (pl_manager p));
  po_next : 0 <= sm_next_opk_id (pl_manager p) <= U32_MAX;
  po_served : Forall (fun id => id < sm_next_opk_id (pl_manager p)) (pl_served p);
  po_gone id : id ∈ pl_served p -> id ∉ pool_ids (pl_manager p);
  po_once : NoDup (pl_served p)
}.

Lemma pool_ok_same st' p : same_pool (pl_manager p) st' -> pool_ok p -> pool_ok (pool_with st' p).
Proof.
  intros [Hk Hn] []. split; cbn; unfold pool_ids; rewrite ?Hk, ?Hn; done.
Qed.

Lemma generated_ids fresh first n : 0 <= first -> first + Z.of_nat n <= U32_MAX + 1 ->
  map opk_id (generate_prekeys fresh first n) = map (fun i => first + Z.of_nat i) (seq 0 n).
Proof.
  intros H0 Hn. unfold generate_prekeys. rewrite map_map. apply map_ext_in. intros i Hi%in_seq. cbn.
  unfold wrapping_add_u32. apply Z.mod_small. unfold U32_MAX in *. lia.
Qed.

Lemma NoDup_generated first n : NoDup (map (fun i => first + Z.of_nat i) (seq 0 n)).
Proof. apply NoDup_fmap_2; [intros i j; lia|apply NoDup_seq]. Qed.

Lemma elem_of_generated first n id : id ∈ map (fun i => first + Z.of_nat i) (seq 0 n) ->
  first <= id < first + Z.of_nat n.
Proof. intros (i & -> & Hi%elem_of_seq)%list_elem_of_fmap. lia. Qed.

(** Taking a key out of the pool and recording it. *)
Lemma pool_take i k st served : pool_ok (mkPool st served) -> sm_one_time_prekeys st !! i = Some k ->
  pool_ok (mkPool (set_prekeys (delete i (sm_one_time_prekeys st)) (sm_next_opk_id st) st)
             (opk_id k :: served)).
Proof.
  intros [Hnd Hb Hn Hs Hg Ho] Hi. cbn in *.
  assert (Hperm : pool_ids st ≡ₚ opk_id k :: map opk_id (delete i (sm_one_time_prekeys st))).
  { unfold pool_ids. by rewrite (delete_Permutation _ _ _ Hi) at 1. }
  rewrite Hperm in Hnd, Hb. apply NoDup_cons in Hnd as [Hk Hnd]. apply Forall_cons in Hb as [Hbk Hb].
  split; unfold pool_ids; cbn; try done.
  - constructor; [lia|done].
  - intros id [-> | Hid]%elem_of_cons; [done|]. intros Hin. apply (Hg id Hid). rewrite Hperm. by right.
  - apply NoDup_cons. split; [|done]. intros Hin. apply (Hg _ Hin). rewrite Hperm. by left.
Qed.

Lemma pool_replenish fresh st served : sm_next_opk_id st + 10 <= U32_MAX -> pool_ok (mkPool st served) ->
  pool_ok (mkPool (replenish_prekeys fresh st) served).
Proof.
  intros Hmax [Hnd Hb Hn Hs Hg Ho]. cbn in *. unfold replenish_prekeys. case_match; [|by split].
  set (batch := (10 - length (sm_one_time_prekeys st))%nat). assert (Hbatch : (batch <= 10)%nat) by lia.
  assert (Hnext : wrapping_add_u32 (sm_next_opk_id st) (Z.of_nat batch) = sm_next_opk_id st + Z.of_nat batch).
  { unfold wrapping_add_u32. apply Z.mod_small. unfold U32_MAX in *. lia. }
  assert (Hids : pool_ids (set_prekeys (sm_one_time_prekeys st ++ generate_prekeys fresh (sm_next_opk_id st) batch)
      (wrapping_add_u32 (sm_next_opk_id st) (Z.of_nat batch)) st) =
    pool_ids st ++ map (fun i => sm_next_opk_id st + Z.of_nat i) (seq 0 batch)).
  { unfold pool_ids. cbn [sm_one_time_prekeys set_prekeys]. rewrite map_app, generated_ids; [done|lia|lia]. }
  rewrite Forall_forall in Hb, Hs. split; cbn [pl_manager pl_served]; rewrite ?Hids; cbn [sm_next_opk_id set_prekeys];
    rewrite ?Hnext; [| |lia| | |done].
  - apply NoDup_app. split_and!; [done| |apply NoDup_generated].
    intros id Hid Hin%elem_of_generated. specialize (Hb _ Hid). lia.
  - apply Forall_forall. intros id [Hid|Hid%elem_of_generated]%elem_of_app; [specialize (Hb _ Hid)|]; lia.
  - apply Forall_forall. intros id Hid%Hs. lia.
  - intros id Hid [Hin|Hin%elem_of_generated]%elem_of_app; [by apply (Hg id)|]. specialize (Hs _ Hid). lia.
Qed.

Lemma accepted_key init st idx r : derive_accepted init st = Ok (idx, r) ->
  match si_one_time_prekey_id init with
  | Some id => exists i k, idx = Some i /\ sm_one_time_prekeys st !! i = Some k /\ opk_id k = id
  | None => idx = None
  end.
Proof.
  unfold derive_accepted.
  destruct (parse_x25519_key (si_identity_key init)); cbn [bind_result]; [|done].
  destruct (parse_x25519_key (si_ephemeral_key init)); cbn [bind_result]; [|done].
  destruct (parse_x25519_key (si_ratchet_key init)); cbn [bind_result]; [|done].
  destruct (si_one_time_prekey_id init) as [id|].
  - destruct (list_find _ _) as [[i k]|] eqn:Hf; cbn [ok_or bind_result fst]; [|done].
    apply list_find_Some in Hf as (Hi & Hid & _).
    destruct (map_err _ _); cbn [bind_result]; [|done]. intros [= <- _]. eauto.
  - cbn [bind_result]. destruct (map_err _ _); cbn [bind_result]; [|done]. by intros [= <- _].
Qed.

Lemma accept_pool env peer init replacement p : sm_next_opk_id (pl_manager p) + 10 <= U32_MAX -> pool_ok p ->
  pool_ok (accepted env peer init replacement p).
Proof.
  intros Hmax Hp. unfold accepted, accept_with. destruct p as [st served]. cbn [pl_manager pl_served] in *.
  destruct (derive_accepted init st) as [[idx r]|e] eqn:Hd; [|done].
  apply accepted_key in Hd.
  pose proof (install_pool (ne_now env) (ne_inst env) peer r replacement false st) as Hst.
  destruct (install_session _ _ _ _ _ _ _) as [st1 [u|e]]; cbn [fst] in Hst;
    apply (pool_ok_same st1) in Hp; try done; unfold pool_with in Hp; cbn [pl_served] in Hp.
  destruct Hst as [Hk Hn].
  set (st2 := match idx with Some _ => _ | None => _ end).
  assert (Hst2 : pool_ok (mkPool st2 (served_by init (Ok tt) ++ served)) /\ sm_next_opk_id st2 = sm_next_opk_id st).
  { unfold st2, served_by. destruct (si_one_time_prekey_id init) as [id|].
    - destruct Hd as (i & k & -> & Hi & <-). rewrite <- Hk in Hi. split; [by apply pool_take|done].
    - subst idx. done. }
  destruct Hst2 as [Hst2 Hn2]. destruct (persist_pool (ne_nonce env) (ne_answer env) peer st2) as [Hk3 Hn3].
  destruct u. apply pool_replenish; [lia|]. by apply (pool_ok_same _ (mkPool st2 _)).
Qed.

Lemma pool_step_ok p p' : pool_step p p' -> pool_ok p -> pool_ok p'.
Proof.
  intros [] Hp; [by apply accept_pool|..]; apply pool_ok_same; try done.
  - apply initiate_pool.
  - apply confirm_pool.
  - unfold take_ratchet_init_owed. by case_match.
  - apply encrypt_pool.
  - apply decrypt_pool.
  - unfold remove_session. by repeat case_match.
  - apply restore_pool.
Qed.

Lemma new_pool_ok spk fresh random i store : is_u32 random ->
  pool_ok (mkPool (with_optional_store spk fresh random i store) []).
Proof.
  intros Hr. assert (Hb : 0 <= random / 2 <= 2 ^ 31).
  { split; [apply Z.div_pos; solve_int|]. apply Z.div_le_upper_bound; solve_int. }
  assert (Hids : pool_ids (with_optional_store spk fresh random i store) =
    map (fun i => random / 2 + Z.of_nat i) (seq 0 10)).
  { unfold pool_ids. cbn [sm_one_time_prekeys with_optional_store]. apply generated_ids; [lia|unfold U32_MAX; lia]. }
  split; cbn [pl_manager pl_served]; rewrite ?Hids; cbn [sm_next_opk_id with_optional_store].
  - apply NoDup_generated.
  - apply Forall_forall. intros id Hid%elem_of_generated. lia.
  - unfold U32_MAX. lia.
  - constructor.
  - by intros id ?%elem_of_nil.
  - constructor.
Qed.

(** C19: a one-time prekey serves one session.  Within a boot, whatever inits
    arrive, from whichever peers, accepted at once or held aside, and however
    the pool is replenished, no two accepted sessions used the same one-time
    prekey. *)
Theorem one_time_prekey_serves_once spk fresh random i store p : is_u32 random ->
  rtc pool_step (mkPool (with_optional_store spk fresh random i store) []) p -> NoDup (pl_served p).
Proof.
  intros Hr Hs. apply po_once. pose proof (new_pool_ok spk fresh random i store Hr) as H0.
  induction Hs as [|p1 p2 p3 Hs Hr' IH]; [done|]. by apply IH, (pool_step_ok p1).
Qed.

(** a refused negotiation changes nothing.  An offer or an init that is
    malformed, forged, names an unknown one-time prekey or meets a session that
    is to be kept leaves the manager exactly as it was: no session is replaced
    and no one-time prekey is consumed. *)
Theorem refused_negotiation_changes_nothing env peer bundle init replacement st :
  (forall st' e, initiate_with env peer bundle replacement st = (st', Err e) -> st' = st) /\
  (forall st' e, accept_with env peer init replacement st = (st', Err e) -> st' = st) /\
  (forall id, si_one_time_prekey_id init = Some id -> id ∉ pool_ids st ->
     exists e, (accept_with env peer init replacement st).2 = Err e).
Proof.
  assert (Hinst : forall r b st' e, install_session (ne_now env) (ne_inst env) peer r replacement b st = (st', Err e) ->
    st' = st).
  { intros r b st' e. unfold install_session. destruct (sm_sessions st !! peer), replacement; by intros [= <- _]. }
  split_and!.
  - intros st' e. unfold initiate_with. destruct (derive_initiated env bundle st) as [[i r]|e0]; [|by intros [= <- _]].
    destruct (install_session _ _ _ _ _ _ _) as [st1 [u|e1]] eqn:Hi; intros [= <- _]. by eapply Hinst.
  - intros st' e. unfold accept_with. destruct (derive_accepted init st) as [[i r]|e0]; [|by intros [= <- _]].
    destruct (install_session _ _ _ _ _ _ _) as [st1 [u|e1]] eqn:Hi; intros [= <- _]. by eapply Hinst.
  - intros id Hid Hnot. unfold accept_with. destruct (derive_accepted init st) as [[idx r]|e0] eqn:Hd; [|by exists e0].
    apply accepted_key in Hd. rewrite Hid in Hd. destruct Hd as (i & k & _ & Hk & <-).
    destruct Hnot. apply list_elem_of_fmap. exists k. split; [done|]. by eapply list_elem_of_lookup_2.
Qed.
End Pool.

(** ** Two nodes meet *)

#[local] Existing Instance toy_prims.
#[local] Existing Instance toy_hex_laws.

Lemma toy_key_array n : is_array 32 (toy_key n).
Proof.
  split; [apply repeat_length|]. apply Forall_forall. intros b Hb%list_elem_of_In%repeat_spec. subst b.
  unfold is_byte. pose proof (Z.mod_pos_bound n 256). lia.
Qed.

Lemma toy_identity_ok n : identity_ok (toy_identity n).
Proof. apply (derived_identity_ok (repeat n 64)). done. Qed.

Lemma toy_manager_ok n : manager_ok (toy_manager n).
Proof. apply created_manager_ok; [apply toy_identity_ok|apply toy_key_array|intros; apply toy_key_array]. Qed.

Lemma handshake_establishes_conversation_witness :
  exists a' init b' sa sb,
    initiate_session (toy_env 1) (id_node_id (toy_identity 2)) (prekey_bundle (toy_manager 2)) (toy_manager 1)
      = (a', Ok init) /\
    accept_session (toy_env 2) (id_node_id (toy_identity 1)) init (toy_manager 2) = (b', Ok tt) /\
    sm_sessions a' !! id_node_id (toy_identity 2) = Some sa /\
    sm_sessions b' !! id_node_id (toy_identity 1) = Some sb /\
    forall c, rtc convo_step (mkConvo (ss_ratchet sa) (ss_ratchet sb) [] [] []) c ->
      Forall (fun '(pt, r) => r = Ok pt) (cv_log c).
Proof.
  refine (handshake_establishes_conversation (toy_env 1) (toy_env 2) (toy_manager 1) (toy_manager 2)
    (id_node_id (toy_identity 1)) (id_node_id (toy_identity 2)) (toy_identity_ok 1) (toy_manager_ok 2)
    (toy_key_array 21) (toy_key_array 22) _ _); apply lookup_empty.
Defined.

Lemma preview_is_what_decrypt_reads_witness :
  preview_decrypt (toy_key 50) (toy_key 51) (toy_key 52) 0 toy_peer forgery (ks_manager toy_keys_end) =
  (session_decrypt (toy_key 50) (toy_key 51) (toy_key 52) None 0 (repeat 9 12) Stored toy_peer forgery
     (ks_manager toy_keys_end)).2.
Proof.
  refine (preview_is_what_decrypt_reads (toy_key 11) (fun i => toy_key (1 + 100 + Z.of_nat i)) (40 * 1)
    (toy_identity 1) (Some ∅) toy_keys_end (toy_key 50) (toy_key 51) (toy_key 52) None 0 (repeat 9 12) Stored
    toy_peer forgery toy_keys_run).
Defined.

(** Two inits that name the key of one bundle: the second is refused. *)
Definition toy_init : SerializableSessionInit :=
  mkSerInit (hex_encode (toy_key 1)) (hex_encode (toy_key 2)) (Some 40) (hex_encode (toy_key 3)).

Definition toy_pool_start : pool_state := mkPool (toy_manager 2) [].
Definition toy_pool_mid : pool_state := accepted (toy_env 2) (toy_key 8) toy_init Keep toy_pool_start.
Definition toy_pool_end : pool_state := accepted (toy_env 3) (toy_key 9) toy_init AfterConfirmation toy_pool_mid.

Lemma toy_pool_run : rtc pool_step toy_pool_start toy_pool_end.
Proof.
  eapply rtc_r; [apply rtc_once|]; apply pl_accept; apply Z.leb_le; vm_compute; reflexivity.
Qed.

Lemma one_time_prekey_serves_once_witness : pl_served toy_pool_end = [40] /\ NoDup (pl_served toy_pool_end).
Proof.
  split; [vm_compute; reflexivity|].
  refine (one_time_prekey_serves_once (toy_key 12) (fun i => toy_key (2 + 100 + Z.of_nat i)) (40 * 2)
    (toy_identity 2) (Some ∅) toy_pool_end _ toy_pool_run).
  unfold is_u32, U32_MAX. lia.
Defined.

Lemma refused_negotiation_changes_nothing_witness :
  (40 ∉ pool_ids (pl_manager toy_pool_mid)) /\
  exists e, (accept_with (toy_env 3) (toy_key 9) toy_init AfterConfirmation (pl_manager toy_pool_mid)).2 = Err e.
Proof.
  assert (Hnot : 40 ∉ pool_ids (pl_manager toy_pool_mid)).
  { apply (bool_decide_unpack _). vm_compute. exact I. }
  split; [exact Hnot|].
  refine (proj2 (proj2 (refused_negotiation_changes_nothing (toy_env 3) (toy_key 9) (prekey_bundle (toy_manager 2))
    toy_init AfterConfirmation (pl_manager toy_pool_mid))) 40 eq_refl Hnot).
Defined.
