(* ===== verification/CircuitBreaker.v ===== *)
(** * The circuit breaker on settlement verification

    [konsensus-lightning/src/circuit_breaker.rs]: a decorator of the Lightning
    backend that bounds [get_payment_status] with a timeout, a circuit breaker, a
    semaphore and a short cache of results that are not settled.

    The handler awaits twice, for a slot and for the backend, and other calls run
    meanwhile.  Its synchronous sections are functions of the shared state; a
    [world] holds that state and the calls in flight, and [cb_step] interleaves
    the sections of any number of calls, which may also be cancelled at an await.
    Instants are nanoseconds; an error is its [to_string()], as in [Gate.v]. *)

From S2P Require Import Prelude Text Types Envelope Gate.

Record CircuitBreakerConfig := mkBreakerConfig {
  call_timeout : Z;
  failure_threshold : Z;
  open_cooldown : Z;
  negative_ttl : Z;
  max_concurrent : nat;
  negative_cache_cap : nat
}.

Definition duration_from_secs (n : Z) : Z := n * 1000000000.

Definition CircuitBreakerConfig_default : CircuitBreakerConfig :=
  mkBreakerConfig (duration_from_secs 2) 5 (duration_from_secs 20) (duration_from_secs 3) 16 4096.

Record BreakerState := mkBreaker {
  consecutive_failures : Z;
  open_until : option Z;
  generation : Z;
  probe_in_flight : bool
}.

Record CallGuard := mkGuard { cg_generation : Z; cg_probe : bool }.

Record NegEntry := mkNegEntry { ne_details : PaymentDetails; ne_cached_at : Z }.

Definition new_breaker : BreakerState := mkBreaker 0 None 0 false.

Definition CIRCUIT_OPEN : string :=
  "settlement-verification circuit open (backend unhealthy) — fail-closed".
Definition AT_CAPACITY : string :=
  "settlement verification at capacity / timed out acquiring a slot — fail-closed".
Definition TIMED_OUT : string := "settlement verification timed out — fail-closed".

(** ** The breaker's state *)

Definition check_available (now : Z) (st : BreakerState) : result string Z :=
  if probe_in_flight st || match open_until st with Some until => now <? until | None => false end
  then Err CIRCUIT_OPEN
  else Ok (generation st).

Definition admit_call (now : Z) (st : BreakerState) : BreakerState * result string CallGuard :=
  match check_available now st with
  | Err e => (st, Err e)
  | Ok g =>
      let probe := bool_decide (is_Some (open_until st)) in
      (mkBreaker (consecutive_failures st) (open_until st) (generation st) probe, Ok (mkGuard g probe))
  end.

Definition wrapping_add_u64 (a b : Z) : Z := (a + b) mod 2 ^ 64.

Definition record_failure (cfg : CircuitBreakerConfig) (now g : Z) (probe : bool) (st : BreakerState) :
    BreakerState :=
  if negb (generation st =? g) || (bool_decide (is_Some (open_until st)) && negb probe) then st
  else
    let failures := saturating_add U32_MAX (consecutive_failures st) 1 in
    if failure_threshold cfg <=? failures
    then mkBreaker failures (Some (now + open_cooldown cfg)) (wrapping_add_u64 (generation st) 1) false
    else mkBreaker failures (open_until st) (generation st) (probe_in_flight st).

Definition record_success (g : Z) (st : BreakerState) : BreakerState :=
  if negb (generation st =? g) then st
  else mkBreaker 0 None
         (match open_until st with Some _ => wrapping_add_u64 (generation st) 1 | None => generation st end)
         false.

(** [Drop for CallGuard]. *)
Definition drop_guard (c : CallGuard) (st : BreakerState) : BreakerState :=
  if cg_probe c && (generation st =? cg_generation c)
  then mkBreaker (consecutive_failures st) (open_until st) (generation st) false
  else st.

(** ** The negative cache *)

Definition still_cached (cfg : CircuitBreakerConfig) (now : Z) (e : NegEntry) : bool :=
  saturating_sub now (ne_cached_at e) <? negative_ttl cfg.

Definition neg_cache_get (cfg : CircuitBreakerConfig) (hash : string) (now : Z)
    (cache : gmap string NegEntry) : gmap string NegEntry * option PaymentDetails :=
  match cache !! hash with
  | Some e => if still_cached cfg now e then (cache, Some (ne_details e)) else (delete hash cache, None)
  | None => (cache, None)
  end.

Definition neg_cache_put (cfg : CircuitBreakerConfig) (hash : string) (details : PaymentDetails) (now : Z)
    (cache : gmap string NegEntry) : gmap string NegEntry :=
  if bool_decide (pd_status details = Settled) then cache
  else
    let cache := if (negative_cache_cap cfg <=? size cache)%nat
                 then filter (fun '(_, e) => still_cached cfg now e = true) cache else cache in
    if (negative_cache_cap cfg <=? size cache)%nat then cache
    else <[hash := mkNegEntry details now]> cache.

(** ** [get_payment_status], one section per stretch between awaits *)

Record Breaker := mkShared { br_state : BreakerState; br_cache : gmap string NegEntry }.

(** Up to waiting for a slot: an answer, or the generation seen. *)
Definition status_begin (cfg : CircuitBreakerConfig) (hash : string) (t1 t2 : Z) (b : Breaker) :
    Breaker * (result string PaymentDetails + Z) :=
  match check_available t1 (br_state b) with
  | Err e => (b, inl (Err e))
  | Ok g =>
      match neg_cache_get cfg hash t2 (br_cache b) with
      | (cache, Some details) => (mkShared (br_state b) cache, inl (Ok details))
      | (cache, None) => (mkShared (br_state b) cache, inr g)
      end
  end.

(** No slot within the call budget. *)
Definition status_no_slot (cfg : CircuitBreakerConfig) (g now : Z) (b : Breaker) :
    Breaker * result string PaymentDetails :=
  (mkShared (record_failure cfg now g false (br_state b)) (br_cache b), Err AT_CAPACITY).

(** With a slot: the second check, then the call. *)
Definition status_admit (now : Z) (b : Breaker) : Breaker * result string CallGuard :=
  let '(st, r) := admit_call now (br_state b) in (mkShared st (br_cache b), r).

(** [None] is a backend that did not answer in time.  The guard is dropped last. *)
Definition status_finish (cfg : CircuitBreakerConfig) (hash : string) (now : Z) (c : CallGuard)
    (answer : option (result string PaymentDetails)) (b : Breaker) : Breaker * result string PaymentDetails :=
  let '(b, r) :=
    match answer with
    | None =>
        (mkShared (record_failure cfg now (cg_generation c) (cg_probe c) (br_state b)) (br_cache b), Err TIMED_OUT)
    | Some (Err e) =>
        (mkShared (record_failure cfg now (cg_generation c) (cg_probe c) (br_state b)) (br_cache b), Err e)
    | Some (Ok details) =>
        (mkShared (record_success (cg_generation c) (br_state b))
           (if bool_decide (pd_status details <> Settled)
            then neg_cache_put cfg hash details now (br_cache b) else br_cache b), Ok details)
    end in
  (mkShared (drop_guard c (br_state b)) (br_cache b), r).

(** ** Many callers *)

Inductive call := Waiting (hash : string) (g : Z) | Calling (hash : string) (c : CallGuard).

Record world := mkWorld {
  w_breaker : Breaker;
  w_calls : gmap nat call;
  w_now : Z;
  w_log : list (string * result string PaymentDetails)
}.

Definition new_world (now : Z) : world := mkWorld (mkShared new_breaker ∅) ∅ now [].

Definition is_calling (c : call) : Prop := match c with Calling _ _ => True | Waiting _ _ => False end.
#[export] Instance is_calling_dec c : Decision (is_calling c).
Proof. destruct c; cbn; apply _. Defined.

Definition holders (w : world) : gmap nat call := filter (fun '(_, c) => is_calling c) (w_calls w).
Definition permits (cfg : CircuitBreakerConfig) : nat := Nat.max (max_concurrent cfg) 1.

Definition answered (id : nat) (hash : string) (now : Z) (r : result string PaymentDetails) (b : Breaker)
    (w : world) : world := mkWorld b (delete id (w_calls w)) now (w_log w ++ [(hash, r)]).

Definition started (cfg : CircuitBreakerConfig) (id : nat) (hash : string) (t1 t2 : Z) (w : world) : world :=
  match status_begin cfg hash t1 t2 (w_breaker w) with
  | (b, inl r) => answered id hash t2 r b w
  | (b, inr g) => mkWorld b (<[id := Waiting hash g]> (w_calls w)) t2 (w_log w)
  end.

Definition admitted (id : nat) (hash : string) (now : Z) (w : world) : world :=
  match status_admit now (w_breaker w) with
  | (b, Err e) => answered id hash now (Err e) b w
  | (b, Ok c) => mkWorld b (<[id := Calling hash c]> (w_calls w)) now (w_log w)
  end.

Section Steps.
Variable cfg : CircuitBreakerConfig.
(** The backend's answer for a hash, when it answers in time. *)
Variable backend : string -> result string PaymentDetails.

(** The clock does not go back; a transition does not use up the 64-bit
    generation counter; a slot is free when one is taken. *)
Inductive cb_step : world -> world -> Prop :=
| cb_start id hash t1 t2 w : w_now w <= t1 <= t2 -> w_calls w !! id = None ->
    cb_step w (started cfg id hash t1 t2 w)
| cb_no_slot id hash g now w : w_now w <= now -> w_calls w !! id = Some (Waiting hash g) ->
    generation (br_state (w_breaker w)) < U64_MAX ->
    cb_step w (let '(b, r) := status_no_slot cfg g now (w_breaker w) in answered id hash now r b w)
| cb_admit id hash g now w : w_now w <= now -> w_calls w !! id = Some (Waiting hash g) ->
    (size (holders w) < permits cfg)%nat ->
    cb_step w (admitted id hash now w)
| cb_finish id hash c now answer w : w_now w <= now -> w_calls w !! id = Some (Calling hash c) ->
    answer = None \/ answer = Some (backend hash) ->
    generation (br_state (w_breaker w)) < U64_MAX ->
    cb_step w (let '(b, r) := status_finish cfg hash now c answer (w_breaker w) in answered id hash now r b w)
| cb_cancel_waiting id hash g now w : w_now w <= now -> w_calls w !! id = Some (Waiting hash g) ->
    cb_step w (mkWorld (w_breaker w) (delete id (w_calls w)) now (w_log w))
| cb_cancel_calling id hash c now w : w_now w <= now -> w_calls w !! id = Some (Calling hash c) ->
    cb_step w (mkWorld (mkShared (drop_guard c (br_state (w_breaker w))) (br_cache (w_breaker w)))
                 (delete id (w_calls w)) now (w_log w)).
End Steps.
