(* ===== verification/CircuitProps.v ===== *)
(** * What the circuit breaker promises

    Over every interleaving of callers, timeouts, backend failures and
    cancellations: the breaker follows the three-state machine it documents, with
    one probe while half-open; it recovers once the calls in flight are gone;
    and the payment gate behind it never admits what it would otherwise refuse. *)

From S2P Require Import Prelude Float Text Types Concrete Envelope WebReply Gate Samples Sqlite SqliteAccept CircuitBreaker.

(** ** The documented machine *)

Inductive phase := Closed (failures : Z) | Open (until : Z) | HalfOpen (until : Z).

Definition phase_of (st : BreakerState) : phase :=
  match open_until st with
  | None => Closed (consecutive_failures st)
  | Some until => if probe_in_flight st then HalfOpen until else Open until
  end.

(** The machine the module documents, on its own: the phase, and the number of
    the cycle, which a call carries from its admission to its result. *)
Record machine := mkMachine { m_phase : phase; m_cycle : Z }.

Definition machine_of (st : BreakerState) : machine := mkMachine (phase_of st) (generation st).

(** May a call go to the backend now? *)
Definition m_admits (now : Z) (m : machine) : bool :=
  match m_phase m with Closed _ => true | Open until => until <=? now | HalfOpen _ => false end.

(** The next call is let through: it is the probe when the circuit was open. *)
Definition m_admit (now : Z) (m : machine) : machine * result string CallGuard :=
  if m_admits now m
  then match m_phase m with
       | Open until => (mkMachine (HalfOpen until) (m_cycle m), Ok (mkGuard (m_cycle m) true))
       | _ => (m, Ok (mkGuard (m_cycle m) false))
       end
  else (m, Err CIRCUIT_OPEN).

(** A failure, of a call of some cycle: one of an older cycle does not count,
    nor, unless the circuit is closed, does one of a call that is not the
    probe.  The failure that reaches the threshold, and that of the probe,
    open the circuit for a cooldown and start a new cycle. *)
Definition m_fail (cfg : CircuitBreakerConfig) (now cycle : Z) (probe : bool) (m : machine) : machine :=
  if bool_decide (cycle = m_cycle m) then
    match m_phase m with
    | Closed n => if failure_threshold cfg <=? n + 1
                  then mkMachine (Open (now + open_cooldown cfg)) (m_cycle m + 1)
                  else mkMachine (Closed (n + 1)) (m_cycle m)
    | HalfOpen _ => if probe then mkMachine (Open (now + open_cooldown cfg)) (m_cycle m + 1) else m
    | Open _ => m
    end
  else m.

(** A success of the current cycle: the count of failures starts anew, and a
    probe closes the circuit. *)
Definition m_succeed (cycle : Z) (m : machine) : machine :=
  if bool_decide (cycle = m_cycle m) then
    match m_phase m with
    | Closed _ => mkMachine (Closed 0) (m_cycle m)
    | HalfOpen _ => mkMachine (Closed 0) (m_cycle m + 1)
    | Open _ => m
    end
  else m.

(** A call at the backend is cancelled: the circuit waits for another probe. *)
Definition m_cancel (c : CallGuard) (m : machine) : machine :=
  match m_phase m with
  | HalfOpen until => if cg_probe c && bool_decide (cg_generation c = m_cycle m)
                      then mkMachine (Open until) (m_cycle m) else m
  | _ => m
  end.

(** [failure_threshold] failures in a row open the closed circuit, fewer do not. *)
Lemma machine_opens_at_threshold cfg now cycle (k : nat) : 1 <= failure_threshold cfg ->
  m_phase (Nat.iter k (m_fail cfg now cycle false) (mkMachine (Closed 0) cycle)) =
  if failure_threshold cfg <=? Z.of_nat k then Open (now + open_cooldown cfg) else Closed (Z.of_nat k).
Proof.
  intros Hthr.
  enough (Nat.iter k (m_fail cfg now cycle false) (mkMachine (Closed 0) cycle) =
    if failure_threshold cfg <=? Z.of_nat k then mkMachine (Open (now + open_cooldown cfg)) (cycle + 1)
    else mkMachine (Closed (Z.of_nat k)) cycle) as -> by by case_match.
  induction k as [|k IH].
  - assert (Hk : (failure_threshold cfg <=? Z.of_nat 0) = false) by (apply Z.leb_gt; lia). by rewrite Hk.
  - rewrite Nat.iter_succ, IH. unfold m_fail. replace (Z.of_nat (S k)) with (Z.of_nat k + 1) by lia.
    destruct (failure_threshold cfg <=? Z.of_nat k) eqn:Hk; cbn [m_cycle m_phase].
    + assert (Hs : (failure_threshold cfg <=? Z.of_nat k + 1) = true) by (bool_to_prop; lia). rewrite Hs. by case_bool_decide.
    + by rewrite bool_decide_true by done.
Qed.

(** ** The breaker and the calls in flight *)

Definition call_generation (c : call) : Z :=
  match c with Waiting _ g => g | Calling _ g => cg_generation g end.

(** [c] is the probe of the current cycle. *)
Definition probing (st : BreakerState) (c : call) : Prop :=
  match c with Calling _ g => cg_generation g = generation st /\ cg_probe g = true | Waiting _ _ => False end.

Record breaker_ok (cfg : CircuitBreakerConfig) (st : BreakerState) (calls : gmap nat call) : Prop := {
  bo_range : 0 <= generation st <= U64_MAX;
  bo_past id c : calls !! id = Some c -> call_generation c <= generation st;
  bo_closed : open_until st = None -> probe_in_flight st = false;
  bo_open : is_Some (open_until st) -> failure_threshold cfg <= consecutive_failures st;
  bo_probe : probe_in_flight st = true -> exists id c, calls !! id = Some c /\ probing st c;
  bo_probing id c : calls !! id = Some c -> probing st c -> probe_in_flight st = true;
  bo_single id c id' c' : calls !! id = Some c -> calls !! id' = Some c' -> probing st c -> probing st c' -> id = id';
  bo_plain id h g : calls !! id = Some (Calling h g) -> cg_generation g = generation st ->
    cg_probe g = false -> open_until st = None
}.

Lemma new_breaker_ok cfg : breaker_ok cfg new_breaker ∅.
Proof. split; cbn; try done; by intros [? ?]. Qed.

(** A call that was not the probe leaves. *)
Lemma leave_ok cfg st calls id c : breaker_ok cfg st calls -> calls !! id = Some c -> ~ probing st c ->
  breaker_ok cfg st (delete id calls).
Proof.
  intros [H1 H2 H3 H4 H5 H6 H7 H8] Hid Hc. split; try done.
  - intros i c' [_ Hi]%lookup_delete_Some. by apply (H2 i).
  - intros Hp. destruct (H5 Hp) as (i & c' & Hi & Hpc). exists i, c'. split; [|done].
    apply lookup_delete_Some. split; [|done]. intros ->. by simplify_eq.
  - intros i c' [_ Hi]%lookup_delete_Some. by apply (H6 i).
  - intros i c' i' c'' [_ Hi]%lookup_delete_Some [_ Hi']%lookup_delete_Some. by apply (H7 i c' i' c'').
  - intros i h g [_ Hi]%lookup_delete_Some. by apply (H8 i h).
Qed.

(** A new cycle: every call in flight is of an older one. *)
Lemma cycle_ok cfg failures until st calls : breaker_ok cfg st calls -> generation st < U64_MAX ->
  (is_Some until -> failure_threshold cfg <= failures) ->
  breaker_ok cfg (mkBreaker failures until (wrapping_add_u64 (generation st) 1) false) calls.
Proof.
  intros [H1 H2 H3 H4 H5 H6 H7 H8] Hg Hf.
  assert (Hw : wrapping_add_u64 (generation st) 1 = generation st + 1).
  { unfold wrapping_add_u64. apply Z.mod_small. unfold U64_MAX in *. lia. }
  rewrite Hw.
  assert (Hold : forall id c, calls !! id = Some c -> call_generation c < generation st + 1).
  { intros id c Hc. specialize (H2 _ _ Hc). lia. }
  assert (Hno : forall id c, calls !! id = Some c -> ~ probing (mkBreaker failures until (generation st + 1) false) c).
  { intros id [h g|h g] Hc; cbn; [tauto|]. specialize (Hold _ _ Hc). cbn in Hold. lia. }
  split; cbn; try done.
  - unfold U64_MAX in *. lia.
  - intros id c Hc. specialize (Hold _ _ Hc). lia.
  - intros id c Hc Hp. by destruct (Hno id c).
  - intros id c id' c' Hc _ Hp. by destruct (Hno id c).
  - intros id h g Hc Hgen. specialize (Hold _ _ Hc). cbn in Hold. lia.
Qed.

(** The guard of a call in flight is dropped with it. *)
Lemma cancel_ok cfg st calls id h g : breaker_ok cfg st calls -> calls !! id = Some (Calling h g) ->
  breaker_ok cfg (drop_guard g st) (delete id calls).
Proof.
  intros Hok Hid. unfold drop_guard. destruct (cg_probe g && (generation st =? cg_generation g)) eqn:Hp.
  - bool_to_prop. assert (Hpr : probing st (Calling h g)) by (by split).
    destruct Hok as [H1 H2 H3 H4 H5 H6 H7 H8].
    assert (Hno : forall i c, delete id calls !! i = Some c ->
      ~ probing (mkBreaker (consecutive_failures st) (open_until st) (generation st) false) c).
    { intros i c [Hne Hi]%lookup_delete_Some Hc. apply Hne. symmetry. by eapply (H7 i c id). }
    split; cbn; try done.
    + intros i c [_ Hi]%lookup_delete_Some. by apply (H2 i).
    + intros i c Hi Hc. by destruct (Hno i c).
    + intros i c i' c' Hi _ Hc. by destruct (Hno i c).
    + intros i h' g' [_ Hi]%lookup_delete_Some. by apply (H8 i h').
  - eapply leave_ok; [done..|]. intros [Hg Hc]. rewrite Hc, Hg, Z.eqb_refl in Hp. done.
Qed.

(** A failure of a call of the current cycle that may count. *)
Lemma failure_spec cfg now g probe st : let st' := record_failure cfg now g probe st in
  st' = st \/
  (generation st = g /\ (open_until st = None \/ probe = true) /\
   ((saturating_add U32_MAX (consecutive_failures st) 1 < failure_threshold cfg /\
     st' = mkBreaker (saturating_add U32_MAX (consecutive_failures st) 1) (open_until st) (generation st)
             (probe_in_flight st)) \/
    (failure_threshold cfg <= saturating_add U32_MAX (consecutive_failures st) 1 /\
     st' = mkBreaker (saturating_add U32_MAX (consecutive_failures st) 1) (Some (now + open_cooldown cfg))
             (wrapping_add_u64 (generation st) 1) false))).
Proof.
  cbn zeta. unfold record_failure.
  destruct (negb (generation st =? g) || (bool_decide (is_Some (open_until st)) && negb probe)) eqn:Hg; [by left|right].
  apply orb_false_iff in Hg as [Hg Hp]. bool_to_prop. split; [done|].
  split.
  { destruct (open_until st), probe; cbn in Hp; auto. }
  destruct (failure_threshold cfg <=? _) eqn:Ht; bool_to_prop; [by right|by left].
Qed.

Lemma failure_ok cfg now g probe st calls : breaker_ok cfg st calls -> generation st < U64_MAX ->
  failure_threshold cfg <= U32_MAX -> breaker_ok cfg (record_failure cfg now g probe st) calls.
Proof.
  intros Hok Hmax Hthr. destruct (failure_spec cfg now g probe st) as [->|(Hg & Hp & [[Hlt ->]|[Hge ->]])]; [done| |].
  - destruct Hok as [H1 H2 H3 H4 H5 H6 H7 H8]. split; try done. cbn. intros Ho. specialize (H4 Ho). solve_int.
  - by apply cycle_ok.
Qed.

Lemma success_ok cfg g st calls : breaker_ok cfg st calls -> generation st < U64_MAX ->
  breaker_ok cfg (record_success g st) calls.
Proof.
  intros Hok Hmax. unfold record_success. destruct (negb (generation st =? g)); [done|].
  destruct (open_until st) as [until|] eqn:Ho; [apply cycle_ok; [done..|by intros [? ?]]|].
  pose proof (bo_closed _ _ _ Hok Ho) as Hpf. destruct Hok as [H1 H2 H3 H4 H5 H6 H7 H8].
  split; cbn; try done; try (by intros [? ?]). intros id c Hc Hp. rewrite <- Hpf. by eapply H6.
Qed.

Lemma wrapping_next g : 0 <= g < U64_MAX -> wrapping_add_u64 g 1 = g + 1.
Proof. intros Hg. unfold wrapping_add_u64. apply Z.mod_small. unfold U64_MAX in *. lia. Qed.

(** While a probe of this cycle is in flight, the circuit is half-open. *)
Lemma probing_phase cfg st calls id h g : breaker_ok cfg st calls -> calls !! id = Some (Calling h g) ->
  generation st = cg_generation g -> cg_probe g = true ->
  probe_in_flight st = true /\ exists until, open_until st = Some until /\ phase_of st = HalfOpen until /\
    failure_threshold cfg <= consecutive_failures st.
Proof.
  intros Hok Hid Hg Hp. assert (Hpf : probe_in_flight st = true) by (eapply (bo_probing _ _ _ Hok); [done|by split]).
  split; [done|]. unfold phase_of. rewrite Hpf. destruct (open_until st) as [until|] eqn:Ho.
  - exists until. split_and!; try done. apply (bo_open _ _ _ Hok). by rewrite Ho.
  - by rewrite (bo_closed _ _ _ Hok Ho) in Hpf.
Qed.

(** Recording an outcome ends the cycle of a probe, so dropping its guard
    afterwards does nothing. *)
Lemma failure_drops cfg now st calls id h g : breaker_ok cfg st calls -> calls !! id = Some (Calling h g) ->
  generation st < U64_MAX -> failure_threshold cfg <= U32_MAX ->
  drop_guard g (record_failure cfg now (cg_generation g) (cg_probe g) st) =
  record_failure cfg now (cg_generation g) (cg_probe g) st.
Proof.
  intros Hok Hid Hmax Hthr. pose proof (bo_range _ _ _ Hok). unfold record_failure, drop_guard.
  destruct (generation st =? cg_generation g) eqn:Hg; cbn [negb orb].
  - bool_to_prop. destruct (cg_probe g) eqn:Hp; [|by rewrite andb_true_r; repeat case_match].
    destruct (probing_phase cfg st calls id h g) as (_ & until & Ho & _ & Hf); try done.
    rewrite andb_false_r. rewrite (proj2 (Z.leb_le _ _)) by solve_int. cbn.
    rewrite wrapping_next by lia. by rewrite (proj2 (Z.eqb_neq _ _)) by lia.
  - by rewrite Hg, andb_false_r.
Qed.

Lemma success_drops cfg st calls id h g : breaker_ok cfg st calls -> calls !! id = Some (Calling h g) ->
  generation st < U64_MAX -> drop_guard g (record_success (cg_generation g) st) = record_success (cg_generation g) st.
Proof.
  intros Hok Hid Hmax. pose proof (bo_range _ _ _ Hok). unfold record_success, drop_guard.
  destruct (generation st =? cg_generation g) eqn:Hg; cbn [negb].
  - bool_to_prop. destruct (cg_probe g) eqn:Hp; [|done].
    destruct (probing_phase cfg st calls id h g) as (_ & until & -> & _); try done. cbn.
    rewrite wrapping_next by lia. by rewrite (proj2 (Z.eqb_neq _ _)) by lia.
  - by rewrite Hg, andb_false_r.
Qed.

(** ** Each section follows the machine *)

(** Saturation never shows: the circuit opens before. *)
Lemma count_failure cfg n : failure_threshold cfg <= U32_MAX ->
  (failure_threshold cfg <=? saturating_add U32_MAX n 1) = (failure_threshold cfg <=? n + 1) /\
  (saturating_add U32_MAX n 1 < failure_threshold cfg -> saturating_add U32_MAX n 1 = n + 1).
Proof. intros Hthr. unfold saturating_add. split; lia. Qed.

Lemma failure_follows cfg now g probe st calls : breaker_ok cfg st calls ->
  failure_threshold cfg <= U32_MAX -> generation st < U64_MAX ->
  (probe = true -> generation st = g -> probe_in_flight st = true) ->
  machine_of (record_failure cfg now g probe st) = m_fail cfg now g probe (machine_of st).
Proof.
  intros Hok Hthr Hmax Hprobe. pose proof (bo_range _ _ _ Hok).
  unfold m_fail, record_failure, machine_of. cbn [m_cycle m_phase].
  destruct (generation st =? g) eqn:Hg; cbn [negb orb]; bool_to_prop;
    [rewrite (bool_decide_true (g = _)) by congruence|by rewrite (bool_decide_false (g = _)) by congruence].
  destruct (count_failure cfg (consecutive_failures st) Hthr) as [Hc Hc'].
  unfold phase_of. destruct (open_until st) as [until|] eqn:Ho; cbn [bool_decide andb].
  - rewrite bool_decide_true by done. cbn [andb].
    destruct probe; cbn [negb]; [|by unfold machine_of, phase_of; rewrite Ho; case_match].
    rewrite (Hprobe eq_refl Hg).
    assert (failure_threshold cfg <= consecutive_failures st) by (apply (bo_open _ _ _ Hok); by rewrite Ho).
    rewrite (proj2 (Z.leb_le _ _)) by solve_int. unfold machine_of. cbn. by rewrite wrapping_next by lia.
  - rewrite bool_decide_false by (by intros [? ?]). cbn [andb]. rewrite Hc.
    destruct (failure_threshold cfg <=? consecutive_failures st + 1) eqn:Ht; cbn.
    + by rewrite wrapping_next by lia.
    + bool_to_prop. by rewrite Hc'.
Qed.

Lemma success_follows cfg st calls id h c : breaker_ok cfg st calls -> calls !! id = Some (Calling h c) ->
  generation st < U64_MAX ->
  machine_of (record_success (cg_generation c) st) = m_succeed (cg_generation c) (machine_of st).
Proof.
  intros Hok Hid Hmax. pose proof (bo_range _ _ _ Hok).
  unfold record_success, m_succeed, machine_of. cbn [m_cycle m_phase].
  destruct (generation st =? cg_generation c) eqn:Hg; cbn [negb]; bool_to_prop;
    [rewrite bool_decide_true by congruence|by rewrite bool_decide_false by congruence].
  destruct (cg_probe c) eqn:Hp.
  - destruct (probing_phase cfg st calls id h c) as (_ & until & Ho & -> & _); try done.
    unfold machine_of. cbn. by rewrite Ho, wrapping_next by lia.
  - unfold phase_of, machine_of. by rewrite (bo_plain _ _ _ Hok id h c Hid) by (done || congruence).
Qed.

Lemma cancel_follows cfg st calls id h c : breaker_ok cfg st calls -> calls !! id = Some (Calling h c) ->
  machine_of (drop_guard c st) = m_cancel c (machine_of st).
Proof.
  intros Hok Hid. unfold drop_guard, m_cancel, machine_of. cbn [m_phase m_cycle].
  destruct (cg_probe c) eqn:Hp; cbn [andb]; [|by case_match].
  destruct (generation st =? cg_generation c) eqn:Hg; bool_to_prop.
  - destruct (probing_phase cfg st calls id h c) as (_ & until & Ho & -> & _); try done.
    rewrite bool_decide_true by done. unfold phase_of. cbn. by rewrite Ho.
  - rewrite bool_decide_false by congruence. by case_match.
Qed.

(** The first check, and the second, which lets a call through. *)
Lemma check_follows cfg now st calls : breaker_ok cfg st calls ->
  check_available now st = if m_admits now (machine_of st) then Ok (generation st) else Err CIRCUIT_OPEN.
Proof.
  intros Hok. unfold check_available, m_admits, machine_of, phase_of. cbn.
  destruct (open_until st) as [until|] eqn:Ho.
  - destruct (probe_in_flight st); cbn; [done|]. rewrite Z.leb_antisym. by destruct (now <? until).
  - by rewrite (bo_closed _ _ _ Hok Ho).
Qed.

Lemma admit_follows cfg now st calls : breaker_ok cfg st calls ->
  (machine_of (admit_call now st).1, (admit_call now st).2) = m_admit now (machine_of st).
Proof.
  intros Hok. unfold admit_call, m_admit. rewrite (check_follows cfg now st calls Hok).
  unfold m_admits, machine_of, phase_of. cbn [m_phase m_cycle].
  destruct (open_until st) as [until|] eqn:Ho; [|by cbn; rewrite ?Ho].
  destruct (probe_in_flight st) eqn:Hp; [by cbn; rewrite ?Ho, ?Hp|].
  destruct (until <=? now); cbn; by rewrite ?Ho, ?Hp.
Qed.

(** ** Letting a call through *)

Lemma admit_ok cfg now st st' g calls id h g0 : breaker_ok cfg st calls -> calls !! id = Some (Waiting h g0) ->
  admit_call now st = (st', Ok g) ->
  breaker_ok cfg st' (<[id := Calling h g]> calls).
Proof.
  intros Hok Hid. unfold admit_call, check_available.
  destruct (probe_in_flight st) eqn:Hpf; cbn [orb]; [done|].
  destruct (match open_until st with Some until => now <? until | None => false end) eqn:Ho; [done|].
  intros [= <- <-]. destruct Hok as [H1 H2 H3 H4 H5 H6 H7 H8].
  assert (Hno : forall i c, calls !! i = Some c -> ~ probing st c).
  { intros i c Hi Hc. by rewrite (H6 i c Hi Hc) in Hpf. }
  assert (Hnew : forall i c, <[id := Calling h (mkGuard (generation st) (bool_decide (is_Some (open_until st))))]> calls !! i
    = Some c -> probing st c -> i = id /\ is_Some (open_until st)).
  { intros i c [[<- <-]|[_ Hi]]%lookup_insert_Some Hc; [|by destruct (Hno i c)].
    destruct Hc as [_ Hc]. cbn in Hc. by bool_to_prop. }
  split; cbn; try done.
  - intros i c [[<- <-]|[_ Hi]]%lookup_insert_Some; [cbn; lia|by apply (H2 i)].
  - intros ->. done.
  - intros Hs. exists id. eexists. rewrite lookup_insert_eq. split; [done|by split].
  - intros i c Hi Hc. destruct (Hnew i c Hi Hc) as [_ Hs]. by apply bool_decide_eq_true.
  - intros i c i' c' Hi Hi' Hc Hc'. destruct (Hnew i c Hi Hc) as [-> _], (Hnew i' c' Hi' Hc') as [-> _]. done.
  - intros i h' g' [[<- [= _ <-]]|[_ Hi]]%lookup_insert_Some; cbn; [|by apply (H8 i h')].
    intros _ Hs%bool_decide_eq_false. by apply eq_None_not_Some.
Qed.

(** ** The world *)

Definition not_settled (d : PaymentDetails) : Prop := pd_status d <> Settled.

(** What an answer may be: an error, a payment that is not settled, or the
    backend's own answer. *)
Definition guarded (backend : string -> result string PaymentDetails) (hash : string)
    (r : result string PaymentDetails) : Prop :=
  (exists e, r = Err e) \/ (exists d, r = Ok d /\ not_settled d) \/ r = backend hash.

Record cache_ok (cfg : CircuitBreakerConfig) (cache : gmap string NegEntry) : Prop := {
  ch_negative : map_Forall (fun _ e => not_settled (ne_details e)) cache;
  ch_bounded : (size cache <= negative_cache_cap cfg)%nat
}.

Record world_ok (cfg : CircuitBreakerConfig) (backend : string -> result string PaymentDetails) (w : world) : Prop := {
  wo_breaker : breaker_ok cfg (br_state (w_breaker w)) (w_calls w);
  wo_cache : cache_ok cfg (br_cache (w_breaker w));
  wo_slots : (size (holders w) <= permits cfg)%nat;
  wo_log : Forall (fun '(h, r) => guarded backend h r) (w_log w)
}.

Lemma cache_get_ok cfg hash now cache cache' o : cache_ok cfg cache -> neg_cache_get cfg hash now cache = (cache', o) ->
  cache_ok cfg cache' /\ forall d, o = Some d -> not_settled d.
Proof.
  intros [Hn Hb]. unfold neg_cache_get. destruct (cache !! hash) as [e|] eqn:He; [|intros [= <- <-]; by split].
  destruct (still_cached cfg now e); intros [= <- <-].
  - split; [by split|]. intros d [= <-]. exact (Hn _ _ He).
  - split; [|done]. split; [by apply map_Forall_delete|]. rewrite map_size_delete, He. cbn. lia.
Qed.

Lemma cache_put_ok cfg hash d now cache : cache_ok cfg cache -> cache_ok cfg (neg_cache_put cfg hash d now cache).
Proof.
  intros Hok. unfold neg_cache_put. destruct (bool_decide (pd_status d = Settled)) eqn:Hd; [done|]. bool_to_prop.
  set (kept := if (negative_cache_cap cfg <=? size cache)%nat then _ else cache).
  assert (Hk : cache_ok cfg kept).
  { unfold kept. case_match; [|done]. destruct Hok as [Hn Hb]. split.
    - intros h e [He _]%map_lookup_filter_Some. exact (Hn _ _ He).
    - etransitivity; [apply map_size_filter|done]. }
  destruct (negative_cache_cap cfg <=? size kept)%nat eqn:Hc; [done|]. apply Nat.leb_gt in Hc.
  destruct Hk as [Hn Hb]. split; [by apply map_Forall_insert_2|].
  destruct (kept !! hash) as [e|] eqn:He; [rewrite map_size_insert_Some by (by rewrite He)|rewrite map_size_insert_None by done]; lia.
Qed.

Lemma holders_delete id (calls : gmap nat call) :
  (size (filter (fun '(_, c) => is_calling c) (delete id calls)) <= size (filter (fun '(_, c) => is_calling c) calls))%nat.
Proof. apply map_subseteq_size. rewrite map_filter_delete. apply delete_subseteq. Qed.

Section World.
Variables (cfg : CircuitBreakerConfig) (backend : string -> result string PaymentDetails).
Hypothesis threshold_u32 : failure_threshold cfg <= U32_MAX.

Lemma answered_ok id hash now r b w : world_ok cfg backend w ->
  breaker_ok cfg (br_state b) (delete id (w_calls w)) -> cache_ok cfg (br_cache b) -> guarded backend hash r ->
  world_ok cfg backend (answered id hash now r b w).
Proof.
  intros [_ _ Hs Hl] Hb Hc Hr. split; try done.
  - etransitivity; [apply holders_delete|exact Hs].
  - cbn. apply Forall_app. split; [done|]. by apply Forall_singleton.
Qed.

Definition state_of (w : world) : BreakerState := br_state (w_breaker w).

Lemma waiting_leaves id h g w : world_ok cfg backend w -> w_calls w !! id = Some (Waiting h g) ->
  breaker_ok cfg (state_of w) (delete id (w_calls w)).
Proof. intros Hw Hid. eapply leave_ok; [apply Hw|done|]. by intros []. Qed.

Lemma start_good id hash t1 t2 w : world_ok cfg backend w -> w_calls w !! id = None ->
  world_ok cfg backend (started cfg id hash t1 t2 w).
Proof.
  intros Hw Hid. unfold started, status_begin. destruct (check_available t1 _) as [g|e] eqn:Ha.
  2: { apply answered_ok; try apply Hw; [|by left; eauto]. rewrite delete_id by done. apply Hw. }
  destruct (neg_cache_get cfg hash t2 _) as [cache o] eqn:Hg.
  destruct (cache_get_ok _ _ _ _ _ _ (wo_cache _ _ _ Hw) Hg) as [Hc Hd]. destruct o as [d|].
  { apply answered_ok; try done; [|right; left; eauto]. rewrite delete_id by done. apply Hw. }
  destruct Hw as [Hb _ Hs Hl]. split; try done; cbn in *.
  - assert (Hgen : g = generation (br_state (w_breaker w))).
    { unfold check_available in Ha. case_match; [done|]. by injection Ha. }
    subst g. destruct Hb as [H1 H2 H3 H4 H5 H6 H7 H8].
    assert (Hold : forall i c, <[id := Waiting hash (generation (br_state (w_breaker w)))]> (w_calls w) !! i = Some c ->
      probing (br_state (w_breaker w)) c -> w_calls w !! i = Some c).
    { intros i c [[<- <-]|[_ Hi]]%lookup_insert_Some; [by intros []|done]. }
    split; try done.
    + intros i c [[<- <-]|[_ Hi]]%lookup_insert_Some; [cbn; lia|by apply (H2 i)].
    + intros Hp. destruct (H5 Hp) as (i & c & Hi & Hc'). exists i, c. split; [|done].
      rewrite lookup_insert_ne; [done|]. intros ->. by rewrite Hid in Hi.
    + intros i c Hi Hc'. eapply H6; [by eapply Hold|done].
    + intros i c i' c' Hi Hi' Hc1 Hc2. eapply (H7 i c i' c'); by eauto.
    + intros i h g [[_ ?]|[_ Hi]]%lookup_insert_Some; [done|by apply (H8 i h)].
  - unfold holders. cbn. rewrite map_filter_insert_False by (by intros []).
    etransitivity; [apply holders_delete|exact Hs].
Qed.

Lemma no_slot_good id hash g now w : world_ok cfg backend w -> w_calls w !! id = Some (Waiting hash g) ->
  generation (state_of w) < U64_MAX ->
  world_ok cfg backend (let '(b, r) := status_no_slot cfg g now (w_breaker w) in answered id hash now r b w).
Proof.
  intros Hw Hid Hmax. cbn. apply answered_ok; try apply Hw; try done; [|by left; eauto].
  apply failure_ok; try done. by eapply waiting_leaves.
Qed.

Lemma admit_good id hash g now w : world_ok cfg backend w -> w_calls w !! id = Some (Waiting hash g) ->
  (size (holders w) < permits cfg)%nat -> world_ok cfg backend (admitted id hash now w).
Proof.
  intros Hw Hid Hfree. unfold admitted, status_admit. destruct (admit_call now _) as [st [c|e]] eqn:Ha.
  - pose proof (admit_ok cfg now _ _ _ _ _ _ _ (wo_breaker _ _ _ Hw) Hid Ha) as Hb.
    split; try done; try apply Hw. unfold holders. cbn [w_calls]. rewrite map_filter_insert_True by done.
    rewrite map_size_insert. unfold holders in Hfree. case_match; cbn; lia.
  - assert (st = state_of w) as ->.
    { unfold admit_call in Ha. unfold state_of. case_match; by simplify_eq. }
    apply answered_ok; try apply Hw; try done; [by eapply waiting_leaves|by left; eauto].
Qed.

Lemma finish_good id hash c now answer w : world_ok cfg backend w -> w_calls w !! id = Some (Calling hash c) ->
  answer = None \/ answer = Some (backend hash) -> generation (state_of w) < U64_MAX ->
  world_ok cfg backend (let '(b, r) := status_finish cfg hash now c answer (w_breaker w) in answered id hash now r b w).
Proof.
  intros Hw Hid Hans Hmax. pose proof (wo_breaker _ _ _ Hw) as Hb.
  assert (Hfail : forall e, world_ok cfg backend (answered id hash now (Err e)
    (mkShared (drop_guard c (record_failure cfg now (cg_generation c) (cg_probe c) (state_of w)))
       (br_cache (w_breaker w))) w)).
  { intros e. apply answered_ok; try apply Hw; try done; [|by left; eauto].
    eapply cancel_ok; [by apply failure_ok|done]. }
  unfold status_finish. destruct answer as [[d|e]|]; [|apply Hfail..].
  assert (Hd : backend hash = Ok d) by (destruct Hans; by simplify_eq).
  apply answered_ok; try done.
  - eapply cancel_ok; [by apply success_ok|done].
  - cbn. case_match; [by apply cache_put_ok, Hw|apply Hw].
  - right. right. done.
Qed.

Lemma cb_step_good w w' : cb_step cfg backend w w' -> world_ok cfg backend w -> world_ok cfg backend w'.
Proof.
  intros [] Hw.
  - by apply start_good.
  - by eapply no_slot_good.
  - by eapply admit_good.
  - by eapply finish_good.
  - split; cbn; [by eapply waiting_leaves|apply Hw| |apply Hw].
    etransitivity; [apply holders_delete|apply Hw].
  - split; cbn; [by eapply cancel_ok; [apply Hw|]|apply Hw| |apply Hw].
    etransitivity; [apply holders_delete|apply Hw].
Qed.

Lemma new_world_ok now : world_ok cfg backend (new_world now).
Proof.
  split; [apply new_breaker_ok| | |constructor].
  - split; [apply map_Forall_empty|]. cbn. rewrite map_size_empty. lia.
  - unfold holders. cbn. rewrite map_filter_empty, map_size_empty. lia.
Qed.

Lemma breaker_reachable_ok now w : rtc (cb_step cfg backend) (new_world now) w -> world_ok cfg backend w.
Proof.
  intros Hr. pose proof (new_world_ok now) as H0. induction Hr as [|w1 w2 w3 Hs Hr IH]; [done|].
  apply IH. by eapply cb_step_good.
Qed.
End World.

(** ** The gate behind the breaker *)

(** [ln'] answers as the breaker may, in front of [ln]. *)
Record shields (ln ln' : LightningProvider) : Prop := {
  sl_status hash : guarded (get_payment_status ln) hash (get_payment_status ln' hash);
  sl_funding hash : (exists e, is_funding_payment ln' hash = Err e) \/
    is_funding_payment ln' hash = is_funding_payment ln hash
}.

Section Gated.
Context `{Prims} {S : Type} {NS : NonceStore S}.
Variables ln ln' : LightningProvider.
Hypothesis Hsh : shields ln ln'.

(** An answer that shows a settled payment is the backend's. *)
Lemma settled_is_backends hash d : get_payment_status ln' hash = Ok d -> pd_status d = Settled ->
  get_payment_status ln hash = Ok d.
Proof.
  intros Hd Hs. destruct (sl_status _ _ Hsh hash) as [[e He]|[(d' & Hd' & Hn)|He]]; rewrite Hd in *; [done| |done].
  injection Hd' as ->. done.
Qed.

Lemma settlement_shielded e req ours d : verify_settlement e ln' req ours = Ok d -> verify_settlement e ln req ours = Ok d.
Proof.
  unfold verify_settlement. cbn zeta. set (hash := hex_encode _).
  destruct (sl_funding _ _ Hsh hash) as [[e0 ->]| ->]; [done|].
  destruct (is_funding_payment ln hash) as [[]|]; cbn; try done.
  destruct (get_payment_status ln' hash) as [d0|] eqn:Hd; cbn; [|done].
  destruct (bool_decide (pd_status d0 = Settled)) eqn:Hst; [|done]. apply bool_decide_eq_true in Hst as Hst'.
  rewrite (settled_is_backends _ _ Hd Hst'). cbn. rewrite Hst. done.
Qed.

Lemma web_reply_shielded cfg e now s s' b : try_accept_web_service_reply cfg e (Some ln') now s = (s', Ok b) ->
  try_accept_web_service_reply cfg e (Some ln) now s = (s', Ok b).
Proof.
  unfold try_accept_web_service_reply, cbind. destruct (cmap_err _ _ s) as [s1 [[o|]|]]; try done.
  unfold clift. case_match; [|done]. case_match; [done|].
  destruct (get_payment_status ln' _) as [d0|] eqn:Hd; cbn [map_err bind_result]; [|done].
  destruct (bool_decide (pd_status d0 = Settled) && _) eqn:Hst; [|done].
  pose proof Hst as [Hst' _]%andb_true_iff. apply bool_decide_eq_true in Hst'.
  rewrite (settled_is_backends _ _ Hd Hst'). cbn [map_err bind_result]. by rewrite Hst.
Qed.

(** Whatever follows a settlement check. *)
Lemma settle_then e req ours {A} (k : PaymentDetails -> comp S GateRejection A) s s' a :
  cbind (clift (verify_settlement e ln' req ours)) k s = (s', Ok a) ->
  cbind (clift (verify_settlement e ln req ours)) k s = (s', Ok a).
Proof.
  unfold cbind, clift. destruct (verify_settlement e ln' req ours) as [d|] eqn:Hd; [|done].
  by rewrite (settlement_shielded _ _ _ _ Hd).
Qed.

(** Sequencing keeps success. *)
Lemma then_shielded {A B} (m m' : comp S GateRejection A) (k k' : A -> comp S GateRejection B) s s' b :
  (forall s1 s2 a, m' s1 = (s2, Ok a) -> m s1 = (s2, Ok a)) ->
  (forall a s1 s2 c, k' a s1 = (s2, Ok c) -> k a s1 = (s2, Ok c)) ->
  cbind m' k' s = (s', Ok b) -> cbind m k s = (s', Ok b).
Proof.
  intros Hm Hk. unfold cbind. destruct (m' s) as [s1 [a|e]] eqn:He; [|done].
  rewrite (Hm _ _ _ He). apply Hk.
Qed.

Lemma price_shielded cfg now e pricing td ours rc s s' u :
  price_and_settle cfg now e pricing (Some ln') td ours rc s = (s', Ok u) ->
  price_and_settle cfg now e pricing (Some ln) td ours rc s = (s', Ok u).
Proof.
  unfold price_and_settle. cbn zeta. apply then_shielded.
  - intros s1 s2 [req checked]. destruct (verify_price _ _ _ _) as [req'|[]]; try done.
    case_match; [done|]. destruct rc; [|done]. case_match; [|done]. apply settle_then.
  - intros [req checked] s1 s2 c. case_match; [|done]. apply settle_then.
Qed.

Lemma verify_shielded cfg now e pricing wl td ours s s' :
  verify cfg now e pricing wl (Some ln') td ours s = (s', Ok tt) ->
  verify cfg now e pricing wl (Some ln) td ours s = (s', Ok tt).
Proof.
  unfold verify. apply then_shielded; [|done]. intros s1 s2 b. unfold validate_paid_envelope_inner.
  apply then_shielded; [done|]. intros _ s3 s4 c. apply then_shielded; [done|]. intros already s5 s6 c'.
  case_match; [done|]. apply then_shielded.
  - intros s7 s8 r. case_match; [apply web_reply_shielded|done].
  - intros bound s7 s8 r. case_match; [done|]. apply then_shielded; [|done]. intros s9 s10 u. apply price_shielded.
Qed.
End Gated.

(** ** The theorems *)

(** C10: the breaker never admits more.  Whatever calls, timeouts, failures and
    cancellations went before, an envelope that the gate admits on the breaker's
    answers is one the gate would admit, with the same effect on the store, on
    the backend's own answers: the cache never serves a settled payment and
    every protection can only turn an answer into a refusal. *)
Theorem breaker_never_admits_more `{Prims} {S : Type} {NS : NonceStore S} bcfg ln ln' cfg now e pricing wl td ours
    (s s' : S) : failure_threshold bcfg <= U32_MAX ->
  (forall hash, exists t0 w, rtc (cb_step bcfg (get_payment_status ln)) (new_world t0) w /\
     (hash, get_payment_status ln' hash) ∈ w_log w) ->
  (forall hash, (exists err, is_funding_payment ln' hash = Err err) \/
     is_funding_payment ln' hash = is_funding_payment ln hash) ->
  verify cfg now e pricing wl (Some ln') td ours s = (s', Ok tt) ->
  verify cfg now e pricing wl (Some ln) td ours s = (s', Ok tt).
Proof.
  intros Hthr Hrun Hfund. apply verify_shielded. split; [|done]. intros hash.
  destruct (Hrun hash) as (t0 & w & Hr & Hin). apply breaker_reachable_ok in Hr; [|done].
  pose proof (wo_log _ _ _ Hr) as Hl. rewrite Forall_forall in Hl. exact (Hl _ Hin).
Qed.

(** Each section of a call, and each cancellation, on the machine: the first
    check and the cache, giving up on a slot, the second check, the backend's
    answer, and a call cancelled while waiting or while at the backend. *)
Record sections_follow (cfg : CircuitBreakerConfig) (w : world) : Prop := {
  sf_begin hash t1 t2 :
    machine_of (br_state (status_begin cfg hash t1 t2 (w_breaker w)).1) = machine_of (state_of w) /\
    ((status_begin cfg hash t1 t2 (w_breaker w)).2 = inl (Err CIRCUIT_OPEN) <->
       m_admits t1 (machine_of (state_of w)) = false) /\
    (forall g, (status_begin cfg hash t1 t2 (w_breaker w)).2 = inr g -> g = m_cycle (machine_of (state_of w)));
  sf_no_slot g now : generation (state_of w) < U64_MAX ->
    machine_of (br_state (status_no_slot cfg g now (w_breaker w)).1) =
    m_fail cfg now g false (machine_of (state_of w));
  sf_admit now :
    (machine_of (br_state (status_admit now (w_breaker w)).1), (status_admit now (w_breaker w)).2) =
    m_admit now (machine_of (state_of w));
  sf_finish id hash c now answer : w_calls w !! id = Some (Calling hash c) -> generation (state_of w) < U64_MAX ->
    machine_of (br_state (status_finish cfg hash now c answer (w_breaker w)).1) =
    match answer with
    | Some (Ok _) => m_succeed (cg_generation c) (machine_of (state_of w))
    | Some (Err _) | None => m_fail cfg now (cg_generation c) (cg_probe c) (machine_of (state_of w))
    end;
  sf_cancel id hash c : w_calls w !! id = Some (Calling hash c) ->
    machine_of (drop_guard c (state_of w)) = m_cancel c (machine_of (state_of w))
}.

Lemma begin_follows cfg backend w hash t1 t2 : world_ok cfg backend w ->
  let '(b, r) := status_begin cfg hash t1 t2 (w_breaker w) in
  br_state b = state_of w /\
  (r = inl (Err CIRCUIT_OPEN) <-> m_admits t1 (machine_of (state_of w)) = false) /\
  (forall g, r = inr g -> g = generation (state_of w)).
Proof.
  intros Hw. unfold status_begin. unfold state_of.
  rewrite (check_follows cfg t1 _ _ (wo_breaker _ _ _ Hw)).
  destruct (m_admits t1 _); [|by split_and!].
  destruct (neg_cache_get _ _ _ _) as [cache [d|]]; (split_and!; [done|done|]); by intros g [= <-] || by intros g.
Qed.

Lemma finish_follows cfg backend w id hash c now answer : failure_threshold cfg <= U32_MAX ->
  world_ok cfg backend w -> w_calls w !! id = Some (Calling hash c) -> generation (state_of w) < U64_MAX ->
  machine_of (br_state (status_finish cfg hash now c answer (w_breaker w)).1) =
  match answer with
  | Some (Ok _) => m_succeed (cg_generation c) (machine_of (state_of w))
  | Some (Err _) | None => m_fail cfg now (cg_generation c) (cg_probe c) (machine_of (state_of w))
  end.
Proof.
  intros Hthr Hw Hid Hmax. pose proof (wo_breaker _ _ _ Hw) as Hb. fold (state_of w) in Hb.
  assert (Hfail : machine_of (drop_guard c (record_failure cfg now (cg_generation c) (cg_probe c) (state_of w))) =
    m_fail cfg now (cg_generation c) (cg_probe c) (machine_of (state_of w))).
  { erewrite failure_drops by done. eapply failure_follows; try done.
    intros Hp Hg. eapply (bo_probing _ _ _ Hb); [done|by split]. }
  unfold status_finish. destruct answer as [[d|e]|]; cbn; [|exact Hfail..].
  fold (state_of w). erewrite success_drops by done. by eapply success_follows.
Qed.

(** C20: the breaker is the machine it documents.  In every state that calls,
    timeouts, failures and cancellations can reach, each section of a call does
    to the circuit exactly what the machine does: a failure of the current cycle
    counts while the circuit is closed, and the one that reaches the configured
    threshold, like that of the probe, opens it for the cooldown; results of an
    older cycle change nothing; a success clears the count and a probe's closes
    the circuit; a call is refused exactly while the circuit is open in its
    cooldown or half-open; and cancelling the probe lets another be made.  While
    half-open exactly one call of the cycle is at the backend, at most
    [max_concurrent] calls are, and the cache keeps within its cap.  This is for as
    long as the 64-bit cycle number does not wrap. *)
Theorem breaker_refines_its_machine cfg backend t0 w : failure_threshold cfg <= U32_MAX ->
  rtc (cb_step cfg backend) (new_world t0) w ->
  sections_follow cfg w /\
  (forall until, phase_of (state_of w) = HalfOpen until -> exists id c, w_calls w !! id = Some c /\
     probing (state_of w) c /\
     forall id' c', w_calls w !! id' = Some c' -> probing (state_of w) c' -> id' = id) /\
  (size (holders w) <= permits cfg)%nat /\ (size (br_cache (w_breaker w)) <= negative_cache_cap cfg)%nat.
Proof.
  intros Hthr Hw%breaker_reachable_ok; [|done]. pose proof (wo_breaker _ _ _ Hw) as Hb. fold (state_of w) in Hb.
  split_and!; [split| |apply Hw|apply Hw].
  - intros hash t1 t2. pose proof (begin_follows cfg backend w hash t1 t2 Hw) as Hs.
    destruct (status_begin _ _ _ _ _) as [b r], Hs as (Hs & Hr & Hg). cbn. by rewrite Hs.
  - intros g now Hmax. by eapply failure_follows.
  - intros now. pose proof (admit_follows cfg now _ _ Hb) as Ha. unfold status_admit. fold (state_of w).
    by destruct (admit_call now (state_of w)).
  - intros id hash c now answer Hid Hmax. by eapply finish_follows.
  - intros id hash c Hid. by eapply cancel_follows.
  - intros u Hph.
    assert (Hpf : probe_in_flight (state_of w) = true).
    { unfold phase_of in Hph. destruct (open_until _); [|done]. by destruct (probe_in_flight (state_of w)). }
    destruct (bo_probe _ _ _ Hb Hpf) as (id & c & Hid & Hc). exists id, c. split_and!; try done.
    intros id' c' Hid' Hc'. by eapply (bo_single _ _ _ Hb).
Qed.

(** C33: the breaker recovers.  However it got there, once no call is at the
    backend and any cooldown has passed, a new call reaches the backend, and a
    backend that answers it is answered through and closes the circuit: a
    cancelled or lost probe cannot strand it. *)
Theorem breaker_recovers cfg backend t0 w hash d now : failure_threshold cfg <= U32_MAX ->
  rtc (cb_step cfg backend) (new_world t0) w -> holders w = ∅ -> w_now w <= now ->
  (forall until, open_until (state_of w) = Some until -> until <= now) ->
  br_cache (w_breaker w) !! hash = None -> generation (state_of w) < U64_MAX -> backend hash = Ok d ->
  exists w', rtc (cb_step cfg backend) w w' /\ phase_of (state_of w') = Closed 0 /\
    w_log w' = w_log w ++ [(hash, Ok d)].
Proof.
  intros Hthr Hr Hno Hnow Hcool Hcache Hgen Hd. apply breaker_reachable_ok in Hr; [|done].
  destruct w as [[st cache] calls t log]. unfold state_of in *. cbn in *.
  assert (Hpf : probe_in_flight st = false).
  { destruct (probe_in_flight st) eqn:Hp; [|done]. destruct (bo_probe _ _ _ (wo_breaker _ _ _ Hr) Hp) as (id & c & Hid & Hc).
    assert (Hin : holders (mkWorld (mkShared st cache) calls t log) !! id = Some c).
    { apply map_lookup_filter_Some. split; [done|]. by destruct c. }
    by rewrite Hno in Hin. }
  assert (Hav : check_available now st = Ok (generation st)).
  { unfold check_available. rewrite Hpf. destruct (open_until st) as [u|]; cbn; [|done].
    by rewrite (proj2 (Z.ltb_ge _ _)) by (by apply Hcool). }
  set (id := fresh (dom calls)). assert (Hid : calls !! id = None) by (apply not_elem_of_dom, is_fresh).
  set (probe := bool_decide (is_Some (open_until st))).
  eexists. split; [|split].
  - eapply rtc_l; [apply (cb_start _ _ id hash now now); cbn; [lia|done]|].
    unfold started, status_begin, neg_cache_get. cbn [w_breaker br_state br_cache w_calls w_log].
    rewrite Hav, Hcache. cbn [w_breaker br_state br_cache w_calls w_log].
    eapply rtc_l; [apply (cb_admit _ _ id hash (generation st) now); cbn; [lia|apply lookup_insert_eq|]|].
    { unfold holders in *. cbn in *. rewrite map_filter_insert_False by (by intros []).
      rewrite map_filter_delete, Hno, delete_empty, map_size_empty. unfold permits. lia. }
    unfold admitted, status_admit, admit_call. cbn [w_breaker br_state br_cache w_calls w_log]. rewrite Hav.
    apply rtc_once, (cb_finish _ _ id hash (mkGuard (generation st) probe) now (Some (backend hash)));
      cbn; [lia|apply lookup_insert_eq|by right|done].
  - rewrite Hd. cbn. unfold record_success. cbn [generation open_until]. rewrite Z.eqb_refl. cbn [negb].
    unfold drop_guard. cbn. by case_match.
  - rewrite Hd. done.
Qed.

(** ** Runs *)

Lemma lone_call cfg backend hash answer : answer = None \/ answer = Some (backend hash) ->
  exists w, rtc (cb_step cfg backend) (new_world 0) w /\
    w_log w = [(hash, match answer with Some r => r | None => Err TIMED_OUT end)].
Proof.
  intros Ha. eexists. split.
  - eapply rtc_l; [apply (cb_start _ _ 0%nat hash 0 0); cbn; [lia|apply lookup_empty]|].
    unfold started, status_begin, neg_cache_get. cbn [new_world w_breaker br_cache br_state]. rewrite lookup_empty.
    cbn [check_available new_breaker probe_in_flight open_until orb].
    eapply rtc_l; [apply (cb_admit _ _ 0%nat hash 0 0); cbn; [lia|apply lookup_insert_eq|]|].
    { unfold holders. cbn. rewrite map_filter_insert_False by (by intros []).
      rewrite delete_empty, map_filter_empty, map_size_empty. unfold permits. lia. }
    apply rtc_once, (cb_finish _ _ 0%nat hash (mkGuard 0 false) 0 answer);
      cbn; [lia|apply lookup_insert_eq|done|unfold U64_MAX; lia].
  - unfold status_finish. by destruct answer as [[d|e]|].
Qed.

(** The backend is too slow for every payment but one. *)
Definition slow_lightning : LightningProvider :=
  mkLightning (fun _ => Ok false)
    (fun h => if bool_decide (h = @hex_encode toy_prims (payment_hash sample_proof))
              then Ok sample_details else Err TIMED_OUT).

#[local] Existing Instance toy_prims.

Lemma breaker_never_admits_more_witness :
  exists db', verify strict_config 1700000000500 sample (flat_pricing 4000) (Some {[alice]})
    (Some sample_lightning) F64.zero (Some bob) fresh_db = (db', Ok tt).
Proof.
  eexists. refine (breaker_never_admits_more CircuitBreakerConfig_default sample_lightning slow_lightning
    strict_config 1700000000500 sample (flat_pricing 4000) (Some {[alice]}) F64.zero (Some bob) fresh_db _ _ _ _ _).
  - unfold CircuitBreakerConfig_default, U32_MAX. cbn. lia.
  - intros hash. exists 0.
    destruct (lone_call CircuitBreakerConfig_default (get_payment_status sample_lightning) hash
      (if bool_decide (hash = @hex_encode toy_prims (payment_hash sample_proof)) then Some (Ok sample_details) else None))
      as (w & Hr & Hl); [destruct (bool_decide _); auto|].
    exists w. split; [exact Hr|]. rewrite Hl. apply list_elem_of_singleton. f_equal. unfold slow_lightning.
    cbn [get_payment_status]. by destruct (bool_decide _).
  - intros hash. by right.
  - apply run_result. vm_compute. reflexivity.
Defined.

(** The circuit opens at its threshold of one failure, and recovers. *)
Definition brittle : CircuitBreakerConfig := mkBreakerConfig 10 1 100 5 2 4.
Definition settled_backend (_ : string) : result string PaymentDetails := Ok sample_details.

Definition opened : world :=
  let w := admitted 0%nat "a" 1 (started brittle 0%nat "a" 0 1 (new_world 0)) in
  let '(b, r) := status_finish brittle "a" 9 (mkGuard 0 false) None (w_breaker w) in answered 0%nat "a" 9 r b w.

Lemma opened_run : rtc (cb_step brittle settled_backend) (new_world 0) opened.
Proof.
  eapply rtc_l; [apply (cb_start brittle settled_backend 0%nat "a" 0 1); cbn; [lia|reflexivity]|].
  eapply rtc_l; [apply (cb_admit brittle settled_backend 0%nat "a" 0 1); vm_compute; [discriminate|reflexivity|lia]|].
  apply rtc_once. apply (cb_finish brittle settled_backend 0%nat "a" (mkGuard 0 false) 9 None);
    [vm_compute; discriminate|vm_compute; reflexivity|by left|vm_compute; reflexivity].
Qed.

(** The run before its only call fails: that failure opens the circuit. *)
Definition about_to_fail : world := admitted 0%nat "a" 1 (started brittle 0%nat "a" 0 1 (new_world 0)).

Lemma breaker_refines_its_machine_witness :
  machine_of (br_state (status_finish brittle "a" 9 (mkGuard 0 false) None (w_breaker about_to_fail)).1) =
    mkMachine (Open 109) 1 /\ sections_follow brittle opened.
Proof.
  assert (Hr : rtc (cb_step brittle settled_backend) (new_world 0) about_to_fail).
  { eapply rtc_l; [apply (cb_start brittle settled_backend 0%nat "a" 0 1); cbn; [lia|reflexivity]|].
    apply rtc_once. apply (cb_admit brittle settled_backend 0%nat "a" 0 1); vm_compute; [discriminate|reflexivity|lia]. }
  assert (Hthr : failure_threshold brittle <= U32_MAX) by (vm_compute; discriminate).
  destruct (breaker_refines_its_machine brittle settled_backend 0 about_to_fail Hthr Hr) as [Hs _].
  split; [|exact (proj1 (breaker_refines_its_machine brittle settled_backend 0 opened Hthr opened_run))].
  rewrite (sf_finish _ _ Hs 0%nat "a" (mkGuard 0 false) 9 None); vm_compute; reflexivity.
Defined.

Lemma breaker_recovers_witness :
  exists w', rtc (cb_step brittle settled_backend) opened w' /\ phase_of (state_of w') = Closed 0 /\
    w_log w' = w_log opened ++ [("b", Ok sample_details)].
Proof.
  refine (breaker_recovers brittle settled_backend 0 opened "b" sample_details 109 _ opened_run _ _ _ _ _ _).
  - unfold U32_MAX. cbn. lia.
  - vm_compute. reflexivity.
  - vm_compute. discriminate.
  - intros u Hu. vm_compute in Hu. injection Hu as <-. lia.
  - vm_compute. reflexivity.
  - vm_compute. reflexivity.
  - reflexivity.
Defined.
