(* ===== verification/Framing.v ===== *)
(** Length-prefixed frames on a TCP socket
    ([konsensus-message/src/transport/mod.rs], [wire.rs]).

    A socket is what the peer has sent and will send on it ([sk_in], then either
    the end of the stream or a peer that stays silent), what this side has
    written, and how much more the peer's side will take before a write fails.
    [write_noise_message] is the writer with the guard that shuts the socket down
    when a frame is left half written; [read_bounded_message] and
    [read_noise_message] are the two readers, which refuse a declared length
    above their cap before they read any of the payload; [encode_frame] and
    [decode_frame] are the buffer codec around the JSON form of a frame. *)

From stdpp Require Import pretty.
From S2P Require Import Prelude.

Inductive WireError : Type :=
| WireSerialization (s : string)
| FrameTooLarge (size max : Z)
| IncompleteFrame (expected got : Z)
| InvalidFrame (s : string)
| WireIo (s : string).

#[export] Instance WireError_eq_dec : EqDecision WireError.
Proof. solve_decision. Defined.

Definition WireError_to_string (e : WireError) : string :=
  match e with
  | WireSerialization s => "serialization error: " +:+ s
  | FrameTooLarge size max => "frame too large: " +:+ pretty size +:+ " bytes (max " +:+ pretty max +:+ ")"
  | IncompleteFrame expected got =>
      "incomplete frame: expected " +:+ pretty expected +:+ " bytes, got " +:+ pretty got
  | InvalidFrame s => "invalid frame: " +:+ s
  | WireIo s => "io error: " +:+ s
  end.

Definition log_category (e : WireError) : string :=
  match e with
  | WireSerialization _ => "serialization error"
  | FrameTooLarge _ _ => "frame too large"
  | IncompleteFrame _ _ => "incomplete frame"
  | InvalidFrame _ => "invalid frame"
  | WireIo _ => "I/O error"
  end.

Inductive TransportError : Type :=
| NotConnected (s : string)
| ConnectionFailed (s : string)
| WireProtocol (s : string)
| TransportNoise (s : string)
| Rejected (s : string)
| TransportTimeout (s : string)
| TransportOther (s : string).

#[export] Instance TransportError_eq_dec : EqDecision TransportError.
Proof. solve_decision. Defined.

Definition MAX_FRAME_SIZE : Z := 16 * 1024 * 1024.

(** ** Sockets *)

(** What follows the last byte: the peer closed, or it sends nothing more and
    keeps the connection open. *)
Inductive stream_end : Type := Closed | Silent.

Record Socket := mkSocket {
  sk_in : bytes;
  sk_end : stream_end;
  sk_out : bytes;
  sk_room : option nat;
  sk_shut : bool
}.

Definition with_in (i : bytes) (s : Socket) : Socket := mkSocket i (sk_end s) (sk_out s) (sk_room s) (sk_shut s).

(** [read_exact(n)] under the read timeout: a stream that ends early is an
    error at once, one that stays silent when the timeout fires; what had
    arrived is consumed in both cases. *)
Definition read_exact (n : nat) : comp Socket WireError bytes := fun s =>
  if (n <=? length (sk_in s))%nat then (with_in (drop n (sk_in s)) s, Ok (take n (sk_in s)))
  else (with_in [] s, Err (WireIo (match sk_end s with
                                   | Closed => "early eof"
                                   | Silent => "read timed out (slowloris protection)"
                                   end))).

(** [write_all]: all of it, or the part the peer's side took and an error. *)
Definition write_all (data : bytes) : comp Socket WireError unit := fun s =>
  if sk_shut s then (s, Err (WireIo "broken pipe"))
  else match sk_room s with
       | None => (mkSocket (sk_in s) (sk_end s) (sk_out s ++ data) None false, Ok tt)
       | Some room =>
           if (length data <=? room)%nat
           then (mkSocket (sk_in s) (sk_end s) (sk_out s ++ data) (Some (room - length data)%nat) false, Ok tt)
           else (mkSocket (sk_in s) (sk_end s) (sk_out s ++ take room data) (Some 0%nat) false,
                 Err (WireIo "connection reset"))
       end.

Definition shutdown_both (s : Socket) : Socket := mkSocket (sk_in s) (sk_end s) (sk_out s) (sk_room s) true.

(** The guard of [write_noise_message]: dropped before [complete] is set, it
    shuts the socket down. *)
Definition write_guard (m : comp Socket WireError unit) : comp Socket WireError unit := fun s =>
  match m s with
  | (s', Ok tt) => (s', Ok tt)
  | (s', Err e) => (shutdown_both s', Err e)
  end.

Definition write_noise_message (data : bytes) : comp Socket WireError unit :=
  let len := Z.of_nat (length data) in
  if U32_MAX <? len then cthrow (FrameTooLarge len U32_MAX)
  else write_guard (let! _ := write_all (to_be_bytes 4 len) in write_all data).

(** The body both readers share. *)
Definition read_capped (max_len : Z) : comp Socket WireError bytes :=
  let! len_buf := read_exact 4 in
  let len := from_be_bytes len_buf in
  if max_len <? len then cthrow (FrameTooLarge len max_len)
  else read_exact (Z.to_nat len).

Definition read_bounded_message (max_len : Z) : comp Socket WireError bytes := read_capped max_len.

(** The Noise reader allows some overhead for the tags. *)
Definition read_noise_message : comp Socket WireError bytes := read_capped (MAX_FRAME_SIZE + 1024).

(** What [write_noise_message] puts on the wire. *)
Definition framed (data : bytes) : bytes := to_be_bytes 4 (Z.of_nat (length data)) ++ data.
Arguments framed : simpl never.

(** ** The buffer codec

    [to_bytes]/[from_bytes] are the JSON form of a frame: [serde_json] and the
    bounded visitors around it. *)
Section Codec.
Context {F : Type} (to_bytes : F -> result WireError bytes) (from_bytes : bytes -> result WireError F).

Definition encode_frame (frame : F) : result WireError bytes :=
  let? payload := to_bytes frame in
  let len := Z.of_nat (length payload) in
  if MAX_FRAME_SIZE <? len then Err (FrameTooLarge len MAX_FRAME_SIZE)
  else Ok (to_be_bytes 4 len ++ payload).

Definition decode_frame (buf : bytes) : result WireError (option (F * Z)) :=
  if (length buf <? 4)%nat then Ok None
  else
    let len := from_be_bytes (take 4 buf) in
    if MAX_FRAME_SIZE <? len then Err (FrameTooLarge len MAX_FRAME_SIZE)
    else
      let total := 4 + len in
      if Z.of_nat (length buf) <? total then Ok None
      else let? frame := from_bytes (take (Z.to_nat len) (drop 4 buf)) in Ok (Some (frame, total)).
End Codec.

(** ** Lemmas *)

Definition fits_u32 (data : bytes) : Prop := Z.of_nat (length data) <= U32_MAX.

Lemma from_be_bytes_nonneg bs : Forall is_byte bs -> 0 <= from_be_bytes bs.
Proof.
  induction bs as [|b bs IH] using rev_ind; [done|].
  rewrite Forall_app, from_be_bytes_app. intros [Hbs Hb].
  apply Forall_cons in Hb as [[Hb0 Hb1] _]. specialize (IH Hbs). lia.
Qed.

Lemma framed_prefix data rest : fits_u32 data ->
  take 4 (framed data ++ rest) = to_be_bytes 4 (Z.of_nat (length data)) /\
  drop 4 (framed data ++ rest) = data ++ rest /\
  from_be_bytes (to_be_bytes 4 (Z.of_nat (length data))) = Z.of_nat (length data).
Proof.
  intros Hlen. unfold framed. rewrite <- app_assoc. split_and!.
  - by rewrite take_app_length' by (by rewrite length_to_be_bytes).
  - by rewrite drop_app_length' by (by rewrite length_to_be_bytes).
  - apply from_to_be_bytes. unfold fits_u32 in Hlen. solve_int.
Qed.

Lemma length_framed data : length (framed data) = (4 + length data)%nat.
Proof. unfold framed. by rewrite length_app, length_to_be_bytes. Qed.

(** A frame that fits the cap is read back, and exactly its bytes are consumed. *)
Lemma read_capped_framed max data rest s : Z.of_nat (length data) <= max -> max <= U32_MAX ->
  sk_in s = framed data ++ rest -> read_capped max s = (with_in rest s, Ok data).
Proof.
  intros Hmax Hu Hin.
  destruct (framed_prefix data rest) as (Ht & Hd & Hf); [unfold fits_u32; lia|].
  unfold read_capped, cbind, read_exact. rewrite Hin.
  rewrite (proj2 (Nat.leb_le _ _)) by (rewrite length_app, length_framed; lia).
  rewrite Ht, Hd, Hf, (proj2 (Z.ltb_ge _ _)) by lia. cbn.
  rewrite (proj2 (Nat.leb_le _ _)) by (rewrite length_app; lia).
  rewrite Nat2Z.id, take_app_length, drop_app_length. done.
Qed.

(** A reader takes from the socket no more than the prefix and its cap, and
    writes nothing. *)
Lemma read_capped_bounded max s s' r : 0 <= max -> Forall is_byte (sk_in s) -> read_capped max s = (s', r) ->
  exists n, sk_in s' = drop n (sk_in s) /\ s' = with_in (sk_in s') s /\
    match r with
    | Ok m => sk_in s = framed m ++ sk_in s' /\ Z.of_nat (length m) <= max
    | Err (FrameTooLarge len _) => max < len /\ n = 4%nat
    | Err _ => sk_in s' = [] /\ Z.of_nat (length (sk_in s)) < 4 + max
    end.
Proof.
  intros Hmax Hbytes. unfold read_capped, cbind, read_exact.
  destruct (4 <=? length (sk_in s))%nat eqn:E4.
  2:{ intros [= <- <-]. apply Nat.leb_gt in E4. exists (length (sk_in s)). cbn.
      by rewrite drop_all; split_and!; [..|lia]. }
  apply Nat.leb_le in E4.
  pose proof (take_drop 4 (sk_in s)) as Hsplit.
  assert (Hl4 : length (take 4 (sk_in s)) = 4%nat) by (rewrite length_take; lia).
  assert (Hb4 : Forall is_byte (take 4 (sk_in s))) by by apply Forall_take.
  pose proof (to_from_be_bytes _ Hb4) as Hback. rewrite Hl4 in Hback.
  destruct (max <? from_be_bytes (take 4 (sk_in s))) eqn:Em.
  { intros [= <- <-]. apply Z.ltb_lt in Em. exists 4%nat. done. }
  apply Z.ltb_ge in Em. cbn.
  destruct (_ <=? length (drop 4 (sk_in s)))%nat eqn:El.
  - apply Nat.leb_le in El. intros [= <- <-]. cbn. rewrite drop_drop.
    exists (4 + Z.to_nat (from_be_bytes (take 4 (sk_in s))))%nat. split; [done|]. split; [done|].
    assert (0 <= from_be_bytes (take 4 (sk_in s))).
    { apply from_be_bytes_nonneg. done. }
    rewrite length_take, Nat.min_l by lia. rewrite Z2Nat.id by lia. split; [|lia].
    unfold framed. rewrite length_take, Nat.min_l, Z2Nat.id, Hback by lia.
    rewrite <- drop_drop, <- app_assoc, take_drop. by rewrite take_drop.
  - apply Nat.leb_gt in El. intros [= <- <-]. exists (length (sk_in s)). cbn.
    rewrite drop_all. split_and!; try done. rewrite length_drop in El. lia.
Qed.

(** On a socket that takes everything, a frame is written whole. *)
Lemma write_noise_framed data s : fits_u32 data -> sk_room s = None -> sk_shut s = false ->
  write_noise_message data s =
  (mkSocket (sk_in s) (sk_end s) (sk_out s ++ framed data) None false, Ok tt).
Proof.
  unfold fits_u32. intros Hlen Hroom Hshut. unfold write_noise_message.
  rewrite (proj2 (Z.ltb_ge _ _)) by lia. unfold write_guard, cbind, write_all.
  rewrite Hshut, Hroom. cbn. by rewrite <- app_assoc.
Qed.

(** A write never touches the reading side, and only appends; a frame that does
    not go out whole leaves the socket shut. *)
Lemma write_noise_appends data s s' r : write_noise_message data s = (s', r) ->
  sk_in s' = sk_in s /\ sk_end s' = sk_end s /\
  exists sent, sk_out s' = sk_out s ++ sent /\ sent `prefix_of` framed data /\
    match r with
    | Ok _ => sent = framed data
    | Err _ => sk_shut s' = true \/ (sent = [] /\ U32_MAX < Z.of_nat (length data))
    end.
Proof.
  unfold write_noise_message. destruct (U32_MAX <? _) eqn:El.
  { intros [= <- <-]. bool_to_prop. do 2 (split; [done|]). exists []. rewrite app_nil_r.
    split; [done|]. split; [apply prefix_nil|]. by right. }
  unfold write_guard, cbind, write_all, framed. intros H.
  pose proof (length_to_be_bytes 4 (Z.of_nat (length data))) as Hpre.
  revert H Hpre. generalize (to_be_bytes 4 (Z.of_nat (length data))) as pre. intros pre H Hpre.
  destruct (sk_shut s) eqn:Es.
  { simplify_eq/=. do 2 (split; [done|]). exists []. rewrite app_nil_r.
    split; [done|]. split; [apply prefix_nil|by left]. }
  destruct (sk_room s) as [room|]; cycle 1.
  { simplify_eq/=. do 2 (split; [done|]). eexists. by rewrite <- app_assoc. }
  rewrite Hpre in H. destruct (4 <=? room)%nat eqn:E4.
  - cbn in H. destruct (length data <=? _)%nat; simplify_eq/=; (do 2 (split; [done|])).
    + eexists. by rewrite <- app_assoc.
    + eexists. rewrite <- app_assoc. split; [done|]. split; [|by left].
      apply prefix_app, prefix_take.
  - simplify_eq/=. do 2 (split; [done|]). eexists. split; [done|]. split; [|by left].
    apply prefix_app_r, prefix_take.
Qed.

(** Decoding a buffer that starts with an encoded frame gives that frame and
    the number of bytes it took, whatever follows it; decoding any shorter piece
    of it asks for more data and never fails or yields a frame.  So a reader that
    appends what arrives and retries recovers every frame wherever the stream is
    split. *)
Theorem frames_survive_any_split {F : Type} (to_bytes : F -> result WireError bytes)
    (from_bytes : bytes -> result WireError F) (f : F) (b : bytes)
    (Hjson : forall p, to_bytes f = Ok p -> from_bytes p = Ok f)
    (Henc : encode_frame to_bytes f = Ok b) :
  (forall rest, decode_frame from_bytes (b ++ rest) = Ok (Some (f, Z.of_nat (length b)))) /\
  (forall n, (n < length b)%nat -> decode_frame from_bytes (take n b) = Ok None).
Proof.
  unfold encode_frame in Henc. destruct (to_bytes f) as [p|e] eqn:Hp; [|done]. cbn in Henc.
  destruct (MAX_FRAME_SIZE <? Z.of_nat (length p)) eqn:Emax; [done|]. apply Z.ltb_ge in Emax.
  assert (Hb : b = framed p) by by injection Henc as <-. clear Henc. subst b.
  assert (Hfit : fits_u32 p) by (unfold fits_u32, MAX_FRAME_SIZE in *; solve_int).
  rewrite length_framed. split.
  - intros rest. destruct (framed_prefix p rest Hfit) as (Ht & Hd & Hf).
    unfold decode_frame. rewrite Ht, Hd, Hf, (proj2 (Z.ltb_ge _ _) Emax), length_app, length_framed.
    rewrite (proj2 (Nat.ltb_ge _ _)), (proj2 (Z.ltb_ge _ _)) by lia.
    rewrite Nat2Z.id, take_app_length, (Hjson p eq_refl). cbn. do 3 f_equal. lia.
  - intros n Hn. destruct (framed_prefix p [] Hfit) as (Ht & Hd & Hf). rewrite app_nil_r in Ht, Hd.
    unfold decode_frame. rewrite length_take, Nat.min_l by (rewrite length_framed; lia).
    destruct (n <? 4)%nat eqn:En; [done|]. apply Nat.ltb_ge in En.
    rewrite take_take, Nat.min_l, Ht, Hf, (proj2 (Z.ltb_ge _ _) Emax) by lia.
    by rewrite (proj2 (Z.ltb_lt _ _)) by lia.
Qed.

(** Two bytes as the JSON form of a boolean. *)
Lemma frames_survive_any_split_witness :
  encode_frame (fun x : bool => Ok [if x then 1 else 0; 7]) true = Ok [0; 0; 0; 2; 1; 7] /\
  decode_frame (fun p => Ok (bool_decide (head p = Some 1))) [0; 0; 0; 2; 1; 7; 9; 9] = Ok (Some (true, 6)).
Proof.
  split; [reflexivity|].
  apply (proj1 (frames_survive_any_split (fun x : bool => Ok [if x then 1 else 0; 7])
    (fun p => Ok (bool_decide (head p = Some 1))) true [0; 0; 0; 2; 1; 7]
    ltac:(intros p [= <-]; reflexivity) eq_refl) [9; 9]).
Defined.
