(* ===== verification/Cookie.v ===== *)
(** The pre-Noise cookie ([konsensus-message/src/transport/cookie.rs]).

    A node under load makes a caller prove that it receives at its address before
    any Diffie-Hellman is spent on it: it sends a MAC of the caller's address and
    the current epoch, and the caller must echo it.  The keyring holds two
    generations of a random secret and rotates lazily, on the call that first
    sees a new window; a draw of the random generator is an argument of the
    operation that makes it, and the wall clock is an argument too.  HMAC-SHA256
    is the parameter [hmac_sha256].

    The keyring is shared by every connection behind a mutex held for one call,
    so [cookie_gate_responder] lets other connections run any calls of their own
    ([ge_others_issue], [ge_others_answer]) between its own. *)

From S2P Require Import Prelude Framing.

Class HmacPrims := { hmac_sha256 : bytes -> bytes -> bytes }.

(** Documented: the tag is 32 bytes. *)
Class HmacLaws {HP : HmacPrims} : Prop := { hmac_array k m : is_array 32 (hmac_sha256 k m) }.

Definition COOKIE_MAGIC : bytes := [66; 83; 99; 49].
Definition COOKIE_FRAME_LEN : nat := 38.
Definition MAX_PRE_NOISE_FRAME : Z := 64.
Definition COOKIE_EPOCH_SECS : Z := 30.
Definition COOKIE_ROTATE_EPOCHS : Z := 4.
Definition KIND_CHALLENGE : Z := 1.
Definition KIND_RESPONSE : Z := 2.

Inductive CookieMode : Type := CookieDisabled | CookieAdaptive | CookieRequired.

(** The listener's decision: in [Adaptive] a caller that got an optimistic slot
    is let through without a cookie. *)
Definition require_cookie (mode : CookieMode) (optimistic_slot : bool) : bool :=
  match mode with
  | CookieDisabled => false
  | CookieRequired => true
  | CookieAdaptive => negb optimistic_slot
  end.

Inductive IpAddr : Type := V4 (octets : bytes) | V6 (octets : bytes).

Definition ip_octets (ip : IpAddr) : bytes := match ip with V4 o => o | V6 o => o end.
Definition ip_ok (ip : IpAddr) : Prop :=
  match ip with V4 o => is_array 4 o | V6 o => is_array 16 o end.

(** [u64::to_le_bytes]. *)
Definition to_le_bytes (n : nat) (x : Z) : bytes := rev (to_be_bytes n x).

(** ** The keyring *)

Record KeyGenerations := mkKeys {
  kg_window : option Z;
  kg_current : bytes;
  kg_previous : option bytes
}.

Definition keyring_random (fresh : bytes) : KeyGenerations := mkKeys None fresh None.

Definition window_of (epoch : Z) : Z := epoch / COOKIE_ROTATE_EPOCHS.
Definition epoch_of (now_unix : Z) : Z := now_unix / COOKIE_EPOCH_SECS.

(** Advance to the window of [epoch_now]; [fresh] is the secret drawn if one is
    needed.  A clock that stepped back keeps the keys. *)
Definition secrets (epoch_now : Z) (fresh : bytes) (keys : KeyGenerations)
    : KeyGenerations * (bytes * option bytes) :=
  let now_window := window_of epoch_now in
  let keys' :=
    match kg_window keys with
    | None => mkKeys (Some now_window) (kg_current keys) (kg_previous keys)
    | Some w =>
        if now_window =? w + 1 then mkKeys (Some now_window) fresh (Some (kg_current keys))
        else if w + 1 <? now_window then mkKeys (Some now_window) fresh None
        else keys
    end in
  (keys', (kg_current keys', kg_previous keys')).

Record Cookie := mkCookie { ck_epoch : Z; ck_mac : bytes }.

#[export] Instance Cookie_eq_dec : EqDecision Cookie.
Proof. solve_decision. Defined.

(** No early return on the first difference. *)
Definition ct_eq_16 (a b : bytes) : bool :=
  fold_left (fun diff '(x, y) => Z.lor diff (Z.lxor x y)) (zip a b) 0 =? 0.

Section Keyring.
Context {HP : HmacPrims}.

Definition mac (secret : bytes) (ip : IpAddr) (epoch : Z) : bytes :=
  take 16 (hmac_sha256 secret (ip_octets ip ++ to_le_bytes 8 epoch)).

Definition issue (ip : IpAddr) (now_unix : Z) (fresh : bytes) (keys : KeyGenerations)
    : KeyGenerations * Cookie :=
  let epoch := epoch_of now_unix in
  let '(keys', (current, _)) := secrets epoch fresh keys in
  (keys', mkCookie epoch (mac current ip epoch)).

(** The epoch is checked before the keyring is touched. *)
Definition verify (ip : IpAddr) (presented : Cookie) (now_unix : Z) (fresh : bytes) (keys : KeyGenerations)
    : KeyGenerations * bool :=
  let epoch_now := epoch_of now_unix in
  if negb (ck_epoch presented =? epoch_now) && negb ((ck_epoch presented + 1) mod 2 ^ 64 =? epoch_now)
  then (keys, false)
  else
    let '(keys', (current, previous)) := secrets epoch_now fresh keys in
    if ct_eq_16 (mac current ip (ck_epoch presented)) (ck_mac presented) then (keys', true)
    else (keys', match previous with
                 | Some p => ct_eq_16 (mac p ip (ck_epoch presented)) (ck_mac presented)
                 | None => false
                 end).
End Keyring.

(** ** Frames *)

Record CookieFrame := mkFrame {
  cf_kind : Z;
  cf_difficulty : Z;
  cf_cookie : Cookie;
  cf_pow_nonce : Z
}.

#[export] Instance CookieFrame_eq_dec : EqDecision CookieFrame.
Proof. solve_decision. Defined.

Definition challenge (c : Cookie) : CookieFrame := mkFrame KIND_CHALLENGE 0 c 0.
Definition response (c : Cookie) : CookieFrame := mkFrame KIND_RESPONSE 0 c 0.

Definition encode (f : CookieFrame) : bytes :=
  COOKIE_MAGIC ++ [cf_kind f; cf_difficulty f] ++ to_be_bytes 8 (ck_epoch (cf_cookie f)) ++
  ck_mac (cf_cookie f) ++ to_be_bytes 8 (cf_pow_nonce f).

Definition byte_at (i : nat) (bs : bytes) : Z := nth i bs 0.
Definition slice (a b : nat) (bs : bytes) : bytes := take (b - a) (drop a bs).

Definition decode (bs : bytes) : option CookieFrame :=
  if negb (length bs =? COOKIE_FRAME_LEN)%nat || negb (bool_decide (slice 0 4 bs = COOKIE_MAGIC)) then None
  else
    let kind := byte_at 4 bs in
    if negb (kind =? KIND_CHALLENGE) && negb (kind =? KIND_RESPONSE) then None
    else Some (mkFrame kind (byte_at 5 bs)
                 (mkCookie (from_be_bytes (slice 6 14 bs)) (slice 14 30 bs))
                 (from_be_bytes (slice 30 38 bs))).

Definition reserved_is_zero (f : CookieFrame) : bool := (cf_difficulty f =? 0) && (cf_pow_nonce f =? 0).

Definition parse_challenge (bs : bytes) : option CookieFrame :=
  match decode bs with
  | Some f => if cf_kind f =? KIND_CHALLENGE then Some f else None
  | None => None
  end.

(** ** The exchange *)

(** The wall clock at each of the gate's three uses of the keyring, the secret
    it would draw there, and the calls other connections make in between. *)
Record GateEnv := mkGateEnv {
  ge_now_first : Z; ge_fresh_first : bytes;
  ge_others_issue : list (Z * bytes);
  ge_now_issue : Z; ge_fresh_issue : bytes;
  ge_others_answer : list (Z * bytes);
  ge_now_answer : Z; ge_fresh_answer : bytes
}.

(** Calls of other connections, each at its own time with its own draw. *)
Definition others_run (calls : list (Z * bytes)) (keys : KeyGenerations) : KeyGenerations :=
  fold_left (fun k '(now, fresh) => (secrets (epoch_of now) fresh k).1) calls keys.

(** The state of the gate: the shared keyring and this connection's socket. *)
Definition on_socket {A} (m : comp Socket WireError A) : comp (KeyGenerations * Socket) TransportError A :=
  fun '(k, s) => let '(s', r) := m s in ((k, s'), map_err (fun e => TransportOther (WireError_to_string e)) r).
Definition on_keys {A} (m : KeyGenerations -> KeyGenerations * A)
    : comp (KeyGenerations * Socket) TransportError A :=
  fun '(k, s) => let '(k', a) := m k in ((k', s), Ok a).

Section Gate.
Context {HP : HmacPrims}.

(** The fast path: a valid response presented up front. *)
Definition presented_up_front (ip : IpAddr) (now : Z) (fresh : bytes) (first : bytes) (keys : KeyGenerations)
    : KeyGenerations * bool :=
  match decode first with
  | Some frame =>
      if (cf_kind frame =? KIND_RESPONSE) && reserved_is_zero frame
      then verify ip (cf_cookie frame) now fresh keys
      else (keys, false)
  | None => (keys, false)
  end.

Definition gate_answer (e : GateEnv) (ip : IpAddr) (answer : bytes)
    : comp (KeyGenerations * Socket) TransportError unit :=
  let! frame := clift (ok_or (match decode answer with
                              | Some f => if cf_kind f =? KIND_RESPONSE then Some f else None
                              | None => None
                              end) (Rejected "malformed cookie response")) in
  if negb (reserved_is_zero frame)
  then cthrow (Rejected "cookie response sets a reserved field (difficulty/pow_nonce) this build does not implement")
  else
    let! ok := on_keys (verify ip (cf_cookie frame) (ge_now_answer e) (ge_fresh_answer e)) in
    if ok : bool then cret tt
    else cthrow (Rejected "invalid pre-Noise cookie (spoofed or stale source)").

Definition cookie_gate_responder (e : GateEnv) (ip : IpAddr)
    : comp (KeyGenerations * Socket) TransportError unit :=
  let! first := on_socket (read_bounded_message MAX_PRE_NOISE_FRAME) in
  let! early := on_keys (presented_up_front ip (ge_now_first e) (ge_fresh_first e) first) in
  if early : bool then cret tt
  else
    let! _ := on_keys (fun k => (others_run (ge_others_issue e) k, tt)) in
    let! c := on_keys (issue ip (ge_now_issue e) (ge_fresh_issue e)) in
    let! _ := on_socket (write_noise_message (encode (challenge c))) in
    let! answer := on_socket (read_bounded_message MAX_PRE_NOISE_FRAME) in
    let! _ := on_keys (fun k => (others_run (ge_others_answer e) k, tt)) in
    gate_answer e ip answer.
End Gate.

Definition answer_challenge (c : CookieFrame) : comp Socket TransportError unit :=
  if negb (cf_difficulty c =? 0)
  then cthrow (Rejected "cookie challenge demands proof-of-work, which this build does not implement")
  else cmap_err (fun e => TransportOther (WireError_to_string e)) (write_noise_message (encode (response (cf_cookie c)))).
