(* ===== verification/CookieProps.v ===== *)
(** What the pre-Noise cookie guarantees: its frames are recognised from their
    bytes alone, an honest caller always gets through, only the source a cookie
    was made for gets through, and a secret that leaked is soon worth nothing. *)

From S2P Require Import Prelude Framing Cookie.

(** ** Frames *)

Record cookie_ok (c : Cookie) : Prop := { co_epoch : is_u64 (ck_epoch c); co_mac : is_array 16 (ck_mac c) }.

Record frame_ok (f : CookieFrame) : Prop := {
  fo_kind : cf_kind f = KIND_CHALLENGE \/ cf_kind f = KIND_RESPONSE;
  fo_difficulty : is_byte (cf_difficulty f);
  fo_cookie : cookie_ok (cf_cookie f);
  fo_nonce : is_u64 (cf_pow_nonce f)
}.

Lemma length_encode f : cookie_ok (cf_cookie f) -> length (encode f) = COOKIE_FRAME_LEN.
Proof. intros [_ [Hl _]]. unfold encode. by rewrite !length_app, Hl, !length_to_be_bytes. Qed.

Lemma slice_middle a b (pre mid post : bytes) : length pre = a -> (length mid = b - a)%nat ->
  slice a b (pre ++ mid ++ post) = mid.
Proof.
  intros Ha Hb. unfold slice. rewrite drop_app_length' by done. by rewrite take_app_length' by done.
Qed.

(** Cutting a frame at its field boundaries. *)
Lemma decode_fields kind difficulty epoch tag nonce :
  length epoch = 8%nat -> length tag = 16%nat -> length nonce = 8%nat ->
  decode (COOKIE_MAGIC ++ [kind; difficulty] ++ epoch ++ tag ++ nonce) =
  if negb (kind =? KIND_CHALLENGE) && negb (kind =? KIND_RESPONSE) then None
  else Some (mkFrame kind difficulty (mkCookie (from_be_bytes epoch) tag) (from_be_bytes nonce)).
Proof.
  intros He Ht Hn. set (bs := COOKIE_MAGIC ++ _).
  assert (Hl : length bs = COOKIE_FRAME_LEN) by (unfold bs; rewrite !length_app, He, Ht, Hn; reflexivity).
  assert (H1 : slice 0 4 bs = COOKIE_MAGIC) by by apply (slice_middle 0 4 [] COOKIE_MAGIC).
  assert (H2 : slice 6 14 bs = epoch) by by apply (slice_middle 6 14 (COOKIE_MAGIC ++ [kind; difficulty])).
  assert (H3 : slice 14 30 bs = tag).
  { unfold bs. rewrite 2!app_assoc. apply slice_middle; [|done]. rewrite !length_app, He. done. }
  assert (H4 : slice 30 38 bs = nonce).
  { unfold bs. rewrite 3!app_assoc, <- (app_nil_r nonce) at 1.
    apply slice_middle; [|done]. rewrite !length_app, He, Ht. done. }
  assert (H5 : byte_at 4 bs = kind) by done. assert (H6 : byte_at 5 bs = difficulty) by done.
  unfold decode. rewrite H1, H2, H3, H4, H5, H6, Hl, Nat.eqb_refl, (bool_decide_eq_true_2 _ eq_refl).
  done.
Qed.

Lemma decode_encode f : frame_ok f -> decode (encode f) = Some f.
Proof.
  intros [Hk Hd [He [Hm _]] Hn]. unfold encode.
  rewrite decode_fields by (by rewrite ?length_to_be_bytes).
  replace (negb _ && negb _) with false by (destruct Hk as [-> | ->]; reflexivity).
  rewrite !from_to_be_bytes by solve_int. destruct f as [? ? [? ?] ?]. done.
Qed.

Lemma split_frame (bs : bytes) : length bs = COOKIE_FRAME_LEN -> take 4 bs = COOKIE_MAGIC ->
  exists kind difficulty epoch tag nonce,
    bs = COOKIE_MAGIC ++ [kind; difficulty] ++ epoch ++ tag ++ nonce /\
    length epoch = 8%nat /\ length tag = 16%nat /\ length nonce = 8%nat.
Proof.
  intros Hl Hm. rewrite <- (take_drop 4 bs), Hm.
  assert (Hd : length (drop 4 bs) = 34%nat) by by rewrite length_drop, Hl.
  destruct (drop 4 bs) as [|kind [|difficulty tl]]; [done..|]. injection Hd as Hd.
  exists kind, difficulty, (take 8 tl), (take 16 (drop 8 tl)), (drop 16 (drop 8 tl)).
  rewrite take_drop, take_drop. split; [done|].
  rewrite !length_take, !length_drop, Hd. done.
Qed.

Lemma be_u64 bs : length bs = 8%nat -> Forall is_byte bs -> is_u64 (from_be_bytes bs).
Proof.
  intros Hl Hb. split; [by apply from_be_bytes_nonneg|].
  do 8 (destruct bs as [|? bs]; [cbn in Hl; lia|]). destruct bs; [|cbn in Hl; lia].
  repeat (apply Forall_cons in Hb as [? Hb]). unfold is_byte, U64_MAX, from_be_bytes in *. cbn. lia.
Qed.

Lemma encode_decode bs f : Forall is_byte bs -> decode bs = Some f -> frame_ok f /\ encode f = bs.
Proof.
  intros Hb Hd. assert (Hd' := Hd). unfold decode in Hd'.
  destruct (length bs =? COOKIE_FRAME_LEN)%nat eqn:El; [|done]. cbn [negb orb] in Hd'.
  destruct (bool_decide (slice 0 4 bs = COOKIE_MAGIC)) eqn:Em; [|done]. clear Hd'.
  apply Nat.eqb_eq in El. apply bool_decide_eq_true in Em.
  change (take 4 bs = COOKIE_MAGIC) in Em.
  destruct (split_frame bs El Em) as (kind & difficulty & epoch & tag & nonce & -> & He & Ht & Hn).
  rewrite decode_fields in Hd by done.
  apply Forall_app in Hb as [_ Hb]. apply Forall_app in Hb as [Hkd Hb].
  apply Forall_app in Hb as [Hbe Hb]. apply Forall_app in Hb as [Hbt Hbn].
  apply Forall_cons in Hkd as [_ Hkd]. apply Forall_cons in Hkd as [Hdiff _].
  destruct (kind =? KIND_CHALLENGE) eqn:E1; cbn in Hd;
    [|destruct (kind =? KIND_RESPONSE) eqn:E2; [|done]]; cbn in Hd;
    injection Hd as <-; bool_to_prop;
    (split; [split; cbn; auto using be_u64; split; cbn; auto using be_u64; by split|]);
    unfold encode; cbn [cf_kind cf_difficulty cf_cookie cf_pow_nonce ck_epoch ck_mac];
    rewrite <- He at 1; rewrite to_from_be_bytes by done;
    rewrite <- Hn at 1; by rewrite to_from_be_bytes.
Qed.

(** ** Tags *)

Lemma ct_eq_fold l d : fold_left (fun diff '(x, y) => Z.lor diff (Z.lxor x y)) l d = 0 <->
  d = 0 /\ Forall (fun p => p.1 = p.2) l.
Proof.
  revert d. induction l as [|[x y] l IH]; intros d; cbn.
  { split; [intros ->; by split|by intros [-> _]]. }
  rewrite IH, Forall_cons, Z.lor_eq_0_iff, Z.lxor_eq_0_iff. cbn. tauto.
Qed.

Lemma ct_eq_16_iff a b : length a = length b -> ct_eq_16 a b = true <-> a = b.
Proof.
  intros Hlen. unfold ct_eq_16. rewrite Z.eqb_eq, ct_eq_fold. split.
  - intros [_ HF]. revert b Hlen HF. induction a as [|x a IH]; intros [|y b] Hlen HF; try done.
    apply Forall_cons in HF as [Hxy HF]. cbn in Hxy. subst. f_equal. apply IH; [|done]. by injection Hlen.
  - intros ->. split; [done|]. clear. induction b; constructor; auto.
Qed.

Lemma mac_array `{HmacLaws} secret ip epoch : is_array 16 (mac secret ip epoch).
Proof.
  unfold mac. destruct (hmac_array secret (ip_octets ip ++ to_le_bytes 8 epoch)) as [Hl Hb].
  split; [rewrite length_take, Hl; reflexivity|by apply Forall_take].
Qed.

(** ** Keys *)

Definition live (k : KeyGenerations) (key : bytes) : Prop := kg_current k = key \/ kg_previous k = Some key.

Lemma secrets_run epoch fresh k : exists k', secrets epoch fresh k = (k', (kg_current k', kg_previous k')).
Proof. eexists. reflexivity. Qed.

Lemma issue_run `{HmacPrims} ip now fresh k :
  issue ip now fresh k =
  ((secrets (epoch_of now) fresh k).1,
   mkCookie (epoch_of now) (mac (kg_current (secrets (epoch_of now) fresh k).1) ip (epoch_of now))).
Proof.
  unfold issue. destruct (secrets_run (epoch_of now) fresh k) as [k' ->]. done.
Qed.

Lemma issued_ok `{HmacLaws} ip now fresh k : is_u64 now -> cookie_ok (issue ip now fresh k).2.
Proof.
  intros Hnow. rewrite issue_run. split; [|apply mac_array].
  unfold epoch_of, COOKIE_EPOCH_SECS. cbn. pose proof (Z.div_mod now 30).
  pose proof (Z.mod_pos_bound now 30). solve_int.
Qed.

(** A wall clock past the first epoch of 1970, so that no epoch wraps. *)
Definition clock (now : Z) : Prop := COOKIE_EPOCH_SECS <= now <= U64_MAX.

Lemma clock_epoch now : clock now -> 1 <= epoch_of now < U64_MAX.
Proof.
  unfold clock, epoch_of, COOKIE_EPOCH_SECS, U64_MAX. intros Hnow.
  pose proof (Z.div_mod now 30). pose proof (Z.mod_pos_bound now 30). lia.
Qed.

(** A cookie is in date when its epoch is the current one or the one before. *)
Definition in_date (epoch now : Z) : Prop := epoch = epoch_of now \/ epoch + 1 = epoch_of now.

Lemma in_date_test epoch now : clock now -> is_u64 epoch ->
  negb (epoch =? epoch_of now) && negb ((epoch + 1) mod 2 ^ 64 =? epoch_of now) = false <-> in_date epoch now.
Proof.
  intros Hnow He. apply clock_epoch in Hnow. unfold in_date.
  rewrite andb_false_iff, !negb_false_iff, !Z.eqb_eq.
  destruct (decide (epoch = U64_MAX)) as [->|Hne].
  - change ((U64_MAX + 1) mod 2 ^ 64) with 0. lia.
  - rewrite (Z.mod_small (epoch + 1)) by solve_int. done.
Qed.

Lemma verify_iff `{HmacLaws} ip c now fresh k : cookie_ok c -> clock now ->
  (verify ip c now fresh k).2 = true <->
  in_date (ck_epoch c) now /\
  exists key, live (secrets (epoch_of now) fresh k).1 key /\ ck_mac c = mac key ip (ck_epoch c).
Proof.
  intros [He [Hl _]] Hnow. rewrite <- (in_date_test _ _ Hnow He). unfold verify.
  destruct (negb _ && negb _); [by split; [|intros [? _]]|].
  destruct (secrets_run (epoch_of now) fresh k) as [k' ->]. cbn [fst].
  assert (Heq : forall key, ct_eq_16 (mac key ip (ck_epoch c)) (ck_mac c) = true <-> ck_mac c = mac key ip (ck_epoch c)).
  { intros key. rewrite ct_eq_16_iff by (by rewrite Hl, (proj1 (mac_array _ _ _))). split; congruence. }
  unfold live. destruct (ct_eq_16 (mac (kg_current k') _ _) _) eqn:E1.
  { apply Heq in E1. split; [|done]. intros _. split; [done|]. eexists. split; [by left|done]. }
  cbn [snd]. destruct (kg_previous k') as [p|]; [rewrite (Heq p)|].
  - split.
    + intros E2. split; [done|]. exists p. split; [by right|done].
    + intros [_ (key & [<- | [= ->]] & Hm)]; [|done]. apply Heq in Hm. congruence.
  - split; [done|]. intros [_ (key & [<- | [=]] & Hm)]. apply Heq in Hm. congruence.
Qed.

Lemma verify_keys `{HmacPrims} ip c now fresh k : (verify ip c now fresh k).2 = true ->
  (verify ip c now fresh k).1 = (secrets (epoch_of now) fresh k).1.
Proof.
  unfold verify. destruct (negb _ && negb _); [done|].
  destruct (secrets_run (epoch_of now) fresh k) as [k' ->]. by destruct (ct_eq_16 _ _).
Qed.

(** ** Rotation *)

Definition window_at (now : Z) : Z := window_of (epoch_of now).

(** A secret that was current in window [w] is still held as long as the clock
    has not passed window [w + 1]. *)
Definition holds (w : Z) (key : bytes) (k : KeyGenerations) : Prop :=
  exists w', kg_window k = Some w' /\ w <= w' /\
    (kg_current k = key \/ (kg_previous k = Some key /\ w + 1 <= w')).

Lemma secrets_holds epoch fresh k : holds (window_of epoch) (kg_current (secrets epoch fresh k).1) (secrets epoch fresh k).1.
Proof.
  unfold holds, secrets. destruct k as [[w|] cur prev]; cbn; [|eexists; split_and!; eauto; lia].
  destruct (window_of epoch =? w + 1) eqn:E1; [eexists; split_and!; eauto; lia|].
  destruct (w + 1 <? window_of epoch) eqn:E2; [eexists; split_and!; eauto; lia|].
  bool_to_prop. eexists; split_and!; [done| |by left]. lia.
Qed.

Lemma holds_step w key k epoch fresh : holds w key k -> window_of epoch <= w + 1 ->
  holds w key (secrets epoch fresh k).1.
Proof.
  intros (w' & Hw' & Hle & Hkey) Hepoch. unfold holds, secrets. rewrite Hw'. cbn.
  destruct (window_of epoch =? w' + 1) eqn:E1; bool_to_prop.
  { destruct Hkey as [<- | [_ Hlt]]; [|lia]. eexists. split; [done|]. split; [lia|]. right. split; [done|lia]. }
  destruct (w' + 1 <? window_of epoch) eqn:E2; bool_to_prop; [lia|]. eauto.
Qed.

Lemma holds_others w key calls k : holds w key k -> Forall (fun c => window_at c.1 <= w + 1) calls ->
  holds w key (others_run calls k).
Proof.
  revert k. induction calls as [|[now fresh] calls IH]; intros k Hk Hc; [done|].
  apply Forall_cons in Hc as [Hc Hcs]. cbn. apply IH; [|done]. by apply holds_step.
Qed.

Lemma holds_live w key k : holds w key k -> live k key.
Proof. intros (w' & _ & _ & [? | [? _]]); [by left|by right]. Qed.

(** Past two windows, everything the keyring holds was drawn since. *)
Definition renewed (w : Z) (drawn : list bytes) (k : KeyGenerations) : Prop :=
  exists w', kg_window k = Some w' /\ w <= w' /\
    (w + 1 <= w' -> kg_current k ∈ drawn) /\
    (w + 2 <= w' -> forall p, kg_previous k = Some p -> p ∈ drawn).

Lemma renewed_step w drawn k epoch fresh : renewed w drawn k ->
  renewed w (fresh :: drawn) (secrets epoch fresh k).1.
Proof.
  intros (w' & Hw' & Hle & Hcur & Hprev). unfold renewed, secrets. rewrite Hw'. cbn.
  destruct (window_of epoch =? w' + 1) eqn:E1; bool_to_prop; cbn.
  { eexists. split_and!; [done|lia|by left|]. intros Hlt p [= <-]. right. apply Hcur. lia. }
  destruct (w' + 1 <? window_of epoch) eqn:E2; bool_to_prop; cbn.
  { eexists. split_and!; [done|lia|by left|done]. }
  exists w'. split_and!; [done|done|intros; right; auto|]. intros ? p Hp. right. eauto.
Qed.

Lemma renewed_weaken w d d' k : renewed w d k -> d ⊆ d' -> renewed w d' k.
Proof. intros (w' & ? & ? & Hc & Hp) Hsub. exists w'. split_and!; eauto. Qed.

Lemma renewed_others w calls k drawn : renewed w drawn k ->
  renewed w (rev calls.*2 ++ drawn) (others_run calls k).
Proof.
  revert k drawn. induction calls as [|[now fresh] calls IH]; intros k drawn Hk; [done|].
  cbn. rewrite <- app_assoc. cbn. apply (IH _ (fresh :: drawn)). by apply renewed_step.
Qed.

(** ** The gate *)

(** A socket whose peer takes everything it is sent. *)
Definition open_socket (i : bytes) (fin : stream_end) (o : bytes) : Socket := mkSocket i fin o None false.

Lemma pre_noise_cap : 0 <= MAX_PRE_NOISE_FRAME /\ MAX_PRE_NOISE_FRAME <= U32_MAX.
Proof. done. Qed.

Lemma gate_reads k s m rest : Z.of_nat (length m) <= MAX_PRE_NOISE_FRAME -> sk_in s = framed m ++ rest ->
  on_socket (read_bounded_message MAX_PRE_NOISE_FRAME) (k, s) = ((k, with_in rest s), Ok m).
Proof.
  intros Hl Hin. unfold on_socket, read_bounded_message.
  by rewrite (read_capped_framed MAX_PRE_NOISE_FRAME m rest s Hl (proj2 pre_noise_cap) Hin).
Qed.

Lemma gate_read_inv k s st m : Forall is_byte (sk_in s) ->
  on_socket (read_bounded_message MAX_PRE_NOISE_FRAME) (k, s) = (st, Ok m) ->
  exists s', st = (k, s') /\ s' = with_in (sk_in s') s /\ sk_in s = framed m ++ sk_in s' /\
    Z.of_nat (length m) <= MAX_PRE_NOISE_FRAME.
Proof.
  intros Hb. unfold on_socket, read_bounded_message.
  destruct (read_capped MAX_PRE_NOISE_FRAME s) as [s' [m'|e]] eqn:Er; [|done]. intros [= <- <-].
  destruct (read_capped_bounded _ _ _ _ (proj1 pre_noise_cap) Hb Er) as (n & _ & Hw & Hin & Hl). eauto.
Qed.

Lemma noise_message_not_cookie m : is_array 32 m -> decode m = None.
Proof. intros [Hl _]. unfold decode. by rewrite Hl. Qed.

Lemma frame_ok_response c : cookie_ok c -> frame_ok (response c).
Proof. intros Hc. by split; [right| | |]. Qed.

Lemma frame_ok_challenge c : cookie_ok c -> frame_ok (challenge c).
Proof. intros Hc. by split; [left| | |]. Qed.

Lemma encoded_fits f : cookie_ok (cf_cookie f) ->
  Z.of_nat (length (encode f)) <= MAX_PRE_NOISE_FRAME /\ fits_u32 (encode f).
Proof. intros Hc. unfold fits_u32. rewrite length_encode by done. done. Qed.

(** What the gate does after an optimistic Noise message: it sends a challenge
    made for this source, then decides on the next frame. *)
Lemma gate_after_noise `{HmacLaws} e ip k msg1 rest fin : is_array 32 msg1 -> is_u64 (ge_now_issue e) ->
  let '(k1, c) := issue ip (ge_now_issue e) (ge_fresh_issue e) (others_run (ge_others_issue e) k) in
  cookie_gate_responder e ip (k, open_socket (framed msg1 ++ rest) fin []) =
  (let! answer := on_socket (read_bounded_message MAX_PRE_NOISE_FRAME) in
   let! _ := on_keys (fun k => (others_run (ge_others_answer e) k, tt)) in
   gate_answer e ip answer) (k1, open_socket rest fin (framed (encode (challenge c)))).
Proof.
  intros Hm Hnow.
  pose proof (issued_ok ip (ge_now_issue e) (ge_fresh_issue e) (others_run (ge_others_issue e) k) Hnow) as Hc.
  destruct (issue _ _ _ _) as [k1 c] eqn:Ei. cbn [snd] in Hc.
  unfold cookie_gate_responder, cbind at 1.
  rewrite (gate_reads k _ msg1 rest); [|by rewrite (proj1 Hm)|done].
  unfold cbind at 1, on_keys at 1, presented_up_front. rewrite (noise_message_not_cookie _ Hm).
  unfold cbind at 1, on_keys at 1. unfold cbind at 1, on_keys at 1. rewrite Ei.
  unfold cbind at 1, on_socket at 1.
  rewrite write_noise_framed; [done| |done|done]. by apply (encoded_fits (challenge c)).
Qed.

(** The answer is accepted when the secret it was made with is still held. *)
Lemma gate_accepts `{HmacLaws} e ip c k key : cookie_ok c -> clock (ge_now_answer e) ->
  in_date (ck_epoch c) (ge_now_answer e) -> ck_mac c = mac key ip (ck_epoch c) ->
  live (secrets (epoch_of (ge_now_answer e)) (ge_fresh_answer e) k).1 key ->
  exists k', forall s, gate_answer e ip (encode (response c)) (k, s) = ((k', s), Ok tt).
Proof.
  intros Hc Hclk Hdate Hmac Hlive.
  destruct (verify ip c (ge_now_answer e) (ge_fresh_answer e) k) as [k' b] eqn:Ev. exists k'. intros s.
  unfold gate_answer, cbind, clift. rewrite (decode_encode _ (frame_ok_response c Hc)). cbn -[verify]. unfold on_keys.
  rewrite Ev. assert (Hb : b = true) by (change b with (k', b).2; rewrite <- Ev; apply verify_iff; eauto). by rewrite Hb.
Qed.

(** The surroundings of an honest exchange: the answer is checked in the epoch of
    the challenge or the next, and no other connection has seen a clock more than
    one window ahead of the challenge. *)
Record timely (e : GateEnv) : Prop := {
  ti_issue : is_u64 (ge_now_issue e);
  ti_answer : clock (ge_now_answer e);
  ti_date : in_date (epoch_of (ge_now_issue e)) (ge_now_answer e);
  ti_others : Forall (fun c => window_at c.1 <= window_at (ge_now_issue e) + 1) (ge_others_answer e)
}.

Lemma honest_gate_run `{HmacLaws} e ip k msg1 : is_array 32 msg1 -> timely e ->
  exists c k', cookie_ok c /\
    (forall fin, sk_out (cookie_gate_responder e ip (k, open_socket (framed msg1) fin [])).1.2 = framed (encode (challenge c))) /\
    forall rest fin,
      cookie_gate_responder e ip (k, open_socket (framed msg1 ++ framed (encode (response c)) ++ rest) fin []) =
        ((k', open_socket rest fin (framed (encode (challenge c)))), Ok tt).
Proof.
  intros Hm [Hissue Hanswer Hdate Hothers].
  pose proof (issued_ok ip (ge_now_issue e) (ge_fresh_issue e) (others_run (ge_others_issue e) k) Hissue) as Hc.
  pose proof (fun r f => gate_after_noise e ip k msg1 r f Hm Hissue) as Hgate.
  rewrite issue_run in Hc, Hgate. cbn [snd] in Hc.
  set (k1 := (secrets _ _ _).1) in *. set (c := mkCookie _ _) in *.
  assert (Hk1 : holds (window_at (ge_now_issue e)) (kg_current k1) k1) by apply secrets_holds.
  pose proof (holds_others _ _ _ _ Hk1 Hothers) as Hk2.
  apply (fun h => holds_step _ _ _ (epoch_of (ge_now_answer e)) (ge_fresh_answer e) h) in Hk2.
  2:{ unfold window_at, window_of, COOKIE_ROTATE_EPOCHS. destruct Hdate as [<- | <-]; [lia|].
      rewrite <- Z.div_add by lia. apply Z.div_le_mono; lia. }
  apply holds_live in Hk2.
  destruct (gate_accepts e ip c (others_run (ge_others_answer e) k1) _ Hc Hanswer Hdate eq_refl Hk2) as [k' Hok].
  exists c, k'. split_and!; [done| |].
  - intros fin. rewrite <- (app_nil_r (framed msg1)), Hgate. by destruct fin.
  - intros rest fin. rewrite Hgate. unfold cbind.
    rewrite (gate_reads k1 _ (encode (response c)) rest); [|by apply (encoded_fits (response c))|done].
    apply Hok.
Qed.

Lemma parse_own_challenge c : cookie_ok c -> parse_challenge (encode (challenge c)) = Some (challenge c).
Proof. intros Hc. unfold parse_challenge. by rewrite (decode_encode _ (frame_ok_challenge c Hc)). Qed.

Lemma answer_own_challenge c i fin o : cookie_ok c ->
  answer_challenge (challenge c) (open_socket i fin o) = (open_socket i fin (o ++ framed (encode (response c))), Ok tt).
Proof.
  intros Hc. unfold answer_challenge, cmap_err. cbn [negb Z.eqb cf_difficulty challenge cf_cookie].
  rewrite write_noise_framed; [done| |done|done]. by apply (encoded_fits (response c)).
Qed.

(** ** Properties *)

(** C22: an honest caller always gets through the cookie gate.  It opens with its
    optimistic Noise message and is sent a challenge, which it recognises with no
    prior agreement; echoing it satisfies the gate, which then leaves on the
    socket exactly what the caller sends next.  The secrets may rotate in between
    and other connections may use the keyring at any time, also with a clock that
    stepped back, as long as none has seen a clock more than one window ahead. *)
Theorem honest_caller_passes_the_gate `{HmacLaws} (e : GateEnv) (ip : IpAddr) (k : KeyGenerations)
    (msg1 rest : bytes) (fin : stream_end) (Hm : is_array 32 msg1) (Htime : timely e) :
  exists ch f reply k',
    sk_out (cookie_gate_responder e ip (k, open_socket (framed msg1) Silent [])).1.2 = framed ch /\
    parse_challenge ch = Some f /\
    answer_challenge f (open_socket [] Silent []) = (open_socket [] Silent reply, Ok tt) /\
    cookie_gate_responder e ip (k, open_socket (framed msg1 ++ reply ++ rest) fin []) =
      ((k', open_socket rest fin (framed ch)), Ok tt).
Proof.
  destruct (honest_gate_run e ip k msg1 Hm Htime) as (c & k' & Hc & Hout & Hok).
  exists (encode (challenge c)), (challenge c), (framed (encode (response c))), k'.
  split_and!; [apply Hout|by apply parse_own_challenge|by apply (answer_own_challenge c [] Silent [])|apply Hok].
Qed.

(** What an accepted frame is: a response in date, made for this source. *)
Definition echoes {HP : HmacPrims} (ip : IpAddr) (now : Z) (k : KeyGenerations) (f : CookieFrame) : Prop :=
  frame_ok f /\ cf_kind f = KIND_RESPONSE /\ reserved_is_zero f = true /\
  in_date (ck_epoch (cf_cookie f)) now /\
  exists key, live k key /\ ck_mac (cf_cookie f) = mac key ip (ck_epoch (cf_cookie f)).

Lemma verified_echoes `{HmacLaws} ip now fresh bs f k k' : Forall is_byte bs -> clock now ->
  decode bs = Some f -> cf_kind f = KIND_RESPONSE -> reserved_is_zero f = true ->
  verify ip (cf_cookie f) now fresh k = (k', true) -> encode f = bs /\ echoes ip now k' f.
Proof.
  intros Hb Hclk Hd Hkind Hres Hv. destruct (encode_decode bs f Hb Hd) as [Hf Hbs].
  pose proof (verify_keys ip (cf_cookie f) now fresh k) as Hk. rewrite Hv in Hk.
  assert (Hv2 : (verify ip (cf_cookie f) now fresh k).2 = true) by by rewrite Hv.
  apply (verify_iff _ _ _ _ _ (fo_cookie _ Hf) Hclk) in Hv2 as (Hdate & key & Hlive & Hmac).
  rewrite <- (Hk eq_refl) in Hlive. split; [done|]. unfold echoes. eauto 10.
Qed.

Lemma early_sound `{HmacLaws} ip now fresh first k k' : Forall is_byte first -> clock now ->
  presented_up_front ip now fresh first k = (k', true) -> exists f, encode f = first /\ echoes ip now k' f.
Proof.
  intros Hb Hclk. unfold presented_up_front. destruct (decode first) as [f|] eqn:Hd; [|done].
  destruct (cf_kind f =? KIND_RESPONSE) eqn:Ek; [|done].
  destruct (reserved_is_zero f) eqn:Er; cbn [andb]; [|done]. apply Z.eqb_eq in Ek.
  intros Hv. exists f. by apply (verified_echoes ip now fresh first f k).
Qed.

Lemma answer_sound `{HmacLaws} e ip answer k s k' s' : Forall is_byte answer -> clock (ge_now_answer e) ->
  gate_answer e ip answer (k, s) = ((k', s'), Ok tt) ->
  s' = s /\ exists f, encode f = answer /\ echoes ip (ge_now_answer e) k' f.
Proof.
  intros Hb Hclk. unfold gate_answer, cbind, clift, on_keys. destruct (decode answer) as [f|] eqn:Hd; [|done].
  destruct (cf_kind f =? KIND_RESPONSE) eqn:Ek; cbn [ok_or]; [|done]. apply Z.eqb_eq in Ek.
  destruct (reserved_is_zero f) eqn:Er; cbn [negb]; [|done].
  destruct (verify _ _ _ _ k) as [k1 b] eqn:Ev. destruct b; [|done]. unfold cret. intros [= <- <-].
  split; [done|]. exists f. by apply (verified_echoes ip _ (ge_fresh_answer e) _ f k k1).
Qed.

(** C15: the cookie gate opens only for the source its cookie was made for.  When
    it lets a caller through, the last frame it read was a well-formed response
    with both reserved fields zero, in date, whose tag is the MAC of this
    caller's address under a secret the node still holds; at most one other frame
    was read before it, none above 64 bytes, and nothing was written but, at
    most, one challenge. *)
Theorem gate_opens_for_the_source_only `{HmacLaws} (e : GateEnv) (ip : IpAddr) (k k' : KeyGenerations) (s s' : Socket)
    (Hbytes : Forall is_byte (sk_in s)) (Hfirst : clock (ge_now_first e)) (Hanswer : clock (ge_now_answer e))
    (Hok : cookie_gate_responder e ip (k, s) = ((k', s'), Ok tt)) :
  exists f,
    (echoes ip (ge_now_first e) k' f /\ sk_in s = framed (encode f) ++ sk_in s' /\ sk_out s' = sk_out s) \/
    (echoes ip (ge_now_answer e) k' f /\
     exists first c, sk_in s = framed first ++ framed (encode f) ++ sk_in s' /\
       Z.of_nat (length first) <= MAX_PRE_NOISE_FRAME /\
       sk_out s' = sk_out s ++ framed (encode (challenge c)) /\ ck_epoch c = epoch_of (ge_now_issue e)).
Proof.
  unfold cookie_gate_responder in Hok. unfold cbind at 1 in Hok.
  destruct (on_socket _ (k, s)) as [st [first|er]] eqn:Er1; [|done].
  destruct (gate_read_inv _ _ _ _ Hbytes Er1) as (s1 & -> & Hs1 & Hin1 & Hlen1). clear Er1.
  assert (Hb1 : Forall is_byte (framed first ++ sk_in s1)) by by rewrite <- Hin1.
  apply Forall_app in Hb1 as [Hbf Hb1]. apply Forall_app in Hbf as [_ Hbf].
  unfold cbind at 1, on_keys at 1 in Hok.
  destruct (presented_up_front _ _ _ _ k) as [k1 early] eqn:Ep. destruct early.
  { unfold cret in Hok. simplify_eq.
    destruct (early_sound ip _ _ _ _ _ Hbf Hfirst Ep) as (f & <- & Hf).
    exists f. left. split_and!; [done|done|by rewrite Hs1]. }
  unfold cbind at 1, on_keys at 1 in Hok. unfold cbind at 1, on_keys at 1 in Hok.
  rewrite issue_run in Hok. set (c := mkCookie _ _) in Hok. unfold cbind at 1, on_socket at 1 in Hok.
  destruct (write_noise_message _ s1) as [s2 [[]|er]] eqn:Ew; [|done]. cbn [map_err] in Hok.
  apply write_noise_appends in Ew as (Hin2 & _ & sent & Hout2 & _ & ->).
  unfold cbind at 1 in Hok. rewrite <- Hin2 in Hb1.
  destruct (on_socket _ _) as [st [answer|er]] eqn:Er2; [|done].
  destruct (gate_read_inv _ _ _ _ Hb1 Er2) as (s3 & -> & Hs3 & Hin3 & Hlen3). clear Er2.
  unfold cbind at 1, on_keys at 1 in Hok.
  assert (Hba : Forall is_byte answer).
  { rewrite Hin3 in Hb1. apply Forall_app in Hb1 as [Hb1 _]. by apply Forall_app in Hb1 as [_ ?]. }
  destruct (answer_sound _ _ _ _ _ _ _ Hba Hanswer Hok) as (-> & f & <- & Hf).
  exists f. right. split; [done|]. exists first, c. split_and!; try done.
  - rewrite Hin1, <- Hin2, Hin3. done.
  - rewrite Hs3, Hs1 in *. cbn in *. by rewrite Hout2.
Qed.

(** A secret that left the keyring cannot be used to forge.  Whatever secrets
    a keyring of window [w] holds, from window [w + 2] on a cookie is accepted
    only if its tag was made with a secret drawn after that point. *)
Theorem cookie_secrets_expire `{HmacLaws} (k : KeyGenerations) (w : Z) (calls : list (Z * bytes)) (ip : IpAddr)
    (c : Cookie) (now : Z) (fresh : bytes)
    (Hw : kg_window k = Some w) (Hlate : w + 2 <= window_at now) (Hc : cookie_ok c) (Hnow : clock now)
    (Hok : (verify ip c now fresh (others_run calls k)).2 = true) :
  exists key, key ∈ fresh :: calls.*2 /\ ck_mac c = mac key ip (ck_epoch c).
Proof.
  apply (verify_iff _ _ _ _ _ Hc Hnow) in Hok as (_ & key & Hlive & Hmac). exists key. split; [|done].
  assert (Hk : renewed w [] k) by (exists w; split_and!; [done|done|lia|lia]).
  apply (renewed_others w calls), (renewed_step w _ _ (epoch_of now) fresh) in Hk as (w' & Hw' & _ & Hcur & Hprev).
  destruct (secrets_holds (epoch_of now) fresh (others_run calls k)) as (w2 & Hw2 & Hle & _).
  rewrite Hw' in Hw2. injection Hw2 as <-. fold (window_at now) in Hle.
  assert (Hin : key ∈ fresh :: rev calls.*2 ++ []).
  { destruct Hlive as [<- | Hp]; [apply Hcur; lia|apply (Hprev ltac:(lia) _ Hp)]. }
  rewrite app_nil_r in Hin. rewrite elem_of_cons, list_elem_of_In, <- in_rev, <- list_elem_of_In in Hin.
  by rewrite elem_of_cons.
Qed.

(** A cookie frame is recognised from its bytes alone.  Decoding inverts
    encoding in both directions, so each frame has one form on the wire; a Noise
    message, or anything else that is not 38 bytes long or lacks the magic, is
    never taken for one. *)
Theorem cookie_frames_are_self_describing :
  (forall f, frame_ok f -> decode (encode f) = Some f) /\
  (forall bs f, Forall is_byte bs -> decode bs = Some f -> frame_ok f /\ encode f = bs) /\
  (forall bs, length bs <> COOKIE_FRAME_LEN \/ take 4 bs <> COOKIE_MAGIC -> decode bs = None).
Proof.
  split_and!; [apply decode_encode|intros bs f; apply encode_decode|].
  intros bs Hbs. unfold decode. destruct (length bs =? COOKIE_FRAME_LEN)%nat eqn:El; [|done].
  apply Nat.eqb_eq in El. destruct Hbs as [?|Hm]; [done|].
  by rewrite (bool_decide_eq_false_2 (slice 0 4 bs = COOKIE_MAGIC) Hm).
Qed.

(** ** Witnesses

    A tag that depends on every byte of the key and of the message. *)

#[local] Instance toy_hmac : HmacPrims :=
  {| hmac_sha256 k m := to_be_bytes 32 (fold_left (fun h b => (h * 263 + b + 1) mod 2 ^ 127) (k ++ [256] ++ m) 7) |}.

#[local] Instance toy_hmac_laws : HmacLaws.
Proof. split. intros k m. split; [apply length_to_be_bytes|apply to_be_bytes_range]. Qed.

Definition toy_ip : IpAddr := V4 [10; 0; 0; 7].
Definition toy_keys : KeyGenerations := mkKeys (Some 0) (replicate 32 1) None.

(** The challenge goes out in the last second of a window, the answer is checked
    in the next one, and another connection rotates the secret in between. *)
Definition toy_gate : GateEnv :=
  mkGateEnv 119 (replicate 32 2) [] 119 (replicate 32 2) [(120, replicate 32 3)] 120 (replicate 32 4).

Lemma honest_caller_passes_the_gate_witness :
  exists ch f reply k',
    sk_out (cookie_gate_responder toy_gate toy_ip (toy_keys, open_socket (framed (replicate 32 9)) Silent [])).1.2 = framed ch /\
    parse_challenge ch = Some f /\
    answer_challenge f (open_socket [] Silent []) = (open_socket [] Silent reply, Ok tt) /\
    cookie_gate_responder toy_gate toy_ip (toy_keys, open_socket (framed (replicate 32 9) ++ reply ++ [5]) Silent []) =
      ((k', open_socket [5] Silent (framed ch)), Ok tt).
Proof.
  apply (honest_caller_passes_the_gate toy_gate toy_ip toy_keys (replicate 32 9) [5] Silent);
    [|split]; apply (bool_decide_unpack _); vm_compute; exact I.
Defined.

Definition toy_cookie : Cookie := (issue toy_ip 119 [] toy_keys).2.
Definition toy_arrival : Socket := open_socket (framed (encode (response toy_cookie))) Closed [].

Lemma gate_opens_for_the_source_only_witness : exists f,
  (echoes toy_ip 119 (mkKeys (Some 0) (replicate 32 1) None) f /\
   sk_in toy_arrival = framed (encode f) ++ [] /\ ([] : bytes) = sk_out toy_arrival) \/
  (echoes toy_ip 120 (mkKeys (Some 0) (replicate 32 1) None) f /\
   exists first c, sk_in toy_arrival = framed first ++ framed (encode f) ++ [] /\
     Z.of_nat (length first) <= MAX_PRE_NOISE_FRAME /\
     [] = sk_out toy_arrival ++ framed (encode (challenge c)) /\ ck_epoch c = epoch_of 119).
Proof.
  apply (gate_opens_for_the_source_only toy_gate toy_ip toy_keys (mkKeys (Some 0) (replicate 32 1) None)
           toy_arrival (open_socket [] Closed []));
    [apply (bool_decide_unpack _); vm_compute; exact I..|vm_compute; reflexivity].
Defined.

(** A keyring of window 0 met again in window 3. *)
Definition toy_late : Cookie := mkCookie 12 (mac (replicate 32 6) toy_ip 12).

Lemma cookie_secrets_expire_witness :
  exists key, key ∈ replicate 32 6 :: ([(130, replicate 32 5)] : list (Z * bytes)).*2 /\
    ck_mac toy_late = mac key toy_ip (ck_epoch toy_late).
Proof.
  apply (cookie_secrets_expire toy_keys 0 [(130, replicate 32 5)] toy_ip toy_late 380 (replicate 32 6));
    [reflexivity|apply (bool_decide_unpack _); vm_compute; exact I| |
     apply (bool_decide_unpack _); vm_compute; exact I|vm_compute; reflexivity].
  split; apply (bool_decide_unpack _); vm_compute; exact I.
Defined.
