(* ===== verification/Noise.v ===== *)
(** The Noise_XX session ([konsensus-crypto/src/noise.rs]).

    The [snow] crate does the cryptography: its handshake and transport states
    are the types of the class [SnowPrims], with the operations the wrapper
    calls.  [NoiseSession] is the wrapper: the state machine from handshaking to
    transport, the capture of the peer's static key and of the transcript hash,
    and the chunking that carries a payload of any size over Noise messages of at
    most 65535 bytes. *)

From S2P Require Import Prelude Framing Types DoubleRatchet.

(** [hs_write_message] takes the randomness of the message's ephemeral key. *)
Class SnowPrims := {
  HandshakeState : Type;
  TransportState : Type;
  build_initiator : bytes -> result string HandshakeState;
  build_responder : bytes -> result string HandshakeState;
  hs_write_message : HandshakeState -> bytes -> bytes -> HandshakeState * result string bytes;
  hs_read_message : HandshakeState -> bytes -> HandshakeState * result string bytes;
  get_remote_static : HandshakeState -> option bytes;
  is_handshake_finished : HandshakeState -> bool;
  get_handshake_hash : HandshakeState -> bytes;
  into_transport_mode : HandshakeState -> result string TransportState;
  ts_write_message : TransportState -> bytes -> TransportState * result string bytes;
  ts_read_message : TransportState -> bytes -> TransportState * result string bytes
}.

Definition MAX_NOISE_MSG_LEN : Z := 65535.
Definition MAX_NOISE_PAYLOAD : Z := 65535 - 16.

(** Documented behaviour of [snow] and of the Noise_XX pattern.  [linked n a q b]:
    [q] are the messages [a] has written, with their payloads, that [b] has not
    read yet; [b] reads them in order, [a] can write [n] more, and traffic in the
    other direction disturbs none of it.  An undisturbed handshake takes messages
    of 32, 96 and 64 bytes, leaves each side with the other's static key, both
    with one transcript hash, and ends in two linked transports, good for as many
    messages as the nonce counts. *)
Class SnowLaws {SP : SnowPrims} {RP : RatchetPrims} := {
  linked : nat -> TransportState -> list (bytes * bytes) -> TransportState -> Prop;
  linked_write n a q b p : linked (S n) a q b -> Z.of_nat (length p) <= MAX_NOISE_PAYLOAD ->
    exists a' c, ts_write_message a p = (a', Ok c) /\ length c = (length p + 16)%nat /\
      linked n a' (q ++ [(c, p)]) b;
  linked_read n a c p q b : linked n a ((c, p) :: q) b ->
    exists b', ts_read_message b c = (b', Ok p) /\ linked n a q b';
  linked_other_read n a q b c : linked n a q b -> linked n (ts_read_message a c).1 q b;
  linked_other_write n a q b p : linked n a q b -> linked n a q (ts_write_message b p).1;
  xx_handshake a b r1 r2 r3 : is_array 32 a -> is_array 32 b ->
    exists i0 i1 i2 i3 q0 q1 q2 q3 m1 m2 m3 ti tq,
      build_initiator a = Ok i0 /\ build_responder b = Ok q0 /\
      hs_write_message i0 r1 [] = (i1, Ok m1) /\ is_array 32 m1 /\ hs_read_message q0 m1 = (q1, Ok []) /\
      hs_write_message q1 r2 [] = (q2, Ok m2) /\ is_array 96 m2 /\ hs_read_message i1 m2 = (i2, Ok []) /\
      hs_write_message i2 r3 [] = (i3, Ok m3) /\ is_array 64 m3 /\ hs_read_message q2 m3 = (q3, Ok []) /\
      get_remote_static i3 = Some (x25519_public b) /\ get_remote_static q3 = Some (x25519_public a) /\
      is_handshake_finished i3 = true /\ is_handshake_finished q3 = true /\
      get_handshake_hash i3 = get_handshake_hash q3 /\ is_array 32 (get_handshake_hash i3) /\
      into_transport_mode i3 = Ok ti /\ into_transport_mode q3 = Ok tq /\
      forall n, Z.of_nat n < U64_MAX -> linked n ti [] tq /\ linked n tq [] ti
}.

Inductive NoiseError : Type :=
| Snow (s : string)
| HandshakeIncomplete
| HandshakeAlreadyComplete
| NoRemoteStatic
| NoiseInvalidState.

Definition NoiseError_to_string (e : NoiseError) : string :=
  match e with
  | Snow s => "noise protocol error: " +:+ s
  | HandshakeIncomplete => "handshake not complete"
  | HandshakeAlreadyComplete => "handshake already complete"
  | NoRemoteStatic => "remote static key not available"
  | NoiseInvalidState => "session in invalid state"
  end.

(** [snow::Error::Input]. *)
Definition snow_input : NoiseError := Snow "input error".

Section Session.
Context {SP : SnowPrims}.

Inductive SessionState : Type :=
| Handshaking (hs : HandshakeState)
| Transport (t : TransportState).

Record NoiseSession := mkNoise {
  ns_state : option SessionState;
  ns_is_initiator : bool;
  ns_remote_static : option bytes;
  ns_handshake_hash : option bytes
}.

Definition noise_initiator (local_private_key : bytes) : result NoiseError NoiseSession :=
  let? hs := map_err Snow (build_initiator local_private_key) in
  Ok (mkNoise (Some (Handshaking hs)) true None None).

Definition noise_responder (local_private_key : bytes) : result NoiseError NoiseSession :=
  let? hs := map_err Snow (build_responder local_private_key) in
  Ok (mkNoise (Some (Handshaking hs)) false None None).

(** After a handshake message, the peer's static key is kept if known. *)
Definition captured (hs : HandshakeState) (n : NoiseSession) : NoiseSession :=
  mkNoise (Some (Handshaking hs)) (ns_is_initiator n)
    (match get_remote_static hs with Some key => Some key | None => ns_remote_static n end)
    (ns_handshake_hash n).

Definition with_state (st : option SessionState) (n : NoiseSession) : NoiseSession :=
  mkNoise st (ns_is_initiator n) (ns_remote_static n) (ns_handshake_hash n).

Definition write_handshake (rng payload : bytes) (n : NoiseSession) : NoiseSession * result NoiseError bytes :=
  match ns_state n with
  | Some (Handshaking hs) =>
      match hs_write_message hs rng payload with
      | (hs', Ok buf) => (captured hs' n, Ok buf)
      | (hs', Err e) => (with_state (Some (Handshaking hs')) n, Err (Snow e))
      end
  | Some (Transport _) => (n, Err HandshakeAlreadyComplete)
  | None => (n, Err NoiseInvalidState)
  end.

Definition read_handshake (message : bytes) (n : NoiseSession) : NoiseSession * result NoiseError bytes :=
  match ns_state n with
  | Some (Handshaking hs) =>
      match hs_read_message hs message with
      | (hs', Ok buf) => (captured hs' n, Ok buf)
      | (hs', Err e) => (with_state (Some (Handshaking hs')) n, Err (Snow e))
      end
  | Some (Transport _) => (n, Err HandshakeAlreadyComplete)
  | None => (n, Err NoiseInvalidState)
  end.

(** The state is taken before the hash and the transport are made: a failure
    there leaves the session without one. *)
Definition try_finish_handshake (n : NoiseSession) : NoiseSession * result NoiseError bool :=
  match ns_state n with
  | Some (Handshaking hs) =>
      if negb (is_handshake_finished hs) then (n, Ok false)
      else
        let remote := match ns_remote_static n with Some k => Some k | None => get_remote_static hs end in
        let hash := get_handshake_hash hs in
        if negb (length hash =? 32)%nat
        then (mkNoise None (ns_is_initiator n) remote (ns_handshake_hash n), Err NoiseInvalidState)
        else match into_transport_mode hs with
             | Ok t => (mkNoise (Some (Transport t)) (ns_is_initiator n) remote (Some hash), Ok true)
             | Err e => (mkNoise None (ns_is_initiator n) remote (Some hash), Err (Snow e))
             end
  | Some (Transport _) => (n, Ok true)
  | None => (n, Err NoiseInvalidState)
  end.

(** [slice::chunks]: pieces of [n], the last one shorter. *)
Fixpoint chunks_from (fuel n : nat) (l : bytes) : list bytes :=
  match fuel, l with
  | S fuel', _ :: _ => take n l :: chunks_from fuel' n (drop n l)
  | _, _ => []
  end.
Definition chunks (n : nat) (l : bytes) : list bytes := chunks_from (length l) n l.

Fixpoint encrypt_chunks (t : TransportState) (output : bytes) (cs : list bytes)
    : TransportState * result NoiseError bytes :=
  match cs with
  | [] => (t, Ok output)
  | chunk :: cs' =>
      match ts_write_message t chunk with
      | (t', Err e) => (t', Err (Snow e))
      | (t', Ok buf) =>
          let len := Z.of_nat (length buf) in
          if U16_MAX <? len then (t', Err snow_input)
          else encrypt_chunks t' (output ++ to_be_bytes 2 len ++ buf) cs'
      end
  end.

Definition encrypt (plaintext : bytes) (n : NoiseSession) : NoiseSession * result NoiseError bytes :=
  match ns_state n with
  | Some (Transport t) =>
      let '(t', r) := encrypt_chunks t [] (chunks (Z.to_nat MAX_NOISE_PAYLOAD) plaintext) in
      (with_state (Some (Transport t')) n, r)
  | Some (Handshaking _) => (n, Err HandshakeIncomplete)
  | None => (n, Err NoiseInvalidState)
  end.

(** The loop over the ciphertext; [rest] is what lies past the cursor, of which
    every turn consumes at least two bytes. *)
Fixpoint decrypt_chunks (fuel : nat) (t : TransportState) (output rest : bytes)
    : TransportState * result NoiseError bytes :=
  match fuel, rest with
  | _, [] => (t, Ok output)
  | O, _ => (t, Err NoiseInvalidState)
  | S fuel', _ =>
      if (length rest <? 2)%nat then (t, Err snow_input)
      else
        let chunk_len := Z.to_nat (from_be_bytes (take 2 rest)) in
        if (length (drop 2 rest) <? chunk_len)%nat then (t, Err snow_input)
        else match ts_read_message t (take chunk_len (drop 2 rest)) with
             | (t', Err e) => (t', Err (Snow e))
             | (t', Ok buf) => decrypt_chunks fuel' t' (output ++ buf) (drop chunk_len (drop 2 rest))
             end
  end.

(** [decrypt] and [decrypt_sensitive] differ only in what is wiped. *)
Definition decrypt (ciphertext : bytes) (n : NoiseSession) : NoiseSession * result NoiseError bytes :=
  match ns_state n with
  | Some (Transport t) =>
      let '(t', r) := decrypt_chunks (length ciphertext) t [] ciphertext in
      (with_state (Some (Transport t')) n, r)
  | Some (Handshaking _) => (n, Err HandshakeIncomplete)
  | None => (n, Err NoiseInvalidState)
  end.
End Session.
