(* ===== verification/NoiseProps.v ===== *)
(** The channel a finished Noise handshake gives: whatever the two sides send,
    of any size and in any interleaving of the two directions, is read back
    unchanged and in order. *)

From S2P Require Import Prelude Framing Types DoubleRatchet Noise.

(** ** Chunks *)

Lemma chunks_from_spec fuel n l : (0 < n)%nat -> (length l <= fuel)%nat ->
  concat (chunks_from fuel n l) = l /\ Forall (fun c => (length c <= n)%nat) (chunks_from fuel n l).
Proof.
  intros Hn. revert l. induction fuel as [|fuel IH]; intros [|x l] Hf; cbn [length] in Hf; try done; [lia|].
  cbn [chunks_from concat]. destruct (IH (drop n (x :: l))) as [Hc Hl].
  { rewrite length_drop. cbn [length]. lia. }
  rewrite Hc, take_drop. split; [done|]. constructor; [|done]. rewrite length_take. lia.
Qed.

Definition payload_chunks (p : bytes) : list bytes := chunks (Z.to_nat MAX_NOISE_PAYLOAD) p.

Lemma payload_chunks_spec p : concat (payload_chunks p) = p /\
  Forall (fun c => Z.of_nat (length c) <= MAX_NOISE_PAYLOAD) (payload_chunks p).
Proof.
  destruct (chunks_from_spec (length p) (Z.to_nat MAX_NOISE_PAYLOAD) p) as [Hc Hl]; [unfold MAX_NOISE_PAYLOAD; lia|done|].
  split; [done|]. eapply Forall_impl; [exact Hl|]. unfold MAX_NOISE_PAYLOAD. cbn. lia.
Qed.

Lemma payload_chunks_short p : Z.of_nat (length p) <= MAX_NOISE_PAYLOAD -> (length (payload_chunks p) <= 1)%nat.
Proof.
  intros Hp. unfold payload_chunks, chunks. destruct p as [|x p]; [cbn; lia|]. cbn [length chunks_from].
  rewrite drop_ge; [destruct (length p); cbn; lia|]. unfold MAX_NOISE_PAYLOAD in *. lia.
Qed.

(** The wire form of Noise messages: each with its length in front. *)
Definition chunk_wire (cs : list bytes) : bytes := concat (map (fun c => to_be_bytes 2 (Z.of_nat (length c)) ++ c) cs).

Lemma chunk_wire_cons c cs : chunk_wire (c :: cs) = to_be_bytes 2 (Z.of_nat (length c)) ++ c ++ chunk_wire cs.
Proof. unfold chunk_wire. cbn [map concat]. by rewrite <- app_assoc. Qed.

Section Channel.
Context {SP : SnowPrims} {RP : RatchetPrims} {SL : SnowLaws}.

Lemma encrypt_chunks_linked cs a q b n out : linked (length cs + n) a q b ->
  Forall (fun c => Z.of_nat (length c) <= MAX_NOISE_PAYLOAD) cs ->
  exists a' sent, encrypt_chunks a out cs = (a', Ok (out ++ chunk_wire sent.*1)) /\ sent.*2 = cs /\
    Forall (fun m => Z.of_nat (length m.1) <= U16_MAX) sent /\ linked n a' (q ++ sent) b /\
    length (chunk_wire sent.*1) = (length (concat cs) + 18 * length cs)%nat.
Proof.
  revert a q out. induction cs as [|c cs IH]; intros a q out Hl Hcs.
  { exists a, []. cbn. rewrite !app_nil_r. split_and!; done. }
  apply Forall_cons in Hcs as [Hc Hcs]. cbn [length Nat.add] in Hl.
  destruct (linked_write _ _ _ _ c Hl Hc) as (a1 & ct & Hw & Hlen & Hl1).
  assert (Hct : Z.of_nat (length ct) <= U16_MAX) by (rewrite Hlen; unfold MAX_NOISE_PAYLOAD, U16_MAX in *; lia).
  destruct (IH a1 (q ++ [(ct, c)]) (out ++ to_be_bytes 2 (Z.of_nat (length ct)) ++ ct) Hl1 Hcs)
    as (a' & sent & He & Hs & HF & Hl2 & Hlw).
  exists a', ((ct, c) :: sent). cbn [encrypt_chunks]. rewrite Hw, (proj2 (Z.ltb_ge _ _) Hct), He. split_and!.
  - do 2 f_equal. cbn [fmap list_fmap fst]. by rewrite chunk_wire_cons, <- !app_assoc.
  - cbn. by rewrite <- Hs.
  - by constructor.
  - by rewrite <- app_assoc in Hl2.
  - cbn [fmap list_fmap fst concat length]. rewrite chunk_wire_cons, !length_app, length_to_be_bytes, Hlw, Hlen. lia.
Qed.

Lemma decrypt_chunks_linked sent a q b n out fuel : linked n a (sent ++ q) b ->
  Forall (fun m => Z.of_nat (length m.1) <= U16_MAX) sent -> (length (chunk_wire sent.*1) <= fuel)%nat ->
  exists b', decrypt_chunks fuel b out (chunk_wire sent.*1) = (b', Ok (out ++ concat sent.*2)) /\ linked n a q b'.
Proof.
  revert b out fuel. induction sent as [|[c p] sent IH]; intros b out fuel Hl HF Hf.
  { exists b. cbn. rewrite app_nil_r. split; [by destruct fuel|done]. }
  apply Forall_cons in HF as [Hc HF]. cbn [fst] in Hc.
  destruct (linked_read _ _ _ _ _ _ Hl) as (b1 & Hr & Hl1).
  cbn [fmap list_fmap fst snd] in Hf |- *. rewrite chunk_wire_cons in *.
  assert (Hn : from_be_bytes (to_be_bytes 2 (Z.of_nat (length c))) = Z.of_nat (length c)).
  { apply from_to_be_bytes. unfold U16_MAX in Hc. lia. }
  pose proof (length_to_be_bytes 2 (Z.of_nat (length c))) as Hpre.
  revert Hf Hn Hpre. generalize (to_be_bytes 2 (Z.of_nat (length c))) as pre. intros pre Hf Hn Hpre.
  rewrite !length_app, Hpre in Hf. destruct fuel as [|fuel]; [lia|].
  destruct (IH b1 (out ++ p) fuel Hl1 HF) as (b' & Hd & Hl2); [lia|]. exists b'. split; [|done].
  destruct (pre ++ c ++ chunk_wire sent.*1) as [|x w] eqn:Ew.
  { apply (f_equal length) in Ew. rewrite length_app, Hpre in Ew. cbn in Ew. lia. }
  cbn [decrypt_chunks]. rewrite <- Ew.
  rewrite (drop_app_length' pre), (take_app_length' pre), Hn, Nat2Z.id, take_app_length, drop_app_length by done.
  rewrite !length_app, Hpre.
  rewrite (proj2 (Nat.ltb_ge _ _)), (proj2 (Nat.ltb_ge _ _)) by lia.
  rewrite Hr, Hd. cbn [concat]. by rewrite <- app_assoc.
Qed.

(** ** Sessions

    [pipe n A q B]: the session [B] is about to receive, in order, the wire
    messages of [q] with their payloads, and [A] can still send [n] chunks. *)

Definition message_of (s : list (bytes * bytes)) : bytes * bytes := (chunk_wire s.*1, concat s.*2).

Definition pipe (n : nat) (A : NoiseSession) (q : list (bytes * bytes)) (B : NoiseSession) : Prop :=
  exists ta tb sent, ns_state A = Some (Transport ta) /\ ns_state B = Some (Transport tb) /\
    linked n ta (concat sent) tb /\
    Forall (Forall (fun m => Z.of_nat (length m.1) <= U16_MAX)) sent /\ q = map message_of sent.

Lemma pipe_send n A q B p : pipe (length (payload_chunks p) + n) A q B ->
  exists A' c, encrypt p A = (A', Ok c) /\ pipe n A' (q ++ [(c, p)]) B /\ ns_remote_static A' = ns_remote_static A /\
    length c = (length p + 18 * length (payload_chunks p))%nat.
Proof.
  intros (ta & tb & sent & HA & HB & Hl & HF & ->). destruct (payload_chunks_spec p) as [Hp Hc].
  destruct (encrypt_chunks_linked _ _ _ _ _ [] Hl Hc) as (ta' & s & He & Hs & HFs & Hl' & Hlen).
  unfold encrypt. rewrite HA. unfold payload_chunks in He. rewrite He. do 2 eexists. split; [done|].
  rewrite Hp in Hlen. split; [|done].
  exists ta', tb, (sent ++ [s]). split_and!; [done|done| | |].
  - rewrite concat_app. cbn. by rewrite app_nil_r.
  - apply Forall_app. split; [done|]. by constructor.
  - rewrite map_app. cbn. unfold message_of at 3. rewrite Hs, <- Hp at 1. done.
Qed.

Lemma pipe_receive n A c p q B : pipe n A ((c, p) :: q) B ->
  exists B', decrypt c B = (B', Ok p) /\ pipe n A q B' /\ ns_remote_static B' = ns_remote_static B.
Proof.
  intros (ta & tb & [|s sent] & HA & HB & Hl & HF & Hq); [done|].
  apply Forall_cons in HF as [Hs HF]. cbn in Hq. injection Hq as -> -> ->.
  destruct (decrypt_chunks_linked s ta (concat sent) tb n [] _ Hl Hs (le_n _)) as (tb' & Hd & Hl').
  unfold decrypt. rewrite HB, Hd. eexists. split; [done|]. split; [|done]. exists ta, tb', sent. done.
Qed.

(** The other direction leaves a pipe as it is. *)
Lemma linked_other_chunks n a q b cs out : linked n a q b -> linked n a q (encrypt_chunks b out cs).1.
Proof.
  revert b out. induction cs as [|c cs IH]; intros b out Hl; [done|]. cbn [encrypt_chunks].
  apply (linked_other_write _ _ _ _ c) in Hl.
  destruct (ts_write_message b c) as [b' [buf|e]]; [|done]. destruct (U16_MAX <? _); [done|]. by apply IH.
Qed.

Lemma linked_other_loop n a q b fuel out rest : linked n a q b ->
  linked n (decrypt_chunks fuel a out rest).1 q b.
Proof.
  revert a out rest. induction fuel as [|fuel IH]; intros a out rest Hl; [by destruct rest|].
  destruct rest as [|x rest]; [done|]. cbn [decrypt_chunks].
  destruct (_ <? 2)%nat; [done|]. destruct (_ <? _)%nat; [done|].
  apply (linked_other_read _ _ _ _ (take (Z.to_nat (from_be_bytes (take 2 (x :: rest)))) (drop 2 (x :: rest)))) in Hl.
  destruct (ts_read_message a _) as [a' [buf|e]]; [|done]. by apply IH.
Qed.

Lemma pipe_other_send n A q B p : pipe n A q B -> pipe n A q (encrypt p B).1.
Proof.
  intros (ta & tb & sent & HA & HB & Hl & HF & ->). unfold encrypt. rewrite HB.
  pose proof (linked_other_chunks _ _ _ _ (chunks (Z.to_nat MAX_NOISE_PAYLOAD) p) [] Hl) as Hl'.
  destruct (encrypt_chunks tb _ _) as [tb' r]. exists ta, tb', sent. done.
Qed.

Lemma pipe_other_receive n A q B c : pipe n A q B -> pipe n (decrypt c A).1 q B.
Proof.
  intros (ta & tb & sent & HA & HB & Hl & HF & ->). unfold decrypt. rewrite HA.
  pose proof (linked_other_loop _ _ _ _ (length c) [] c Hl) as Hl'.
  destruct (decrypt_chunks _ ta _ _) as [ta' r]. exists ta', tb, sent. done.
Qed.

(** ** Traffic *)

(** One of the two ends sends a payload, or takes the next message that has
    arrived. *)
Inductive traffic : Type := Sends (initiator : bool) (p : bytes) | Takes (initiator : bool).

Record duplex := mkDuplex {
  dx_i : NoiseSession; dx_r : NoiseSession;
  dx_to_r : list bytes; dx_to_i : list bytes
}.

(** What an end gets when it takes a message, if one has arrived. *)
Definition dx_step (ev : traffic) (d : duplex) : duplex * option (result NoiseError bytes) :=
  match ev with
  | Sends true p =>
      match encrypt p (dx_i d) with
      | (i', Ok c) => (mkDuplex i' (dx_r d) (dx_to_r d ++ [c]) (dx_to_i d), None)
      | (i', Err e) => (mkDuplex i' (dx_r d) (dx_to_r d) (dx_to_i d), Some (Err e))
      end
  | Sends false p =>
      match encrypt p (dx_r d) with
      | (r', Ok c) => (mkDuplex (dx_i d) r' (dx_to_r d) (dx_to_i d ++ [c]), None)
      | (r', Err e) => (mkDuplex (dx_i d) r' (dx_to_r d) (dx_to_i d), Some (Err e))
      end
  | Takes true =>
      match dx_to_i d with
      | [] => (d, None)
      | c :: q => let '(i', r) := decrypt c (dx_i d) in (mkDuplex i' (dx_r d) (dx_to_r d) q, Some r)
      end
  | Takes false =>
      match dx_to_r d with
      | [] => (d, None)
      | c :: q => let '(r', r) := decrypt c (dx_r d) in (mkDuplex (dx_i d) r' q (dx_to_i d), Some r)
      end
  end.

Fixpoint dx_run (evs : list traffic) (d : duplex) : list (option (result NoiseError bytes)) :=
  match evs with
  | [] => []
  | ev :: evs' => let '(d', o) := dx_step ev d in o :: dx_run evs' d'
  end.

(** The promise: two queues of payloads. *)
Fixpoint fifo_run (evs : list traffic) (to_r to_i : list bytes) : list (option (result NoiseError bytes)) :=
  match evs with
  | [] => []
  | Sends true p :: evs' => None :: fifo_run evs' (to_r ++ [p]) to_i
  | Sends false p :: evs' => None :: fifo_run evs' to_r (to_i ++ [p])
  | Takes true :: evs' =>
      match to_i with [] => None :: fifo_run evs' to_r [] | p :: q => Some (Ok p) :: fifo_run evs' to_r q end
  | Takes false :: evs' =>
      match to_r with [] => None :: fifo_run evs' [] to_i | p :: q => Some (Ok p) :: fifo_run evs' q to_i end
  end.

(** The chunks an end sends in a run. *)
Fixpoint chunks_sent (initiator : bool) (evs : list traffic) : nat :=
  match evs with
  | [] => 0
  | Sends i p :: evs' => ((if Bool.eqb i initiator then length (payload_chunks p) else 0) + chunks_sent initiator evs')%nat
  | Takes _ :: evs' => chunks_sent initiator evs'
  end.

Definition dx_linked (n m : nat) (d : duplex) (to_r to_i : list bytes) : Prop :=
  (exists q, dx_to_r d = q.*1 /\ to_r = q.*2 /\ pipe n (dx_i d) q (dx_r d)) /\
  (exists q, dx_to_i d = q.*1 /\ to_i = q.*2 /\ pipe m (dx_r d) q (dx_i d)).

Lemma dx_refines evs d to_r to_i : dx_linked (chunks_sent true evs) (chunks_sent false evs) d to_r to_i ->
  dx_run evs d = fifo_run evs to_r to_i.
Proof.
  revert d to_r to_i.
  induction evs as [|ev evs IH]; intros d to_r to_i [(q & Hq & -> & Hp) (q' & Hq' & -> & Hp')]; [done|].
  destruct d as [i r qr qi]. cbn in Hq, Hq', Hp, Hp'. subst qr qi.
  cbn [dx_run fifo_run]. destruct ev as [[] p | []]; cbn [dx_step dx_i dx_r dx_to_r dx_to_i Bool.eqb Nat.add] in *.
  - destruct (pipe_send _ _ _ _ _ Hp) as (i' & c & He & Hp1 & _).
    apply (pipe_other_send _ _ _ _ p) in Hp'. rewrite He in Hp' |- *. cbn [fst] in Hp'. f_equal. apply IH.
    split; [exists (q ++ [(c, p)]); by rewrite !fmap_app|by exists q'].
  - destruct (pipe_send _ _ _ _ _ Hp') as (r' & c & He & Hp1 & _).
    apply (pipe_other_send _ _ _ _ p) in Hp. rewrite He in Hp |- *. cbn [fst] in Hp. f_equal. apply IH.
    split; [by exists q|exists (q' ++ [(c, p)]); by rewrite !fmap_app].
  - destruct q' as [|[c p] q']; cbn [fmap list_fmap fst snd].
    { f_equal. apply IH. split; [by exists q|by exists []]. }
    destruct (pipe_receive _ _ _ _ _ _ Hp') as (i' & Hd & Hp1 & _).
    apply (pipe_other_receive _ _ _ _ c) in Hp. rewrite Hd in Hp |- *. cbn [fst] in Hp. f_equal. apply IH.
    split; [by exists q|by exists q'].
  - destruct q as [|[c p] q]; cbn [fmap list_fmap fst snd].
    { f_equal. apply IH. split; [by exists []|by exists q']. }
    destruct (pipe_receive _ _ _ _ _ _ Hp) as (r' & Hd & Hp1 & _).
    apply (pipe_other_receive _ _ _ _ c) in Hp'. rewrite Hd in Hp' |- *. cbn [fst] in Hp'. f_equal. apply IH.
    split; [by exists q|by exists q'].
Qed.

(** ** The handshake *)

(** The three messages, as the two ends exchange them through [NoiseSession]. *)
Definition noise_handshake (a b r1 r2 r3 : bytes) : result NoiseError (NoiseSession * NoiseSession) :=
  let? i0 := noise_initiator a in
  let? q0 := noise_responder b in
  let '(i1, m1) := write_handshake r1 [] i0 in
  let? m1 := m1 in
  let '(q1, x1) := read_handshake m1 q0 in
  let? _ := x1 in
  let '(q2, m2) := write_handshake r2 [] q1 in
  let? m2 := m2 in
  let '(i2, x2) := read_handshake m2 i1 in
  let? _ := x2 in
  let '(i3, m3) := write_handshake r3 [] i2 in
  let? m3 := m3 in
  let '(q3, x3) := read_handshake m3 q2 in
  let? _ := x3 in
  let '(i4, f1) := try_finish_handshake i3 in
  let? _ := f1 in
  let '(q4, f2) := try_finish_handshake q3 in
  let? _ := f2 in
  Ok (i4, q4).

(** C14: the Noise handshake of two nodes always completes, each side holds the
    other's static key and both the same transcript hash; from then on the two
    sessions behave as two queues.  For any interleaving of sends and receipts in
    the two directions, with payloads of any size (cut into chunks and put
    together again), every receipt yields the next payload the other side sent,
    unchanged, as long as no side sends more chunks than the nonce counts. *)
Theorem noise_channel_is_two_queues (a b r1 r2 r3 : bytes) (evs : list traffic)
    (Ha : is_array 32 a) (Hb : is_array 32 b)
    (Hi : Z.of_nat (chunks_sent true evs) < U64_MAX) (Hr : Z.of_nat (chunks_sent false evs) < U64_MAX) :
  exists i r, noise_handshake a b r1 r2 r3 = Ok (i, r) /\
    ns_remote_static i = Some (x25519_public b) /\ ns_remote_static r = Some (x25519_public a) /\
    ns_handshake_hash i = ns_handshake_hash r /\ is_Some (ns_handshake_hash i) /\
    dx_run evs (mkDuplex i r [] []) = fifo_run evs [] [].
Proof.
  destruct (xx_handshake a b r1 r2 r3 Ha Hb) as (i0 & i1 & i2 & i3 & q0 & q1 & q2 & q3 & m1 & m2 & m3 & ti & tq &
    Hi0 & Hq0 & Hw1 & _ & Hr1 & Hw2 & _ & Hr2 & Hw3 & _ & Hr3 & Hsi & Hsq & Hfi & Hfq & Hh & [Hlen _] & Hti & Htq & Hlink).
  eexists _, _. split.
  { unfold noise_handshake, noise_initiator, noise_responder, write_handshake, read_handshake, try_finish_handshake.
    rewrite Hi0, Hq0. cbn. rewrite Hw1. cbn. rewrite Hr1. cbn. rewrite Hw2. cbn. rewrite Hr2. cbn.
    rewrite Hw3. cbn. rewrite Hr3. cbn. rewrite Hfi, Hlen, Hti. cbn. rewrite Hfq, <- Hh, Hlen, Htq. cbn.
    reflexivity. }
  cbn. rewrite Hsi, Hsq. do 4 (split; [done|]). apply dx_refines.
  split; exists []; (do 2 (split; [done|])).
  - exists ti, tq, []. split_and!; try done. by apply Hlink.
  - exists tq, ti, []. split_and!; try done. by apply Hlink.
Qed.
End Channel.
