(* ===== verification/NoiseConcrete.v ===== *)
(** An executable stand-in for [snow]: the static keys travel in the clear and a
    transport message is its payload behind its number.  It satisfies the laws
    [SnowLaws] states, and so shows that they can hold. *)

From S2P Require Import Prelude Framing Types Concrete DoubleRatchet RatchetConcrete Identity Noise NoiseProps.

Record toy_hs := mkToyHs {
  th_initiator : bool; th_own : bytes; th_peer : option bytes; th_step : nat
}.

Record toy_ts := mkToyTs { tt_sent : Z; tt_read : Z }.

Definition toy_hs_write (h : toy_hs) (rng payload : bytes) : toy_hs * result string bytes :=
  match th_initiator h, th_step h with
  | true, 0%nat => (mkToyHs true (th_own h) None 1, Ok (replicate 32 7))
  | false, 1%nat => (mkToyHs false (th_own h) None 2, Ok (replicate 32 8 ++ x25519_public (th_own h) ++ replicate 32 0))
  | true, 2%nat => (mkToyHs true (th_own h) (th_peer h) 3, Ok (x25519_public (th_own h) ++ replicate 32 0))
  | _, _ => (h, Err "state")
  end.

Definition toy_hs_read (h : toy_hs) (m : bytes) : toy_hs * result string bytes :=
  match th_initiator h, th_step h with
  | false, 0%nat => if (length m =? 32)%nat then (mkToyHs false (th_own h) None 1, Ok []) else (h, Err "input")
  | true, 1%nat =>
      if (length m =? 96)%nat then (mkToyHs true (th_own h) (Some (take 32 (drop 32 m))) 2, Ok []) else (h, Err "input")
  | false, 2%nat =>
      if (length m =? 64)%nat then (mkToyHs false (th_own h) (Some (take 32 m)) 3, Ok []) else (h, Err "input")
  | _, _ => (h, Err "state")
  end.

Definition toy_hash (h : toy_hs) : bytes :=
  let own := x25519_public (th_own h) in
  let peer := default [] (th_peer h) in
  fold32 21 (if th_initiator h then own ++ peer else peer ++ own).

#[export] Instance toy_snow : SnowPrims := {|
  HandshakeState := toy_hs;
  TransportState := toy_ts;
  build_initiator k := Ok (mkToyHs true k None 0);
  build_responder k := Ok (mkToyHs false k None 0);
  hs_write_message := toy_hs_write;
  hs_read_message := toy_hs_read;
  get_remote_static := th_peer;
  is_handshake_finished h := (th_step h =? 3)%nat;
  get_handshake_hash := toy_hash;
  into_transport_mode h := Ok (mkToyTs 0 0);
  ts_write_message t p := (mkToyTs (tt_sent t + 1) (tt_read t), Ok (to_be_bytes 16 (tt_sent t) ++ p));
  ts_read_message t c :=
    if decide (take 16 c = to_be_bytes 16 (tt_read t)) then (mkToyTs (tt_sent t) (tt_read t + 1), Ok (drop 16 c))
    else (t, Err "decrypt")
|}.

(** Messages in flight, numbered from the next one to be read. *)
Fixpoint toy_queued (r : Z) (q : list (bytes * bytes)) : Prop :=
  match q with
  | [] => True
  | (c, p) :: q' => c = to_be_bytes 16 r ++ p /\ toy_queued (r + 1) q'
  end.

Definition toy_linked (n : nat) (a : toy_ts) (q : list (bytes * bytes)) (b : toy_ts) : Prop :=
  tt_sent a = tt_read b + Z.of_nat (length q) /\ toy_queued (tt_read b) q.

Lemma toy_queued_snoc r q c p : toy_queued r q -> c = to_be_bytes 16 (r + Z.of_nat (length q)) ++ p ->
  toy_queued r (q ++ [(c, p)]).
Proof.
  revert r. induction q as [|[c' p'] q IH]; intros r Hq Hc.
  - split; [|done]. cbn [length] in Hc. by rewrite Z.add_0_r in Hc.
  - destruct Hq as [? Hq]. split; [done|]. apply IH; [done|]. rewrite Hc. f_equal. cbn [length]. f_equal. lia.
Qed.

Lemma toy_public_array (k : bytes) : is_array 32 k -> is_array 32 (@x25519_public toy_ratchet k).
Proof. apply (@x25519_public_array toy_prims toy_identity_prims toy_ratchet toy_identity_laws). Qed.

#[local] Opaque toy_ratchet fold32.

Lemma toy_handshake (a b r1 r2 r3 : bytes) : is_array 32 a -> is_array 32 b ->
  exists i0 i1 i2 i3 q0 q1 q2 q3 m1 m2 m3 ti tq,
    build_initiator a = Ok i0 /\ build_responder b = Ok q0 /\
    hs_write_message i0 r1 [] = (i1, Ok m1) /\ is_array 32 m1 /\ hs_read_message q0 m1 = (q1, Ok []) /\
    hs_write_message q1 r2 [] = (q2, Ok m2) /\ is_array 96 m2 /\ hs_read_message i1 m2 = (i2, Ok []) /\
    hs_write_message i2 r3 [] = (i3, Ok m3) /\ is_array 64 m3 /\ hs_read_message q2 m3 = (q3, Ok []) /\
    get_remote_static i3 = Some (@x25519_public toy_ratchet b) /\
    get_remote_static q3 = Some (@x25519_public toy_ratchet a) /\
    is_handshake_finished i3 = true /\ is_handshake_finished q3 = true /\
    get_handshake_hash i3 = get_handshake_hash q3 /\ is_array 32 (get_handshake_hash i3) /\
    into_transport_mode i3 = Ok ti /\ into_transport_mode q3 = Ok tq /\
    forall n, Z.of_nat n < U64_MAX -> toy_linked n ti [] tq /\ toy_linked n tq [] ti.
Proof.
  intros Ha Hb. apply toy_public_array in Ha as [Hla Hba], Hb as [Hlb Hbb].
  set (pa := x25519_public a) in *. set (pb := x25519_public b) in *.
  assert (Hz : forall n x, is_byte x -> is_array n (replicate n x)).
  { intros n x Hx. split; [apply length_replicate|]. by apply Forall_replicate. }
  exists (mkToyHs true a None 0), (mkToyHs true a None 1), (mkToyHs true a (Some pb) 2), (mkToyHs true a (Some pb) 3).
  exists (mkToyHs false b None 0), (mkToyHs false b None 1), (mkToyHs false b None 2), (mkToyHs false b (Some pa) 3).
  exists (replicate 32 7), (replicate 32 8 ++ pb ++ replicate 32 0), (pa ++ replicate 32 0), (mkToyTs 0 0), (mkToyTs 0 0).
  assert (H96 : is_array 96 (replicate 32 8 ++ pb ++ replicate 32 0)).
  { split; [rewrite !length_app, !length_replicate, Hlb; done|].
    rewrite !Forall_app. split_and!; [by apply (Hz 32%nat)|done|by apply (Hz 32%nat)]. }
  assert (H64 : is_array 64 (pa ++ replicate 32 0)).
  { split; [rewrite !length_app, !length_replicate, Hla; done|].
    rewrite !Forall_app. split_and!; [done|by apply (Hz 32%nat)]. }
  do 3 (split; [done|]). split; [by apply Hz|]. do 2 (split; [done|]). split; [done|]. split.
  { cbn [hs_read_message toy_snow]. unfold toy_hs_read. cbn [th_initiator th_step]. rewrite (proj1 H96), Nat.eqb_refl.
    by rewrite (drop_app_length' (replicate 32 8)), (take_app_length' pb) by (by rewrite ?length_replicate). }
  split; [done|]. split; [done|]. split.
  { cbn [hs_read_message toy_snow]. unfold toy_hs_read. cbn [th_initiator th_step]. rewrite (proj1 H64), Nat.eqb_refl.
    by rewrite (take_app_length' pa) by done. }
  do 5 (split; [done|]). split; [apply fold32_array|]. do 2 (split; [done|]). done.
Qed.

#[export] Instance toy_snow_laws : @SnowLaws toy_snow toy_ratchet.
Proof.
  refine {| linked := toy_linked; xx_handshake := toy_handshake |}.
  - intros n a q b p [Hs Hq] _. eexists _, _. split; [reflexivity|]. split.
    { rewrite length_app, length_to_be_bytes. lia. }
    split; cbn [tt_sent]; [rewrite length_app; cbn [length]; lia|].
    apply toy_queued_snoc; [done|]. by rewrite Hs.
  - intros n a c p q b [Hs [Hc Hq]]. exists (mkToyTs (tt_sent b) (tt_read b + 1)).
    cbn [ts_read_message toy_snow]. rewrite Hc, (take_app_length' (to_be_bytes 16 _)) by by rewrite length_to_be_bytes.
    rewrite decide_True by done. rewrite drop_app_length' by by rewrite length_to_be_bytes.
    split; [done|]. split; [|done]. cbn [length tt_read tt_sent] in *. lia.
  - intros n a q b c Hl. cbn. by destruct (decide _).
  - intros n a q b p Hl. done.
Defined.

#[local] Transparent toy_ratchet fold32.

(** Two ends that talk past each other, and an empty payload. *)
Lemma noise_channel_is_two_queues_witness :
  exists i r, noise_handshake (replicate 32 1) (replicate 32 2) [] [] [] = Ok (i, r) /\
    ns_remote_static i = Some (x25519_public (replicate 32 2)) /\ ns_remote_static r = Some (x25519_public (replicate 32 1)) /\
    ns_handshake_hash i = ns_handshake_hash r /\ is_Some (ns_handshake_hash i) /\
    dx_run [Sends true [1; 2]; Sends false [3]; Sends true []; Takes false; Takes true; Takes false; Takes true]
      (mkDuplex i r [] []) = [None; None; None; Some (Ok [1; 2]); Some (Ok [3]); Some (Ok []); None].
Proof.
  apply (noise_channel_is_two_queues (replicate 32 1) (replicate 32 2) [] [] []
    [Sends true [1; 2]; Sends false [3]; Sends true []; Takes false; Takes true; Takes false; Takes true]);
    apply (bool_decide_unpack _); vm_compute; exact I.
Defined.
