(* ===== verification/Peers.v ===== *)
(** The table of connected peers
    ([konsensus-message/src/transport/control_reply.rs], [mod.rs]).

    A connection is shared between the table, its reader task and its writers, so
    connections live in a store of their own ([pt_conns], by an identity that
    stands for the [Arc]) and the table maps a peer to one of them.  [register]
    decides between an existing connection and a new one, [remove] is what a
    reader does when its socket ends, [disconnect] what the owner asks for. *)

From S2P Require Import Prelude Types.

Record Connection := mkConn {
  cn_outbound : bool;
  cn_privileged : bool;
  cn_closed : bool
}.

Record PeerTable := mkTable {
  pt_conns : gmap nat Connection;
  pt_map : gmap NodeId nat
}.

Fixpoint bytes_ltb (a b : bytes) : bool :=
  match a, b with
  | [], [] => false
  | [], _ :: _ => true
  | _ :: _, [] => false
  | x :: a', y :: b' => (x <? y) || ((x =? y) && bytes_ltb a' b')
  end.

(** Only opposite directions are arbitrated: the lower node's dial wins. *)
Definition prefer_existing_direction (local peer : NodeId) (old_outbound new_outbound : bool) : bool :=
  negb (Bool.eqb old_outbound new_outbound) && Bool.eqb old_outbound (bytes_ltb local peer).

Definition close_conn (c : Connection) : Connection := mkConn (cn_outbound c) (cn_privileged c) true.
Definition close (id : nat) (t : PeerTable) : PeerTable := mkTable (alter close_conn id (pt_conns t)) (pt_map t).

Definition is_closed (id : nat) (t : PeerTable) : bool :=
  match pt_conns t !! id with Some c => cn_closed c | None => true end.

(** [Connection::new]: the connection exists, the table does not know it yet. *)
Definition new_connection (id : nat) (outbound privileged : bool) (t : PeerTable) : PeerTable :=
  mkTable (<[id := mkConn outbound privileged false]> (pt_conns t)) (pt_map t).

Definition outbound_of (id : nat) (t : PeerTable) : bool :=
  match pt_conns t !! id with Some c => cn_outbound c | None => false end.

Definition register (local peer : NodeId) (id : nat) (t : PeerTable) : PeerTable * bool :=
  match pt_map t !! peer with
  | Some old =>
      if negb (is_closed old t) && prefer_existing_direction local peer (outbound_of old t) (outbound_of id t)
      then (close id t, false)
      else (close old (mkTable (pt_conns t) (<[peer := id]> (pt_map t))), true)
  | None => (mkTable (pt_conns t) (<[peer := id]> (pt_map t)), true)
  end.

(** Only the table's own entry for this very connection is removed. *)
Definition remove (peer : NodeId) (id : nat) (t : PeerTable) : PeerTable :=
  let t := close id t in
  if bool_decide (pt_map t !! peer = Some id) then mkTable (pt_conns t) (delete peer (pt_map t)) else t.

Definition disconnect (peer : NodeId) (t : PeerTable) : PeerTable :=
  match pt_map t !! peer with
  | Some id => close id (mkTable (pt_conns t) (delete peer (pt_map t)))
  | None => t
  end.

Definition is_connected (peer : NodeId) (t : PeerTable) : bool :=
  match pt_map t !! peer with Some id => negb (is_closed id t) | None => false end.

(** ** Two nodes that dial each other

    [low] and [high] each opened a socket to the other: socket 1 is [low]'s dial,
    socket 2 is [high]'s.  Each end has its own connection for each socket.  An
    end registers each of them once, in either order; a reader that was started
    notices the other end closing the socket, or its own, and cleans up. *)

Record party := mkParty {
  py_table : PeerTable;
  py_tried : gset nat;
  py_reading : gset nat
}.

Record crossing := mkCrossing { cr_low : party; cr_high : party }.

Definition LOW_DIAL : nat := 1.
Definition HIGH_DIAL : nat := 2.

Definition fresh_party (is_low : bool) : party :=
  mkParty (new_connection HIGH_DIAL (negb is_low) true (new_connection LOW_DIAL is_low true (mkTable ∅ ∅))) ∅ ∅.
Definition crossed : crossing := mkCrossing (fresh_party true) (fresh_party false).

Definition party_register (local peer : NodeId) (id : nat) (p : party) : party :=
  let '(t, ok) := register local peer id (py_table p) in
  mkParty t ({[id]} ∪ py_tried p) (if ok : bool then {[id]} ∪ py_reading p else py_reading p).

Definition party_cleanup (peer : NodeId) (id : nat) (p : party) : party :=
  mkParty (remove peer id (py_table p)) (py_tried p) (py_reading p ∖ {[id]}).

Section Crossing.
Context (low high : NodeId).

Inductive cross_step : crossing -> crossing -> Prop :=
| low_registers id c : id ∈ [LOW_DIAL; HIGH_DIAL] -> (id ∉ py_tried (cr_low c)) ->
    cross_step c (mkCrossing (party_register low high id (cr_low c)) (cr_high c))
| high_registers id c : id ∈ [LOW_DIAL; HIGH_DIAL] -> (id ∉ py_tried (cr_high c)) ->
    cross_step c (mkCrossing (cr_low c) (party_register high low id (cr_high c)))
| low_cleans_up id c : id ∈ py_reading (cr_low c) ->
    is_closed id (py_table (cr_low c)) || is_closed id (py_table (cr_high c)) = true ->
    cross_step c (mkCrossing (party_cleanup high id (cr_low c)) (cr_high c))
| high_cleans_up id c : id ∈ py_reading (cr_high c) ->
    is_closed id (py_table (cr_low c)) || is_closed id (py_table (cr_high c)) = true ->
    cross_step c (mkCrossing (cr_low c) (party_cleanup low id (cr_high c))).

(** The shape every reachable party has. *)
Record party_ok (peer : NodeId) (is_low : bool) (p : party) : Prop := {
  ok_low_open : pt_conns (py_table p) !! LOW_DIAL = Some (mkConn is_low true false);
  ok_high : exists closed, pt_conns (py_table p) !! HIGH_DIAL = Some (mkConn (negb is_low) true closed) /\
    (HIGH_DIAL ∈ py_tried p -> pt_map (py_table p) !! peer <> Some HIGH_DIAL -> closed = true);
  ok_kept : LOW_DIAL ∈ py_tried p -> pt_map (py_table p) !! peer = Some LOW_DIAL;
  ok_waiting : (LOW_DIAL ∉ py_tried p) ->
    pt_map (py_table p) !! peer = None \/ pt_map (py_table p) !! peer = Some HIGH_DIAL;
  ok_registered : pt_map (py_table p) !! peer = Some HIGH_DIAL -> HIGH_DIAL ∈ py_tried p
}.

Lemma party_ok_fresh peer is_low : party_ok peer is_low (fresh_party is_low).
Proof.
  split; cbn; [done| |set_solver|by left|done].
  eexists. split; [done|set_solver].
Qed.

Lemma party_ok_register local peer is_low p id : bytes_ltb local peer = is_low ->
  id ∈ [LOW_DIAL; HIGH_DIAL] -> (id ∉ py_tried p) -> party_ok peer is_low p ->
  party_ok peer is_low (party_register local peer id p).
Proof.
  intros Hlt Hid Hnew [Hlow (cl & Hhigh & Hcl) Hkept Hwait Hreg].
  rewrite !elem_of_cons in Hid. destruct Hid as [-> | [-> | Hnil]]; [..|by apply elem_of_nil in Hnil].
  - destruct (Hwait Hnew) as [Hnone | Hsome]; unfold party_register, register; rewrite ?Hnone, ?Hsome.
    + split; cbn; rewrite ?lookup_insert_eq; [done| |done|set_solver|done].
      exists cl. split; [done|]. intros Htried _. apply Hcl; [set_solver|by rewrite Hnone].
    + unfold outbound_of, prefer_existing_direction. rewrite Hlow, Hhigh, Hlt. cbn [cn_outbound].
      replace (negb (Bool.eqb (negb is_low) is_low) && Bool.eqb (negb is_low) is_low) with false by by destruct is_low.
      rewrite andb_false_r. split; cbn; rewrite ?lookup_insert_eq; [|..|set_solver|done]; [| |done].
      * by rewrite lookup_alter_ne.
      * exists true. by rewrite lookup_alter_eq, Hhigh.
  - unfold party_register, register. destruct (decide (LOW_DIAL ∈ py_tried p)) as [Hl | Hl].
    + rewrite (Hkept Hl). unfold is_closed, outbound_of, prefer_existing_direction. rewrite Hlow, Hhigh, Hlt. cbn [cn_outbound cn_closed negb andb].
      replace (negb (Bool.eqb is_low (negb is_low)) && Bool.eqb is_low is_low) with true by by destruct is_low.
      split; cbn; [by rewrite lookup_alter_ne| | | |].
      * exists true. by rewrite lookup_alter_eq, Hhigh.
      * intros _. by apply Hkept.
      * set_solver.
      * rewrite (Hkept Hl). done.
    + destruct (Hwait Hl) as [Hnone | Hsome]; [|by apply Hreg in Hsome].
      rewrite Hnone. split; cbn; rewrite ?lookup_insert_eq; [done| |set_solver|by right|set_solver].
      exists cl. split; [done|]. done.
Qed.

Lemma party_ok_cleanup peer is_low p id : id <> LOW_DIAL -> party_ok peer is_low p ->
  party_ok peer is_low (party_cleanup peer id p).
Proof.
  intros Hid [Hlow (cl & Hhigh & Hcl) Hkept Hwait Hreg]. unfold party_cleanup, remove. cbn.
  assert (Hhigh' : forall b : bool, (b = true -> id = HIGH_DIAL) ->
    exists c', alter close_conn id (pt_conns (py_table p)) !! HIGH_DIAL = Some (mkConn (negb is_low) true c') /\
      (cl = true -> c' = true) /\ (b = true -> c' = true)).
  { intros b Hb. destruct (decide (id = HIGH_DIAL)) as [-> | Hne].
    - exists true. by rewrite lookup_alter_eq, Hhigh.
    - exists cl. rewrite lookup_alter_ne by done. split_and!; [done|done|]. intros Ht. by apply Hb in Ht. }
  case_bool_decide as Hin.
  - assert (id = HIGH_DIAL) as ->.
    { destruct (decide (LOW_DIAL ∈ py_tried p)) as [Hl|Hl]; [rewrite (Hkept Hl) in Hin; congruence|].
      destruct (Hwait Hl) as [E|E]; rewrite E in Hin; congruence. }
    destruct (Hhigh' true) as (c' & Hc' & _ & Ht); [done|].
    split; cbn; rewrite ?lookup_delete_eq.
    + by rewrite lookup_alter_ne.
    + exists c'. split; [done|]. auto.
    + intros Hl. rewrite (Hkept Hl) in Hin. done.
    + by left.
    + done.
  - destruct (Hhigh' false) as (c' & Hc' & Hmono & _); [done|].
    split; cbn; [by rewrite lookup_alter_ne| |done..]. exists c'. split; [done|]. auto.
Qed.

Lemma ok_low_not_closed peer is_low p : party_ok peer is_low p -> is_closed LOW_DIAL (py_table p) = false.
Proof. intros [Hlow _ _ _ _]. unfold is_closed. by rewrite Hlow. Qed.

Lemma cross_ok c c' : bytes_ltb low high = true -> bytes_ltb high low = false ->
  party_ok high true (cr_low c) -> party_ok low false (cr_high c) -> cross_step c c' ->
  party_ok high true (cr_low c') /\ party_ok low false (cr_high c').
Proof.
  intros Hlt Hgt Hl Hh Hstep.
  destruct Hstep as [id c Hid Hnew|id c Hid Hnew|id c Hr Hcl|id c Hr Hcl]; cbn in *; (split; [|try done]); try done.
  - by apply party_ok_register.
  - by apply party_ok_register.
  - apply party_ok_cleanup; [|done]. intros ->.
    rewrite (ok_low_not_closed _ _ _ Hl), (ok_low_not_closed _ _ _ Hh) in Hcl. done.
  - apply party_ok_cleanup; [|done]. intros ->.
    rewrite (ok_low_not_closed _ _ _ Hl), (ok_low_not_closed _ _ _ Hh) in Hcl. done.
Qed.

Lemma crossed_run_ok c : bytes_ltb low high = true -> bytes_ltb high low = false ->
  rtc cross_step crossed c -> party_ok high true (cr_low c) /\ party_ok low false (cr_high c).
Proof.
  intros Hlt Hgt Hrun. cut (forall c0, rtc cross_step c0 c -> party_ok high true (cr_low c0) -> party_ok low false (cr_high c0) ->
    party_ok high true (cr_low c) /\ party_ok low false (cr_high c)).
  { intros Hcut. apply (Hcut crossed Hrun); apply party_ok_fresh. }
  clear Hrun. induction 1 as [|c1 c2 c3 Hs _ IH]; [done|]. intros H1 H2.
  destruct (cross_ok _ _ Hlt Hgt H1 H2 Hs) as [H3 H4]. by apply IH.
Qed.
End Crossing.

Lemma bytes_ltb_asym a b : bytes_ltb a b = true -> bytes_ltb b a = false.
Proof.
  revert b. induction a as [|x a IH]; intros [|y b]; cbn; try done.
  rewrite orb_true_iff, andb_true_iff, Z.ltb_lt, Z.eqb_eq. intros [Hlt|[-> Hab]].
  - rewrite (proj2 (Z.ltb_ge _ _)), (proj2 (Z.eqb_neq _ _)) by lia. done.
  - rewrite Z.ltb_irrefl, Z.eqb_refl, (IH _ Hab). done.
Qed.

(** C16: when two nodes dial each other at once, both keep the same connection.
    In whatever order the two ends register the two sockets, and whenever their
    readers notice that a socket was closed, the lower node's dial is never closed
    by either end; an end that has registered it holds it from then on, and an end
    that has seen both sockets has closed the other one. *)
Theorem crossed_dials_settle (low high : NodeId) (c : crossing)
    (Horder : bytes_ltb low high = true) (Hrun : rtc (cross_step low high) crossed c) :
  is_closed LOW_DIAL (py_table (cr_low c)) = false /\ is_closed LOW_DIAL (py_table (cr_high c)) = false /\
  (LOW_DIAL ∈ py_tried (cr_low c) ->
     pt_map (py_table (cr_low c)) !! high = Some LOW_DIAL /\ is_connected high (py_table (cr_low c)) = true /\
     (HIGH_DIAL ∈ py_tried (cr_low c) -> is_closed HIGH_DIAL (py_table (cr_low c)) = true)) /\
  (LOW_DIAL ∈ py_tried (cr_high c) ->
     pt_map (py_table (cr_high c)) !! low = Some LOW_DIAL /\ is_connected low (py_table (cr_high c)) = true /\
     (HIGH_DIAL ∈ py_tried (cr_high c) -> is_closed HIGH_DIAL (py_table (cr_high c)) = true)).
Proof.
  destruct (crossed_run_ok low high c Horder (bytes_ltb_asym _ _ Horder) Hrun) as [Hl Hh].
  assert (Hside : forall peer is_low p, party_ok peer is_low p -> LOW_DIAL ∈ py_tried p ->
    pt_map (py_table p) !! peer = Some LOW_DIAL /\ is_connected peer (py_table p) = true /\
    (HIGH_DIAL ∈ py_tried p -> is_closed HIGH_DIAL (py_table p) = true)).
  { intros peer is_low p Hp Ht. pose proof (ok_low_not_closed _ _ _ Hp) as Hopen.
    destruct Hp as [_ (cl & Hhigh & Hcl) Hkept _ _]. specialize (Hkept Ht).
    unfold is_connected. rewrite Hkept, Hopen. split_and!; [done|done|].
    intros Hh2. unfold is_closed. rewrite Hhigh. cbn. apply Hcl; [done|]. by rewrite Hkept. }
  split_and!; eauto using ok_low_not_closed.
Qed.

(** The higher node's dial is registered first at both ends, then replaced. *)
Lemma crossed_dials_settle_witness :
  let l := party_register [1] [2] LOW_DIAL (party_register [1] [2] HIGH_DIAL (fresh_party true)) in
  let h := party_register [2] [1] LOW_DIAL (party_register [2] [1] HIGH_DIAL (fresh_party false)) in
  rtc (cross_step [1] [2]) crossed (mkCrossing l h) /\ is_closed LOW_DIAL (py_table l) = false.
Proof.
  assert (Hrun : rtc (cross_step [1] [2]) crossed
    (mkCrossing (party_register [1] [2] LOW_DIAL (party_register [1] [2] HIGH_DIAL (fresh_party true)))
                (party_register [2] [1] LOW_DIAL (party_register [2] [1] HIGH_DIAL (fresh_party false))))).
  { eapply rtc_l; [apply (low_registers _ _ HIGH_DIAL); [set_solver|cbn; set_solver]|].
    eapply rtc_l; [apply (high_registers _ _ HIGH_DIAL); [set_solver|cbn; set_solver]|].
    eapply rtc_l; [apply (low_registers _ _ LOW_DIAL); [set_solver|cbn; apply (bool_decide_unpack _); vm_compute; exact I]|].
    eapply rtc_l; [apply (high_registers _ _ LOW_DIAL); [set_solver|cbn; apply (bool_decide_unpack _); vm_compute; exact I]|].
    apply rtc_refl. }
  split; [exact Hrun|]. exact (proj1 (crossed_dials_settle [1] [2] _ eq_refl Hrun)).
Defined.
