(* ===== verification/Handshake.v ===== *)
(** Connecting two nodes ([konsensus-message/src/transport/handshake.rs] and
    [handle_incoming] of [connection.rs]).

    Over a socket the two ends run the Noise handshake, preceded by the cookie
    when the listener asks for it, and then exchange [Hello] and [HelloAck], which
    bind an Ed25519 identity to the X25519 key Noise authenticated.  The Noise
    session is threaded as a value, the socket is the state; an error drops both,
    as in the code, where every function owns them.

    The JSON form of a frame is the parameter [FrameCodec].  A deadline that
    fires ends a run with an error and has no other effect; the socket of a peer
    that falls silent stands for it.  The slots and rates [handle_incoming] asks
    for are arguments: what the semaphore and the limiter answered.  The debug
    form of a discriminant, in the error for an unexpected frame, is left out. *)

From stdpp Require Import pretty.
From S2P Require Import Prelude Framing Cookie Types DoubleRatchet Identity Noise Peers.

Inductive Capability : Type :=
| Pqxdh | CapX3dh | Mls | FileTransfer | Keysend | Relay | Custom (name : string).

Inductive SovereigntyTier : Type := T1 | T2 | T3 | T4.

#[export] Instance Capability_eq_dec : EqDecision Capability.
Proof. solve_decision. Defined.
#[export] Instance SovereigntyTier_eq_dec : EqDecision SovereigntyTier.
Proof. solve_decision. Defined.

Record HelloFields := mkHello {
  he_version : Z;
  he_node_id : NodeId;
  he_x25519_sig : bytes;
  he_x25519_public : bytes;
  he_tier : SovereigntyTier;
  he_capabilities : list Capability
}.

(** The frames the handshake distinguishes; every other one is refused by it.  A
    text is its Unicode characters. *)
Inductive Frame : Type :=
| Hello (h : HelloFields)
| HelloAck (h : HelloFields)
| Disconnect (reason : list Z)
| OtherFrame (variant : string).

#[export] Instance HelloFields_eq_dec : EqDecision HelloFields.
Proof. solve_decision. Defined.
#[export] Instance Frame_eq_dec : EqDecision Frame.
Proof. solve_decision. Defined.

Class FrameCodec := {
  frame_to_bytes : Frame -> result WireError bytes;
  frame_from_bytes : bytes -> result WireError Frame
}.

Inductive ReachabilityMode : Type := Whitelist | PriceOpen.

#[export] Instance ReachabilityMode_eq_dec : EqDecision ReachabilityMode.
Proof. solve_decision. Defined.

Record TransportConfig := mkTransportConfig {
  tc_version : Z;
  tc_tier : SovereigntyTier;
  tc_capabilities : list Capability;
  tc_admission_mode : ReachabilityMode
}.

(** ** A peer's reason, made fit for a log line *)

Definition MAX_CONTROL_REASON_BYTES : nat := 1024.

(** [char::is_control]: the category Cc. *)
Definition is_control (c : Z) : bool := (c <=? 31) || ((127 <=? c) && (c <=? 159)).

Definition utf8 (c : Z) : bytes :=
  if c <? 128 then [c]
  else if c <? 2048 then [192 + c / 64; 128 + c mod 64]
  else if c <? 65536 then [224 + c / 4096; 128 + c / 64 mod 64; 128 + c mod 64]
  else [240 + c / 262144; 128 + c / 4096 mod 64; 128 + c / 64 mod 64; 128 + c mod 64].

Fixpoint sanitize_from (safe : bytes) (reason : list Z) : bytes :=
  match reason with
  | [] => safe
  | ch :: reason' =>
      if is_control ch || (ch =? 8232) || (ch =? 8233) then sanitize_from safe reason'
      else if (MAX_CONTROL_REASON_BYTES <? length safe + length (utf8 ch))%nat then safe
      else sanitize_from (safe ++ utf8 ch) reason'
  end.
Definition sanitized_peer_reason (reason : list Z) : bytes := sanitize_from [] reason.

Definition string_of_bytes (bs : bytes) : string :=
  fold_right (fun b s => String (Ascii.ascii_of_N (Z.to_N b)) s) EmptyString bs.
Definition chars_of_string (s : string) : list Z :=
  map (fun a => Z.of_N (Ascii.N_of_ascii a)) (String.list_ascii_of_string s).

Section Handshake.
Context {P : Prims} {IP : IdentityPrims} {RP : RatchetPrims} {SP : SnowPrims} {FC : FrameCodec}.

(** The errors of the layers below, as the callers report them. *)
Definition wire_other {A} (m : comp Socket WireError A) : comp Socket TransportError A :=
  cmap_err (fun e => TransportOther (WireError_to_string e)) m.
Definition wire_noise {A} (m : comp Socket WireError A) : comp Socket TransportError A :=
  cmap_err (fun e => TransportNoise (WireError_to_string e)) m.
Definition noise_step {A} (p : NoiseSession * result NoiseError A) : comp Socket TransportError (NoiseSession * A) :=
  clift (let '(n, r) := p in let? a := map_err (fun e => TransportNoise (NoiseError_to_string e)) r in Ok (n, a)).
Definition noise_new (r : result NoiseError NoiseSession) : comp Socket TransportError NoiseSession :=
  clift (map_err (fun e => TransportNoise (NoiseError_to_string e)) r).

(** ** Noise *)

(** [rng1], [rng1'] and [rng3] are the ephemeral randomness of the first message,
    of the one sent again after a cookie, and of the last. *)
Definition noise_handshake_initiator (x25519_secret rng1 rng1' rng3 : bytes) : comp Socket TransportError NoiseSession :=
  let! noise := noise_new (noise_initiator x25519_secret) in
  let! (noise, msg1) := noise_step (write_handshake rng1 [] noise) in
  let! _ := wire_noise (write_noise_message msg1) in
  let! reply := wire_noise read_noise_message in
  let! (noise, msg2) :=
    match parse_challenge reply with
    | Some ch =>
        let! _ := answer_challenge ch in
        let! noise := noise_new (noise_initiator x25519_secret) in
        let! (noise, fresh_msg1) := noise_step (write_handshake rng1' [] noise) in
        let! _ := wire_noise (write_noise_message fresh_msg1) in
        let! msg2 := wire_noise read_noise_message in
        cret (noise, msg2)
    | None => cret (noise, reply)
    end in
  let! (noise, _) := noise_step (read_handshake msg2 noise) in
  let! (noise, msg3) := noise_step (write_handshake rng3 [] noise) in
  let! _ := wire_noise (write_noise_message msg3) in
  let! (noise, _) := noise_step (try_finish_handshake noise) in
  cret noise.

Definition noise_handshake_responder (rng2 : bytes) (noise : NoiseSession) : comp Socket TransportError NoiseSession :=
  let! msg1 := wire_noise (read_bounded_message 32) in
  let! (noise, _) := noise_step (read_handshake msg1 noise) in
  let! (noise, msg2) := noise_step (write_handshake rng2 [] noise) in
  let! _ := wire_noise (write_noise_message msg2) in
  let! msg3 := wire_noise (read_bounded_message 64) in
  let! (noise, _) := noise_step (read_handshake msg3 noise) in
  let! (noise, _) := noise_step (try_finish_handshake noise) in
  cret noise.

(** ** Frames under Noise *)

Definition own_hello (identity : NodeIdentity) (config : TransportConfig) : HelloFields :=
  mkHello (tc_version config) (id_node_id identity)
    (ed_sign (id_ed25519_signing identity) (id_x25519_public identity)) (id_x25519_public identity)
    (tc_tier config) (tc_capabilities config).

Definition build_hello_frame (identity : NodeIdentity) (config : TransportConfig) : Frame :=
  Hello (own_hello identity config).
Definition build_hello_ack_frame (identity : NodeIdentity) (config : TransportConfig) : Frame :=
  HelloAck (own_hello identity config).

Definition verify_identity_binding (node_id : NodeId) (x25519_public x25519_sig : bytes) : result TransportError unit :=
  let? verifying_key := map_err (fun e => Rejected ("invalid node ID: " +:+ CoreError_to_string e))
                          (NodeId_to_verifying_key node_id) in
  let? sig := map_err (fun e => Rejected ("invalid signature: " +:+ e)) (dalek_signature_from_slice x25519_sig) in
  map_err (fun e => Rejected ("identity binding failed: " +:+ e)) (ed_verify verifying_key x25519_public sig).

Definition send_encrypted_frame (frame : Frame) (noise : NoiseSession) : comp Socket TransportError NoiseSession :=
  let! frame_bytes := clift (map_err (fun e => WireProtocol (WireError_to_string e)) (frame_to_bytes frame)) in
  let! (noise, encrypted) := noise_step (encrypt frame_bytes noise) in
  let! _ := wire_other (write_noise_message encrypted) in
  cret noise.

Definition recv_encrypted_frame (noise : NoiseSession) : comp Socket TransportError (NoiseSession * Frame) :=
  let! encrypted := wire_other (read_bounded_message 4096) in
  let! (noise, decrypted) := noise_step (decrypt encrypted noise) in
  let! frame := clift (map_err (fun e => WireProtocol (log_category e)) (frame_from_bytes decrypted)) in
  cret (noise, frame).

(** A farewell whose failure is only logged. *)
Definition send_farewell (frame : Frame) (noise : NoiseSession) : comp Socket TransportError unit :=
  fun s => ((send_encrypted_frame frame noise s).1, Ok tt).

(** ** The federation handshake *)

Definition mismatch_error (config : TransportConfig) (version : Z) : TransportError :=
  Rejected ("protocol version mismatch: local=" +:+ pretty (tc_version config) +:+ ", remote=" +:+ pretty version).

(** The binding of the claimed key to the one Noise authenticated. *)
Definition check_noise_static (frame_name : string) (x25519_public : bytes) (noise : NoiseSession) : result TransportError unit :=
  match ns_remote_static noise with
  | Some noise_remote =>
      if bool_decide (x25519_public = noise_remote) then Ok tt
      else Err (Rejected (frame_name +:+ " x25519_public does not match Noise remote static key"))
  | None => Err (TransportNoise "remote static key not available after handshake")
  end.

Definition peer_disconnected (reason : list Z) : TransportError :=
  Rejected ("peer disconnected: " +:+ string_of_bytes (sanitized_peer_reason reason)).

Definition perform_federation_handshake_initiator (identity : NodeIdentity) (config : TransportConfig) (noise : NoiseSession)
    : comp Socket TransportError (NodeId * SovereigntyTier * list Capability * NoiseSession) :=
  let! noise := send_encrypted_frame (build_hello_frame identity config) noise in
  let! (noise, frame) := recv_encrypted_frame noise in
  match frame with
  | HelloAck h =>
      if negb (he_version h =? tc_version config) then
        let! _ := send_farewell (Disconnect (chars_of_string
                    ("version mismatch: expected " +:+ pretty (tc_version config) +:+ ", got " +:+ pretty (he_version h)))) noise in
        cthrow (mismatch_error config (he_version h))
      else
        let! _ := clift (verify_identity_binding (he_node_id h) (he_x25519_public h) (he_x25519_sig h)) in
        let! _ := clift (check_noise_static "HelloAck" (he_x25519_public h) noise) in
        cret (he_node_id h, he_tier h, he_capabilities h, noise)
  | Disconnect reason => cthrow (peer_disconnected reason)
  | _ => cthrow (WireProtocol "expected HelloAck")
  end.

Definition listed (whitelist : gset NodeId) (node_id : NodeId) : bool :=
  negb (bool_decide (whitelist = ∅)) && bool_decide (node_id ∈ whitelist).

Definition perform_federation_handshake_responder (identity : NodeIdentity) (config : TransportConfig)
    (whitelist : gset NodeId) (noise : NoiseSession)
    : comp Socket TransportError (NodeId * SovereigntyTier * list Capability * NoiseSession * bool) :=
  let! (noise, frame) := recv_encrypted_frame noise in
  match frame with
  | Hello h =>
      if negb (he_version h =? tc_version config) then
        let! _ := send_farewell (Disconnect (chars_of_string ("version mismatch: " +:+ pretty (he_version h)))) noise in
        cthrow (mismatch_error config (he_version h))
      else
        let! _ := clift (verify_identity_binding (he_node_id h) (he_x25519_public h) (he_x25519_sig h)) in
        let! _ := clift (check_noise_static "Hello" (he_x25519_public h) noise) in
        let privileged := listed whitelist (he_node_id h) in
        if bool_decide (tc_admission_mode config = Whitelist) && negb privileged then
          let! _ := send_farewell (Disconnect (chars_of_string "not in whitelist")) noise in
          cthrow (Rejected ("peer " +:+ hex_encode (he_node_id h) +:+ " not in whitelist (checked before HelloAck)"))
        else
          let! noise := send_encrypted_frame (build_hello_ack_frame identity config) noise in
          cret (he_node_id h, he_tier h, he_capabilities h, noise, privileged)
  | Disconnect reason => cthrow (peer_disconnected reason)
  | _ => cthrow (WireProtocol "expected Hello")
  end.

(** ** The two ends of a connection *)

(** What the node's connections share. *)
Record Node := mkNode {
  nd_keys : KeyGenerations;
  nd_bans : gmap NodeId Z;
  nd_peers : PeerTable;
  nd_events : list (NodeId * bool)
}.

Definition on_wire {A} (m : comp Socket TransportError A) : comp (Node * Socket) TransportError A :=
  fun '(nd, s) => let '(s', r) := m s in ((nd, s'), r).
Definition on_gate {A} (m : comp (KeyGenerations * Socket) TransportError A) : comp (Node * Socket) TransportError A :=
  fun '(nd, s) =>
    let '((k, s'), r) := m (nd_keys nd, s) in
    ((mkNode k (nd_bans nd) (nd_peers nd) (nd_events nd), s'), r).
Definition on_node {A} (m : Node -> Node * result TransportError A) : comp (Node * Socket) TransportError A :=
  fun '(nd, s) => let '(nd', r) := m nd in ((nd', s), r).

(** An expired ban is dropped, a live one refuses. *)
Definition check_ban (peer : NodeId) (now : Z) (nd : Node) : Node * result TransportError unit :=
  match nd_bans nd !! peer with
  | Some expiry =>
      if now <? expiry then (nd, Err (Rejected ("peer " +:+ hex_encode peer +:+ " is temporarily banned")))
      else (mkNode (nd_keys nd) (delete peer (nd_bans nd)) (nd_peers nd) (nd_events nd), Ok tt)
  | None => (nd, Ok tt)
  end.

(** [Connection::new] and [register]: the new connection [id], if the socket
    could be cloned; the answer is whether it was kept. *)
Definition install_connection (local peer : NodeId) (id : nat) (cloned : result string unit) (outbound privileged : bool)
    (nd : Node) : Node * result TransportError bool :=
  match cloned with
  | Err e => (nd, Err (TransportOther e))
  | Ok _ =>
      let '(t, kept) := register local peer id (new_connection id outbound privileged (nd_peers nd)) in
      (mkNode (nd_keys nd) (nd_bans nd) t (nd_events nd), Ok kept)
  end.

Definition notify_connected (peer : NodeId) (privileged : bool) (nd : Node) : Node * result TransportError unit :=
  (mkNode (nd_keys nd) (nd_bans nd) (nd_peers nd) (nd_events nd ++ [(peer, privileged)]), Ok tt).

(** What the surroundings answer during one incoming connection. *)
Record IncomingEnv := mkIncoming {
  ie_require_cookie : bool;
  ie_gate : GateEnv;
  ie_ip : IpAddr;
  ie_slot : bool;
  ie_rate : bool;
  ie_rng : bytes;
  ie_whitelist : gset NodeId;
  ie_now : Z;
  ie_receiver_open : bool;
  ie_cloned : result string unit;
  ie_conn : nat
}.

Context {HP : HmacPrims}.

(** Up to the point where the peer is known. *)
Definition incoming_handshake (e : IncomingEnv) (identity : NodeIdentity) (config : TransportConfig)
    : comp (Node * Socket) TransportError (NodeId * SovereigntyTier * list Capability * NoiseSession * bool) :=
  let! _ := if ie_require_cookie e then on_gate (cookie_gate_responder (ie_gate e) (ie_ip e)) else cret tt in
  if negb (ie_slot e) then cthrow (Rejected "global handshake limit")
  else if negb (ie_rate e) then cthrow (Rejected "source handshake rate limit")
  else
    let! noise := on_wire (noise_new (noise_responder (id_x25519_secret identity))) in
    let! noise := on_wire (noise_handshake_responder (ie_rng e) noise) in
    on_wire (perform_federation_handshake_responder identity config (ie_whitelist e) noise).

Definition handle_incoming (e : IncomingEnv) (identity : NodeIdentity) (config : TransportConfig)
    : comp (Node * Socket) TransportError unit :=
  let! (peer, _, _, _, privileged) := incoming_handshake e identity config in
  let! _ := on_node (check_ban peer (ie_now e)) in
  if negb (ie_receiver_open e) then cthrow (Rejected "connection event receiver closed")
  else
    let! kept := on_node (install_connection (id_node_id identity) peer (ie_conn e) (ie_cloned e) false privileged) in
    if negb kept then cret tt
    else on_node (notify_connected peer privileged).

(** What the surroundings answer during one dial. *)
Record DialEnv := mkDial {
  de_shutdown : bool;
  de_tcp : result string unit;
  de_rng1 : bytes; de_rng1' : bytes; de_rng3 : bytes;
  de_whitelist : gset NodeId;
  de_cloned : result string unit;
  de_conn : nat;
  de_receiver_open : bool
}.

(** The owner's dial of [peer]; the event is lost, and only logged, when nobody
    listens. *)
Definition connect_to_peer (e : DialEnv) (peer : NodeId) (identity : NodeIdentity) (config : TransportConfig)
    : comp (Node * Socket) TransportError unit :=
  if de_shutdown e then cthrow (TransportOther "transport shut down")
  else
    let! connected := on_node (fun nd => (nd, Ok (is_connected peer (nd_peers nd)))) in
    if connected : bool then cret tt
    else
      let! _ := clift (map_err ConnectionFailed (de_tcp e)) in
      let! noise := on_wire (noise_handshake_initiator (id_x25519_secret identity) (de_rng1 e) (de_rng1' e) (de_rng3 e)) in
      let! (peer_node_id, _, _, noise) := on_wire (perform_federation_handshake_initiator identity config noise) in
      if negb (bool_decide (peer_node_id = peer)) then
        let! _ := on_wire (send_farewell (Disconnect (chars_of_string "node ID mismatch")) noise) in
        cthrow (Rejected ("expected peer " +:+ hex_encode peer +:+ ", got " +:+ hex_encode peer_node_id))
      else
        let privileged := listed (de_whitelist e) peer in
        let! kept := on_node (install_connection (id_node_id identity) peer_node_id (de_conn e) (de_cloned e) true privileged) in
        if negb kept then cret tt
        else if de_receiver_open e then on_node (notify_connected peer_node_id privileged)
        else cret tt.
End Handshake.
