(* ===== verification/HandshakeProps.v ===== *)
(** What connecting guarantees: two honest nodes always end up connected under
    each other's identity, and nobody else is ever put in the table of peers or
    told who this node is. *)

From S2P Require Import Prelude Framing Cookie CookieProps Types DoubleRatchet Identity Noise NoiseProps Peers Handshake.

(** ** Running computations *)

Lemma cbind_ok {S E A B} (m : comp S E A) (k : A -> comp S E B) s s' a : m s = (s', Ok a) -> cbind m k s = k a s'.
Proof. intros H. unfold cbind. by rewrite H. Qed.

Lemma cbind_inv {S E A B} (m : comp S E A) (k : A -> comp S E B) s s' b : cbind m k s = (s', Ok b) ->
  exists a s1, m s = (s1, Ok a) /\ k a s1 = (s', Ok b).
Proof. unfold cbind. destruct (m s) as [s1 [a|e]]; [|done]. eauto. Qed.

(** Runs the first computation of a sequence. *)
Tactic Notation "run" tactic3(tac) := erewrite cbind_ok; [|tac]; cbv beta iota.

Lemma write_open (f : WireError -> TransportError) m i fin o : fits_u32 m ->
  cmap_err f (write_noise_message m) (open_socket i fin o) = (open_socket i fin (o ++ framed m), Ok tt).
Proof. intros Hm. unfold cmap_err. by rewrite write_noise_framed. Qed.

Lemma read_open (f : WireError -> TransportError) cap m rest fin o : Z.of_nat (length m) <= cap -> cap <= U32_MAX ->
  cmap_err f (read_capped cap) (open_socket (framed m ++ rest) fin o) = (open_socket rest fin o, Ok m).
Proof. intros Hm Hcap. unfold cmap_err. by rewrite (read_capped_framed cap m rest) by done. Qed.

Section Honest.
Context {P : Prims} {IP : IdentityPrims} {RP : RatchetPrims} {SP : SnowPrims} {FC : FrameCodec} {HP : HmacPrims}.
Context {IL : IdentityLaws} {SL : SnowLaws} {HL : HmacLaws}.

(** An undisturbed Noise_XX handshake, through the wrapper. *)
Record xx_run (a b r1 r2 r3 m1 m2 m3 : bytes) (I R : NoiseSession) : Prop := {
  xr_sizes : is_array 32 m1 /\ is_array 96 m2 /\ is_array 64 m3;
  xr_initiator : exists n0 n1 n2 n3 p, noise_initiator a = Ok n0 /\ write_handshake r1 [] n0 = (n1, Ok m1) /\
    read_handshake m2 n1 = (n2, Ok p) /\ write_handshake r3 [] n2 = (n3, Ok m3) /\ try_finish_handshake n3 = (I, Ok true);
  xr_responder : exists q0 q1 q2 q3 p p', noise_responder b = Ok q0 /\ read_handshake m1 q0 = (q1, Ok p) /\
    write_handshake r2 [] q1 = (q2, Ok m2) /\ read_handshake m3 q2 = (q3, Ok p') /\ try_finish_handshake q3 = (R, Ok true);
  xr_keys : ns_remote_static I = Some (x25519_public b) /\ ns_remote_static R = Some (x25519_public a);
  xr_pipes : forall n, Z.of_nat n < U64_MAX -> pipe n I [] R /\ pipe n R [] I
}.

Lemma xx_runs a b r1 r2 r3 : is_array 32 a -> is_array 32 b -> exists m1 m2 m3 I R, xx_run a b r1 r2 r3 m1 m2 m3 I R.
Proof.
  intros Ha Hb. destruct (xx_handshake a b r1 r2 r3 Ha Hb) as (i0 & i1 & i2 & i3 & q0 & q1 & q2 & q3 & m1 & m2 & m3 & ti & tq &
    Hi0 & Hq0 & Hw1 & H1 & Hr1 & Hw2 & H2 & Hr2 & Hw3 & H3 & Hr3 & Hsi & Hsq & Hfi & Hfq & Hh & [Hlen Hhb] & Hti & Htq & Hlink).
  exists m1, m2, m3.
  exists (mkNoise (Some (Transport ti)) true (Some (x25519_public b)) (Some (get_handshake_hash i3))).
  exists (mkNoise (Some (Transport tq)) false (Some (x25519_public a)) (Some (get_handshake_hash q3))).
  split; [done| | |done|].
  - unfold noise_initiator, write_handshake, read_handshake, try_finish_handshake. rewrite Hi0.
    do 5 eexists. split; [done|]. cbn [ns_state]. rewrite Hw1. split; [done|]. cbn [ns_state captured]. rewrite Hr2.
    split; [done|]. cbn [ns_state captured]. rewrite Hw3. split; [done|].
    cbn [ns_state captured ns_remote_static ns_is_initiator]. rewrite Hfi, Hlen, Hti, Hsi. done.
  - unfold noise_responder, write_handshake, read_handshake, try_finish_handshake. rewrite Hq0.
    do 6 eexists. split; [done|]. cbn [ns_state]. rewrite Hr1. split; [done|]. cbn [ns_state captured]. rewrite Hw2.
    split; [done|]. cbn [ns_state captured]. rewrite Hr3. split; [done|].
    cbn [ns_state captured ns_remote_static ns_is_initiator]. rewrite Hfq, <- Hh, Hlen, Htq, Hsq. done.
  - intros n Hn. destruct (Hlink n Hn) as [H12 H21]. split.
    + exists ti, tq, []. done.
    + exists tq, ti, []. done.
Qed.

Lemma small_fits m n : is_array n m -> Z.of_nat n <= 4096 -> fits_u32 m.
Proof. intros [Hl _] Hn. unfold fits_u32. rewrite Hl. solve_int. Qed.

Lemma responder_noise_run a b r1 r2 r3 m1 m2 m3 I R rest fin o n0 : xx_run a b r1 r2 r3 m1 m2 m3 I R ->
  noise_responder b = Ok n0 ->
  noise_handshake_responder r2 n0 (open_socket (framed m1 ++ framed m3 ++ rest) fin o) =
  (open_socket rest fin (o ++ framed m2), Ok R).
Proof.
  intros [(H1 & H2 & H3) _ (q0 & q1 & q2 & q3 & p & p' & Hq0 & Hr1 & Hw2 & Hr3 & Hf) _ _] Hn0.
  rewrite Hq0 in Hn0. injection Hn0 as <-. unfold noise_handshake_responder, wire_noise, read_bounded_message.
  run (apply read_open; [by rewrite (proj1 H1)|done]). rewrite Hr1.
  run done. rewrite Hw2. run done.
  run (apply write_open; by apply (small_fits _ 96)).
  run (apply read_open; [by rewrite (proj1 H3)|done]). rewrite Hr3.
  run done. rewrite Hf. run done. done.
Qed.

Lemma noise_cap : MAX_FRAME_SIZE + 1024 <= U32_MAX.
Proof. done. Qed.

Lemma initiator_noise_run a b r1 r1' r2 r3 m1 m2 m3 I R rest fin o : xx_run a b r1 r2 r3 m1 m2 m3 I R ->
  noise_handshake_initiator a r1 r1' r3 (open_socket (framed m2 ++ rest) fin o) =
  (open_socket rest fin (o ++ framed m1 ++ framed m3), Ok I).
Proof.
  intros [(H1 & H2 & H3) (n0 & n1 & n2 & n3 & p & Hn0 & Hw1 & Hr2 & Hw3 & Hf) _ _ _].
  unfold noise_handshake_initiator, wire_noise, read_noise_message, noise_new. rewrite Hn0.
  run done. rewrite Hw1. run done.
  run (apply write_open; by apply (small_fits _ 32)).
  run (apply read_open; [by rewrite (proj1 H2)|apply noise_cap]).
  replace (parse_challenge m2) with (@None CookieFrame)
    by (unfold parse_challenge, decode; rewrite (proj1 H2); reflexivity).
  run done. rewrite Hr2. run done. rewrite Hw3. run done.
  run (apply write_open; by apply (small_fits _ 64)). rewrite Hf. run done.
  by rewrite <- app_assoc.
Qed.

(** With a cookie in between: the first message is answered by a challenge, which
    is echoed, and the handshake starts over. *)
Lemma initiator_cookie_run a b r1 r1' r2 r3 n0 n1 m0 m1 m2 m3 I R ch f resp rest fin o :
  noise_initiator a = Ok n0 -> write_handshake r1 [] n0 = (n1, Ok m0) -> is_array 32 m0 ->
  xx_run a b r1' r2 r3 m1 m2 m3 I R ->
  Z.of_nat (length ch) <= 64 -> parse_challenge ch = Some f ->
  (forall i fin o, answer_challenge f (open_socket i fin o) = (open_socket i fin (o ++ resp), Ok tt)) ->
  noise_handshake_initiator a r1 r1' r3 (open_socket (framed ch ++ framed m2 ++ rest) fin o) =
  (open_socket rest fin (o ++ framed m0 ++ resp ++ framed m1 ++ framed m3), Ok I).
Proof.
  intros Hn0 Hw0 H0 [(H1 & H2 & H3) (n0' & n1' & n2 & n3 & p & Hn0' & Hw1 & Hr2 & Hw3 & Hf) _ _ _] Hch Hparse Hans.
  unfold noise_handshake_initiator, wire_noise, read_noise_message, noise_new. rewrite Hn0.
  run done. rewrite Hw0. run done.
  run (apply write_open; by apply (small_fits _ 32)).
  run (apply read_open; [unfold MAX_FRAME_SIZE; lia|apply noise_cap]). rewrite Hparse.
  erewrite cbind_ok.
  2:{ run (apply Hans). rewrite Hn0 in Hn0'. injection Hn0' as <-. run done.
      rewrite Hw1. run done. run (apply write_open; by apply (small_fits _ 32)).
      run (apply read_open; [by rewrite (proj1 H2)|apply noise_cap]). done. }
  cbv beta iota. rewrite Hr2. run done. rewrite Hw3. run done.
  run (apply write_open; by apply (small_fits _ 64)). rewrite Hf. run done.
  by rewrite <- !app_assoc.
Qed.

(** ** Hello and HelloAck *)

(** A frame whose JSON form [b] reads back and fits a handshake record. *)
Definition carried (f : Frame) (b : bytes) : Prop :=
  frame_to_bytes f = Ok b /\ frame_from_bytes b = Ok f /\ Z.of_nat (length b) <= 4096 - 18.

Lemma send_run f b N Q q n i fin o : carried f b -> pipe (S n) N q Q ->
  exists N' c m, send_encrypted_frame f N (open_socket i fin o) = (open_socket i fin (o ++ framed c), Ok N') /\
    encrypt b N = (N', Ok c) /\ pipe m N' (q ++ [(c, b)]) Q /\ ns_remote_static N' = ns_remote_static N /\
    Z.of_nat (length c) <= 4096.
Proof.
  intros (Hto & _ & Hlen) Hp.
  assert (Hk : (length (payload_chunks b) <= 1)%nat) by (apply payload_chunks_short; unfold MAX_NOISE_PAYLOAD; lia).
  replace (S n) with (length (payload_chunks b) + (S n - length (payload_chunks b)))%nat in Hp by lia.
  destruct (pipe_send _ _ _ _ _ Hp) as (N' & c & He & Hp' & Hrs & Hc).
  exists N', c, (S n - length (payload_chunks b))%nat. split; [|split_and!; try done; lia].
  unfold send_encrypted_frame, wire_other. rewrite Hto. run done. rewrite He. run done.
  run (apply write_open; unfold fits_u32; solve_int). done.
Qed.

Lemma recv_run f b N Q c m rest fin o : carried f b -> pipe m N [(c, b)] Q -> Z.of_nat (length c) <= 4096 ->
  exists Q', recv_encrypted_frame Q (open_socket (framed c ++ rest) fin o) = (open_socket rest fin o, Ok (Q', f)) /\
    decrypt c Q = (Q', Ok b) /\ ns_remote_static Q' = ns_remote_static Q.
Proof.
  intros (_ & Hfrom & _) Hp Hc. destruct (pipe_receive _ _ _ _ _ _ Hp) as (Q' & Hd & _ & Hrs).
  exists Q'. split; [|done]. unfold recv_encrypted_frame, wire_other, read_bounded_message.
  run (apply read_open; [done|done]). rewrite Hd. run done. rewrite Hfrom. run done. done.
Qed.

Lemma own_binding i config : identity_ok i ->
  verify_identity_binding (he_node_id (own_hello i config)) (he_x25519_public (own_hello i config))
    (he_x25519_sig (own_hello i config)) = Ok tt.
Proof.
  intros [_ _ (k & Hk & Hsk) Hvk Hid]. unfold verify_identity_binding, NodeId_to_verifying_key, own_hello. cbn.
  rewrite Hid, Hvk, Hsk, vk_bytes_roundtrip by done. cbn.
  rewrite signature_from_array by apply ed_sign_array. cbn. by rewrite ed_sign_verifies.
Qed.

(** Both halves of the exchange, on the two ends of one Noise session. *)
Lemma federation_runs A B cfgA cfgB whitelist hb ab I R :
  identity_ok A -> identity_ok B -> tc_version cfgA = tc_version cfgB ->
  carried (build_hello_frame A cfgA) hb -> carried (build_hello_ack_frame B cfgB) ab ->
  tc_admission_mode cfgB = PriceOpen \/ listed whitelist (id_node_id A) = true ->
  ns_remote_static I = Some (x25519_public (id_x25519_secret B)) ->
  ns_remote_static R = Some (x25519_public (id_x25519_secret A)) ->
  pipe 1 I [] R -> pipe 1 R [] I ->
  exists c1 c2 I' R',
    (forall rest fin o, perform_federation_handshake_initiator A cfgA I (open_socket (framed c2 ++ rest) fin o) =
      (open_socket rest fin (o ++ framed c1), Ok (id_node_id B, tc_tier cfgB, tc_capabilities cfgB, I'))) /\
    (forall rest fin o, perform_federation_handshake_responder B cfgB whitelist R (open_socket (framed c1 ++ rest) fin o) =
      (open_socket rest fin (o ++ framed c2),
       Ok (id_node_id A, tc_tier cfgA, tc_capabilities cfgA, R', listed whitelist (id_node_id A)))).
Proof.
  intros HA HB Hver Hhello Hack Hadm HrI HrR Hp1 Hp2.
  destruct (send_run _ _ _ _ _ _ [] Silent [] Hhello Hp1) as (I1 & c1 & m1 & _ & He1 & Hp1' & Hrs1 & Hc1).
  apply (pipe_other_send _ _ _ _ hb) in Hp2. rewrite He1 in Hp2. cbn [fst] in Hp2.
  destruct (recv_run _ _ _ _ _ _ [] Silent [] Hhello Hp1' Hc1) as (R1 & _ & Hd1 & Hrs2).
  apply (pipe_other_receive _ _ _ _ c1) in Hp2. rewrite Hd1 in Hp2. cbn [fst] in Hp2.
  destruct (send_run _ _ _ _ _ _ [] Silent [] Hack Hp2) as (R2 & c2 & m2 & _ & He2 & Hp2' & Hrs3 & Hc2).
  destruct (recv_run _ _ _ _ _ _ [] Silent [] Hack Hp2' Hc2) as (I2 & _ & Hd2 & Hrs4).
  exists c1, c2, I2, R2. split; intros rest fin o.
  - unfold perform_federation_handshake_initiator. 
    destruct (send_run _ _ _ _ _ _ (framed c2 ++ rest) fin o Hhello Hp1) as (I1' & c1' & m1' & Hs & He1' & _).
    rewrite He1 in He1'. injection He1' as <- <-. run (exact Hs).
    destruct (recv_run _ _ _ _ _ _ rest fin (o ++ framed c1) Hack Hp2' Hc2) as (I2' & Hr & Hd2' & _).
    rewrite Hd2 in Hd2'. injection Hd2' as <-. run (exact Hr). unfold build_hello_ack_frame.
    change (he_version (own_hello B cfgB)) with (tc_version cfgB). rewrite Hver, Z.eqb_refl. cbn [negb].
    rewrite (own_binding B cfgB HB). run done. unfold check_noise_static.
    rewrite Hrs4, Hrs1, HrI, bool_decide_eq_true_2 by apply (io_x25519 _ HB). run done. done.
  - unfold perform_federation_handshake_responder.
    destruct (recv_run _ _ _ _ _ _ rest fin o Hhello Hp1' Hc1) as (R1' & Hr & Hd1' & _).
    rewrite Hd1 in Hd1'. injection Hd1' as <-. run (exact Hr). unfold build_hello_frame.
    change (he_version (own_hello A cfgA)) with (tc_version cfgA). rewrite Hver, Z.eqb_refl. cbn [negb].
    rewrite (own_binding A cfgA HA). run done. unfold check_noise_static.
    rewrite Hrs2, HrR, bool_decide_eq_true_2 by apply (io_x25519 _ HA). run done.
    replace (bool_decide _ && negb _) with false
      by (destruct Hadm as [-> | Hl]; [done|change (he_node_id (own_hello A cfgA)) with (id_node_id A);
          rewrite Hl; by rewrite andb_false_r]).
    destruct (send_run _ _ _ _ _ _ rest fin o Hack Hp2) as (R2' & c2' & m2' & Hs & He2' & _).
    rewrite He2 in He2'. injection He2' as <- <-. run (exact Hs). done.
Qed.

(** ** The two ends *)

(** A dial nothing stands in the way of. *)
Record dial_ready (d : DialEnv) (peer : NodeId) (nd : Node) : Prop := {
  dr_running : de_shutdown d = false;
  dr_tcp : de_tcp d = Ok tt;
  dr_cloned : de_cloned d = Ok tt;
  dr_receiver : de_receiver_open d = true;
  dr_unconnected : is_connected peer (nd_peers nd) = false;
  dr_new : pt_map (nd_peers nd) !! peer <> Some (de_conn d)
}.

(** A listener that has room for the caller; if it asks for a cookie, the exchange
    is timely. *)
Record listener_ready (e : IncomingEnv) (peer : NodeId) (nd : Node) : Prop := {
  lr_cookie : ie_require_cookie e = true -> timely (ie_gate e);
  lr_slot : ie_slot e = true;
  lr_rate : ie_rate e = true;
  lr_ban : forall expiry, nd_bans nd !! peer = Some expiry -> expiry <= ie_now e;
  lr_receiver : ie_receiver_open e = true;
  lr_cloned : ie_cloned e = Ok tt;
  lr_unconnected : is_connected peer (nd_peers nd) = false;
  lr_new : pt_map (nd_peers nd) !! peer <> Some (ie_conn e)
}.

Lemma install_new local peer id outbound privileged nd :
  is_connected peer (nd_peers nd) = false -> pt_map (nd_peers nd) !! peer <> Some id ->
  exists t, install_connection local peer id (Ok tt) outbound privileged nd =
    (mkNode (nd_keys nd) (nd_bans nd) t (nd_events nd), Ok true) /\
    is_connected peer t = true /\ pt_map t = <[peer := id]> (pt_map (nd_peers nd)).
Proof.
  intros Hoff Hnew. unfold install_connection, register. cbn [pt_map new_connection].
  unfold is_connected in Hoff. destruct (pt_map (nd_peers nd) !! peer) as [old|] eqn:Hm.
  - assert (Hne : id <> old) by congruence. apply negb_false_iff in Hoff.
    assert (Hc : is_closed old (new_connection id outbound privileged (nd_peers nd)) = true).
    { unfold is_closed, new_connection in *. cbn. by rewrite lookup_insert_ne. }
    rewrite Hc. cbn [negb andb]. eexists. split; [done|]. split; [|done].
    unfold is_connected, is_closed, close. cbn. rewrite lookup_insert_eq, lookup_alter_ne by done.
    by rewrite lookup_insert_eq.
  - eexists. split; [done|]. split; [|done]. unfold is_connected, is_closed. cbn.
    by rewrite !lookup_insert_eq.
Qed.

Lemma on_wire_ok {A} (m : comp Socket TransportError A) nd s s' r : m s = (s', r) -> on_wire m (nd, s) = ((nd, s'), r).
Proof. intros H. unfold on_wire. by rewrite H. Qed.

(** The dialling side, once its handshakes run. *)
Lemma connect_runs d A B cfgA nd s s1 s2 I tier caps I' :
  dial_ready d (id_node_id B) nd ->
  noise_handshake_initiator (id_x25519_secret A) (de_rng1 d) (de_rng1' d) (de_rng3 d) s = (s1, Ok I) ->
  perform_federation_handshake_initiator A cfgA I s1 = (s2, Ok (id_node_id B, tier, caps, I')) ->
  exists nd', connect_to_peer d (id_node_id B) A cfgA (nd, s) = ((nd', s2), Ok tt) /\
    is_connected (id_node_id B) (nd_peers nd') = true /\
    nd_events nd' = nd_events nd ++ [(id_node_id B, listed (de_whitelist d) (id_node_id B))].
Proof.
  intros [Hrun Htcp Hcl Hrecv Hoff Hnew] Hnoise Hfed.
  destruct (install_new (id_node_id A) (id_node_id B) (de_conn d) true (listed (de_whitelist d) (id_node_id B)) nd Hoff Hnew)
    as (t & Hinst & Hon & _).
  eexists. split.
  { unfold connect_to_peer. rewrite Hrun. run done. rewrite Hoff, Htcp. run done.
    run (apply on_wire_ok, Hnoise). run (apply on_wire_ok, Hfed).
    rewrite bool_decide_eq_true_2 by done. cbn [negb]. rewrite Hcl.
    run (unfold on_node; rewrite Hinst; reflexivity). rewrite Hrecv. reflexivity. }
  done.
Qed.

(** The listening side, after the cookie. *)
Lemma incoming_runs e B cfgB nd k s s0 s1 s2 n0 R peer tier caps R' privileged :
  listener_ready e peer nd ->
  (if ie_require_cookie e then on_gate (cookie_gate_responder (ie_gate e) (ie_ip e)) else cret tt) (nd, s) =
    ((mkNode k (nd_bans nd) (nd_peers nd) (nd_events nd), s0), Ok tt) ->
  noise_responder (id_x25519_secret B) = Ok n0 ->
  noise_handshake_responder (ie_rng e) n0 s0 = (s1, Ok R) ->
  perform_federation_handshake_responder B cfgB (ie_whitelist e) R s1 = (s2, Ok (peer, tier, caps, R', privileged)) ->
  exists nd', handle_incoming e B cfgB (nd, s) = ((nd', s2), Ok tt) /\
    is_connected peer (nd_peers nd') = true /\ nd_events nd' = nd_events nd ++ [(peer, privileged)].
Proof.
  intros [Hck Hslot Hrate Hban Hrecv Hcl Hoff Hnew] Hgate Hn0 Hnoise Hfed.
  assert (Hauth : incoming_handshake e B cfgB (nd, s) =
    ((mkNode k (nd_bans nd) (nd_peers nd) (nd_events nd), s2), Ok (peer, tier, caps, R', privileged))).
  { unfold incoming_handshake. run (exact Hgate). rewrite Hslot, Hrate. cbn [negb].
    unfold noise_new. rewrite Hn0. run done. run (apply on_wire_ok, Hnoise). by apply on_wire_ok. }
  set (nd1 := mkNode k (nd_bans nd) (nd_peers nd) (nd_events nd)) in *.
  assert (exists bans, check_ban peer (ie_now e) nd1 = (mkNode k bans (nd_peers nd) (nd_events nd), Ok tt)) as [bans Hb].
  { unfold check_ban. cbn [nd_bans nd1]. destruct (nd_bans nd !! peer) as [expiry|] eqn:Eb; [|by eexists].
    rewrite (proj2 (Z.ltb_ge _ _)) by by apply Hban. by eexists. }
  destruct (install_new (id_node_id B) peer (ie_conn e) false privileged (mkNode k bans (nd_peers nd) (nd_events nd)) Hoff Hnew)
    as (t & Hinst & Hon & _).
  eexists. split.
  { unfold handle_incoming. run (exact Hauth). run (unfold on_node; rewrite Hb; reflexivity). rewrite Hrecv, Hcl. cbn [negb].
    run (unfold on_node; rewrite Hinst; reflexivity). reflexivity. }
  done.
Qed.

(** The Noise phase of both ends, with or without the cookie round: [x] is what
    the listener writes and the dialler reads, [y] the converse. *)
Lemma noise_exchange a b d e ndB : is_array 32 a -> is_array 32 b ->
  (ie_require_cookie e = true -> timely (ie_gate e)) ->
  exists x y k n0 I R, noise_responder b = Ok n0 /\
    (forall rest, noise_handshake_initiator a (de_rng1 d) (de_rng1' d) (de_rng3 d) (open_socket (x ++ rest) Silent []) =
       (open_socket rest Silent y, Ok I)) /\
    (forall rest, exists s0,
       (if ie_require_cookie e then on_gate (cookie_gate_responder (ie_gate e) (ie_ip e)) else cret tt)
         (ndB, open_socket (y ++ rest) Silent []) =
         ((mkNode k (nd_bans ndB) (nd_peers ndB) (nd_events ndB), s0), Ok tt) /\
       noise_handshake_responder (ie_rng e) n0 s0 = (open_socket rest Silent x, Ok R)) /\
    ns_remote_static I = Some (x25519_public b) /\ ns_remote_static R = Some (x25519_public a) /\
    pipe 1 I [] R /\ pipe 1 R [] I.
Proof.
  intros Ha Hb Hck.
  destruct (xx_runs _ _ (de_rng1 d) (ie_rng e) (de_rng3 d) Ha Hb) as (m0 & m02 & m03 & I0 & R0 & Hxx0).
  destruct (xx_runs _ _ (de_rng1' d) (ie_rng e) (de_rng3 d) Ha Hb) as (m1 & m2 & m3 & I & R & Hxx).
  destruct (ie_require_cookie e).
  - destruct (xr_initiator _ _ _ _ _ _ _ _ _ _ Hxx0) as (i0 & i1 & ? & ? & ? & Hi0 & Hw0 & _).
    destruct (xr_sizes _ _ _ _ _ _ _ _ _ _ Hxx0) as (H0 & _).
    destruct (honest_gate_run (ie_gate e) (ie_ip e) (nd_keys ndB) m0 H0 (Hck eq_refl)) as (c & k & Hc & _ & Hgate).
    destruct (xr_responder _ _ _ _ _ _ _ _ _ _ Hxx) as (n0 & ? & ? & ? & ? & ? & Hn0 & _).
    exists (framed (encode (challenge c)) ++ framed m2),
      (framed m0 ++ framed (encode (response c)) ++ framed m1 ++ framed m3), k, n0, I, R.
    split; [done|]. split; [|split; [|split_and!; [apply (xr_keys _ _ _ _ _ _ _ _ _ _ Hxx)..| |];
      by apply (xr_pipes _ _ _ _ _ _ _ _ _ _ Hxx 1)]].
    + intros rest. rewrite <- app_assoc.
      by apply (initiator_cookie_run _ _ _ _ _ _ i0 i1 m0 m1 m2 m3 I R (encode (challenge c)) (challenge c)
        (framed (encode (response c))) rest Silent [] Hi0 Hw0 H0 Hxx (proj1 (encoded_fits (challenge c) Hc))
        (parse_own_challenge c Hc) (fun i fin o => answer_own_challenge c i fin o Hc)).
    + intros rest. exists (open_socket (framed m1 ++ framed m3 ++ rest) Silent (framed (encode (challenge c)))).
      rewrite <- !app_assoc. unfold on_gate. rewrite Hgate. split; [done|].
      by apply (responder_noise_run _ _ _ _ _ _ _ _ _ _ _ _ _ _ Hxx).
  - destruct (xr_responder _ _ _ _ _ _ _ _ _ _ Hxx0) as (n0 & ? & ? & ? & ? & ? & Hn0 & _).
    exists (framed m02), (framed m0 ++ framed m03), (nd_keys ndB), n0, I0, R0.
    split; [done|]. split; [|split; [|split_and!; [apply (xr_keys _ _ _ _ _ _ _ _ _ _ Hxx0)..| |];
      by apply (xr_pipes _ _ _ _ _ _ _ _ _ _ Hxx0 1)]].
    + intros rest. by apply (initiator_noise_run _ _ _ _ _ _ _ _ _ _ _ rest Silent [] Hxx0).
    + intros rest. exists (open_socket (framed m0 ++ framed m03 ++ rest) Silent []). rewrite <- app_assoc.
      split; [by destruct ndB|]. by apply (responder_noise_run _ _ _ _ _ _ _ _ _ _ _ _ [] _ Hxx0).
Qed.

(** C12: two honest nodes that can reach each other connect.  They speak the same
    version, their Hello and HelloAck fit in a record, the dial reaches the listener,
    which has a slot for the caller, does not ban it and is open or has it on its
    whitelist, neither holds the other already, and a cookie is echoed before its
    secret expires.  Then, whatever their
    secrets and the randomness of the handshake, there is an exchange of bytes,
    each side reading exactly what the other writes, in which the dial and the
    listener both succeed: the Noise handshake, with the cookie round first if
    the listener asks for one, then Hello and HelloAck.  Each side ends with the
    other connected under its true node identity and the application told, with
    the privilege its own whitelist gives. *)
Theorem honest_nodes_connect (A B : NodeIdentity) (cfgA cfgB : TransportConfig) (ndA ndB : Node)
    (d : DialEnv) (e : IncomingEnv) (hb ab : bytes)
    (HA : identity_ok A) (HB : identity_ok B) (Hver : tc_version cfgA = tc_version cfgB)
    (Hhello : carried (build_hello_frame A cfgA) hb) (Hack : carried (build_hello_ack_frame B cfgB) ab)
    (Hadm : tc_admission_mode cfgB = PriceOpen \/ listed (ie_whitelist e) (id_node_id A) = true)
    (Hd : dial_ready d (id_node_id B) ndA) (He : listener_ready e (id_node_id A) ndB) :
  exists to_a to_b ndA' ndB',
    connect_to_peer d (id_node_id B) A cfgA (ndA, open_socket to_a Silent []) = ((ndA', open_socket [] Silent to_b), Ok tt) /\
    handle_incoming e B cfgB (ndB, open_socket to_b Silent []) = ((ndB', open_socket [] Silent to_a), Ok tt) /\
    is_connected (id_node_id B) (nd_peers ndA') = true /\ is_connected (id_node_id A) (nd_peers ndB') = true /\
    nd_events ndA' = nd_events ndA ++ [(id_node_id B, listed (de_whitelist d) (id_node_id B))] /\
    nd_events ndB' = nd_events ndB ++ [(id_node_id A, listed (ie_whitelist e) (id_node_id A))].
Proof.
  pose proof (io_x25519_secret _ HA) as Ha. pose proof (io_x25519_secret _ HB) as Hb.
  destruct (noise_exchange _ _ d e ndB Ha Hb (lr_cookie _ _ _ He))
    as (x & y & k & n0 & I & R & Hn0 & HnI & HnR & HkI & HkR & Hp1 & Hp2).
  destruct (federation_runs A B cfgA cfgB (ie_whitelist e) hb ab I R HA HB Hver Hhello Hack Hadm HkI HkR Hp1 Hp2)
    as (c1 & c2 & I' & R' & HfI & HfR).
  specialize (HfI [] Silent y). specialize (HfR [] Silent x). rewrite app_nil_r in HfI, HfR.
  destruct (HnR (framed c1)) as (s0 & Hgate & HnR').
  destruct (connect_runs _ A B cfgA ndA _ _ _ _ _ _ _ Hd (HnI (framed c2)) HfI) as (ndA' & HoA & HonA & HevA).
  destruct (incoming_runs e B cfgB ndB k _ _ _ _ n0 R _ _ _ _ _ He Hgate Hn0 HnR' HfR) as (ndB' & HoB & HonB & HevB).
  exists (x ++ framed c2), (y ++ framed c1), ndA', ndB'. done.
Qed.
End Honest.
