(* ===== verification/HandshakeSafety.v ===== *)
(** Who gets connected: only a peer that owns the identity it claims, is the one
    the Noise handshake was run with, and is allowed in; and to nobody else does
    the node introduce itself. *)

From S2P Require Import Prelude Framing Cookie CookieProps Types DoubleRatchet Identity Noise NoiseProps Peers Handshake HandshakeProps.

Section Safety.
Context {P : Prims} {IP : IdentityPrims} {RP : RatchetPrims} {SP : SnowPrims} {FC : FrameCodec} {HP : HmacPrims}.

(** The claim [h] of a peer is proven: the Ed25519 key of its node id signed the
    X25519 key it names, and that is the static key of the Noise session. *)
Record proven (config : TransportConfig) (noise : NoiseSession) (h : HelloFields) : Prop := {
  pv_version : he_version h = tc_version config;
  pv_signed : exists vk sig, vk_from_bytes (he_node_id h) = Ok vk /\
    dalek_signature_from_slice (he_x25519_sig h) = Ok sig /\ ed_verify vk (he_x25519_public h) sig = Ok tt;
  pv_static : ns_remote_static noise = Some (he_x25519_public h)
}.

Lemma map_err_ok {E F A} (f : E -> F) (r : result E A) a : map_err f r = Ok a -> r = Ok a.
Proof. by destruct r as [?|?]; intros [= ->]. Qed.

Lemma clift_inv {S E A} (r : result E A) (s s' : S) a : clift r s = (s', Ok a) -> s' = s /\ r = Ok a.
Proof. unfold clift. intros H. injection H as <- ->. done. Qed.

Lemma binding_inv n x g u : verify_identity_binding n x g = Ok u ->
  exists vk sig, vk_from_bytes n = Ok vk /\ dalek_signature_from_slice g = Ok sig /\ ed_verify vk x sig = Ok tt.
Proof.
  unfold verify_identity_binding, NodeId_to_verifying_key.
  destruct (vk_from_bytes n) as [vk|e]; cbn; [|done].
  destruct (dalek_signature_from_slice g) as [sig|e]; cbn; [|done].
  intros H. apply map_err_ok in H. destruct u. eauto.
Qed.

Lemma static_inv name x n u : check_noise_static name x n = Ok u -> ns_remote_static n = Some x.
Proof. unfold check_noise_static. destruct (ns_remote_static n); [|done]. by case_bool_decide; subst. Qed.

Lemma encrypt_static p n : ns_remote_static (encrypt p n).1 = ns_remote_static n.
Proof. unfold encrypt. destruct (ns_state n) as [[hs|t]|]; try done. by destruct (encrypt_chunks _ _ _). Qed.

Lemma decrypt_static c n : ns_remote_static (decrypt c n).1 = ns_remote_static n.
Proof. unfold decrypt. destruct (ns_state n) as [[hs|t]|]; try done. by destruct (decrypt_chunks _ _ _ _). Qed.

Lemma noise_step_inv {A} (p : NoiseSession * result NoiseError A) s s' x : noise_step p s = (s', Ok x) ->
  s' = s /\ x.1 = p.1 /\ p.2 = Ok x.2.
Proof.
  unfold noise_step. destruct p as [n r]. intros H. apply clift_inv in H as [-> H].
  destruct r as [a|e]; cbn in H; [|done]. by injection H as <-.
Qed.

Lemma send_static f n s s' n' : send_encrypted_frame f n s = (s', Ok n') -> ns_remote_static n' = ns_remote_static n.
Proof.
  unfold send_encrypted_frame. intros H.
  apply cbind_inv in H as (b & s1 & _ & H). apply cbind_inv in H as ([n1 c] & s2 & Hs & H).
  apply noise_step_inv in Hs as (_ & Hn & _). cbn [fst] in Hn. apply cbind_inv in H as (u & s3 & _ & H).
  unfold cret in H. injection H as _ <-. rewrite Hn. apply encrypt_static.
Qed.

Lemma recv_static n s s' n' f : recv_encrypted_frame n s = (s', Ok (n', f)) -> ns_remote_static n' = ns_remote_static n.
Proof.
  unfold recv_encrypted_frame. intros H.
  apply cbind_inv in H as (b & s1 & _ & H). apply cbind_inv in H as ([n1 c] & s2 & Hs & H).
  apply noise_step_inv in Hs as (_ & Hn & _). cbn [fst] in Hn. apply cbind_inv in H as (u & s3 & _ & H).
  unfold cret in H. injection H as _ <- _. rewrite Hn. apply decrypt_static.
Qed.

(** A federation handshake that succeeds proved the peer's claim. *)
Lemma federation_initiator_inv A cfg noise s s' peer tier caps n' :
  perform_federation_handshake_initiator A cfg noise s = (s', Ok (peer, tier, caps, n')) ->
  exists h, peer = he_node_id h /\ proven cfg noise h.
Proof.
  unfold perform_federation_handshake_initiator. intros H.
  apply cbind_inv in H as (n1 & s1 & Hsend & H). apply send_static in Hsend.
  apply cbind_inv in H as ([n2 f] & s2 & Hrecv & H). apply recv_static in Hrecv.
  destruct f as [h|h|reason|v]; try done. destruct (negb _) eqn:Ev.
  { by apply cbind_inv in H as (? & ? & _ & H). }
  apply cbind_inv in H as (u1 & s3 & Hb & H). apply clift_inv in Hb as [_ Hb]. apply binding_inv in Hb.
  apply cbind_inv in H as (u2 & s4 & Hst & H). apply clift_inv in Hst as [_ Hst]. apply static_inv in Hst.
  unfold cret in H. injection H as _ <- _ _ _. exists h. split; [done|].
  apply negb_false_iff, Z.eqb_eq in Ev. split; [done|done|]. by rewrite <- Hsend, <- Hrecv.
Qed.

Definition allowed (cfg : TransportConfig) (whitelist : gset NodeId) (peer : NodeId) : Prop :=
  tc_admission_mode cfg = Whitelist -> peer ∈ whitelist.

Lemma allowed_test cfg whitelist peer :
  bool_decide (tc_admission_mode cfg = Whitelist) && negb (listed whitelist peer) = false -> allowed cfg whitelist peer.
Proof.
  intros H Hmode. rewrite bool_decide_eq_true_2 in H by done. apply negb_false_iff, andb_true_iff in H as [_ H].
  by apply bool_decide_eq_true in H.
Qed.

Lemma federation_responder_inv B cfg whitelist noise s s' peer tier caps n' privileged :
  perform_federation_handshake_responder B cfg whitelist noise s = (s', Ok (peer, tier, caps, n', privileged)) ->
  exists h, peer = he_node_id h /\ proven cfg noise h /\ allowed cfg whitelist peer /\ privileged = listed whitelist peer.
Proof.
  unfold perform_federation_handshake_responder. intros H.
  apply cbind_inv in H as ([n2 f] & s2 & Hrecv & H). apply recv_static in Hrecv.
  destruct f as [h|h|reason|v]; try done. destruct (negb (he_version h =? _)) eqn:Ev.
  { by apply cbind_inv in H as (? & ? & _ & H). }
  apply cbind_inv in H as (u1 & s3 & Hb & H). apply clift_inv in Hb as [_ Hb]. apply binding_inv in Hb.
  apply cbind_inv in H as (u2 & s4 & Hst & H). apply clift_inv in Hst as [_ Hst]. apply static_inv in Hst.
  destruct (bool_decide _ && negb _) eqn:Ea.
  { by apply cbind_inv in H as (? & ? & _ & H). }
  apply cbind_inv in H as (n3 & s5 & _ & H).
  unfold cret in H. injection H as _ <- _ _ _ <-. exists h. split; [done|].
  apply negb_false_iff, Z.eqb_eq in Ev. split; [|split; [by apply allowed_test|done]].
  split; [done|done|]. by rewrite <- Hrecv.
Qed.

(** ** Effects on the node *)

Definition untouched (nd nd' : Node) : Prop :=
  pt_map (nd_peers nd') = pt_map (nd_peers nd) /\ nd_events nd' = nd_events nd.

Lemma register_refused local peer id t t' : register local peer id t = (t', false) -> pt_map t' = pt_map t.
Proof. unfold register. intros H. repeat case_match; simplify_eq. done. Qed.

Lemma register_kept local peer id t t' : register local peer id t = (t', true) -> pt_map t' = <[peer := id]> (pt_map t).
Proof. unfold register. intros H. repeat case_match; simplify_eq; done. Qed.

Lemma install_effect local peer id cloned outbound privileged nd nd' r :
  install_connection local peer id cloned outbound privileged nd = (nd', r) ->
  nd_events nd' = nd_events nd /\
  ((untouched nd nd' /\ r <> Ok true) \/ (r = Ok true /\ pt_map (nd_peers nd') = <[peer := id]> (pt_map (nd_peers nd)))).
Proof.
  unfold install_connection. destruct cloned as [u|e]; [|intros [= <- <-]; split; [done|]; by left].
  destruct (register _ _ _ _) as [t []] eqn:Er; intros [= <- <-]; (split; [done|]).
  - right. split; [done|]. cbn. by rewrite (register_kept _ _ _ _ _ Er).
  - left. split; [|done]. split; [|done]. cbn. by rewrite (register_refused _ _ _ _ _ Er).
Qed.

Lemma on_wire_node {A} (m : comp Socket TransportError A) nd s nd' s' r :
  on_wire m (nd, s) = ((nd', s'), r) -> nd' = nd /\ m s = (s', r).
Proof. unfold on_wire. destruct (m s) as [s1 r1]. intros H. by injection H as <- <- <-. Qed.

Lemma on_gate_node {A} (m : comp (KeyGenerations * Socket) TransportError A) nd s nd' s' r :
  on_gate m (nd, s) = ((nd', s'), r) ->
  nd_bans nd' = nd_bans nd /\ untouched nd nd' /\ nd_peers nd' = nd_peers nd /\ m (nd_keys nd, s) = ((nd_keys nd', s'), r).
Proof. unfold on_gate. destruct (m _) as [[k s1] r1]. intros H. by injection H as <- <- <-. Qed.

Lemma cbind_cases {S E A B} (m : comp S E A) (k : A -> comp S E B) s s' r : cbind m k s = (s', r) ->
  (exists e, m s = (s', Err e) /\ r = Err e) \/ exists a s1, m s = (s1, Ok a) /\ k a s1 = (s', r).
Proof. unfold cbind. destruct (m s) as [s1 [a|e]]; [eauto|]. intros [= <- <-]. eauto. Qed.

(** The part of the node a handshake does not touch. *)
Definition same_tables (nd nd' : Node) : Prop :=
  nd_bans nd' = nd_bans nd /\ nd_peers nd' = nd_peers nd /\ nd_events nd' = nd_events nd.

(** What an incoming handshake that succeeds has established. *)
Record admitted (e : IncomingEnv) (B : NodeIdentity) (cfg : TransportConfig) (nd : Node) (s : Socket) (peer : NodeId) : Prop := {
  ad_work : ie_slot e = true /\ ie_rate e = true;
  ad_noise : exists s0 n0 s1 R h,
    (ie_require_cookie e = true -> exists k, cookie_gate_responder (ie_gate e) (ie_ip e) (nd_keys nd, s) = ((k, s0), Ok tt)) /\
    (ie_require_cookie e = false -> s0 = s) /\
    noise_responder (id_x25519_secret B) = Ok n0 /\ noise_handshake_responder (ie_rng e) n0 s0 = (s1, Ok R) /\
    peer = he_node_id h /\ proven cfg R h;
  ad_allowed : allowed cfg (ie_whitelist e) peer
}.

Lemma gate_step_effect e nd s nd' s' r :
  (if ie_require_cookie e then on_gate (cookie_gate_responder (ie_gate e) (ie_ip e)) else cret tt) (nd, s) = ((nd', s'), r) ->
  same_tables nd nd' /\ (r = Ok tt ->
    (ie_require_cookie e = true -> exists k, cookie_gate_responder (ie_gate e) (ie_ip e) (nd_keys nd, s) = ((k, s'), Ok tt)) /\
    (ie_require_cookie e = false -> s' = s)).
Proof.
  destruct (ie_require_cookie e).
  - intros H. apply on_gate_node in H as (Hb & [_ He] & Hp & H). split; [done|]. intros ->. split; [eauto|done].
  - unfold cret. intros [= <- <- <-]. split; [done|]. by intros _.
Qed.

Lemma incoming_handshake_effect e B cfg nd s nd' s' r :
  incoming_handshake e B cfg (nd, s) = ((nd', s'), r) ->
  same_tables nd nd' /\
  forall peer tier caps n privileged, r = Ok (peer, tier, caps, n, privileged) ->
    admitted e B cfg nd s peer /\ privileged = listed (ie_whitelist e) peer.
Proof.
  unfold incoming_handshake. intros H.
  apply cbind_cases in H as [(er & Hg & ->) | ([] & [nd0 s0] & Hg & H)]; apply gate_step_effect in Hg as [Hsame Hg]; [done|].
  specialize (Hg eq_refl) as [Hck Hnock].
  destruct (ie_slot e) eqn:Es; cbn [negb] in H; [|unfold cthrow in H; by simplify_eq].
  destruct (ie_rate e) eqn:Er; cbn [negb] in H; [|unfold cthrow in H; by simplify_eq].
  apply cbind_cases in H as [(er & Hn & ->) | (n0 & [nd1 s1] & Hn & H)]; apply on_wire_node in Hn as [-> Hn]; [done|].
  apply clift_inv in Hn as [-> Hn]. apply map_err_ok in Hn.
  apply cbind_cases in H as [(er & Hr & ->) | (R & [nd2 s2] & Hr & H)]; apply on_wire_node in Hr as [-> Hr]; [done|].
  apply on_wire_node in H as [-> H]. split; [done|]. intros peer tier caps n privileged ->.
  apply federation_responder_inv in H as (h & -> & Hproven & Hallowed & ->). split; [|done].
  split; [done| |done]. exists s0, n0, s2, R, h. done.
Qed.

Lemma check_ban_effect peer now nd nd' r : check_ban peer now nd = (nd', r) ->
  nd_peers nd' = nd_peers nd /\ nd_events nd' = nd_events nd /\
  (r = Ok tt -> forall expiry, nd_bans nd !! peer = Some expiry -> expiry <= now).
Proof.
  unfold check_ban. destruct (nd_bans nd !! peer) as [expiry|] eqn:E; [|by intros [= <- <-]].
  destruct (now <? expiry) eqn:El; intros [= <- <-]; [done|]. do 2 (split; [done|]).
  intros _ x [= <-]. by apply Z.ltb_ge in El.
Qed.

(** C7: only an authenticated peer enters the table.  For any caller, any bytes it
    sends and any outcome, handling an incoming connection either leaves the table
    of peers and the application's events as they were, or adds exactly one entry
    and one event, for a node identity whose Ed25519 key signed the static key of
    this very Noise handshake, with the right protocol version, on the whitelist
    unless the node is open, not banned, after the cookie when one was required
    and within the limits on handshakes; its privilege is what the whitelist
    says. *)
Theorem only_authenticated_peers_enter (e : IncomingEnv) (B : NodeIdentity) (cfg : TransportConfig) (nd nd' : Node)
    (s s' : Socket) (r : result TransportError unit)
    (Hrun : handle_incoming e B cfg (nd, s) = ((nd', s'), r)) :
  untouched nd nd' \/
  exists peer, admitted e B cfg nd s peer /\
    (forall expiry, nd_bans nd !! peer = Some expiry -> expiry <= ie_now e) /\
    pt_map (nd_peers nd') = <[peer := ie_conn e]> (pt_map (nd_peers nd)) /\
    nd_events nd' = nd_events nd ++ [(peer, listed (ie_whitelist e) peer)].
Proof.
  unfold handle_incoming in Hrun.
  apply cbind_cases in Hrun as [(er & Hh & ->) | ([[[[peer tier] caps] n] privileged] & [nd1 s1] & Hh & Hrun)];
    apply incoming_handshake_effect in Hh as [(Hb1 & Hp1 & He1) Hh]; [left; by split; rewrite ?Hp1, ?He1|].
  destruct (Hh _ _ _ _ _ eq_refl) as [Hadm ->]. clear Hh.
  apply cbind_cases in Hrun as [(er & Hc & ->) | ([] & [nd2 s2] & Hc & Hrun)];
    unfold on_node in Hc; destruct (check_ban peer (ie_now e) nd1) as [ndb rb] eqn:Eb; injection Hc as -> -> ->;
    apply check_ban_effect in Eb as (Hp2 & He2 & Hban); [left; split; congruence|].
  specialize (Hban eq_refl). rewrite Hb1 in Hban.
  destruct (ie_receiver_open e); cbn [negb] in Hrun; [|unfold cthrow in Hrun; simplify_eq; left; split; congruence].
  apply cbind_cases in Hrun as [(er & Hi & ->) | (kept & [nd3 s3] & Hi & Hrun)];
    unfold on_node in Hi; destruct (install_connection _ _ _ _ _ _ _) as [ndi ri] eqn:Ei; injection Hi as -> -> ->;
    apply install_effect in Ei as [He3 [[[Hp3 _] Hr3] | [Hr3 Hp3]]]; try done.
  - left. split; congruence.
  - destruct kept; [done|]. unfold cret in Hrun. simplify_eq/=. left. split; congruence.
  - injection Hr3 as ->. unfold on_node, notify_connected in Hrun. injection Hrun as <- <- <-.
    right. exists peer. cbn. split_and!; [done|done|congruence|congruence].
Qed.

(** C23: a dial connects the peer that was asked for, or nobody.  For any bytes the
    other side sends and any outcome, either the table and the events are as they
    were, or the one new entry is for the node identity that was dialled, and the
    other side has proven in this Noise handshake that it owns that identity. *)
Theorem dial_reaches_the_peer_asked_for (d : DialEnv) (peer : NodeId) (A : NodeIdentity) (cfg : TransportConfig)
    (nd nd' : Node) (s s' : Socket) (r : result TransportError unit)
    (Hrun : connect_to_peer d peer A cfg (nd, s) = ((nd', s'), r)) :
  untouched nd nd' \/
  (is_connected peer (nd_peers nd) = false /\
   pt_map (nd_peers nd') = <[peer := de_conn d]> (pt_map (nd_peers nd)) /\
   nd_events nd' = nd_events nd ++ (if de_receiver_open d then [(peer, listed (de_whitelist d) peer)] else []) /\
   exists s1 I h, noise_handshake_initiator (id_x25519_secret A) (de_rng1 d) (de_rng1' d) (de_rng3 d) s = (s1, Ok I) /\
     he_node_id h = peer /\ proven cfg I h).
Proof.
  unfold connect_to_peer in Hrun. destruct (de_shutdown d); [unfold cthrow in Hrun; simplify_eq; by left|].
  unfold cbind at 1, on_node at 1 in Hrun.
  destruct (is_connected peer (nd_peers nd)) eqn:Eon; [unfold cret in Hrun; simplify_eq; by left|].
  apply cbind_cases in Hrun as [(er & Hc & ->) | (u & [nd1 s1] & Hc & Hrun)]; [unfold clift in Hc; simplify_eq; by left|].
  apply clift_inv in Hc as [[= -> ->] _].
  apply cbind_cases in Hrun as [(er & Hn & ->) | (I & [nd2 s2] & Hn & Hrun)]; apply on_wire_node in Hn as [-> Hn]; [by left|].
  apply cbind_cases in Hrun as [(er & Hf & ->) | ([[[peer' tier] caps] n] & [nd3 s3] & Hf & Hrun)];
    apply on_wire_node in Hf as [-> Hf]; [by left|].
  apply federation_initiator_inv in Hf as (h & -> & Hproven).
  destruct (bool_decide (he_node_id h = peer)) eqn:Ep; cbn [negb] in Hrun.
  2:{ apply cbind_cases in Hrun as [(er & Hs & ->) | (u2 & [nd4 s4] & Hs & Hrun)]; apply on_wire_node in Hs as [-> _]; [by left|].
      unfold cthrow in Hrun. simplify_eq. by left. }
  apply bool_decide_eq_true in Ep. subst peer.
  apply cbind_cases in Hrun as [(er & Hi & ->) | (kept & [nd4 s4] & Hi & Hrun)];
    unfold on_node in Hi; destruct (install_connection _ _ _ _ _ _ _) as [ndi ri] eqn:Ei; injection Hi as -> -> ->;
    apply install_effect in Ei as [He3 [[[Hp3 _] Hr3] | [Hr3 Hp3]]]; try done.
  - left. by split.
  - destruct kept; [done|]. unfold cret in Hrun. simplify_eq/=. left. by split.
  - injection Hr3 as ->. cbn [negb] in Hrun. right. destruct (de_receiver_open d).
    + unfold on_node, notify_connected in Hrun. injection Hrun as <- <- <-. cbn. rewrite He3. eauto 10.
    + unfold cret in Hrun. injection Hrun as <- <- <-. rewrite app_nil_r. eauto 10.
Qed.

(** ** What is said to whom *)

Lemma read_out cap s s' r : read_capped cap s = (s', r) -> sk_out s' = sk_out s.
Proof.
  unfold read_capped, cbind, read_exact, cthrow. intros H. repeat case_match; simplify_eq; done.
Qed.

Lemma recv_out n s s' r : recv_encrypted_frame n s = (s', r) -> sk_out s' = sk_out s.
Proof.
  unfold recv_encrypted_frame, wire_other, cmap_err, read_bounded_message. unfold cbind at 1. intros H.
  destruct (read_capped 4096 s) as [s1 r1] eqn:Er. apply read_out in Er. destruct r1 as [c|e]; cbn [map_err] in H; [|by simplify_eq].
  unfold cbind, noise_step, clift, cret in H. repeat case_match; by simplify_eq.
Qed.

(** Of the frame [f] at most its encrypted form goes out, whole or cut short. *)
Definition told (f : Frame) (s s' : Socket) : Prop :=
  exists b n n' c sent, frame_to_bytes f = Ok b /\ encrypt b n = (n', Ok c) /\
    sent `prefix_of` framed c /\ sk_out s' = sk_out s ++ sent.

Lemma send_out f n s s' r : send_encrypted_frame f n s = (s', r) -> sk_out s' = sk_out s \/ told f s s'.
Proof.
  unfold send_encrypted_frame. intros H.
  apply cbind_cases in H as [(e & Hb & ->) | (b & s1 & Hb & H)]; [unfold clift in Hb; simplify_eq; by left|].
  apply clift_inv in Hb as [-> Hb]. apply map_err_ok in Hb.
  apply cbind_cases in H as [(e & He & ->) | ([n1 c] & s2 & He & H)]; [unfold noise_step, clift in He; simplify_eq; by left|].
  apply noise_step_inv in He as (-> & Hn & Hc). cbn in Hn, Hc. subst n1.
  right. exists b, n, (encrypt b n).1, c.
  assert (Hw : exists r', write_noise_message c s = (s', r')).
  { unfold wire_other, cmap_err, cbind, cret in H. destruct (write_noise_message c s) as [s3 [u|e]]; simplify_eq/=; eauto. }
  destruct Hw as [r' Hw]. apply write_noise_appends in Hw as (_ & _ & sent & Hout & Hpre & _).
  exists sent. split_and!; try done. rewrite <- Hc. apply surjective_pairing.
Qed.

(** C21: the node introduces itself to nobody it would not admit.  In the federation
    handshake of the listening side, for any frame that arrives, nothing is
    written, or a Disconnect, or the HelloAck; and the HelloAck only after the
    peer's claim was proven and, unless the node is open, the peer was found on the
    whitelist. *)
Theorem hello_ack_only_to_the_admitted (B : NodeIdentity) (cfg : TransportConfig) (whitelist : gset NodeId)
    (noise : NoiseSession) (s s' : Socket)
    (r : result TransportError (NodeId * SovereigntyTier * list Capability * NoiseSession * bool))
    (Hrun : perform_federation_handshake_responder B cfg whitelist noise s = (s', r)) :
  sk_out s' = sk_out s \/
  (exists reason, told (Disconnect reason) s s' /\ is_ok r = false) \/
  (told (build_hello_ack_frame B cfg) s s' /\
   exists h, proven cfg noise h /\ allowed cfg whitelist (he_node_id h)).
Proof.
  unfold perform_federation_handshake_responder in Hrun.
  apply cbind_cases in Hrun as [(e & Hr & ->) | ([n1 f] & s1 & Hr & Hrun)].
  { left. by apply recv_out in Hr. }
  pose proof (recv_static _ _ _ _ _ Hr) as Hst. apply recv_out in Hr.
  assert (Htold : forall g s2, told g s1 s2 -> told g s s2) by (unfold told; rewrite Hr; done).
  assert (Hbye : forall g n er, (let! _ := send_farewell g n in cthrow er) s1 = (s', r) ->
    sk_out s' = sk_out s \/ (told g s s' /\ is_ok r = false)).
  { intros g n er Hs. unfold cbind, send_farewell, cthrow in Hs.
    destruct (send_encrypted_frame g n s1) as [s2 r2] eqn:E2. injection Hs as <- <-.
    apply send_out in E2 as [E2|E2]; [left; congruence|right; auto]. }
  destruct f as [h|h|reason|v]; try (unfold cthrow in Hrun; simplify_eq; left; done).
  destruct (negb (he_version h =? _)) eqn:Ev; [destruct (Hbye _ _ _ Hrun) as [?|?]; eauto|].
  apply cbind_cases in Hrun as [(e & Hb & ->) | (u & s2 & Hb & Hrun)]; [unfold clift in Hb; simplify_eq; by left|].
  apply clift_inv in Hb as [-> Hb]. apply binding_inv in Hb.
  apply cbind_cases in Hrun as [(e & Hc & ->) | (u2 & s2 & Hc & Hrun)]; [unfold clift in Hc; simplify_eq; by left|].
  apply clift_inv in Hc as [-> Hc]. apply static_inv in Hc.
  destruct (bool_decide _ && negb _) eqn:Ea; [destruct (Hbye _ _ _ Hrun) as [?|?]; eauto|].
  assert (Hs : exists r', send_encrypted_frame (build_hello_ack_frame B cfg) n1 s1 = (s', r')).
  { apply cbind_cases in Hrun as [(e & Hs & ->) | (n2 & s2 & Hs & Hrun)]; [eauto|]. unfold cret in Hrun. simplify_eq. eauto. }
  destruct Hs as [r' Hs]. apply send_out in Hs as [Hs|Hs]; [left; congruence|]. right. right. split; [auto|].
  exists h. split; [|by apply allowed_test]. apply negb_false_iff, Z.eqb_eq in Ev. split; [done|done|congruence].
Qed.
End Safety.
