(* ===== verification/HandshakeWitness.v ===== *)
(** Concrete connections: two nodes from two seeds, the stand-ins for the
    cryptography, and a frame codec that keeps the fields side by side.  They show
    that the hypotheses of the theorems on connecting can hold. *)

From S2P Require Import Prelude Framing Cookie CookieProps Types Concrete DoubleRatchet RatchetConcrete Identity SessionConcrete.
From S2P Require Import Noise NoiseProps NoiseConcrete Peers Handshake HandshakeProps HandshakeSafety.

#[local] Existing Instance toy_prims.
#[local] Existing Instance toy_hmac.
#[local] Existing Instance toy_hmac_laws.

Definition toy_fields (h : HelloFields) : bytes :=
  he_version h :: he_node_id h ++ he_x25519_sig h ++ he_x25519_public h.

Definition toy_parse_fields (b : bytes) : HelloFields :=
  mkHello (nth 0 b 0) (take 32 (drop 1 b)) (take 64 (drop 33 b)) (drop 97 b) T2 [].

#[local] Instance toy_codec : FrameCodec := {|
  frame_to_bytes f :=
    match f with
    | Hello h => Ok (1 :: toy_fields h)
    | HelloAck h => Ok (2 :: toy_fields h)
    | Disconnect reason => Ok (3 :: reason)
    | OtherFrame _ => Ok [4]
    end;
  frame_from_bytes b :=
    match b with
    | 1 :: b' => Ok (Hello (toy_parse_fields b'))
    | 2 :: b' => Ok (HelloAck (toy_parse_fields b'))
    | 3 :: b' => Ok (Disconnect b')
    | _ => Err (WireSerialization "invalid frame JSON")
    end
|}.

Definition node_a : NodeIdentity := toy_identity 1.
Definition node_b : NodeIdentity := toy_identity 2.
Definition toy_config : TransportConfig := mkTransportConfig 2 T2 [] Whitelist.
Definition quiet_node : Node := mkNode toy_keys ∅ (mkTable ∅ ∅) [].

Definition toy_dial : DialEnv :=
  mkDial false (Ok tt) [1] [2] [3] {[id_node_id node_b]} (Ok tt) 0 true.

Definition toy_incoming (cookie : bool) : IncomingEnv :=
  mkIncoming cookie toy_gate toy_ip true true [4] {[id_node_id node_a]} 0 true (Ok tt) 0.

Lemma toy_nodes_ok : identity_ok node_a /\ identity_ok node_b.
Proof. split; [apply (derived_identity_ok (repeat 1 64))|apply (derived_identity_ok (repeat 2 64))]; done. Qed.

Definition toy_json (f : Frame) : bytes := match frame_to_bytes f with Ok b => b | Err _ => [] end.

Lemma toy_hello_carried :
  carried (build_hello_frame node_a toy_config) (toy_json (build_hello_frame node_a toy_config)) /\
  carried (build_hello_ack_frame node_b toy_config) (toy_json (build_hello_ack_frame node_b toy_config)).
Proof. split; (split_and!; [reflexivity|vm_compute; reflexivity|apply (bool_decide_unpack _); vm_compute; exact I]). Qed.

Lemma toy_gate_timely : timely toy_gate.
Proof. split; apply (bool_decide_unpack _); vm_compute; exact I. Qed.

(** The listener asks for a cookie, and its secrets rotate during the exchange. *)
Lemma honest_nodes_connect_witness :
  exists to_a to_b ndA' ndB',
    connect_to_peer toy_dial (id_node_id node_b) node_a toy_config (quiet_node, open_socket to_a Silent []) =
      ((ndA', open_socket [] Silent to_b), Ok tt) /\
    handle_incoming (toy_incoming true) node_b toy_config (quiet_node, open_socket to_b Silent []) =
      ((ndB', open_socket [] Silent to_a), Ok tt) /\
    is_connected (id_node_id node_b) (nd_peers ndA') = true /\ is_connected (id_node_id node_a) (nd_peers ndB') = true /\
    nd_events ndA' = [] ++ [(id_node_id node_b, listed (de_whitelist toy_dial) (id_node_id node_b))] /\
    nd_events ndB' = [] ++ [(id_node_id node_a, listed (ie_whitelist (toy_incoming true)) (id_node_id node_a))].
Proof.
  refine (honest_nodes_connect node_a node_b toy_config toy_config quiet_node quiet_node toy_dial (toy_incoming true)
    (toy_json (build_hello_frame node_a toy_config)) (toy_json (build_hello_ack_frame node_b toy_config))
    (proj1 toy_nodes_ok) (proj2 toy_nodes_ok) eq_refl (proj1 toy_hello_carried) (proj2 toy_hello_carried) _ _ _).
  - right. vm_compute. reflexivity.
  - split; try reflexivity; done.
  - split; try reflexivity; try done. intros _. exact toy_gate_timely.
Defined.

(** What [node_a] sends to a listener that asks for no cookie. *)
Definition toy_hello_record : bytes :=
  let b := toy_json (build_hello_frame node_a toy_config) in
  let c := to_be_bytes 16 0 ++ b in to_be_bytes 2 (Z.of_nat (length c)) ++ c.
Definition toy_arriving : Socket :=
  open_socket (framed (replicate 32 7) ++ framed (id_x25519_public node_a ++ replicate 32 0) ++ framed toy_hello_record) Silent [].

Definition toy_served := handle_incoming (toy_incoming false) node_b toy_config (quiet_node, toy_arriving).

Lemma only_authenticated_peers_enter_witness :
  toy_served.2 = Ok tt /\
  (untouched quiet_node toy_served.1.1 \/
   exists peer, admitted (toy_incoming false) node_b toy_config quiet_node toy_arriving peer /\
     (forall expiry, nd_bans quiet_node !! peer = Some expiry -> expiry <= ie_now (toy_incoming false)) /\
     pt_map (nd_peers toy_served.1.1) = <[peer := ie_conn (toy_incoming false)]> (pt_map (nd_peers quiet_node)) /\
     nd_events toy_served.1.1 = nd_events quiet_node ++ [(peer, listed (ie_whitelist (toy_incoming false)) peer)]).
Proof.
  split; [vm_compute; reflexivity|].
  refine (only_authenticated_peers_enter (toy_incoming false) node_b toy_config quiet_node toy_served.1.1
    toy_arriving toy_served.1.2 toy_served.2 _).
  fold toy_served. generalize toy_served. by intros [[? ?] ?].
Defined.

(** A dial answered by the listener above. *)
Definition toy_answers : Socket := open_socket (sk_out toy_served.1.2) Silent [].
Definition toy_dialled := connect_to_peer toy_dial (id_node_id node_b) node_a toy_config (quiet_node, toy_answers).

Lemma dial_reaches_the_peer_asked_for_witness :
  toy_dialled.2 = Ok tt /\ is_connected (id_node_id node_b) (nd_peers toy_dialled.1.1) = true /\
  (untouched quiet_node toy_dialled.1.1 \/
  (is_connected (id_node_id node_b) (nd_peers quiet_node) = false /\
   pt_map (nd_peers toy_dialled.1.1) = <[id_node_id node_b := de_conn toy_dial]> (pt_map (nd_peers quiet_node)) /\
   nd_events toy_dialled.1.1 = nd_events quiet_node ++
     (if de_receiver_open toy_dial then [(id_node_id node_b, listed (de_whitelist toy_dial) (id_node_id node_b))] else []) /\
   exists s1 I h, noise_handshake_initiator (id_x25519_secret node_a) (de_rng1 toy_dial) (de_rng1' toy_dial) (de_rng3 toy_dial)
       toy_answers = (s1, Ok I) /\
     he_node_id h = id_node_id node_b /\ proven toy_config I h)).
Proof.
  split; [vm_compute; reflexivity|]. split; [vm_compute; reflexivity|].
  refine (dial_reaches_the_peer_asked_for toy_dial (id_node_id node_b) node_a toy_config quiet_node toy_dialled.1.1
    toy_answers toy_dialled.1.2 toy_dialled.2 _).
  fold toy_dialled. generalize toy_dialled. by intros [[? ?] ?].
Defined.

(** The listener's session once Noise is done, and the Hello that reaches it. *)
Definition toy_session : NoiseSession :=
  mkNoise (Some (Transport (mkToyTs 0 0))) false (Some (id_x25519_public node_a)) None.
Definition toy_greeted :=
  perform_federation_handshake_responder node_b toy_config {[id_node_id node_a]} toy_session
    (open_socket (framed toy_hello_record) Silent []).

Lemma hello_ack_only_to_the_admitted_witness :
  is_ok toy_greeted.2 = true /\
  (sk_out toy_greeted.1 = [] \/
   (exists reason, told (Disconnect reason) (open_socket (framed toy_hello_record) Silent []) toy_greeted.1 /\ is_ok toy_greeted.2 = false) \/
   (told (build_hello_ack_frame node_b toy_config) (open_socket (framed toy_hello_record) Silent []) toy_greeted.1 /\
    exists h, proven toy_config toy_session h /\ allowed toy_config {[id_node_id node_a]} (he_node_id h))).
Proof.
  split; [vm_compute; reflexivity|].
  refine (hello_ack_only_to_the_admitted node_b toy_config {[id_node_id node_a]} toy_session
    (open_socket (framed toy_hello_record) Silent []) toy_greeted.1 toy_greeted.2 _).
  fold toy_greeted. generalize toy_greeted. by intros [? ?].
Defined.
